(** * HeicCompositeStream: the HEIC composite-capture assembly pipeline

    A shallow embedding of [api2/HeicCompositeStream.cpp] / [.h]: the per-frame record
    [InputFrame], the members of [HeicCompositeStream], the producer callbacks, the
    reconciliation pass [compilePendingInputLocked], frame selection, the per-frame
    processing functions, release, and one iteration of [threadLoop].

    Conventions.
    - Integers are [Z]; where the C++ arithmetic can wrap (uint32_t, size_t) the
      wrap-around is written out with [u32], [u64].
    - [std::map] / [std::set] are association lists kept in ascending key order
      ([map_put], [map_erase]); iteration order matters to the selection functions.
    - Collaborators (MediaCodec, MediaMuxer, CpuConsumer, the output Surface, ExifUtils,
      libultrahdr, the condition variable) are not part of the file.  Every call made on
      them is appended to the [trace] of the stream; what they answer is read from an
      [Env] record, one per worker iteration, over which all theorems quantify.
    - Constants of headers that are not part of the repository are collected in
      [Platform]. *)

From Stdlib Require Import ZArith List Bool Lia.
Import ListNotations.
Local Open Scope Z_scope.

Set Implicit Arguments.

(** ** Machine integers *)

Definition u16 (x : Z) : Z := x mod 2 ^ 16.
Definition u32 (x : Z) : Z := x mod 2 ^ 32.
Definition u64 (x : Z) : Z := x mod 2 ^ 64.
(** Conversion of an unsigned 32-bit value to [int32_t]. *)
Definition s32 (x : Z) : Z := (x + 2 ^ 31) mod 2 ^ 32 - 2 ^ 31.

(** [#define ALIGN(x, mask) ( ((x) + (mask) - 1) & ~((mask) - 1) )] *)
Definition ALIGN (x mask : Z) : Z := Z.land (x + mask - 1) (Z.lnot (mask - 1)).

(** ** Status codes ([utils/Errors.h]) *)

Inductive status_t : Type :=
| OK
| NO_INIT
| BAD_VALUE
| NO_MEMORY
| NOT_ENOUGH_DATA
| TIMED_OUT
| UNKNOWN_ERROR (code : Z).

Definition is_OK (r : status_t) : bool :=
  match r with OK => true | _ => false end.

Definition is_NOT_ENOUGH_DATA (r : status_t) : bool :=
  match r with NOT_ENOUGH_DATA => true | _ => false end.

Definition is_TIMED_OUT (r : status_t) : bool :=
  match r with TIMED_OUT => true | _ => false end.

(** ** Constants declared outside the repository

    [CameraBlob] / [CameraBlobId] (AIDL), the [MediaCodec] buffer flags, the app-segment
    dataspace and the tile size of [HeicEncoderInfoManager] are used by the file but
    declared elsewhere; they are
    parameters of the development.  [blobId_of] and [blobSizeBytes_of] read the two
    fields of a [CameraBlob] from the [sizeof_CameraBlob] bytes that hold it. *)
Record Platform : Type := mkPlatform {
  sizeof_CameraBlob : Z;
  blobId_of : list Z -> Z;
  blobSizeBytes_of : list Z -> Z;
  JPEG_APP_SEGMENTS : Z;
  BUFFER_FLAG_CODECCONFIG : Z;
  BUFFER_FLAG_MUXER_DATA : Z;
  kAppSegmentDataSpace : Z;
  kGridWidth : Z;
  kGridHeight : Z
}.

(** ** Plain data *)

Record CodecOutputBufferInfo : Type := mkCodecOutputBufferInfo {
  index : Z;
  offset : Z;
  size : Z;
  timeUs : Z;
  flags : Z
}.

Record CodecInputBufferInfo : Type := mkCodecInputBufferInfo {
  in_index : Z;
  in_timeUs : Z;
  tileIndex : Z
}.

(** [CpuConsumer::LockedBuffer]: [data] is [None] for a null pointer, otherwise the bytes
    it points to.  Strides and chroma planes only matter to the pixel copy and are left
    out. *)
Record LockedBuffer : Type := mkLockedBuffer {
  data : option (list Z);
  lb_width : Z;
  lb_height : Z;
  lb_timestamp : Z
}.

Definition nullBuffer : LockedBuffer := mkLockedBuffer None 0 0 0.

Definition set_data (v : option (list Z)) (b : LockedBuffer) : LockedBuffer :=
  mkLockedBuffer v (b.(lb_width)) (b.(lb_height)) (b.(lb_timestamp)).

Definition hasData (b : LockedBuffer) : bool :=
  match b.(data) with Some _ => true | None => false end.

(** The keys of an [AMessage] output format that the stream reads or writes. *)
Record AMessage : Type := mkAMessage {
  mime_is_heic : bool;
  key_width : option Z;
  key_height : option Z;
  key_tile_width : option Z;
  key_tile_height : option Z;
  key_grid_rows : option Z;
  key_grid_cols : option Z;
  key_crop : option (Z * Z * Z * Z);
  key_is_default : option Z;
  key_gainmap : option Z
}.

Definition CameraMetadata : Type := list (Z * Z).

(** [struct HeicSettings]. *)
Record HeicSettings : Type := mkHeicSettings {
  hs_orientation : Z;
  hs_quality : Z;
  hs_timestamp : Z;
  hs_requestId : Z;
  shutterNotified : bool
}.

(** Calls on the collaborators, in the order they are made. *)
Inductive Event : Type :=
| EvReleaseOutputBuffer (isGainmap : bool) (idx : Z)
| EvQueueInputBuffer (isGainmap : bool) (idx : Z) (t : Z)
| EvCopyOneYuvTile (isGainmap : bool) (tTop tLeft tWidth tHeight : Z)
| EvSetParameters (quality : Z)
| EvUnlockAppSegment (b : LockedBuffer)
| EvUnlockMainImage (b : LockedBuffer)
| EvDequeueBuffer (anb : Z)
| EvMemfdCreate (frameNumber : Z)
| EvMuxerCreate (fd : Z)
| EvSetOrientationHint (degrees : Z)
| EvAddTrack (fmt : option AMessage)
| EvMuxerStart
| EvMuxerStop (m : Z)
| EvWriteSampleData (m : Z) (bytes : list Z) (track : Z) (timeStamp : Z) (flag : Z)
| EvClose (fd : Z)
| EvBlobHeader (blobId : Z) (blobSizeBytes : Z)
| EvSetBuffersTimestamp (timeStamp : Z)
| EvQueueBuffer (anb : Z)
| EvCancelBuffer (anb : Z)
| EvNotifyError (frameNumber : Z) (requestId : Z)
| EvMarkComponentActive
| EvMarkComponentIdle
| EvAsyncEnd (frameNumber : Z).

(** [struct InputFrame] of HeicCompositeStream.h.  Smart pointers are options; the ultrahdr
    rasters ([gainmap], [gainmapChroma]) carry pixel data only and are left out. *)
Record InputFrame : Type := mkInputFrame {
  orientation : Z;
  quality : Z;
  appSegmentBuffer : LockedBuffer;
  codecOutputBuffers : list CodecOutputBufferInfo;
  gainmapCodecOutputBuffers : list CodecOutputBufferInfo;
  result : option CameraMetadata  (* unique_ptr, None = nullptr *);
  yuvBuffer : LockedBuffer;
  codecInputBuffers : list CodecInputBufferInfo;
  gainmapCodecInputBuffers : list CodecInputBufferInfo;
  error : bool  (* main input image buffer error *);
  exifError : bool  (* Exif/APP_SEGMENT buffer error *);
  timestamp : Z;
  requestId : Z;
  format : option AMessage;
  gainmapFormat : option AMessage;
  muxer : option Z  (* sp<MediaMuxer>, None = nullptr *);
  fenceFd : Z;
  fileFd : Z;
  trackIndex : Z;
  gainmapTrackIndex : Z;
  anb : option Z  (* ANativeWindowBuffer*, None = nullptr *);
  appSegmentWritten : bool;
  pendingOutputTiles : Z;
  gainmapPendingOutputTiles : Z;
  codecInputCounter : Z;
  gainmapCodecInputCounter : Z;
  baseImage : option LockedBuffer;
  gainmapImage : option LockedBuffer;
  baseBuffer : bool  (* true = the tonemapped base raster is allocated *);
  isoGainmapMetadata : list Z
}.

Definition set_orientation (v : Z) (r : InputFrame) : InputFrame :=
  mkInputFrame v (r.(quality)) (r.(appSegmentBuffer)) (r.(codecOutputBuffers))
    (r.(gainmapCodecOutputBuffers)) (r.(result)) (r.(yuvBuffer)) (r.(codecInputBuffers))
    (r.(gainmapCodecInputBuffers)) (r.(error)) (r.(exifError)) (r.(timestamp)) (r.(requestId))
    (r.(format)) (r.(gainmapFormat)) (r.(muxer)) (r.(fenceFd)) (r.(fileFd)) (r.(trackIndex))
    (r.(gainmapTrackIndex)) (r.(anb)) (r.(appSegmentWritten)) (r.(pendingOutputTiles))
    (r.(gainmapPendingOutputTiles)) (r.(codecInputCounter)) (r.(gainmapCodecInputCounter))
    (r.(baseImage)) (r.(gainmapImage)) (r.(baseBuffer)) (r.(isoGainmapMetadata)).
Definition set_quality (v : Z) (r : InputFrame) : InputFrame :=
  mkInputFrame (r.(orientation)) v (r.(appSegmentBuffer)) (r.(codecOutputBuffers))
    (r.(gainmapCodecOutputBuffers)) (r.(result)) (r.(yuvBuffer)) (r.(codecInputBuffers))
    (r.(gainmapCodecInputBuffers)) (r.(error)) (r.(exifError)) (r.(timestamp)) (r.(requestId))
    (r.(format)) (r.(gainmapFormat)) (r.(muxer)) (r.(fenceFd)) (r.(fileFd)) (r.(trackIndex))
    (r.(gainmapTrackIndex)) (r.(anb)) (r.(appSegmentWritten)) (r.(pendingOutputTiles))
    (r.(gainmapPendingOutputTiles)) (r.(codecInputCounter)) (r.(gainmapCodecInputCounter))
    (r.(baseImage)) (r.(gainmapImage)) (r.(baseBuffer)) (r.(isoGainmapMetadata)).
Definition set_appSegmentBuffer (v : LockedBuffer) (r : InputFrame) : InputFrame :=
  mkInputFrame (r.(orientation)) (r.(quality)) v (r.(codecOutputBuffers))
    (r.(gainmapCodecOutputBuffers)) (r.(result)) (r.(yuvBuffer)) (r.(codecInputBuffers))
    (r.(gainmapCodecInputBuffers)) (r.(error)) (r.(exifError)) (r.(timestamp)) (r.(requestId))
    (r.(format)) (r.(gainmapFormat)) (r.(muxer)) (r.(fenceFd)) (r.(fileFd)) (r.(trackIndex))
    (r.(gainmapTrackIndex)) (r.(anb)) (r.(appSegmentWritten)) (r.(pendingOutputTiles))
    (r.(gainmapPendingOutputTiles)) (r.(codecInputCounter)) (r.(gainmapCodecInputCounter))
    (r.(baseImage)) (r.(gainmapImage)) (r.(baseBuffer)) (r.(isoGainmapMetadata)).
Definition set_codecOutputBuffers (v : list CodecOutputBufferInfo) (r : InputFrame) : InputFrame :=
  mkInputFrame (r.(orientation)) (r.(quality)) (r.(appSegmentBuffer)) v
    (r.(gainmapCodecOutputBuffers)) (r.(result)) (r.(yuvBuffer)) (r.(codecInputBuffers))
    (r.(gainmapCodecInputBuffers)) (r.(error)) (r.(exifError)) (r.(timestamp)) (r.(requestId))
    (r.(format)) (r.(gainmapFormat)) (r.(muxer)) (r.(fenceFd)) (r.(fileFd)) (r.(trackIndex))
    (r.(gainmapTrackIndex)) (r.(anb)) (r.(appSegmentWritten)) (r.(pendingOutputTiles))
    (r.(gainmapPendingOutputTiles)) (r.(codecInputCounter)) (r.(gainmapCodecInputCounter))
    (r.(baseImage)) (r.(gainmapImage)) (r.(baseBuffer)) (r.(isoGainmapMetadata)).
Definition set_gainmapCodecOutputBuffers (v : list CodecOutputBufferInfo) (r : InputFrame) : InputFrame :=
  mkInputFrame (r.(orientation)) (r.(quality)) (r.(appSegmentBuffer)) (r.(codecOutputBuffers)) v
    (r.(result)) (r.(yuvBuffer)) (r.(codecInputBuffers)) (r.(gainmapCodecInputBuffers))
    (r.(error)) (r.(exifError)) (r.(timestamp)) (r.(requestId)) (r.(format)) (r.(gainmapFormat))
    (r.(muxer)) (r.(fenceFd)) (r.(fileFd)) (r.(trackIndex)) (r.(gainmapTrackIndex)) (r.(anb))
    (r.(appSegmentWritten)) (r.(pendingOutputTiles)) (r.(gainmapPendingOutputTiles))
    (r.(codecInputCounter)) (r.(gainmapCodecInputCounter)) (r.(baseImage)) (r.(gainmapImage))
    (r.(baseBuffer)) (r.(isoGainmapMetadata)).
Definition set_result (v : option CameraMetadata) (r : InputFrame) : InputFrame :=
  mkInputFrame (r.(orientation)) (r.(quality)) (r.(appSegmentBuffer)) (r.(codecOutputBuffers))
    (r.(gainmapCodecOutputBuffers)) v (r.(yuvBuffer)) (r.(codecInputBuffers))
    (r.(gainmapCodecInputBuffers)) (r.(error)) (r.(exifError)) (r.(timestamp)) (r.(requestId))
    (r.(format)) (r.(gainmapFormat)) (r.(muxer)) (r.(fenceFd)) (r.(fileFd)) (r.(trackIndex))
    (r.(gainmapTrackIndex)) (r.(anb)) (r.(appSegmentWritten)) (r.(pendingOutputTiles))
    (r.(gainmapPendingOutputTiles)) (r.(codecInputCounter)) (r.(gainmapCodecInputCounter))
    (r.(baseImage)) (r.(gainmapImage)) (r.(baseBuffer)) (r.(isoGainmapMetadata)).
Definition set_yuvBuffer (v : LockedBuffer) (r : InputFrame) : InputFrame :=
  mkInputFrame (r.(orientation)) (r.(quality)) (r.(appSegmentBuffer)) (r.(codecOutputBuffers))
    (r.(gainmapCodecOutputBuffers)) (r.(result)) v (r.(codecInputBuffers))
    (r.(gainmapCodecInputBuffers)) (r.(error)) (r.(exifError)) (r.(timestamp)) (r.(requestId))
    (r.(format)) (r.(gainmapFormat)) (r.(muxer)) (r.(fenceFd)) (r.(fileFd)) (r.(trackIndex))
    (r.(gainmapTrackIndex)) (r.(anb)) (r.(appSegmentWritten)) (r.(pendingOutputTiles))
    (r.(gainmapPendingOutputTiles)) (r.(codecInputCounter)) (r.(gainmapCodecInputCounter))
    (r.(baseImage)) (r.(gainmapImage)) (r.(baseBuffer)) (r.(isoGainmapMetadata)).
Definition set_codecInputBuffers (v : list CodecInputBufferInfo) (r : InputFrame) : InputFrame :=
  mkInputFrame (r.(orientation)) (r.(quality)) (r.(appSegmentBuffer)) (r.(codecOutputBuffers))
    (r.(gainmapCodecOutputBuffers)) (r.(result)) (r.(yuvBuffer)) v
    (r.(gainmapCodecInputBuffers)) (r.(error)) (r.(exifError)) (r.(timestamp)) (r.(requestId))
    (r.(format)) (r.(gainmapFormat)) (r.(muxer)) (r.(fenceFd)) (r.(fileFd)) (r.(trackIndex))
    (r.(gainmapTrackIndex)) (r.(anb)) (r.(appSegmentWritten)) (r.(pendingOutputTiles))
    (r.(gainmapPendingOutputTiles)) (r.(codecInputCounter)) (r.(gainmapCodecInputCounter))
    (r.(baseImage)) (r.(gainmapImage)) (r.(baseBuffer)) (r.(isoGainmapMetadata)).
Definition set_gainmapCodecInputBuffers (v : list CodecInputBufferInfo) (r : InputFrame) : InputFrame :=
  mkInputFrame (r.(orientation)) (r.(quality)) (r.(appSegmentBuffer)) (r.(codecOutputBuffers))
    (r.(gainmapCodecOutputBuffers)) (r.(result)) (r.(yuvBuffer)) (r.(codecInputBuffers)) v
    (r.(error)) (r.(exifError)) (r.(timestamp)) (r.(requestId)) (r.(format)) (r.(gainmapFormat))
    (r.(muxer)) (r.(fenceFd)) (r.(fileFd)) (r.(trackIndex)) (r.(gainmapTrackIndex)) (r.(anb))
    (r.(appSegmentWritten)) (r.(pendingOutputTiles)) (r.(gainmapPendingOutputTiles))
    (r.(codecInputCounter)) (r.(gainmapCodecInputCounter)) (r.(baseImage)) (r.(gainmapImage))
    (r.(baseBuffer)) (r.(isoGainmapMetadata)).
Definition set_error (v : bool) (r : InputFrame) : InputFrame :=
  mkInputFrame (r.(orientation)) (r.(quality)) (r.(appSegmentBuffer)) (r.(codecOutputBuffers))
    (r.(gainmapCodecOutputBuffers)) (r.(result)) (r.(yuvBuffer)) (r.(codecInputBuffers))
    (r.(gainmapCodecInputBuffers)) v (r.(exifError)) (r.(timestamp)) (r.(requestId))
    (r.(format)) (r.(gainmapFormat)) (r.(muxer)) (r.(fenceFd)) (r.(fileFd)) (r.(trackIndex))
    (r.(gainmapTrackIndex)) (r.(anb)) (r.(appSegmentWritten)) (r.(pendingOutputTiles))
    (r.(gainmapPendingOutputTiles)) (r.(codecInputCounter)) (r.(gainmapCodecInputCounter))
    (r.(baseImage)) (r.(gainmapImage)) (r.(baseBuffer)) (r.(isoGainmapMetadata)).
Definition set_exifError (v : bool) (r : InputFrame) : InputFrame :=
  mkInputFrame (r.(orientation)) (r.(quality)) (r.(appSegmentBuffer)) (r.(codecOutputBuffers))
    (r.(gainmapCodecOutputBuffers)) (r.(result)) (r.(yuvBuffer)) (r.(codecInputBuffers))
    (r.(gainmapCodecInputBuffers)) (r.(error)) v (r.(timestamp)) (r.(requestId)) (r.(format))
    (r.(gainmapFormat)) (r.(muxer)) (r.(fenceFd)) (r.(fileFd)) (r.(trackIndex))
    (r.(gainmapTrackIndex)) (r.(anb)) (r.(appSegmentWritten)) (r.(pendingOutputTiles))
    (r.(gainmapPendingOutputTiles)) (r.(codecInputCounter)) (r.(gainmapCodecInputCounter))
    (r.(baseImage)) (r.(gainmapImage)) (r.(baseBuffer)) (r.(isoGainmapMetadata)).
Definition set_timestamp (v : Z) (r : InputFrame) : InputFrame :=
  mkInputFrame (r.(orientation)) (r.(quality)) (r.(appSegmentBuffer)) (r.(codecOutputBuffers))
    (r.(gainmapCodecOutputBuffers)) (r.(result)) (r.(yuvBuffer)) (r.(codecInputBuffers))
    (r.(gainmapCodecInputBuffers)) (r.(error)) (r.(exifError)) v (r.(requestId)) (r.(format))
    (r.(gainmapFormat)) (r.(muxer)) (r.(fenceFd)) (r.(fileFd)) (r.(trackIndex))
    (r.(gainmapTrackIndex)) (r.(anb)) (r.(appSegmentWritten)) (r.(pendingOutputTiles))
    (r.(gainmapPendingOutputTiles)) (r.(codecInputCounter)) (r.(gainmapCodecInputCounter))
    (r.(baseImage)) (r.(gainmapImage)) (r.(baseBuffer)) (r.(isoGainmapMetadata)).
Definition set_requestId (v : Z) (r : InputFrame) : InputFrame :=
  mkInputFrame (r.(orientation)) (r.(quality)) (r.(appSegmentBuffer)) (r.(codecOutputBuffers))
    (r.(gainmapCodecOutputBuffers)) (r.(result)) (r.(yuvBuffer)) (r.(codecInputBuffers))
    (r.(gainmapCodecInputBuffers)) (r.(error)) (r.(exifError)) (r.(timestamp)) v (r.(format))
    (r.(gainmapFormat)) (r.(muxer)) (r.(fenceFd)) (r.(fileFd)) (r.(trackIndex))
    (r.(gainmapTrackIndex)) (r.(anb)) (r.(appSegmentWritten)) (r.(pendingOutputTiles))
    (r.(gainmapPendingOutputTiles)) (r.(codecInputCounter)) (r.(gainmapCodecInputCounter))
    (r.(baseImage)) (r.(gainmapImage)) (r.(baseBuffer)) (r.(isoGainmapMetadata)).
Definition set_format (v : option AMessage) (r : InputFrame) : InputFrame :=
  mkInputFrame (r.(orientation)) (r.(quality)) (r.(appSegmentBuffer)) (r.(codecOutputBuffers))
    (r.(gainmapCodecOutputBuffers)) (r.(result)) (r.(yuvBuffer)) (r.(codecInputBuffers))
    (r.(gainmapCodecInputBuffers)) (r.(error)) (r.(exifError)) (r.(timestamp)) (r.(requestId)) v
    (r.(gainmapFormat)) (r.(muxer)) (r.(fenceFd)) (r.(fileFd)) (r.(trackIndex))
    (r.(gainmapTrackIndex)) (r.(anb)) (r.(appSegmentWritten)) (r.(pendingOutputTiles))
    (r.(gainmapPendingOutputTiles)) (r.(codecInputCounter)) (r.(gainmapCodecInputCounter))
    (r.(baseImage)) (r.(gainmapImage)) (r.(baseBuffer)) (r.(isoGainmapMetadata)).
Definition set_gainmapFormat (v : option AMessage) (r : InputFrame) : InputFrame :=
  mkInputFrame (r.(orientation)) (r.(quality)) (r.(appSegmentBuffer)) (r.(codecOutputBuffers))
    (r.(gainmapCodecOutputBuffers)) (r.(result)) (r.(yuvBuffer)) (r.(codecInputBuffers))
    (r.(gainmapCodecInputBuffers)) (r.(error)) (r.(exifError)) (r.(timestamp)) (r.(requestId))
    (r.(format)) v (r.(muxer)) (r.(fenceFd)) (r.(fileFd)) (r.(trackIndex))
    (r.(gainmapTrackIndex)) (r.(anb)) (r.(appSegmentWritten)) (r.(pendingOutputTiles))
    (r.(gainmapPendingOutputTiles)) (r.(codecInputCounter)) (r.(gainmapCodecInputCounter))
    (r.(baseImage)) (r.(gainmapImage)) (r.(baseBuffer)) (r.(isoGainmapMetadata)).
Definition set_muxer (v : option Z) (r : InputFrame) : InputFrame :=
  mkInputFrame (r.(orientation)) (r.(quality)) (r.(appSegmentBuffer)) (r.(codecOutputBuffers))
    (r.(gainmapCodecOutputBuffers)) (r.(result)) (r.(yuvBuffer)) (r.(codecInputBuffers))
    (r.(gainmapCodecInputBuffers)) (r.(error)) (r.(exifError)) (r.(timestamp)) (r.(requestId))
    (r.(format)) (r.(gainmapFormat)) v (r.(fenceFd)) (r.(fileFd)) (r.(trackIndex))
    (r.(gainmapTrackIndex)) (r.(anb)) (r.(appSegmentWritten)) (r.(pendingOutputTiles))
    (r.(gainmapPendingOutputTiles)) (r.(codecInputCounter)) (r.(gainmapCodecInputCounter))
    (r.(baseImage)) (r.(gainmapImage)) (r.(baseBuffer)) (r.(isoGainmapMetadata)).
Definition set_fenceFd (v : Z) (r : InputFrame) : InputFrame :=
  mkInputFrame (r.(orientation)) (r.(quality)) (r.(appSegmentBuffer)) (r.(codecOutputBuffers))
    (r.(gainmapCodecOutputBuffers)) (r.(result)) (r.(yuvBuffer)) (r.(codecInputBuffers))
    (r.(gainmapCodecInputBuffers)) (r.(error)) (r.(exifError)) (r.(timestamp)) (r.(requestId))
    (r.(format)) (r.(gainmapFormat)) (r.(muxer)) v (r.(fileFd)) (r.(trackIndex))
    (r.(gainmapTrackIndex)) (r.(anb)) (r.(appSegmentWritten)) (r.(pendingOutputTiles))
    (r.(gainmapPendingOutputTiles)) (r.(codecInputCounter)) (r.(gainmapCodecInputCounter))
    (r.(baseImage)) (r.(gainmapImage)) (r.(baseBuffer)) (r.(isoGainmapMetadata)).
Definition set_fileFd (v : Z) (r : InputFrame) : InputFrame :=
  mkInputFrame (r.(orientation)) (r.(quality)) (r.(appSegmentBuffer)) (r.(codecOutputBuffers))
    (r.(gainmapCodecOutputBuffers)) (r.(result)) (r.(yuvBuffer)) (r.(codecInputBuffers))
    (r.(gainmapCodecInputBuffers)) (r.(error)) (r.(exifError)) (r.(timestamp)) (r.(requestId))
    (r.(format)) (r.(gainmapFormat)) (r.(muxer)) (r.(fenceFd)) v (r.(trackIndex))
    (r.(gainmapTrackIndex)) (r.(anb)) (r.(appSegmentWritten)) (r.(pendingOutputTiles))
    (r.(gainmapPendingOutputTiles)) (r.(codecInputCounter)) (r.(gainmapCodecInputCounter))
    (r.(baseImage)) (r.(gainmapImage)) (r.(baseBuffer)) (r.(isoGainmapMetadata)).
Definition set_trackIndex (v : Z) (r : InputFrame) : InputFrame :=
  mkInputFrame (r.(orientation)) (r.(quality)) (r.(appSegmentBuffer)) (r.(codecOutputBuffers))
    (r.(gainmapCodecOutputBuffers)) (r.(result)) (r.(yuvBuffer)) (r.(codecInputBuffers))
    (r.(gainmapCodecInputBuffers)) (r.(error)) (r.(exifError)) (r.(timestamp)) (r.(requestId))
    (r.(format)) (r.(gainmapFormat)) (r.(muxer)) (r.(fenceFd)) (r.(fileFd)) v
    (r.(gainmapTrackIndex)) (r.(anb)) (r.(appSegmentWritten)) (r.(pendingOutputTiles))
    (r.(gainmapPendingOutputTiles)) (r.(codecInputCounter)) (r.(gainmapCodecInputCounter))
    (r.(baseImage)) (r.(gainmapImage)) (r.(baseBuffer)) (r.(isoGainmapMetadata)).
Definition set_gainmapTrackIndex (v : Z) (r : InputFrame) : InputFrame :=
  mkInputFrame (r.(orientation)) (r.(quality)) (r.(appSegmentBuffer)) (r.(codecOutputBuffers))
    (r.(gainmapCodecOutputBuffers)) (r.(result)) (r.(yuvBuffer)) (r.(codecInputBuffers))
    (r.(gainmapCodecInputBuffers)) (r.(error)) (r.(exifError)) (r.(timestamp)) (r.(requestId))
    (r.(format)) (r.(gainmapFormat)) (r.(muxer)) (r.(fenceFd)) (r.(fileFd)) (r.(trackIndex)) v
    (r.(anb)) (r.(appSegmentWritten)) (r.(pendingOutputTiles)) (r.(gainmapPendingOutputTiles))
    (r.(codecInputCounter)) (r.(gainmapCodecInputCounter)) (r.(baseImage)) (r.(gainmapImage))
    (r.(baseBuffer)) (r.(isoGainmapMetadata)).
Definition set_anb (v : option Z) (r : InputFrame) : InputFrame :=
  mkInputFrame (r.(orientation)) (r.(quality)) (r.(appSegmentBuffer)) (r.(codecOutputBuffers))
    (r.(gainmapCodecOutputBuffers)) (r.(result)) (r.(yuvBuffer)) (r.(codecInputBuffers))
    (r.(gainmapCodecInputBuffers)) (r.(error)) (r.(exifError)) (r.(timestamp)) (r.(requestId))
    (r.(format)) (r.(gainmapFormat)) (r.(muxer)) (r.(fenceFd)) (r.(fileFd)) (r.(trackIndex))
    (r.(gainmapTrackIndex)) v (r.(appSegmentWritten)) (r.(pendingOutputTiles))
    (r.(gainmapPendingOutputTiles)) (r.(codecInputCounter)) (r.(gainmapCodecInputCounter))
    (r.(baseImage)) (r.(gainmapImage)) (r.(baseBuffer)) (r.(isoGainmapMetadata)).
Definition set_appSegmentWritten (v : bool) (r : InputFrame) : InputFrame :=
  mkInputFrame (r.(orientation)) (r.(quality)) (r.(appSegmentBuffer)) (r.(codecOutputBuffers))
    (r.(gainmapCodecOutputBuffers)) (r.(result)) (r.(yuvBuffer)) (r.(codecInputBuffers))
    (r.(gainmapCodecInputBuffers)) (r.(error)) (r.(exifError)) (r.(timestamp)) (r.(requestId))
    (r.(format)) (r.(gainmapFormat)) (r.(muxer)) (r.(fenceFd)) (r.(fileFd)) (r.(trackIndex))
    (r.(gainmapTrackIndex)) (r.(anb)) v (r.(pendingOutputTiles)) (r.(gainmapPendingOutputTiles))
    (r.(codecInputCounter)) (r.(gainmapCodecInputCounter)) (r.(baseImage)) (r.(gainmapImage))
    (r.(baseBuffer)) (r.(isoGainmapMetadata)).
Definition set_pendingOutputTiles (v : Z) (r : InputFrame) : InputFrame :=
  mkInputFrame (r.(orientation)) (r.(quality)) (r.(appSegmentBuffer)) (r.(codecOutputBuffers))
    (r.(gainmapCodecOutputBuffers)) (r.(result)) (r.(yuvBuffer)) (r.(codecInputBuffers))
    (r.(gainmapCodecInputBuffers)) (r.(error)) (r.(exifError)) (r.(timestamp)) (r.(requestId))
    (r.(format)) (r.(gainmapFormat)) (r.(muxer)) (r.(fenceFd)) (r.(fileFd)) (r.(trackIndex))
    (r.(gainmapTrackIndex)) (r.(anb)) (r.(appSegmentWritten)) v (r.(gainmapPendingOutputTiles))
    (r.(codecInputCounter)) (r.(gainmapCodecInputCounter)) (r.(baseImage)) (r.(gainmapImage))
    (r.(baseBuffer)) (r.(isoGainmapMetadata)).
Definition set_gainmapPendingOutputTiles (v : Z) (r : InputFrame) : InputFrame :=
  mkInputFrame (r.(orientation)) (r.(quality)) (r.(appSegmentBuffer)) (r.(codecOutputBuffers))
    (r.(gainmapCodecOutputBuffers)) (r.(result)) (r.(yuvBuffer)) (r.(codecInputBuffers))
    (r.(gainmapCodecInputBuffers)) (r.(error)) (r.(exifError)) (r.(timestamp)) (r.(requestId))
    (r.(format)) (r.(gainmapFormat)) (r.(muxer)) (r.(fenceFd)) (r.(fileFd)) (r.(trackIndex))
    (r.(gainmapTrackIndex)) (r.(anb)) (r.(appSegmentWritten)) (r.(pendingOutputTiles)) v
    (r.(codecInputCounter)) (r.(gainmapCodecInputCounter)) (r.(baseImage)) (r.(gainmapImage))
    (r.(baseBuffer)) (r.(isoGainmapMetadata)).
Definition set_codecInputCounter (v : Z) (r : InputFrame) : InputFrame :=
  mkInputFrame (r.(orientation)) (r.(quality)) (r.(appSegmentBuffer)) (r.(codecOutputBuffers))
    (r.(gainmapCodecOutputBuffers)) (r.(result)) (r.(yuvBuffer)) (r.(codecInputBuffers))
    (r.(gainmapCodecInputBuffers)) (r.(error)) (r.(exifError)) (r.(timestamp)) (r.(requestId))
    (r.(format)) (r.(gainmapFormat)) (r.(muxer)) (r.(fenceFd)) (r.(fileFd)) (r.(trackIndex))
    (r.(gainmapTrackIndex)) (r.(anb)) (r.(appSegmentWritten)) (r.(pendingOutputTiles))
    (r.(gainmapPendingOutputTiles)) v (r.(gainmapCodecInputCounter)) (r.(baseImage))
    (r.(gainmapImage)) (r.(baseBuffer)) (r.(isoGainmapMetadata)).
Definition set_gainmapCodecInputCounter (v : Z) (r : InputFrame) : InputFrame :=
  mkInputFrame (r.(orientation)) (r.(quality)) (r.(appSegmentBuffer)) (r.(codecOutputBuffers))
    (r.(gainmapCodecOutputBuffers)) (r.(result)) (r.(yuvBuffer)) (r.(codecInputBuffers))
    (r.(gainmapCodecInputBuffers)) (r.(error)) (r.(exifError)) (r.(timestamp)) (r.(requestId))
    (r.(format)) (r.(gainmapFormat)) (r.(muxer)) (r.(fenceFd)) (r.(fileFd)) (r.(trackIndex))
    (r.(gainmapTrackIndex)) (r.(anb)) (r.(appSegmentWritten)) (r.(pendingOutputTiles))
    (r.(gainmapPendingOutputTiles)) (r.(codecInputCounter)) v (r.(baseImage)) (r.(gainmapImage))
    (r.(baseBuffer)) (r.(isoGainmapMetadata)).
Definition set_baseImage (v : option LockedBuffer) (r : InputFrame) : InputFrame :=
  mkInputFrame (r.(orientation)) (r.(quality)) (r.(appSegmentBuffer)) (r.(codecOutputBuffers))
    (r.(gainmapCodecOutputBuffers)) (r.(result)) (r.(yuvBuffer)) (r.(codecInputBuffers))
    (r.(gainmapCodecInputBuffers)) (r.(error)) (r.(exifError)) (r.(timestamp)) (r.(requestId))
    (r.(format)) (r.(gainmapFormat)) (r.(muxer)) (r.(fenceFd)) (r.(fileFd)) (r.(trackIndex))
    (r.(gainmapTrackIndex)) (r.(anb)) (r.(appSegmentWritten)) (r.(pendingOutputTiles))
    (r.(gainmapPendingOutputTiles)) (r.(codecInputCounter)) (r.(gainmapCodecInputCounter)) v
    (r.(gainmapImage)) (r.(baseBuffer)) (r.(isoGainmapMetadata)).
Definition set_gainmapImage (v : option LockedBuffer) (r : InputFrame) : InputFrame :=
  mkInputFrame (r.(orientation)) (r.(quality)) (r.(appSegmentBuffer)) (r.(codecOutputBuffers))
    (r.(gainmapCodecOutputBuffers)) (r.(result)) (r.(yuvBuffer)) (r.(codecInputBuffers))
    (r.(gainmapCodecInputBuffers)) (r.(error)) (r.(exifError)) (r.(timestamp)) (r.(requestId))
    (r.(format)) (r.(gainmapFormat)) (r.(muxer)) (r.(fenceFd)) (r.(fileFd)) (r.(trackIndex))
    (r.(gainmapTrackIndex)) (r.(anb)) (r.(appSegmentWritten)) (r.(pendingOutputTiles))
    (r.(gainmapPendingOutputTiles)) (r.(codecInputCounter)) (r.(gainmapCodecInputCounter))
    (r.(baseImage)) v (r.(baseBuffer)) (r.(isoGainmapMetadata)).
Definition set_baseBuffer (v : bool) (r : InputFrame) : InputFrame :=
  mkInputFrame (r.(orientation)) (r.(quality)) (r.(appSegmentBuffer)) (r.(codecOutputBuffers))
    (r.(gainmapCodecOutputBuffers)) (r.(result)) (r.(yuvBuffer)) (r.(codecInputBuffers))
    (r.(gainmapCodecInputBuffers)) (r.(error)) (r.(exifError)) (r.(timestamp)) (r.(requestId))
    (r.(format)) (r.(gainmapFormat)) (r.(muxer)) (r.(fenceFd)) (r.(fileFd)) (r.(trackIndex))
    (r.(gainmapTrackIndex)) (r.(anb)) (r.(appSegmentWritten)) (r.(pendingOutputTiles))
    (r.(gainmapPendingOutputTiles)) (r.(codecInputCounter)) (r.(gainmapCodecInputCounter))
    (r.(baseImage)) (r.(gainmapImage)) v (r.(isoGainmapMetadata)).
Definition set_isoGainmapMetadata (v : list Z) (r : InputFrame) : InputFrame :=
  mkInputFrame (r.(orientation)) (r.(quality)) (r.(appSegmentBuffer)) (r.(codecOutputBuffers))
    (r.(gainmapCodecOutputBuffers)) (r.(result)) (r.(yuvBuffer)) (r.(codecInputBuffers))
    (r.(gainmapCodecInputBuffers)) (r.(error)) (r.(exifError)) (r.(timestamp)) (r.(requestId))
    (r.(format)) (r.(gainmapFormat)) (r.(muxer)) (r.(fenceFd)) (r.(fileFd)) (r.(trackIndex))
    (r.(gainmapTrackIndex)) (r.(anb)) (r.(appSegmentWritten)) (r.(pendingOutputTiles))
    (r.(gainmapPendingOutputTiles)) (r.(codecInputCounter)) (r.(gainmapCodecInputCounter))
    (r.(baseImage)) (r.(gainmapImage)) (r.(baseBuffer)) v.

(** The constructor [InputFrame()]. *)
Definition kDefaultJpegQuality : Z := 99.

Definition newInputFrame : InputFrame :=
  mkInputFrame 0 kDefaultJpegQuality nullBuffer [] [] None nullBuffer [] [] false false
    (-1) (-1) None None None (-1) (-1) (-1) (-1) None false 0 0 0 0 None None false [].

(** The members of [class HeicCompositeStream] (and of its base [CompositeStream]) that the
    processing thread and the callbacks read or write, plus the [trace] of calls made on the
    codec, muxer, consumers and output surface. *)
Record HeicCompositeStream : Type := mkStream {
  mUseHeic : bool;
  mFormat : option AMessage;
  mGainmapFormat : option AMessage;
  mNumOutputTiles : Z;
  mNumGainmapOutputTiles : Z;
  mOutputWidth : Z;
  mOutputHeight : Z;
  mGainmapOutputWidth : Z;
  mGainmapOutputHeight : Z;
  mMaxHeicBufferSize : Z;
  mGridWidth : Z;
  mGridHeight : Z;
  mGainmapGridWidth : Z;
  mGainmapGridHeight : Z;
  mGridRows : Z;
  mGridCols : Z;
  mGainmapGridRows : Z;
  mGainmapGridCols : Z;
  mUseGrid : bool;
  mGainmapUseGrid : bool;
  mAppSegmentStreamId : Z;
  mMainImageStreamId : Z;
  mAppSegmentMaxSize : Z;
  mAppSegmentFrameNumbers : list Z  (* std::queue, front first *);
  mMainImageFrameNumbers : list Z;
  mYuvBufferAcquired : bool;
  mDequeuedOutputBufferCnt : Z;
  mSettingsByFrameNumber : list (Z * HeicSettings)  (* std::map *);
  mInputAppSegmentBuffers : list Z;
  mCodecOutputBuffers : list CodecOutputBufferInfo;
  mGainmapCodecOutputBuffers : list CodecOutputBufferInfo;
  mCodecOutputBufferFrameNumbers : list Z;
  mCodecGainmapOutputBufferFrameNumbers : list Z;
  mCodecOutputCounter : Z;
  mCodecGainmapOutputCounter : Z;
  mQuality : Z;
  mInputYuvBuffers : list Z;
  mCodecInputBuffers : list Z;
  mGainmapCodecInputBuffers : list Z;
  mGridTimestampUs : Z;
  mPendingInputFrames : list (Z * InputFrame)  (* std::map, ascending keys *);
  mExifErrorFrameNumbers : list Z  (* std::set *);
  mAppSegmentSupported : bool;
  mHDRGainmapEnabled : bool;
  mInternalDataSpace : Z;
  mErrorState : bool  (* CompositeStream *);
  mErrorFrameNumbers : list Z  (* CompositeStream, std::set *);
  mCaptureResults : list (Z * (Z * CameraMetadata))  (* CompositeStream: timestamp -> (frameNumber, result) *);
  mStatusTracker : bool  (* true = mStatusTracker.promote() is non-null *);
  trace : list Event  (* calls made on the collaborators, oldest first *)
}.

Definition set_mFormat (v : option AMessage) (r : HeicCompositeStream) : HeicCompositeStream :=
  mkStream (r.(mUseHeic)) v (r.(mGainmapFormat)) (r.(mNumOutputTiles))
    (r.(mNumGainmapOutputTiles)) (r.(mOutputWidth)) (r.(mOutputHeight))
    (r.(mGainmapOutputWidth)) (r.(mGainmapOutputHeight)) (r.(mMaxHeicBufferSize))
    (r.(mGridWidth)) (r.(mGridHeight)) (r.(mGainmapGridWidth)) (r.(mGainmapGridHeight))
    (r.(mGridRows)) (r.(mGridCols)) (r.(mGainmapGridRows)) (r.(mGainmapGridCols)) (r.(mUseGrid))
    (r.(mGainmapUseGrid)) (r.(mAppSegmentStreamId)) (r.(mMainImageStreamId))
    (r.(mAppSegmentMaxSize)) (r.(mAppSegmentFrameNumbers)) (r.(mMainImageFrameNumbers))
    (r.(mYuvBufferAcquired)) (r.(mDequeuedOutputBufferCnt)) (r.(mSettingsByFrameNumber))
    (r.(mInputAppSegmentBuffers)) (r.(mCodecOutputBuffers)) (r.(mGainmapCodecOutputBuffers))
    (r.(mCodecOutputBufferFrameNumbers)) (r.(mCodecGainmapOutputBufferFrameNumbers))
    (r.(mCodecOutputCounter)) (r.(mCodecGainmapOutputCounter)) (r.(mQuality))
    (r.(mInputYuvBuffers)) (r.(mCodecInputBuffers)) (r.(mGainmapCodecInputBuffers))
    (r.(mGridTimestampUs)) (r.(mPendingInputFrames)) (r.(mExifErrorFrameNumbers))
    (r.(mAppSegmentSupported)) (r.(mHDRGainmapEnabled)) (r.(mInternalDataSpace))
    (r.(mErrorState)) (r.(mErrorFrameNumbers)) (r.(mCaptureResults)) (r.(mStatusTracker))
    (r.(trace)).
Definition set_mGainmapFormat (v : option AMessage) (r : HeicCompositeStream) : HeicCompositeStream :=
  mkStream (r.(mUseHeic)) (r.(mFormat)) v (r.(mNumOutputTiles)) (r.(mNumGainmapOutputTiles))
    (r.(mOutputWidth)) (r.(mOutputHeight)) (r.(mGainmapOutputWidth)) (r.(mGainmapOutputHeight))
    (r.(mMaxHeicBufferSize)) (r.(mGridWidth)) (r.(mGridHeight)) (r.(mGainmapGridWidth))
    (r.(mGainmapGridHeight)) (r.(mGridRows)) (r.(mGridCols)) (r.(mGainmapGridRows))
    (r.(mGainmapGridCols)) (r.(mUseGrid)) (r.(mGainmapUseGrid)) (r.(mAppSegmentStreamId))
    (r.(mMainImageStreamId)) (r.(mAppSegmentMaxSize)) (r.(mAppSegmentFrameNumbers))
    (r.(mMainImageFrameNumbers)) (r.(mYuvBufferAcquired)) (r.(mDequeuedOutputBufferCnt))
    (r.(mSettingsByFrameNumber)) (r.(mInputAppSegmentBuffers)) (r.(mCodecOutputBuffers))
    (r.(mGainmapCodecOutputBuffers)) (r.(mCodecOutputBufferFrameNumbers))
    (r.(mCodecGainmapOutputBufferFrameNumbers)) (r.(mCodecOutputCounter))
    (r.(mCodecGainmapOutputCounter)) (r.(mQuality)) (r.(mInputYuvBuffers))
    (r.(mCodecInputBuffers)) (r.(mGainmapCodecInputBuffers)) (r.(mGridTimestampUs))
    (r.(mPendingInputFrames)) (r.(mExifErrorFrameNumbers)) (r.(mAppSegmentSupported))
    (r.(mHDRGainmapEnabled)) (r.(mInternalDataSpace)) (r.(mErrorState)) (r.(mErrorFrameNumbers))
    (r.(mCaptureResults)) (r.(mStatusTracker)) (r.(trace)).
Definition set_mNumOutputTiles (v : Z) (r : HeicCompositeStream) : HeicCompositeStream :=
  mkStream (r.(mUseHeic)) (r.(mFormat)) (r.(mGainmapFormat)) v (r.(mNumGainmapOutputTiles))
    (r.(mOutputWidth)) (r.(mOutputHeight)) (r.(mGainmapOutputWidth)) (r.(mGainmapOutputHeight))
    (r.(mMaxHeicBufferSize)) (r.(mGridWidth)) (r.(mGridHeight)) (r.(mGainmapGridWidth))
    (r.(mGainmapGridHeight)) (r.(mGridRows)) (r.(mGridCols)) (r.(mGainmapGridRows))
    (r.(mGainmapGridCols)) (r.(mUseGrid)) (r.(mGainmapUseGrid)) (r.(mAppSegmentStreamId))
    (r.(mMainImageStreamId)) (r.(mAppSegmentMaxSize)) (r.(mAppSegmentFrameNumbers))
    (r.(mMainImageFrameNumbers)) (r.(mYuvBufferAcquired)) (r.(mDequeuedOutputBufferCnt))
    (r.(mSettingsByFrameNumber)) (r.(mInputAppSegmentBuffers)) (r.(mCodecOutputBuffers))
    (r.(mGainmapCodecOutputBuffers)) (r.(mCodecOutputBufferFrameNumbers))
    (r.(mCodecGainmapOutputBufferFrameNumbers)) (r.(mCodecOutputCounter))
    (r.(mCodecGainmapOutputCounter)) (r.(mQuality)) (r.(mInputYuvBuffers))
    (r.(mCodecInputBuffers)) (r.(mGainmapCodecInputBuffers)) (r.(mGridTimestampUs))
    (r.(mPendingInputFrames)) (r.(mExifErrorFrameNumbers)) (r.(mAppSegmentSupported))
    (r.(mHDRGainmapEnabled)) (r.(mInternalDataSpace)) (r.(mErrorState)) (r.(mErrorFrameNumbers))
    (r.(mCaptureResults)) (r.(mStatusTracker)) (r.(trace)).
Definition set_mNumGainmapOutputTiles (v : Z) (r : HeicCompositeStream) : HeicCompositeStream :=
  mkStream (r.(mUseHeic)) (r.(mFormat)) (r.(mGainmapFormat)) (r.(mNumOutputTiles)) v
    (r.(mOutputWidth)) (r.(mOutputHeight)) (r.(mGainmapOutputWidth)) (r.(mGainmapOutputHeight))
    (r.(mMaxHeicBufferSize)) (r.(mGridWidth)) (r.(mGridHeight)) (r.(mGainmapGridWidth))
    (r.(mGainmapGridHeight)) (r.(mGridRows)) (r.(mGridCols)) (r.(mGainmapGridRows))
    (r.(mGainmapGridCols)) (r.(mUseGrid)) (r.(mGainmapUseGrid)) (r.(mAppSegmentStreamId))
    (r.(mMainImageStreamId)) (r.(mAppSegmentMaxSize)) (r.(mAppSegmentFrameNumbers))
    (r.(mMainImageFrameNumbers)) (r.(mYuvBufferAcquired)) (r.(mDequeuedOutputBufferCnt))
    (r.(mSettingsByFrameNumber)) (r.(mInputAppSegmentBuffers)) (r.(mCodecOutputBuffers))
    (r.(mGainmapCodecOutputBuffers)) (r.(mCodecOutputBufferFrameNumbers))
    (r.(mCodecGainmapOutputBufferFrameNumbers)) (r.(mCodecOutputCounter))
    (r.(mCodecGainmapOutputCounter)) (r.(mQuality)) (r.(mInputYuvBuffers))
    (r.(mCodecInputBuffers)) (r.(mGainmapCodecInputBuffers)) (r.(mGridTimestampUs))
    (r.(mPendingInputFrames)) (r.(mExifErrorFrameNumbers)) (r.(mAppSegmentSupported))
    (r.(mHDRGainmapEnabled)) (r.(mInternalDataSpace)) (r.(mErrorState)) (r.(mErrorFrameNumbers))
    (r.(mCaptureResults)) (r.(mStatusTracker)) (r.(trace)).
Definition set_mOutputWidth (v : Z) (r : HeicCompositeStream) : HeicCompositeStream :=
  mkStream (r.(mUseHeic)) (r.(mFormat)) (r.(mGainmapFormat)) (r.(mNumOutputTiles))
    (r.(mNumGainmapOutputTiles)) v (r.(mOutputHeight)) (r.(mGainmapOutputWidth))
    (r.(mGainmapOutputHeight)) (r.(mMaxHeicBufferSize)) (r.(mGridWidth)) (r.(mGridHeight))
    (r.(mGainmapGridWidth)) (r.(mGainmapGridHeight)) (r.(mGridRows)) (r.(mGridCols))
    (r.(mGainmapGridRows)) (r.(mGainmapGridCols)) (r.(mUseGrid)) (r.(mGainmapUseGrid))
    (r.(mAppSegmentStreamId)) (r.(mMainImageStreamId)) (r.(mAppSegmentMaxSize))
    (r.(mAppSegmentFrameNumbers)) (r.(mMainImageFrameNumbers)) (r.(mYuvBufferAcquired))
    (r.(mDequeuedOutputBufferCnt)) (r.(mSettingsByFrameNumber)) (r.(mInputAppSegmentBuffers))
    (r.(mCodecOutputBuffers)) (r.(mGainmapCodecOutputBuffers))
    (r.(mCodecOutputBufferFrameNumbers)) (r.(mCodecGainmapOutputBufferFrameNumbers))
    (r.(mCodecOutputCounter)) (r.(mCodecGainmapOutputCounter)) (r.(mQuality))
    (r.(mInputYuvBuffers)) (r.(mCodecInputBuffers)) (r.(mGainmapCodecInputBuffers))
    (r.(mGridTimestampUs)) (r.(mPendingInputFrames)) (r.(mExifErrorFrameNumbers))
    (r.(mAppSegmentSupported)) (r.(mHDRGainmapEnabled)) (r.(mInternalDataSpace))
    (r.(mErrorState)) (r.(mErrorFrameNumbers)) (r.(mCaptureResults)) (r.(mStatusTracker))
    (r.(trace)).
Definition set_mOutputHeight (v : Z) (r : HeicCompositeStream) : HeicCompositeStream :=
  mkStream (r.(mUseHeic)) (r.(mFormat)) (r.(mGainmapFormat)) (r.(mNumOutputTiles))
    (r.(mNumGainmapOutputTiles)) (r.(mOutputWidth)) v (r.(mGainmapOutputWidth))
    (r.(mGainmapOutputHeight)) (r.(mMaxHeicBufferSize)) (r.(mGridWidth)) (r.(mGridHeight))
    (r.(mGainmapGridWidth)) (r.(mGainmapGridHeight)) (r.(mGridRows)) (r.(mGridCols))
    (r.(mGainmapGridRows)) (r.(mGainmapGridCols)) (r.(mUseGrid)) (r.(mGainmapUseGrid))
    (r.(mAppSegmentStreamId)) (r.(mMainImageStreamId)) (r.(mAppSegmentMaxSize))
    (r.(mAppSegmentFrameNumbers)) (r.(mMainImageFrameNumbers)) (r.(mYuvBufferAcquired))
    (r.(mDequeuedOutputBufferCnt)) (r.(mSettingsByFrameNumber)) (r.(mInputAppSegmentBuffers))
    (r.(mCodecOutputBuffers)) (r.(mGainmapCodecOutputBuffers))
    (r.(mCodecOutputBufferFrameNumbers)) (r.(mCodecGainmapOutputBufferFrameNumbers))
    (r.(mCodecOutputCounter)) (r.(mCodecGainmapOutputCounter)) (r.(mQuality))
    (r.(mInputYuvBuffers)) (r.(mCodecInputBuffers)) (r.(mGainmapCodecInputBuffers))
    (r.(mGridTimestampUs)) (r.(mPendingInputFrames)) (r.(mExifErrorFrameNumbers))
    (r.(mAppSegmentSupported)) (r.(mHDRGainmapEnabled)) (r.(mInternalDataSpace))
    (r.(mErrorState)) (r.(mErrorFrameNumbers)) (r.(mCaptureResults)) (r.(mStatusTracker))
    (r.(trace)).
Definition set_mGainmapOutputWidth (v : Z) (r : HeicCompositeStream) : HeicCompositeStream :=
  mkStream (r.(mUseHeic)) (r.(mFormat)) (r.(mGainmapFormat)) (r.(mNumOutputTiles))
    (r.(mNumGainmapOutputTiles)) (r.(mOutputWidth)) (r.(mOutputHeight)) v
    (r.(mGainmapOutputHeight)) (r.(mMaxHeicBufferSize)) (r.(mGridWidth)) (r.(mGridHeight))
    (r.(mGainmapGridWidth)) (r.(mGainmapGridHeight)) (r.(mGridRows)) (r.(mGridCols))
    (r.(mGainmapGridRows)) (r.(mGainmapGridCols)) (r.(mUseGrid)) (r.(mGainmapUseGrid))
    (r.(mAppSegmentStreamId)) (r.(mMainImageStreamId)) (r.(mAppSegmentMaxSize))
    (r.(mAppSegmentFrameNumbers)) (r.(mMainImageFrameNumbers)) (r.(mYuvBufferAcquired))
    (r.(mDequeuedOutputBufferCnt)) (r.(mSettingsByFrameNumber)) (r.(mInputAppSegmentBuffers))
    (r.(mCodecOutputBuffers)) (r.(mGainmapCodecOutputBuffers))
    (r.(mCodecOutputBufferFrameNumbers)) (r.(mCodecGainmapOutputBufferFrameNumbers))
    (r.(mCodecOutputCounter)) (r.(mCodecGainmapOutputCounter)) (r.(mQuality))
    (r.(mInputYuvBuffers)) (r.(mCodecInputBuffers)) (r.(mGainmapCodecInputBuffers))
    (r.(mGridTimestampUs)) (r.(mPendingInputFrames)) (r.(mExifErrorFrameNumbers))
    (r.(mAppSegmentSupported)) (r.(mHDRGainmapEnabled)) (r.(mInternalDataSpace))
    (r.(mErrorState)) (r.(mErrorFrameNumbers)) (r.(mCaptureResults)) (r.(mStatusTracker))
    (r.(trace)).
Definition set_mGainmapOutputHeight (v : Z) (r : HeicCompositeStream) : HeicCompositeStream :=
  mkStream (r.(mUseHeic)) (r.(mFormat)) (r.(mGainmapFormat)) (r.(mNumOutputTiles))
    (r.(mNumGainmapOutputTiles)) (r.(mOutputWidth)) (r.(mOutputHeight))
    (r.(mGainmapOutputWidth)) v (r.(mMaxHeicBufferSize)) (r.(mGridWidth)) (r.(mGridHeight))
    (r.(mGainmapGridWidth)) (r.(mGainmapGridHeight)) (r.(mGridRows)) (r.(mGridCols))
    (r.(mGainmapGridRows)) (r.(mGainmapGridCols)) (r.(mUseGrid)) (r.(mGainmapUseGrid))
    (r.(mAppSegmentStreamId)) (r.(mMainImageStreamId)) (r.(mAppSegmentMaxSize))
    (r.(mAppSegmentFrameNumbers)) (r.(mMainImageFrameNumbers)) (r.(mYuvBufferAcquired))
    (r.(mDequeuedOutputBufferCnt)) (r.(mSettingsByFrameNumber)) (r.(mInputAppSegmentBuffers))
    (r.(mCodecOutputBuffers)) (r.(mGainmapCodecOutputBuffers))
    (r.(mCodecOutputBufferFrameNumbers)) (r.(mCodecGainmapOutputBufferFrameNumbers))
    (r.(mCodecOutputCounter)) (r.(mCodecGainmapOutputCounter)) (r.(mQuality))
    (r.(mInputYuvBuffers)) (r.(mCodecInputBuffers)) (r.(mGainmapCodecInputBuffers))
    (r.(mGridTimestampUs)) (r.(mPendingInputFrames)) (r.(mExifErrorFrameNumbers))
    (r.(mAppSegmentSupported)) (r.(mHDRGainmapEnabled)) (r.(mInternalDataSpace))
    (r.(mErrorState)) (r.(mErrorFrameNumbers)) (r.(mCaptureResults)) (r.(mStatusTracker))
    (r.(trace)).
Definition set_mMaxHeicBufferSize (v : Z) (r : HeicCompositeStream) : HeicCompositeStream :=
  mkStream (r.(mUseHeic)) (r.(mFormat)) (r.(mGainmapFormat)) (r.(mNumOutputTiles))
    (r.(mNumGainmapOutputTiles)) (r.(mOutputWidth)) (r.(mOutputHeight))
    (r.(mGainmapOutputWidth)) (r.(mGainmapOutputHeight)) v (r.(mGridWidth)) (r.(mGridHeight))
    (r.(mGainmapGridWidth)) (r.(mGainmapGridHeight)) (r.(mGridRows)) (r.(mGridCols))
    (r.(mGainmapGridRows)) (r.(mGainmapGridCols)) (r.(mUseGrid)) (r.(mGainmapUseGrid))
    (r.(mAppSegmentStreamId)) (r.(mMainImageStreamId)) (r.(mAppSegmentMaxSize))
    (r.(mAppSegmentFrameNumbers)) (r.(mMainImageFrameNumbers)) (r.(mYuvBufferAcquired))
    (r.(mDequeuedOutputBufferCnt)) (r.(mSettingsByFrameNumber)) (r.(mInputAppSegmentBuffers))
    (r.(mCodecOutputBuffers)) (r.(mGainmapCodecOutputBuffers))
    (r.(mCodecOutputBufferFrameNumbers)) (r.(mCodecGainmapOutputBufferFrameNumbers))
    (r.(mCodecOutputCounter)) (r.(mCodecGainmapOutputCounter)) (r.(mQuality))
    (r.(mInputYuvBuffers)) (r.(mCodecInputBuffers)) (r.(mGainmapCodecInputBuffers))
    (r.(mGridTimestampUs)) (r.(mPendingInputFrames)) (r.(mExifErrorFrameNumbers))
    (r.(mAppSegmentSupported)) (r.(mHDRGainmapEnabled)) (r.(mInternalDataSpace))
    (r.(mErrorState)) (r.(mErrorFrameNumbers)) (r.(mCaptureResults)) (r.(mStatusTracker))
    (r.(trace)).
Definition set_mGridWidth (v : Z) (r : HeicCompositeStream) : HeicCompositeStream :=
  mkStream (r.(mUseHeic)) (r.(mFormat)) (r.(mGainmapFormat)) (r.(mNumOutputTiles))
    (r.(mNumGainmapOutputTiles)) (r.(mOutputWidth)) (r.(mOutputHeight))
    (r.(mGainmapOutputWidth)) (r.(mGainmapOutputHeight)) (r.(mMaxHeicBufferSize)) v
    (r.(mGridHeight)) (r.(mGainmapGridWidth)) (r.(mGainmapGridHeight)) (r.(mGridRows))
    (r.(mGridCols)) (r.(mGainmapGridRows)) (r.(mGainmapGridCols)) (r.(mUseGrid))
    (r.(mGainmapUseGrid)) (r.(mAppSegmentStreamId)) (r.(mMainImageStreamId))
    (r.(mAppSegmentMaxSize)) (r.(mAppSegmentFrameNumbers)) (r.(mMainImageFrameNumbers))
    (r.(mYuvBufferAcquired)) (r.(mDequeuedOutputBufferCnt)) (r.(mSettingsByFrameNumber))
    (r.(mInputAppSegmentBuffers)) (r.(mCodecOutputBuffers)) (r.(mGainmapCodecOutputBuffers))
    (r.(mCodecOutputBufferFrameNumbers)) (r.(mCodecGainmapOutputBufferFrameNumbers))
    (r.(mCodecOutputCounter)) (r.(mCodecGainmapOutputCounter)) (r.(mQuality))
    (r.(mInputYuvBuffers)) (r.(mCodecInputBuffers)) (r.(mGainmapCodecInputBuffers))
    (r.(mGridTimestampUs)) (r.(mPendingInputFrames)) (r.(mExifErrorFrameNumbers))
    (r.(mAppSegmentSupported)) (r.(mHDRGainmapEnabled)) (r.(mInternalDataSpace))
    (r.(mErrorState)) (r.(mErrorFrameNumbers)) (r.(mCaptureResults)) (r.(mStatusTracker))
    (r.(trace)).
Definition set_mGridHeight (v : Z) (r : HeicCompositeStream) : HeicCompositeStream :=
  mkStream (r.(mUseHeic)) (r.(mFormat)) (r.(mGainmapFormat)) (r.(mNumOutputTiles))
    (r.(mNumGainmapOutputTiles)) (r.(mOutputWidth)) (r.(mOutputHeight))
    (r.(mGainmapOutputWidth)) (r.(mGainmapOutputHeight)) (r.(mMaxHeicBufferSize))
    (r.(mGridWidth)) v (r.(mGainmapGridWidth)) (r.(mGainmapGridHeight)) (r.(mGridRows))
    (r.(mGridCols)) (r.(mGainmapGridRows)) (r.(mGainmapGridCols)) (r.(mUseGrid))
    (r.(mGainmapUseGrid)) (r.(mAppSegmentStreamId)) (r.(mMainImageStreamId))
    (r.(mAppSegmentMaxSize)) (r.(mAppSegmentFrameNumbers)) (r.(mMainImageFrameNumbers))
    (r.(mYuvBufferAcquired)) (r.(mDequeuedOutputBufferCnt)) (r.(mSettingsByFrameNumber))
    (r.(mInputAppSegmentBuffers)) (r.(mCodecOutputBuffers)) (r.(mGainmapCodecOutputBuffers))
    (r.(mCodecOutputBufferFrameNumbers)) (r.(mCodecGainmapOutputBufferFrameNumbers))
    (r.(mCodecOutputCounter)) (r.(mCodecGainmapOutputCounter)) (r.(mQuality))
    (r.(mInputYuvBuffers)) (r.(mCodecInputBuffers)) (r.(mGainmapCodecInputBuffers))
    (r.(mGridTimestampUs)) (r.(mPendingInputFrames)) (r.(mExifErrorFrameNumbers))
    (r.(mAppSegmentSupported)) (r.(mHDRGainmapEnabled)) (r.(mInternalDataSpace))
    (r.(mErrorState)) (r.(mErrorFrameNumbers)) (r.(mCaptureResults)) (r.(mStatusTracker))
    (r.(trace)).
Definition set_mGainmapGridWidth (v : Z) (r : HeicCompositeStream) : HeicCompositeStream :=
  mkStream (r.(mUseHeic)) (r.(mFormat)) (r.(mGainmapFormat)) (r.(mNumOutputTiles))
    (r.(mNumGainmapOutputTiles)) (r.(mOutputWidth)) (r.(mOutputHeight))
    (r.(mGainmapOutputWidth)) (r.(mGainmapOutputHeight)) (r.(mMaxHeicBufferSize))
    (r.(mGridWidth)) (r.(mGridHeight)) v (r.(mGainmapGridHeight)) (r.(mGridRows))
    (r.(mGridCols)) (r.(mGainmapGridRows)) (r.(mGainmapGridCols)) (r.(mUseGrid))
    (r.(mGainmapUseGrid)) (r.(mAppSegmentStreamId)) (r.(mMainImageStreamId))
    (r.(mAppSegmentMaxSize)) (r.(mAppSegmentFrameNumbers)) (r.(mMainImageFrameNumbers))
    (r.(mYuvBufferAcquired)) (r.(mDequeuedOutputBufferCnt)) (r.(mSettingsByFrameNumber))
    (r.(mInputAppSegmentBuffers)) (r.(mCodecOutputBuffers)) (r.(mGainmapCodecOutputBuffers))
    (r.(mCodecOutputBufferFrameNumbers)) (r.(mCodecGainmapOutputBufferFrameNumbers))
    (r.(mCodecOutputCounter)) (r.(mCodecGainmapOutputCounter)) (r.(mQuality))
    (r.(mInputYuvBuffers)) (r.(mCodecInputBuffers)) (r.(mGainmapCodecInputBuffers))
    (r.(mGridTimestampUs)) (r.(mPendingInputFrames)) (r.(mExifErrorFrameNumbers))
    (r.(mAppSegmentSupported)) (r.(mHDRGainmapEnabled)) (r.(mInternalDataSpace))
    (r.(mErrorState)) (r.(mErrorFrameNumbers)) (r.(mCaptureResults)) (r.(mStatusTracker))
    (r.(trace)).
Definition set_mGainmapGridHeight (v : Z) (r : HeicCompositeStream) : HeicCompositeStream :=
  mkStream (r.(mUseHeic)) (r.(mFormat)) (r.(mGainmapFormat)) (r.(mNumOutputTiles))
    (r.(mNumGainmapOutputTiles)) (r.(mOutputWidth)) (r.(mOutputHeight))
    (r.(mGainmapOutputWidth)) (r.(mGainmapOutputHeight)) (r.(mMaxHeicBufferSize))
    (r.(mGridWidth)) (r.(mGridHeight)) (r.(mGainmapGridWidth)) v (r.(mGridRows)) (r.(mGridCols))
    (r.(mGainmapGridRows)) (r.(mGainmapGridCols)) (r.(mUseGrid)) (r.(mGainmapUseGrid))
    (r.(mAppSegmentStreamId)) (r.(mMainImageStreamId)) (r.(mAppSegmentMaxSize))
    (r.(mAppSegmentFrameNumbers)) (r.(mMainImageFrameNumbers)) (r.(mYuvBufferAcquired))
    (r.(mDequeuedOutputBufferCnt)) (r.(mSettingsByFrameNumber)) (r.(mInputAppSegmentBuffers))
    (r.(mCodecOutputBuffers)) (r.(mGainmapCodecOutputBuffers))
    (r.(mCodecOutputBufferFrameNumbers)) (r.(mCodecGainmapOutputBufferFrameNumbers))
    (r.(mCodecOutputCounter)) (r.(mCodecGainmapOutputCounter)) (r.(mQuality))
    (r.(mInputYuvBuffers)) (r.(mCodecInputBuffers)) (r.(mGainmapCodecInputBuffers))
    (r.(mGridTimestampUs)) (r.(mPendingInputFrames)) (r.(mExifErrorFrameNumbers))
    (r.(mAppSegmentSupported)) (r.(mHDRGainmapEnabled)) (r.(mInternalDataSpace))
    (r.(mErrorState)) (r.(mErrorFrameNumbers)) (r.(mCaptureResults)) (r.(mStatusTracker))
    (r.(trace)).
Definition set_mGridRows (v : Z) (r : HeicCompositeStream) : HeicCompositeStream :=
  mkStream (r.(mUseHeic)) (r.(mFormat)) (r.(mGainmapFormat)) (r.(mNumOutputTiles))
    (r.(mNumGainmapOutputTiles)) (r.(mOutputWidth)) (r.(mOutputHeight))
    (r.(mGainmapOutputWidth)) (r.(mGainmapOutputHeight)) (r.(mMaxHeicBufferSize))
    (r.(mGridWidth)) (r.(mGridHeight)) (r.(mGainmapGridWidth)) (r.(mGainmapGridHeight)) v
    (r.(mGridCols)) (r.(mGainmapGridRows)) (r.(mGainmapGridCols)) (r.(mUseGrid))
    (r.(mGainmapUseGrid)) (r.(mAppSegmentStreamId)) (r.(mMainImageStreamId))
    (r.(mAppSegmentMaxSize)) (r.(mAppSegmentFrameNumbers)) (r.(mMainImageFrameNumbers))
    (r.(mYuvBufferAcquired)) (r.(mDequeuedOutputBufferCnt)) (r.(mSettingsByFrameNumber))
    (r.(mInputAppSegmentBuffers)) (r.(mCodecOutputBuffers)) (r.(mGainmapCodecOutputBuffers))
    (r.(mCodecOutputBufferFrameNumbers)) (r.(mCodecGainmapOutputBufferFrameNumbers))
    (r.(mCodecOutputCounter)) (r.(mCodecGainmapOutputCounter)) (r.(mQuality))
    (r.(mInputYuvBuffers)) (r.(mCodecInputBuffers)) (r.(mGainmapCodecInputBuffers))
    (r.(mGridTimestampUs)) (r.(mPendingInputFrames)) (r.(mExifErrorFrameNumbers))
    (r.(mAppSegmentSupported)) (r.(mHDRGainmapEnabled)) (r.(mInternalDataSpace))
    (r.(mErrorState)) (r.(mErrorFrameNumbers)) (r.(mCaptureResults)) (r.(mStatusTracker))
    (r.(trace)).
Definition set_mGridCols (v : Z) (r : HeicCompositeStream) : HeicCompositeStream :=
  mkStream (r.(mUseHeic)) (r.(mFormat)) (r.(mGainmapFormat)) (r.(mNumOutputTiles))
    (r.(mNumGainmapOutputTiles)) (r.(mOutputWidth)) (r.(mOutputHeight))
    (r.(mGainmapOutputWidth)) (r.(mGainmapOutputHeight)) (r.(mMaxHeicBufferSize))
    (r.(mGridWidth)) (r.(mGridHeight)) (r.(mGainmapGridWidth)) (r.(mGainmapGridHeight))
    (r.(mGridRows)) v (r.(mGainmapGridRows)) (r.(mGainmapGridCols)) (r.(mUseGrid))
    (r.(mGainmapUseGrid)) (r.(mAppSegmentStreamId)) (r.(mMainImageStreamId))
    (r.(mAppSegmentMaxSize)) (r.(mAppSegmentFrameNumbers)) (r.(mMainImageFrameNumbers))
    (r.(mYuvBufferAcquired)) (r.(mDequeuedOutputBufferCnt)) (r.(mSettingsByFrameNumber))
    (r.(mInputAppSegmentBuffers)) (r.(mCodecOutputBuffers)) (r.(mGainmapCodecOutputBuffers))
    (r.(mCodecOutputBufferFrameNumbers)) (r.(mCodecGainmapOutputBufferFrameNumbers))
    (r.(mCodecOutputCounter)) (r.(mCodecGainmapOutputCounter)) (r.(mQuality))
    (r.(mInputYuvBuffers)) (r.(mCodecInputBuffers)) (r.(mGainmapCodecInputBuffers))
    (r.(mGridTimestampUs)) (r.(mPendingInputFrames)) (r.(mExifErrorFrameNumbers))
    (r.(mAppSegmentSupported)) (r.(mHDRGainmapEnabled)) (r.(mInternalDataSpace))
    (r.(mErrorState)) (r.(mErrorFrameNumbers)) (r.(mCaptureResults)) (r.(mStatusTracker))
    (r.(trace)).
Definition set_mGainmapGridRows (v : Z) (r : HeicCompositeStream) : HeicCompositeStream :=
  mkStream (r.(mUseHeic)) (r.(mFormat)) (r.(mGainmapFormat)) (r.(mNumOutputTiles))
    (r.(mNumGainmapOutputTiles)) (r.(mOutputWidth)) (r.(mOutputHeight))
    (r.(mGainmapOutputWidth)) (r.(mGainmapOutputHeight)) (r.(mMaxHeicBufferSize))
    (r.(mGridWidth)) (r.(mGridHeight)) (r.(mGainmapGridWidth)) (r.(mGainmapGridHeight))
    (r.(mGridRows)) (r.(mGridCols)) v (r.(mGainmapGridCols)) (r.(mUseGrid))
    (r.(mGainmapUseGrid)) (r.(mAppSegmentStreamId)) (r.(mMainImageStreamId))
    (r.(mAppSegmentMaxSize)) (r.(mAppSegmentFrameNumbers)) (r.(mMainImageFrameNumbers))
    (r.(mYuvBufferAcquired)) (r.(mDequeuedOutputBufferCnt)) (r.(mSettingsByFrameNumber))
    (r.(mInputAppSegmentBuffers)) (r.(mCodecOutputBuffers)) (r.(mGainmapCodecOutputBuffers))
    (r.(mCodecOutputBufferFrameNumbers)) (r.(mCodecGainmapOutputBufferFrameNumbers))
    (r.(mCodecOutputCounter)) (r.(mCodecGainmapOutputCounter)) (r.(mQuality))
    (r.(mInputYuvBuffers)) (r.(mCodecInputBuffers)) (r.(mGainmapCodecInputBuffers))
    (r.(mGridTimestampUs)) (r.(mPendingInputFrames)) (r.(mExifErrorFrameNumbers))
    (r.(mAppSegmentSupported)) (r.(mHDRGainmapEnabled)) (r.(mInternalDataSpace))
    (r.(mErrorState)) (r.(mErrorFrameNumbers)) (r.(mCaptureResults)) (r.(mStatusTracker))
    (r.(trace)).
Definition set_mGainmapGridCols (v : Z) (r : HeicCompositeStream) : HeicCompositeStream :=
  mkStream (r.(mUseHeic)) (r.(mFormat)) (r.(mGainmapFormat)) (r.(mNumOutputTiles))
    (r.(mNumGainmapOutputTiles)) (r.(mOutputWidth)) (r.(mOutputHeight))
    (r.(mGainmapOutputWidth)) (r.(mGainmapOutputHeight)) (r.(mMaxHeicBufferSize))
    (r.(mGridWidth)) (r.(mGridHeight)) (r.(mGainmapGridWidth)) (r.(mGainmapGridHeight))
    (r.(mGridRows)) (r.(mGridCols)) (r.(mGainmapGridRows)) v (r.(mUseGrid))
    (r.(mGainmapUseGrid)) (r.(mAppSegmentStreamId)) (r.(mMainImageStreamId))
    (r.(mAppSegmentMaxSize)) (r.(mAppSegmentFrameNumbers)) (r.(mMainImageFrameNumbers))
    (r.(mYuvBufferAcquired)) (r.(mDequeuedOutputBufferCnt)) (r.(mSettingsByFrameNumber))
    (r.(mInputAppSegmentBuffers)) (r.(mCodecOutputBuffers)) (r.(mGainmapCodecOutputBuffers))
    (r.(mCodecOutputBufferFrameNumbers)) (r.(mCodecGainmapOutputBufferFrameNumbers))
    (r.(mCodecOutputCounter)) (r.(mCodecGainmapOutputCounter)) (r.(mQuality))
    (r.(mInputYuvBuffers)) (r.(mCodecInputBuffers)) (r.(mGainmapCodecInputBuffers))
    (r.(mGridTimestampUs)) (r.(mPendingInputFrames)) (r.(mExifErrorFrameNumbers))
    (r.(mAppSegmentSupported)) (r.(mHDRGainmapEnabled)) (r.(mInternalDataSpace))
    (r.(mErrorState)) (r.(mErrorFrameNumbers)) (r.(mCaptureResults)) (r.(mStatusTracker))
    (r.(trace)).
Definition set_mUseGrid (v : bool) (r : HeicCompositeStream) : HeicCompositeStream :=
  mkStream (r.(mUseHeic)) (r.(mFormat)) (r.(mGainmapFormat)) (r.(mNumOutputTiles))
    (r.(mNumGainmapOutputTiles)) (r.(mOutputWidth)) (r.(mOutputHeight))
    (r.(mGainmapOutputWidth)) (r.(mGainmapOutputHeight)) (r.(mMaxHeicBufferSize))
    (r.(mGridWidth)) (r.(mGridHeight)) (r.(mGainmapGridWidth)) (r.(mGainmapGridHeight))
    (r.(mGridRows)) (r.(mGridCols)) (r.(mGainmapGridRows)) (r.(mGainmapGridCols)) v
    (r.(mGainmapUseGrid)) (r.(mAppSegmentStreamId)) (r.(mMainImageStreamId))
    (r.(mAppSegmentMaxSize)) (r.(mAppSegmentFrameNumbers)) (r.(mMainImageFrameNumbers))
    (r.(mYuvBufferAcquired)) (r.(mDequeuedOutputBufferCnt)) (r.(mSettingsByFrameNumber))
    (r.(mInputAppSegmentBuffers)) (r.(mCodecOutputBuffers)) (r.(mGainmapCodecOutputBuffers))
    (r.(mCodecOutputBufferFrameNumbers)) (r.(mCodecGainmapOutputBufferFrameNumbers))
    (r.(mCodecOutputCounter)) (r.(mCodecGainmapOutputCounter)) (r.(mQuality))
    (r.(mInputYuvBuffers)) (r.(mCodecInputBuffers)) (r.(mGainmapCodecInputBuffers))
    (r.(mGridTimestampUs)) (r.(mPendingInputFrames)) (r.(mExifErrorFrameNumbers))
    (r.(mAppSegmentSupported)) (r.(mHDRGainmapEnabled)) (r.(mInternalDataSpace))
    (r.(mErrorState)) (r.(mErrorFrameNumbers)) (r.(mCaptureResults)) (r.(mStatusTracker))
    (r.(trace)).
Definition set_mGainmapUseGrid (v : bool) (r : HeicCompositeStream) : HeicCompositeStream :=
  mkStream (r.(mUseHeic)) (r.(mFormat)) (r.(mGainmapFormat)) (r.(mNumOutputTiles))
    (r.(mNumGainmapOutputTiles)) (r.(mOutputWidth)) (r.(mOutputHeight))
    (r.(mGainmapOutputWidth)) (r.(mGainmapOutputHeight)) (r.(mMaxHeicBufferSize))
    (r.(mGridWidth)) (r.(mGridHeight)) (r.(mGainmapGridWidth)) (r.(mGainmapGridHeight))
    (r.(mGridRows)) (r.(mGridCols)) (r.(mGainmapGridRows)) (r.(mGainmapGridCols)) (r.(mUseGrid))
    v (r.(mAppSegmentStreamId)) (r.(mMainImageStreamId)) (r.(mAppSegmentMaxSize))
    (r.(mAppSegmentFrameNumbers)) (r.(mMainImageFrameNumbers)) (r.(mYuvBufferAcquired))
    (r.(mDequeuedOutputBufferCnt)) (r.(mSettingsByFrameNumber)) (r.(mInputAppSegmentBuffers))
    (r.(mCodecOutputBuffers)) (r.(mGainmapCodecOutputBuffers))
    (r.(mCodecOutputBufferFrameNumbers)) (r.(mCodecGainmapOutputBufferFrameNumbers))
    (r.(mCodecOutputCounter)) (r.(mCodecGainmapOutputCounter)) (r.(mQuality))
    (r.(mInputYuvBuffers)) (r.(mCodecInputBuffers)) (r.(mGainmapCodecInputBuffers))
    (r.(mGridTimestampUs)) (r.(mPendingInputFrames)) (r.(mExifErrorFrameNumbers))
    (r.(mAppSegmentSupported)) (r.(mHDRGainmapEnabled)) (r.(mInternalDataSpace))
    (r.(mErrorState)) (r.(mErrorFrameNumbers)) (r.(mCaptureResults)) (r.(mStatusTracker))
    (r.(trace)).
Definition set_mAppSegmentMaxSize (v : Z) (r : HeicCompositeStream) : HeicCompositeStream :=
  mkStream (r.(mUseHeic)) (r.(mFormat)) (r.(mGainmapFormat)) (r.(mNumOutputTiles))
    (r.(mNumGainmapOutputTiles)) (r.(mOutputWidth)) (r.(mOutputHeight))
    (r.(mGainmapOutputWidth)) (r.(mGainmapOutputHeight)) (r.(mMaxHeicBufferSize))
    (r.(mGridWidth)) (r.(mGridHeight)) (r.(mGainmapGridWidth)) (r.(mGainmapGridHeight))
    (r.(mGridRows)) (r.(mGridCols)) (r.(mGainmapGridRows)) (r.(mGainmapGridCols)) (r.(mUseGrid))
    (r.(mGainmapUseGrid)) (r.(mAppSegmentStreamId)) (r.(mMainImageStreamId)) v
    (r.(mAppSegmentFrameNumbers)) (r.(mMainImageFrameNumbers)) (r.(mYuvBufferAcquired))
    (r.(mDequeuedOutputBufferCnt)) (r.(mSettingsByFrameNumber)) (r.(mInputAppSegmentBuffers))
    (r.(mCodecOutputBuffers)) (r.(mGainmapCodecOutputBuffers))
    (r.(mCodecOutputBufferFrameNumbers)) (r.(mCodecGainmapOutputBufferFrameNumbers))
    (r.(mCodecOutputCounter)) (r.(mCodecGainmapOutputCounter)) (r.(mQuality))
    (r.(mInputYuvBuffers)) (r.(mCodecInputBuffers)) (r.(mGainmapCodecInputBuffers))
    (r.(mGridTimestampUs)) (r.(mPendingInputFrames)) (r.(mExifErrorFrameNumbers))
    (r.(mAppSegmentSupported)) (r.(mHDRGainmapEnabled)) (r.(mInternalDataSpace))
    (r.(mErrorState)) (r.(mErrorFrameNumbers)) (r.(mCaptureResults)) (r.(mStatusTracker))
    (r.(trace)).
Definition set_mAppSegmentFrameNumbers (v : list Z) (r : HeicCompositeStream) : HeicCompositeStream :=
  mkStream (r.(mUseHeic)) (r.(mFormat)) (r.(mGainmapFormat)) (r.(mNumOutputTiles))
    (r.(mNumGainmapOutputTiles)) (r.(mOutputWidth)) (r.(mOutputHeight))
    (r.(mGainmapOutputWidth)) (r.(mGainmapOutputHeight)) (r.(mMaxHeicBufferSize))
    (r.(mGridWidth)) (r.(mGridHeight)) (r.(mGainmapGridWidth)) (r.(mGainmapGridHeight))
    (r.(mGridRows)) (r.(mGridCols)) (r.(mGainmapGridRows)) (r.(mGainmapGridCols)) (r.(mUseGrid))
    (r.(mGainmapUseGrid)) (r.(mAppSegmentStreamId)) (r.(mMainImageStreamId))
    (r.(mAppSegmentMaxSize)) v (r.(mMainImageFrameNumbers)) (r.(mYuvBufferAcquired))
    (r.(mDequeuedOutputBufferCnt)) (r.(mSettingsByFrameNumber)) (r.(mInputAppSegmentBuffers))
    (r.(mCodecOutputBuffers)) (r.(mGainmapCodecOutputBuffers))
    (r.(mCodecOutputBufferFrameNumbers)) (r.(mCodecGainmapOutputBufferFrameNumbers))
    (r.(mCodecOutputCounter)) (r.(mCodecGainmapOutputCounter)) (r.(mQuality))
    (r.(mInputYuvBuffers)) (r.(mCodecInputBuffers)) (r.(mGainmapCodecInputBuffers))
    (r.(mGridTimestampUs)) (r.(mPendingInputFrames)) (r.(mExifErrorFrameNumbers))
    (r.(mAppSegmentSupported)) (r.(mHDRGainmapEnabled)) (r.(mInternalDataSpace))
    (r.(mErrorState)) (r.(mErrorFrameNumbers)) (r.(mCaptureResults)) (r.(mStatusTracker))
    (r.(trace)).
Definition set_mMainImageFrameNumbers (v : list Z) (r : HeicCompositeStream) : HeicCompositeStream :=
  mkStream (r.(mUseHeic)) (r.(mFormat)) (r.(mGainmapFormat)) (r.(mNumOutputTiles))
    (r.(mNumGainmapOutputTiles)) (r.(mOutputWidth)) (r.(mOutputHeight))
    (r.(mGainmapOutputWidth)) (r.(mGainmapOutputHeight)) (r.(mMaxHeicBufferSize))
    (r.(mGridWidth)) (r.(mGridHeight)) (r.(mGainmapGridWidth)) (r.(mGainmapGridHeight))
    (r.(mGridRows)) (r.(mGridCols)) (r.(mGainmapGridRows)) (r.(mGainmapGridCols)) (r.(mUseGrid))
    (r.(mGainmapUseGrid)) (r.(mAppSegmentStreamId)) (r.(mMainImageStreamId))
    (r.(mAppSegmentMaxSize)) (r.(mAppSegmentFrameNumbers)) v (r.(mYuvBufferAcquired))
    (r.(mDequeuedOutputBufferCnt)) (r.(mSettingsByFrameNumber)) (r.(mInputAppSegmentBuffers))
    (r.(mCodecOutputBuffers)) (r.(mGainmapCodecOutputBuffers))
    (r.(mCodecOutputBufferFrameNumbers)) (r.(mCodecGainmapOutputBufferFrameNumbers))
    (r.(mCodecOutputCounter)) (r.(mCodecGainmapOutputCounter)) (r.(mQuality))
    (r.(mInputYuvBuffers)) (r.(mCodecInputBuffers)) (r.(mGainmapCodecInputBuffers))
    (r.(mGridTimestampUs)) (r.(mPendingInputFrames)) (r.(mExifErrorFrameNumbers))
    (r.(mAppSegmentSupported)) (r.(mHDRGainmapEnabled)) (r.(mInternalDataSpace))
    (r.(mErrorState)) (r.(mErrorFrameNumbers)) (r.(mCaptureResults)) (r.(mStatusTracker))
    (r.(trace)).
Definition set_mYuvBufferAcquired (v : bool) (r : HeicCompositeStream) : HeicCompositeStream :=
  mkStream (r.(mUseHeic)) (r.(mFormat)) (r.(mGainmapFormat)) (r.(mNumOutputTiles))
    (r.(mNumGainmapOutputTiles)) (r.(mOutputWidth)) (r.(mOutputHeight))
    (r.(mGainmapOutputWidth)) (r.(mGainmapOutputHeight)) (r.(mMaxHeicBufferSize))
    (r.(mGridWidth)) (r.(mGridHeight)) (r.(mGainmapGridWidth)) (r.(mGainmapGridHeight))
    (r.(mGridRows)) (r.(mGridCols)) (r.(mGainmapGridRows)) (r.(mGainmapGridCols)) (r.(mUseGrid))
    (r.(mGainmapUseGrid)) (r.(mAppSegmentStreamId)) (r.(mMainImageStreamId))
    (r.(mAppSegmentMaxSize)) (r.(mAppSegmentFrameNumbers)) (r.(mMainImageFrameNumbers)) v
    (r.(mDequeuedOutputBufferCnt)) (r.(mSettingsByFrameNumber)) (r.(mInputAppSegmentBuffers))
    (r.(mCodecOutputBuffers)) (r.(mGainmapCodecOutputBuffers))
    (r.(mCodecOutputBufferFrameNumbers)) (r.(mCodecGainmapOutputBufferFrameNumbers))
    (r.(mCodecOutputCounter)) (r.(mCodecGainmapOutputCounter)) (r.(mQuality))
    (r.(mInputYuvBuffers)) (r.(mCodecInputBuffers)) (r.(mGainmapCodecInputBuffers))
    (r.(mGridTimestampUs)) (r.(mPendingInputFrames)) (r.(mExifErrorFrameNumbers))
    (r.(mAppSegmentSupported)) (r.(mHDRGainmapEnabled)) (r.(mInternalDataSpace))
    (r.(mErrorState)) (r.(mErrorFrameNumbers)) (r.(mCaptureResults)) (r.(mStatusTracker))
    (r.(trace)).
Definition set_mDequeuedOutputBufferCnt (v : Z) (r : HeicCompositeStream) : HeicCompositeStream :=
  mkStream (r.(mUseHeic)) (r.(mFormat)) (r.(mGainmapFormat)) (r.(mNumOutputTiles))
    (r.(mNumGainmapOutputTiles)) (r.(mOutputWidth)) (r.(mOutputHeight))
    (r.(mGainmapOutputWidth)) (r.(mGainmapOutputHeight)) (r.(mMaxHeicBufferSize))
    (r.(mGridWidth)) (r.(mGridHeight)) (r.(mGainmapGridWidth)) (r.(mGainmapGridHeight))
    (r.(mGridRows)) (r.(mGridCols)) (r.(mGainmapGridRows)) (r.(mGainmapGridCols)) (r.(mUseGrid))
    (r.(mGainmapUseGrid)) (r.(mAppSegmentStreamId)) (r.(mMainImageStreamId))
    (r.(mAppSegmentMaxSize)) (r.(mAppSegmentFrameNumbers)) (r.(mMainImageFrameNumbers))
    (r.(mYuvBufferAcquired)) v (r.(mSettingsByFrameNumber)) (r.(mInputAppSegmentBuffers))
    (r.(mCodecOutputBuffers)) (r.(mGainmapCodecOutputBuffers))
    (r.(mCodecOutputBufferFrameNumbers)) (r.(mCodecGainmapOutputBufferFrameNumbers))
    (r.(mCodecOutputCounter)) (r.(mCodecGainmapOutputCounter)) (r.(mQuality))
    (r.(mInputYuvBuffers)) (r.(mCodecInputBuffers)) (r.(mGainmapCodecInputBuffers))
    (r.(mGridTimestampUs)) (r.(mPendingInputFrames)) (r.(mExifErrorFrameNumbers))
    (r.(mAppSegmentSupported)) (r.(mHDRGainmapEnabled)) (r.(mInternalDataSpace))
    (r.(mErrorState)) (r.(mErrorFrameNumbers)) (r.(mCaptureResults)) (r.(mStatusTracker))
    (r.(trace)).
Definition set_mSettingsByFrameNumber (v : list (Z * HeicSettings)) (r : HeicCompositeStream) : HeicCompositeStream :=
  mkStream (r.(mUseHeic)) (r.(mFormat)) (r.(mGainmapFormat)) (r.(mNumOutputTiles))
    (r.(mNumGainmapOutputTiles)) (r.(mOutputWidth)) (r.(mOutputHeight))
    (r.(mGainmapOutputWidth)) (r.(mGainmapOutputHeight)) (r.(mMaxHeicBufferSize))
    (r.(mGridWidth)) (r.(mGridHeight)) (r.(mGainmapGridWidth)) (r.(mGainmapGridHeight))
    (r.(mGridRows)) (r.(mGridCols)) (r.(mGainmapGridRows)) (r.(mGainmapGridCols)) (r.(mUseGrid))
    (r.(mGainmapUseGrid)) (r.(mAppSegmentStreamId)) (r.(mMainImageStreamId))
    (r.(mAppSegmentMaxSize)) (r.(mAppSegmentFrameNumbers)) (r.(mMainImageFrameNumbers))
    (r.(mYuvBufferAcquired)) (r.(mDequeuedOutputBufferCnt)) v (r.(mInputAppSegmentBuffers))
    (r.(mCodecOutputBuffers)) (r.(mGainmapCodecOutputBuffers))
    (r.(mCodecOutputBufferFrameNumbers)) (r.(mCodecGainmapOutputBufferFrameNumbers))
    (r.(mCodecOutputCounter)) (r.(mCodecGainmapOutputCounter)) (r.(mQuality))
    (r.(mInputYuvBuffers)) (r.(mCodecInputBuffers)) (r.(mGainmapCodecInputBuffers))
    (r.(mGridTimestampUs)) (r.(mPendingInputFrames)) (r.(mExifErrorFrameNumbers))
    (r.(mAppSegmentSupported)) (r.(mHDRGainmapEnabled)) (r.(mInternalDataSpace))
    (r.(mErrorState)) (r.(mErrorFrameNumbers)) (r.(mCaptureResults)) (r.(mStatusTracker))
    (r.(trace)).
Definition set_mInputAppSegmentBuffers (v : list Z) (r : HeicCompositeStream) : HeicCompositeStream :=
  mkStream (r.(mUseHeic)) (r.(mFormat)) (r.(mGainmapFormat)) (r.(mNumOutputTiles))
    (r.(mNumGainmapOutputTiles)) (r.(mOutputWidth)) (r.(mOutputHeight))
    (r.(mGainmapOutputWidth)) (r.(mGainmapOutputHeight)) (r.(mMaxHeicBufferSize))
    (r.(mGridWidth)) (r.(mGridHeight)) (r.(mGainmapGridWidth)) (r.(mGainmapGridHeight))
    (r.(mGridRows)) (r.(mGridCols)) (r.(mGainmapGridRows)) (r.(mGainmapGridCols)) (r.(mUseGrid))
    (r.(mGainmapUseGrid)) (r.(mAppSegmentStreamId)) (r.(mMainImageStreamId))
    (r.(mAppSegmentMaxSize)) (r.(mAppSegmentFrameNumbers)) (r.(mMainImageFrameNumbers))
    (r.(mYuvBufferAcquired)) (r.(mDequeuedOutputBufferCnt)) (r.(mSettingsByFrameNumber)) v
    (r.(mCodecOutputBuffers)) (r.(mGainmapCodecOutputBuffers))
    (r.(mCodecOutputBufferFrameNumbers)) (r.(mCodecGainmapOutputBufferFrameNumbers))
    (r.(mCodecOutputCounter)) (r.(mCodecGainmapOutputCounter)) (r.(mQuality))
    (r.(mInputYuvBuffers)) (r.(mCodecInputBuffers)) (r.(mGainmapCodecInputBuffers))
    (r.(mGridTimestampUs)) (r.(mPendingInputFrames)) (r.(mExifErrorFrameNumbers))
    (r.(mAppSegmentSupported)) (r.(mHDRGainmapEnabled)) (r.(mInternalDataSpace))
    (r.(mErrorState)) (r.(mErrorFrameNumbers)) (r.(mCaptureResults)) (r.(mStatusTracker))
    (r.(trace)).
Definition set_mCodecOutputBuffers (v : list CodecOutputBufferInfo) (r : HeicCompositeStream) : HeicCompositeStream :=
  mkStream (r.(mUseHeic)) (r.(mFormat)) (r.(mGainmapFormat)) (r.(mNumOutputTiles))
    (r.(mNumGainmapOutputTiles)) (r.(mOutputWidth)) (r.(mOutputHeight))
    (r.(mGainmapOutputWidth)) (r.(mGainmapOutputHeight)) (r.(mMaxHeicBufferSize))
    (r.(mGridWidth)) (r.(mGridHeight)) (r.(mGainmapGridWidth)) (r.(mGainmapGridHeight))
    (r.(mGridRows)) (r.(mGridCols)) (r.(mGainmapGridRows)) (r.(mGainmapGridCols)) (r.(mUseGrid))
    (r.(mGainmapUseGrid)) (r.(mAppSegmentStreamId)) (r.(mMainImageStreamId))
    (r.(mAppSegmentMaxSize)) (r.(mAppSegmentFrameNumbers)) (r.(mMainImageFrameNumbers))
    (r.(mYuvBufferAcquired)) (r.(mDequeuedOutputBufferCnt)) (r.(mSettingsByFrameNumber))
    (r.(mInputAppSegmentBuffers)) v (r.(mGainmapCodecOutputBuffers))
    (r.(mCodecOutputBufferFrameNumbers)) (r.(mCodecGainmapOutputBufferFrameNumbers))
    (r.(mCodecOutputCounter)) (r.(mCodecGainmapOutputCounter)) (r.(mQuality))
    (r.(mInputYuvBuffers)) (r.(mCodecInputBuffers)) (r.(mGainmapCodecInputBuffers))
    (r.(mGridTimestampUs)) (r.(mPendingInputFrames)) (r.(mExifErrorFrameNumbers))
    (r.(mAppSegmentSupported)) (r.(mHDRGainmapEnabled)) (r.(mInternalDataSpace))
    (r.(mErrorState)) (r.(mErrorFrameNumbers)) (r.(mCaptureResults)) (r.(mStatusTracker))
    (r.(trace)).
Definition set_mGainmapCodecOutputBuffers (v : list CodecOutputBufferInfo) (r : HeicCompositeStream) : HeicCompositeStream :=
  mkStream (r.(mUseHeic)) (r.(mFormat)) (r.(mGainmapFormat)) (r.(mNumOutputTiles))
    (r.(mNumGainmapOutputTiles)) (r.(mOutputWidth)) (r.(mOutputHeight))
    (r.(mGainmapOutputWidth)) (r.(mGainmapOutputHeight)) (r.(mMaxHeicBufferSize))
    (r.(mGridWidth)) (r.(mGridHeight)) (r.(mGainmapGridWidth)) (r.(mGainmapGridHeight))
    (r.(mGridRows)) (r.(mGridCols)) (r.(mGainmapGridRows)) (r.(mGainmapGridCols)) (r.(mUseGrid))
    (r.(mGainmapUseGrid)) (r.(mAppSegmentStreamId)) (r.(mMainImageStreamId))
    (r.(mAppSegmentMaxSize)) (r.(mAppSegmentFrameNumbers)) (r.(mMainImageFrameNumbers))
    (r.(mYuvBufferAcquired)) (r.(mDequeuedOutputBufferCnt)) (r.(mSettingsByFrameNumber))
    (r.(mInputAppSegmentBuffers)) (r.(mCodecOutputBuffers)) v
    (r.(mCodecOutputBufferFrameNumbers)) (r.(mCodecGainmapOutputBufferFrameNumbers))
    (r.(mCodecOutputCounter)) (r.(mCodecGainmapOutputCounter)) (r.(mQuality))
    (r.(mInputYuvBuffers)) (r.(mCodecInputBuffers)) (r.(mGainmapCodecInputBuffers))
    (r.(mGridTimestampUs)) (r.(mPendingInputFrames)) (r.(mExifErrorFrameNumbers))
    (r.(mAppSegmentSupported)) (r.(mHDRGainmapEnabled)) (r.(mInternalDataSpace))
    (r.(mErrorState)) (r.(mErrorFrameNumbers)) (r.(mCaptureResults)) (r.(mStatusTracker))
    (r.(trace)).
Definition set_mCodecOutputBufferFrameNumbers (v : list Z) (r : HeicCompositeStream) : HeicCompositeStream :=
  mkStream (r.(mUseHeic)) (r.(mFormat)) (r.(mGainmapFormat)) (r.(mNumOutputTiles))
    (r.(mNumGainmapOutputTiles)) (r.(mOutputWidth)) (r.(mOutputHeight))
    (r.(mGainmapOutputWidth)) (r.(mGainmapOutputHeight)) (r.(mMaxHeicBufferSize))
    (r.(mGridWidth)) (r.(mGridHeight)) (r.(mGainmapGridWidth)) (r.(mGainmapGridHeight))
    (r.(mGridRows)) (r.(mGridCols)) (r.(mGainmapGridRows)) (r.(mGainmapGridCols)) (r.(mUseGrid))
    (r.(mGainmapUseGrid)) (r.(mAppSegmentStreamId)) (r.(mMainImageStreamId))
    (r.(mAppSegmentMaxSize)) (r.(mAppSegmentFrameNumbers)) (r.(mMainImageFrameNumbers))
    (r.(mYuvBufferAcquired)) (r.(mDequeuedOutputBufferCnt)) (r.(mSettingsByFrameNumber))
    (r.(mInputAppSegmentBuffers)) (r.(mCodecOutputBuffers)) (r.(mGainmapCodecOutputBuffers)) v
    (r.(mCodecGainmapOutputBufferFrameNumbers)) (r.(mCodecOutputCounter))
    (r.(mCodecGainmapOutputCounter)) (r.(mQuality)) (r.(mInputYuvBuffers))
    (r.(mCodecInputBuffers)) (r.(mGainmapCodecInputBuffers)) (r.(mGridTimestampUs))
    (r.(mPendingInputFrames)) (r.(mExifErrorFrameNumbers)) (r.(mAppSegmentSupported))
    (r.(mHDRGainmapEnabled)) (r.(mInternalDataSpace)) (r.(mErrorState)) (r.(mErrorFrameNumbers))
    (r.(mCaptureResults)) (r.(mStatusTracker)) (r.(trace)).
Definition set_mCodecGainmapOutputBufferFrameNumbers (v : list Z) (r : HeicCompositeStream) : HeicCompositeStream :=
  mkStream (r.(mUseHeic)) (r.(mFormat)) (r.(mGainmapFormat)) (r.(mNumOutputTiles))
    (r.(mNumGainmapOutputTiles)) (r.(mOutputWidth)) (r.(mOutputHeight))
    (r.(mGainmapOutputWidth)) (r.(mGainmapOutputHeight)) (r.(mMaxHeicBufferSize))
    (r.(mGridWidth)) (r.(mGridHeight)) (r.(mGainmapGridWidth)) (r.(mGainmapGridHeight))
    (r.(mGridRows)) (r.(mGridCols)) (r.(mGainmapGridRows)) (r.(mGainmapGridCols)) (r.(mUseGrid))
    (r.(mGainmapUseGrid)) (r.(mAppSegmentStreamId)) (r.(mMainImageStreamId))
    (r.(mAppSegmentMaxSize)) (r.(mAppSegmentFrameNumbers)) (r.(mMainImageFrameNumbers))
    (r.(mYuvBufferAcquired)) (r.(mDequeuedOutputBufferCnt)) (r.(mSettingsByFrameNumber))
    (r.(mInputAppSegmentBuffers)) (r.(mCodecOutputBuffers)) (r.(mGainmapCodecOutputBuffers))
    (r.(mCodecOutputBufferFrameNumbers)) v (r.(mCodecOutputCounter))
    (r.(mCodecGainmapOutputCounter)) (r.(mQuality)) (r.(mInputYuvBuffers))
    (r.(mCodecInputBuffers)) (r.(mGainmapCodecInputBuffers)) (r.(mGridTimestampUs))
    (r.(mPendingInputFrames)) (r.(mExifErrorFrameNumbers)) (r.(mAppSegmentSupported))
    (r.(mHDRGainmapEnabled)) (r.(mInternalDataSpace)) (r.(mErrorState)) (r.(mErrorFrameNumbers))
    (r.(mCaptureResults)) (r.(mStatusTracker)) (r.(trace)).
Definition set_mCodecOutputCounter (v : Z) (r : HeicCompositeStream) : HeicCompositeStream :=
  mkStream (r.(mUseHeic)) (r.(mFormat)) (r.(mGainmapFormat)) (r.(mNumOutputTiles))
    (r.(mNumGainmapOutputTiles)) (r.(mOutputWidth)) (r.(mOutputHeight))
    (r.(mGainmapOutputWidth)) (r.(mGainmapOutputHeight)) (r.(mMaxHeicBufferSize))
    (r.(mGridWidth)) (r.(mGridHeight)) (r.(mGainmapGridWidth)) (r.(mGainmapGridHeight))
    (r.(mGridRows)) (r.(mGridCols)) (r.(mGainmapGridRows)) (r.(mGainmapGridCols)) (r.(mUseGrid))
    (r.(mGainmapUseGrid)) (r.(mAppSegmentStreamId)) (r.(mMainImageStreamId))
    (r.(mAppSegmentMaxSize)) (r.(mAppSegmentFrameNumbers)) (r.(mMainImageFrameNumbers))
    (r.(mYuvBufferAcquired)) (r.(mDequeuedOutputBufferCnt)) (r.(mSettingsByFrameNumber))
    (r.(mInputAppSegmentBuffers)) (r.(mCodecOutputBuffers)) (r.(mGainmapCodecOutputBuffers))
    (r.(mCodecOutputBufferFrameNumbers)) (r.(mCodecGainmapOutputBufferFrameNumbers)) v
    (r.(mCodecGainmapOutputCounter)) (r.(mQuality)) (r.(mInputYuvBuffers))
    (r.(mCodecInputBuffers)) (r.(mGainmapCodecInputBuffers)) (r.(mGridTimestampUs))
    (r.(mPendingInputFrames)) (r.(mExifErrorFrameNumbers)) (r.(mAppSegmentSupported))
    (r.(mHDRGainmapEnabled)) (r.(mInternalDataSpace)) (r.(mErrorState)) (r.(mErrorFrameNumbers))
    (r.(mCaptureResults)) (r.(mStatusTracker)) (r.(trace)).
Definition set_mCodecGainmapOutputCounter (v : Z) (r : HeicCompositeStream) : HeicCompositeStream :=
  mkStream (r.(mUseHeic)) (r.(mFormat)) (r.(mGainmapFormat)) (r.(mNumOutputTiles))
    (r.(mNumGainmapOutputTiles)) (r.(mOutputWidth)) (r.(mOutputHeight))
    (r.(mGainmapOutputWidth)) (r.(mGainmapOutputHeight)) (r.(mMaxHeicBufferSize))
    (r.(mGridWidth)) (r.(mGridHeight)) (r.(mGainmapGridWidth)) (r.(mGainmapGridHeight))
    (r.(mGridRows)) (r.(mGridCols)) (r.(mGainmapGridRows)) (r.(mGainmapGridCols)) (r.(mUseGrid))
    (r.(mGainmapUseGrid)) (r.(mAppSegmentStreamId)) (r.(mMainImageStreamId))
    (r.(mAppSegmentMaxSize)) (r.(mAppSegmentFrameNumbers)) (r.(mMainImageFrameNumbers))
    (r.(mYuvBufferAcquired)) (r.(mDequeuedOutputBufferCnt)) (r.(mSettingsByFrameNumber))
    (r.(mInputAppSegmentBuffers)) (r.(mCodecOutputBuffers)) (r.(mGainmapCodecOutputBuffers))
    (r.(mCodecOutputBufferFrameNumbers)) (r.(mCodecGainmapOutputBufferFrameNumbers))
    (r.(mCodecOutputCounter)) v (r.(mQuality)) (r.(mInputYuvBuffers)) (r.(mCodecInputBuffers))
    (r.(mGainmapCodecInputBuffers)) (r.(mGridTimestampUs)) (r.(mPendingInputFrames))
    (r.(mExifErrorFrameNumbers)) (r.(mAppSegmentSupported)) (r.(mHDRGainmapEnabled))
    (r.(mInternalDataSpace)) (r.(mErrorState)) (r.(mErrorFrameNumbers)) (r.(mCaptureResults))
    (r.(mStatusTracker)) (r.(trace)).
Definition set_mQuality (v : Z) (r : HeicCompositeStream) : HeicCompositeStream :=
  mkStream (r.(mUseHeic)) (r.(mFormat)) (r.(mGainmapFormat)) (r.(mNumOutputTiles))
    (r.(mNumGainmapOutputTiles)) (r.(mOutputWidth)) (r.(mOutputHeight))
    (r.(mGainmapOutputWidth)) (r.(mGainmapOutputHeight)) (r.(mMaxHeicBufferSize))
    (r.(mGridWidth)) (r.(mGridHeight)) (r.(mGainmapGridWidth)) (r.(mGainmapGridHeight))
    (r.(mGridRows)) (r.(mGridCols)) (r.(mGainmapGridRows)) (r.(mGainmapGridCols)) (r.(mUseGrid))
    (r.(mGainmapUseGrid)) (r.(mAppSegmentStreamId)) (r.(mMainImageStreamId))
    (r.(mAppSegmentMaxSize)) (r.(mAppSegmentFrameNumbers)) (r.(mMainImageFrameNumbers))
    (r.(mYuvBufferAcquired)) (r.(mDequeuedOutputBufferCnt)) (r.(mSettingsByFrameNumber))
    (r.(mInputAppSegmentBuffers)) (r.(mCodecOutputBuffers)) (r.(mGainmapCodecOutputBuffers))
    (r.(mCodecOutputBufferFrameNumbers)) (r.(mCodecGainmapOutputBufferFrameNumbers))
    (r.(mCodecOutputCounter)) (r.(mCodecGainmapOutputCounter)) v (r.(mInputYuvBuffers))
    (r.(mCodecInputBuffers)) (r.(mGainmapCodecInputBuffers)) (r.(mGridTimestampUs))
    (r.(mPendingInputFrames)) (r.(mExifErrorFrameNumbers)) (r.(mAppSegmentSupported))
    (r.(mHDRGainmapEnabled)) (r.(mInternalDataSpace)) (r.(mErrorState)) (r.(mErrorFrameNumbers))
    (r.(mCaptureResults)) (r.(mStatusTracker)) (r.(trace)).
Definition set_mInputYuvBuffers (v : list Z) (r : HeicCompositeStream) : HeicCompositeStream :=
  mkStream (r.(mUseHeic)) (r.(mFormat)) (r.(mGainmapFormat)) (r.(mNumOutputTiles))
    (r.(mNumGainmapOutputTiles)) (r.(mOutputWidth)) (r.(mOutputHeight))
    (r.(mGainmapOutputWidth)) (r.(mGainmapOutputHeight)) (r.(mMaxHeicBufferSize))
    (r.(mGridWidth)) (r.(mGridHeight)) (r.(mGainmapGridWidth)) (r.(mGainmapGridHeight))
    (r.(mGridRows)) (r.(mGridCols)) (r.(mGainmapGridRows)) (r.(mGainmapGridCols)) (r.(mUseGrid))
    (r.(mGainmapUseGrid)) (r.(mAppSegmentStreamId)) (r.(mMainImageStreamId))
    (r.(mAppSegmentMaxSize)) (r.(mAppSegmentFrameNumbers)) (r.(mMainImageFrameNumbers))
    (r.(mYuvBufferAcquired)) (r.(mDequeuedOutputBufferCnt)) (r.(mSettingsByFrameNumber))
    (r.(mInputAppSegmentBuffers)) (r.(mCodecOutputBuffers)) (r.(mGainmapCodecOutputBuffers))
    (r.(mCodecOutputBufferFrameNumbers)) (r.(mCodecGainmapOutputBufferFrameNumbers))
    (r.(mCodecOutputCounter)) (r.(mCodecGainmapOutputCounter)) (r.(mQuality)) v
    (r.(mCodecInputBuffers)) (r.(mGainmapCodecInputBuffers)) (r.(mGridTimestampUs))
    (r.(mPendingInputFrames)) (r.(mExifErrorFrameNumbers)) (r.(mAppSegmentSupported))
    (r.(mHDRGainmapEnabled)) (r.(mInternalDataSpace)) (r.(mErrorState)) (r.(mErrorFrameNumbers))
    (r.(mCaptureResults)) (r.(mStatusTracker)) (r.(trace)).
Definition set_mCodecInputBuffers (v : list Z) (r : HeicCompositeStream) : HeicCompositeStream :=
  mkStream (r.(mUseHeic)) (r.(mFormat)) (r.(mGainmapFormat)) (r.(mNumOutputTiles))
    (r.(mNumGainmapOutputTiles)) (r.(mOutputWidth)) (r.(mOutputHeight))
    (r.(mGainmapOutputWidth)) (r.(mGainmapOutputHeight)) (r.(mMaxHeicBufferSize))
    (r.(mGridWidth)) (r.(mGridHeight)) (r.(mGainmapGridWidth)) (r.(mGainmapGridHeight))
    (r.(mGridRows)) (r.(mGridCols)) (r.(mGainmapGridRows)) (r.(mGainmapGridCols)) (r.(mUseGrid))
    (r.(mGainmapUseGrid)) (r.(mAppSegmentStreamId)) (r.(mMainImageStreamId))
    (r.(mAppSegmentMaxSize)) (r.(mAppSegmentFrameNumbers)) (r.(mMainImageFrameNumbers))
    (r.(mYuvBufferAcquired)) (r.(mDequeuedOutputBufferCnt)) (r.(mSettingsByFrameNumber))
    (r.(mInputAppSegmentBuffers)) (r.(mCodecOutputBuffers)) (r.(mGainmapCodecOutputBuffers))
    (r.(mCodecOutputBufferFrameNumbers)) (r.(mCodecGainmapOutputBufferFrameNumbers))
    (r.(mCodecOutputCounter)) (r.(mCodecGainmapOutputCounter)) (r.(mQuality))
    (r.(mInputYuvBuffers)) v (r.(mGainmapCodecInputBuffers)) (r.(mGridTimestampUs))
    (r.(mPendingInputFrames)) (r.(mExifErrorFrameNumbers)) (r.(mAppSegmentSupported))
    (r.(mHDRGainmapEnabled)) (r.(mInternalDataSpace)) (r.(mErrorState)) (r.(mErrorFrameNumbers))
    (r.(mCaptureResults)) (r.(mStatusTracker)) (r.(trace)).
Definition set_mGainmapCodecInputBuffers (v : list Z) (r : HeicCompositeStream) : HeicCompositeStream :=
  mkStream (r.(mUseHeic)) (r.(mFormat)) (r.(mGainmapFormat)) (r.(mNumOutputTiles))
    (r.(mNumGainmapOutputTiles)) (r.(mOutputWidth)) (r.(mOutputHeight))
    (r.(mGainmapOutputWidth)) (r.(mGainmapOutputHeight)) (r.(mMaxHeicBufferSize))
    (r.(mGridWidth)) (r.(mGridHeight)) (r.(mGainmapGridWidth)) (r.(mGainmapGridHeight))
    (r.(mGridRows)) (r.(mGridCols)) (r.(mGainmapGridRows)) (r.(mGainmapGridCols)) (r.(mUseGrid))
    (r.(mGainmapUseGrid)) (r.(mAppSegmentStreamId)) (r.(mMainImageStreamId))
    (r.(mAppSegmentMaxSize)) (r.(mAppSegmentFrameNumbers)) (r.(mMainImageFrameNumbers))
    (r.(mYuvBufferAcquired)) (r.(mDequeuedOutputBufferCnt)) (r.(mSettingsByFrameNumber))
    (r.(mInputAppSegmentBuffers)) (r.(mCodecOutputBuffers)) (r.(mGainmapCodecOutputBuffers))
    (r.(mCodecOutputBufferFrameNumbers)) (r.(mCodecGainmapOutputBufferFrameNumbers))
    (r.(mCodecOutputCounter)) (r.(mCodecGainmapOutputCounter)) (r.(mQuality))
    (r.(mInputYuvBuffers)) (r.(mCodecInputBuffers)) v (r.(mGridTimestampUs))
    (r.(mPendingInputFrames)) (r.(mExifErrorFrameNumbers)) (r.(mAppSegmentSupported))
    (r.(mHDRGainmapEnabled)) (r.(mInternalDataSpace)) (r.(mErrorState)) (r.(mErrorFrameNumbers))
    (r.(mCaptureResults)) (r.(mStatusTracker)) (r.(trace)).
Definition set_mGridTimestampUs (v : Z) (r : HeicCompositeStream) : HeicCompositeStream :=
  mkStream (r.(mUseHeic)) (r.(mFormat)) (r.(mGainmapFormat)) (r.(mNumOutputTiles))
    (r.(mNumGainmapOutputTiles)) (r.(mOutputWidth)) (r.(mOutputHeight))
    (r.(mGainmapOutputWidth)) (r.(mGainmapOutputHeight)) (r.(mMaxHeicBufferSize))
    (r.(mGridWidth)) (r.(mGridHeight)) (r.(mGainmapGridWidth)) (r.(mGainmapGridHeight))
    (r.(mGridRows)) (r.(mGridCols)) (r.(mGainmapGridRows)) (r.(mGainmapGridCols)) (r.(mUseGrid))
    (r.(mGainmapUseGrid)) (r.(mAppSegmentStreamId)) (r.(mMainImageStreamId))
    (r.(mAppSegmentMaxSize)) (r.(mAppSegmentFrameNumbers)) (r.(mMainImageFrameNumbers))
    (r.(mYuvBufferAcquired)) (r.(mDequeuedOutputBufferCnt)) (r.(mSettingsByFrameNumber))
    (r.(mInputAppSegmentBuffers)) (r.(mCodecOutputBuffers)) (r.(mGainmapCodecOutputBuffers))
    (r.(mCodecOutputBufferFrameNumbers)) (r.(mCodecGainmapOutputBufferFrameNumbers))
    (r.(mCodecOutputCounter)) (r.(mCodecGainmapOutputCounter)) (r.(mQuality))
    (r.(mInputYuvBuffers)) (r.(mCodecInputBuffers)) (r.(mGainmapCodecInputBuffers)) v
    (r.(mPendingInputFrames)) (r.(mExifErrorFrameNumbers)) (r.(mAppSegmentSupported))
    (r.(mHDRGainmapEnabled)) (r.(mInternalDataSpace)) (r.(mErrorState)) (r.(mErrorFrameNumbers))
    (r.(mCaptureResults)) (r.(mStatusTracker)) (r.(trace)).
Definition set_mPendingInputFrames (v : list (Z * InputFrame)) (r : HeicCompositeStream) : HeicCompositeStream :=
  mkStream (r.(mUseHeic)) (r.(mFormat)) (r.(mGainmapFormat)) (r.(mNumOutputTiles))
    (r.(mNumGainmapOutputTiles)) (r.(mOutputWidth)) (r.(mOutputHeight))
    (r.(mGainmapOutputWidth)) (r.(mGainmapOutputHeight)) (r.(mMaxHeicBufferSize))
    (r.(mGridWidth)) (r.(mGridHeight)) (r.(mGainmapGridWidth)) (r.(mGainmapGridHeight))
    (r.(mGridRows)) (r.(mGridCols)) (r.(mGainmapGridRows)) (r.(mGainmapGridCols)) (r.(mUseGrid))
    (r.(mGainmapUseGrid)) (r.(mAppSegmentStreamId)) (r.(mMainImageStreamId))
    (r.(mAppSegmentMaxSize)) (r.(mAppSegmentFrameNumbers)) (r.(mMainImageFrameNumbers))
    (r.(mYuvBufferAcquired)) (r.(mDequeuedOutputBufferCnt)) (r.(mSettingsByFrameNumber))
    (r.(mInputAppSegmentBuffers)) (r.(mCodecOutputBuffers)) (r.(mGainmapCodecOutputBuffers))
    (r.(mCodecOutputBufferFrameNumbers)) (r.(mCodecGainmapOutputBufferFrameNumbers))
    (r.(mCodecOutputCounter)) (r.(mCodecGainmapOutputCounter)) (r.(mQuality))
    (r.(mInputYuvBuffers)) (r.(mCodecInputBuffers)) (r.(mGainmapCodecInputBuffers))
    (r.(mGridTimestampUs)) v (r.(mExifErrorFrameNumbers)) (r.(mAppSegmentSupported))
    (r.(mHDRGainmapEnabled)) (r.(mInternalDataSpace)) (r.(mErrorState)) (r.(mErrorFrameNumbers))
    (r.(mCaptureResults)) (r.(mStatusTracker)) (r.(trace)).
Definition set_mExifErrorFrameNumbers (v : list Z) (r : HeicCompositeStream) : HeicCompositeStream :=
  mkStream (r.(mUseHeic)) (r.(mFormat)) (r.(mGainmapFormat)) (r.(mNumOutputTiles))
    (r.(mNumGainmapOutputTiles)) (r.(mOutputWidth)) (r.(mOutputHeight))
    (r.(mGainmapOutputWidth)) (r.(mGainmapOutputHeight)) (r.(mMaxHeicBufferSize))
    (r.(mGridWidth)) (r.(mGridHeight)) (r.(mGainmapGridWidth)) (r.(mGainmapGridHeight))
    (r.(mGridRows)) (r.(mGridCols)) (r.(mGainmapGridRows)) (r.(mGainmapGridCols)) (r.(mUseGrid))
    (r.(mGainmapUseGrid)) (r.(mAppSegmentStreamId)) (r.(mMainImageStreamId))
    (r.(mAppSegmentMaxSize)) (r.(mAppSegmentFrameNumbers)) (r.(mMainImageFrameNumbers))
    (r.(mYuvBufferAcquired)) (r.(mDequeuedOutputBufferCnt)) (r.(mSettingsByFrameNumber))
    (r.(mInputAppSegmentBuffers)) (r.(mCodecOutputBuffers)) (r.(mGainmapCodecOutputBuffers))
    (r.(mCodecOutputBufferFrameNumbers)) (r.(mCodecGainmapOutputBufferFrameNumbers))
    (r.(mCodecOutputCounter)) (r.(mCodecGainmapOutputCounter)) (r.(mQuality))
    (r.(mInputYuvBuffers)) (r.(mCodecInputBuffers)) (r.(mGainmapCodecInputBuffers))
    (r.(mGridTimestampUs)) (r.(mPendingInputFrames)) v (r.(mAppSegmentSupported))
    (r.(mHDRGainmapEnabled)) (r.(mInternalDataSpace)) (r.(mErrorState)) (r.(mErrorFrameNumbers))
    (r.(mCaptureResults)) (r.(mStatusTracker)) (r.(trace)).
Definition set_mErrorState (v : bool) (r : HeicCompositeStream) : HeicCompositeStream :=
  mkStream (r.(mUseHeic)) (r.(mFormat)) (r.(mGainmapFormat)) (r.(mNumOutputTiles))
    (r.(mNumGainmapOutputTiles)) (r.(mOutputWidth)) (r.(mOutputHeight))
    (r.(mGainmapOutputWidth)) (r.(mGainmapOutputHeight)) (r.(mMaxHeicBufferSize))
    (r.(mGridWidth)) (r.(mGridHeight)) (r.(mGainmapGridWidth)) (r.(mGainmapGridHeight))
    (r.(mGridRows)) (r.(mGridCols)) (r.(mGainmapGridRows)) (r.(mGainmapGridCols)) (r.(mUseGrid))
    (r.(mGainmapUseGrid)) (r.(mAppSegmentStreamId)) (r.(mMainImageStreamId))
    (r.(mAppSegmentMaxSize)) (r.(mAppSegmentFrameNumbers)) (r.(mMainImageFrameNumbers))
    (r.(mYuvBufferAcquired)) (r.(mDequeuedOutputBufferCnt)) (r.(mSettingsByFrameNumber))
    (r.(mInputAppSegmentBuffers)) (r.(mCodecOutputBuffers)) (r.(mGainmapCodecOutputBuffers))
    (r.(mCodecOutputBufferFrameNumbers)) (r.(mCodecGainmapOutputBufferFrameNumbers))
    (r.(mCodecOutputCounter)) (r.(mCodecGainmapOutputCounter)) (r.(mQuality))
    (r.(mInputYuvBuffers)) (r.(mCodecInputBuffers)) (r.(mGainmapCodecInputBuffers))
    (r.(mGridTimestampUs)) (r.(mPendingInputFrames)) (r.(mExifErrorFrameNumbers))
    (r.(mAppSegmentSupported)) (r.(mHDRGainmapEnabled)) (r.(mInternalDataSpace)) v
    (r.(mErrorFrameNumbers)) (r.(mCaptureResults)) (r.(mStatusTracker)) (r.(trace)).
Definition set_mErrorFrameNumbers (v : list Z) (r : HeicCompositeStream) : HeicCompositeStream :=
  mkStream (r.(mUseHeic)) (r.(mFormat)) (r.(mGainmapFormat)) (r.(mNumOutputTiles))
    (r.(mNumGainmapOutputTiles)) (r.(mOutputWidth)) (r.(mOutputHeight))
    (r.(mGainmapOutputWidth)) (r.(mGainmapOutputHeight)) (r.(mMaxHeicBufferSize))
    (r.(mGridWidth)) (r.(mGridHeight)) (r.(mGainmapGridWidth)) (r.(mGainmapGridHeight))
    (r.(mGridRows)) (r.(mGridCols)) (r.(mGainmapGridRows)) (r.(mGainmapGridCols)) (r.(mUseGrid))
    (r.(mGainmapUseGrid)) (r.(mAppSegmentStreamId)) (r.(mMainImageStreamId))
    (r.(mAppSegmentMaxSize)) (r.(mAppSegmentFrameNumbers)) (r.(mMainImageFrameNumbers))
    (r.(mYuvBufferAcquired)) (r.(mDequeuedOutputBufferCnt)) (r.(mSettingsByFrameNumber))
    (r.(mInputAppSegmentBuffers)) (r.(mCodecOutputBuffers)) (r.(mGainmapCodecOutputBuffers))
    (r.(mCodecOutputBufferFrameNumbers)) (r.(mCodecGainmapOutputBufferFrameNumbers))
    (r.(mCodecOutputCounter)) (r.(mCodecGainmapOutputCounter)) (r.(mQuality))
    (r.(mInputYuvBuffers)) (r.(mCodecInputBuffers)) (r.(mGainmapCodecInputBuffers))
    (r.(mGridTimestampUs)) (r.(mPendingInputFrames)) (r.(mExifErrorFrameNumbers))
    (r.(mAppSegmentSupported)) (r.(mHDRGainmapEnabled)) (r.(mInternalDataSpace))
    (r.(mErrorState)) v (r.(mCaptureResults)) (r.(mStatusTracker)) (r.(trace)).
Definition set_mCaptureResults (v : list (Z * (Z * CameraMetadata))) (r : HeicCompositeStream) : HeicCompositeStream :=
  mkStream (r.(mUseHeic)) (r.(mFormat)) (r.(mGainmapFormat)) (r.(mNumOutputTiles))
    (r.(mNumGainmapOutputTiles)) (r.(mOutputWidth)) (r.(mOutputHeight))
    (r.(mGainmapOutputWidth)) (r.(mGainmapOutputHeight)) (r.(mMaxHeicBufferSize))
    (r.(mGridWidth)) (r.(mGridHeight)) (r.(mGainmapGridWidth)) (r.(mGainmapGridHeight))
    (r.(mGridRows)) (r.(mGridCols)) (r.(mGainmapGridRows)) (r.(mGainmapGridCols)) (r.(mUseGrid))
    (r.(mGainmapUseGrid)) (r.(mAppSegmentStreamId)) (r.(mMainImageStreamId))
    (r.(mAppSegmentMaxSize)) (r.(mAppSegmentFrameNumbers)) (r.(mMainImageFrameNumbers))
    (r.(mYuvBufferAcquired)) (r.(mDequeuedOutputBufferCnt)) (r.(mSettingsByFrameNumber))
    (r.(mInputAppSegmentBuffers)) (r.(mCodecOutputBuffers)) (r.(mGainmapCodecOutputBuffers))
    (r.(mCodecOutputBufferFrameNumbers)) (r.(mCodecGainmapOutputBufferFrameNumbers))
    (r.(mCodecOutputCounter)) (r.(mCodecGainmapOutputCounter)) (r.(mQuality))
    (r.(mInputYuvBuffers)) (r.(mCodecInputBuffers)) (r.(mGainmapCodecInputBuffers))
    (r.(mGridTimestampUs)) (r.(mPendingInputFrames)) (r.(mExifErrorFrameNumbers))
    (r.(mAppSegmentSupported)) (r.(mHDRGainmapEnabled)) (r.(mInternalDataSpace))
    (r.(mErrorState)) (r.(mErrorFrameNumbers)) v (r.(mStatusTracker)) (r.(trace)).
Definition set_trace (v : list Event) (r : HeicCompositeStream) : HeicCompositeStream :=
  mkStream (r.(mUseHeic)) (r.(mFormat)) (r.(mGainmapFormat)) (r.(mNumOutputTiles))
    (r.(mNumGainmapOutputTiles)) (r.(mOutputWidth)) (r.(mOutputHeight))
    (r.(mGainmapOutputWidth)) (r.(mGainmapOutputHeight)) (r.(mMaxHeicBufferSize))
    (r.(mGridWidth)) (r.(mGridHeight)) (r.(mGainmapGridWidth)) (r.(mGainmapGridHeight))
    (r.(mGridRows)) (r.(mGridCols)) (r.(mGainmapGridRows)) (r.(mGainmapGridCols)) (r.(mUseGrid))
    (r.(mGainmapUseGrid)) (r.(mAppSegmentStreamId)) (r.(mMainImageStreamId))
    (r.(mAppSegmentMaxSize)) (r.(mAppSegmentFrameNumbers)) (r.(mMainImageFrameNumbers))
    (r.(mYuvBufferAcquired)) (r.(mDequeuedOutputBufferCnt)) (r.(mSettingsByFrameNumber))
    (r.(mInputAppSegmentBuffers)) (r.(mCodecOutputBuffers)) (r.(mGainmapCodecOutputBuffers))
    (r.(mCodecOutputBufferFrameNumbers)) (r.(mCodecGainmapOutputBufferFrameNumbers))
    (r.(mCodecOutputCounter)) (r.(mCodecGainmapOutputCounter)) (r.(mQuality))
    (r.(mInputYuvBuffers)) (r.(mCodecInputBuffers)) (r.(mGainmapCodecInputBuffers))
    (r.(mGridTimestampUs)) (r.(mPendingInputFrames)) (r.(mExifErrorFrameNumbers))
    (r.(mAppSegmentSupported)) (r.(mHDRGainmapEnabled)) (r.(mInternalDataSpace))
    (r.(mErrorState)) (r.(mErrorFrameNumbers)) (r.(mCaptureResults)) (r.(mStatusTracker)) v.

(** ** [std::map<int64_t, V>] as an ascending association list *)

Section OrderedMap.
Variable V : Type.

Fixpoint map_find (k : Z) (m : list (Z * V)) : option V :=
  match m with
  | [] => None
  | (k', v) :: m' => if k' =? k then Some v else map_find k m'
  end.

(** Insert or overwrite, keeping the keys ascending. *)
Fixpoint map_put (k : Z) (v : V) (m : list (Z * V)) : list (Z * V) :=
  match m with
  | [] => [(k, v)]
  | (k', v') :: m' =>
      if k <? k' then (k, v) :: m
      else if k =? k' then (k, v) :: m'
      else (k', v') :: map_put k v m'
  end.

Fixpoint map_erase (k : Z) (m : list (Z * V)) : list (Z * V) :=
  match m with
  | [] => []
  | (k', v') :: m' => if k' =? k then m' else (k', v') :: map_erase k m'
  end.

(** [m[k]]: the entry under [k], value-initialised with [d] when absent. *)
Definition map_at (d : V) (k : Z) (m : list (Z * V)) : V :=
  match map_find k m with Some v => v | None => d end.

(** [m[k].field = ...]: [operator[]] creates the entry when it is absent. *)
Definition map_upd (d : V) (k : Z) (g : V -> V) (m : list (Z * V)) : list (Z * V) :=
  map_put k (g (map_at d k m)) m.

Definition map_mem (k : Z) (m : list (Z * V)) : bool :=
  match map_find k m with Some _ => true | None => false end.
End OrderedMap.

(** [std::set<int64_t>::emplace]. *)
Fixpoint set_emplace (k : Z) (s : list Z) : list Z :=
  match s with
  | [] => [k]
  | k' :: s' =>
      if k <? k' then k :: s
      else if k =? k' then s
      else k' :: set_emplace k s'
  end.

(** ** What the collaborators answer during one worker iteration *)

Record Env : Type := mkEnv {
  (* mOutputSurface *)
  dequeueBuffer : status_t * (Z * Z);              (* status, (anb, fenceFd) *)
  lockAsync : status_t;
  native_window_set_buffers_timestamp : Z -> status_t;
  queueBuffer : Z -> status_t;
  (* the temporary file *)
  memfd_create : Z -> Z;                           (* frame number -> fd *)
  lseek_END : Z -> Z;                              (* fd -> off_t *)
  read_fd : Z -> Z -> Z;                           (* fd, count -> bytes read *)
  (* MediaMuxer *)
  MediaMuxer_create : Z -> option Z;
  setOrientationHint : Z -> status_t;
  addTrack : option AMessage -> Z;
  muxer_start : status_t;
  writeSampleData : list Z -> Z -> Z -> Z -> status_t;
  (* MediaCodec; the boolean selects the gainmap codec *)
  getOutputBuffer : bool -> Z -> status_t * option (list Z);
  getInputBuffer : bool -> Z -> status_t;
  queueInputBuffer : bool -> Z -> status_t;
  setParameters : Z -> status_t;
  copyOneYuvTile : bool -> Z -> Z -> Z -> Z -> status_t;
  (* CpuConsumer::lockNextBuffer, one answer per call; exhausted = NOT_ENOUGH_DATA *)
  appSegmentLocks : list (status_t * LockedBuffer);
  mainImageLocks : list (status_t * LockedBuffer);
  (* ExifUtils *)
  exif_initialize : list Z -> Z -> bool;
  exif_initializeEmpty : bool;
  exif_setFromMetadata : CameraMetadata -> bool;
  exif_setOrientation : Z -> bool;
  exif_generateApp1 : bool;
  exif_app1 : list Z;                              (* getApp1Buffer / getApp1Length *)
  (* libultrahdr *)
  toneMap : bool;
  generateGainMap : option LockedBuffer;           (* the gainmap plane, None on failure *)
  gainmapMetadataFloatToFraction : bool;
  encodeGainmapMetadata : option (list Z);
  (* mInputReadyCondition *)
  waitRelative : status_t
}.

Definition isSome (A : Type) (o : option A) : bool :=
  match o with Some _ => true | None => false end.

Definition isEmpty (A : Type) (l : list A) : bool :=
  match l with [] => true | _ => false end.

Definition emit (e : Event) (s : HeicCompositeStream) : HeicCompositeStream :=
  set_trace (s.(trace) ++ [e]) s.

Definition kMaxOutputSurfaceProducerCount : Z := 1.

(** [mPendingInputFrames[k].field = ...] *)
Definition updFrame (k : Z) (g : InputFrame -> InputFrame) (s : HeicCompositeStream)
  : HeicCompositeStream :=
  set_mPendingInputFrames (map_upd newInputFrame k g s.(mPendingInputFrames)) s.

Definition frameAt (k : Z) (s : HeicCompositeStream) : InputFrame :=
  map_at newInputFrame k s.(mPendingInputFrames).

Section Pipeline.
Variable plat : Platform.

(** ** Producer callbacks *)

Definition onBufferReleased (mError : bool) (mStreamId mFrameNumber : Z)
    (s : HeicCompositeStream) : HeicCompositeStream :=
  if mError then s
  else if mStreamId =? s.(mMainImageStreamId) then
    let s := set_mMainImageFrameNumbers (s.(mMainImageFrameNumbers) ++ [mFrameNumber]) s in
    let s := set_mCodecOutputBufferFrameNumbers
               (s.(mCodecOutputBufferFrameNumbers) ++ [mFrameNumber]) s in
    if s.(mHDRGainmapEnabled) then
      set_mCodecGainmapOutputBufferFrameNumbers
        (s.(mCodecGainmapOutputBufferFrameNumbers) ++ [mFrameNumber]) s
    else s
  else if mStreamId =? s.(mAppSegmentStreamId) then
    set_mAppSegmentFrameNumbers (s.(mAppSegmentFrameNumbers) ++ [mFrameNumber]) s
  else s.

(** [jpegOrientation] / [jpegQuality]: the ANDROID_JPEG_ORIENTATION / _QUALITY entries of
    the request settings, [None] unless the entry has exactly one value.  The entry added
    to the base class's [mPendingCaptureResults] is only read by the base class and is
    not modelled. *)
Definition onBufferRequestForFrameNumber (frameNumber streamId : Z)
    (jpegOrientation jpegQuality : option Z) (s : HeicCompositeStream)
    : HeicCompositeStream :=
  if s.(mErrorState) || negb (streamId =? s.(mMainImageStreamId)) then s
  else
    let orientation := match jpegOrientation with Some o => o | None => 0 end in
    let quality := match jpegQuality with Some q => q | None => kDefaultJpegQuality end in
    set_mSettingsByFrameNumber
      (map_put frameNumber (mkHeicSettings orientation quality 0 (-1) false)
         s.(mSettingsByFrameNumber)) s.

Definition onFrameAvailable (mDataSpace mTimestamp : Z) (s : HeicCompositeStream)
    : HeicCompositeStream :=
  if mDataSpace =? plat.(kAppSegmentDataSpace) then
    if negb s.(mErrorState) then
      set_mInputAppSegmentBuffers (s.(mInputAppSegmentBuffers) ++ [mTimestamp]) s
    else s
  else if mDataSpace =? s.(mInternalDataSpace) then
    if negb s.(mUseGrid) && negb s.(mHDRGainmapEnabled) then s
    else if negb s.(mErrorState) then
      set_mInputYuvBuffers (s.(mInputYuvBuffers) ++ [mTimestamp]) s
    else s
  else s.

(** A compressed output the pipeline keeps: non-empty and not codec configuration. *)
Definition realOutput (b : CodecOutputBufferInfo) : bool :=
  (0 <? b.(size)) && (Z.land b.(flags) plat.(BUFFER_FLAG_CODECCONFIG) =? 0).

Definition onHeicOutputFrameAvailable (outputBufferInfo : CodecOutputBufferInfo)
    (isGainmap : bool) (s : HeicCompositeStream) : HeicCompositeStream :=
  if negb s.(mErrorState) then
    if (0 <? outputBufferInfo.(size)) &&
       (Z.land outputBufferInfo.(flags) plat.(BUFFER_FLAG_CODECCONFIG) =? 0) then
      if isGainmap then
        set_mGainmapCodecOutputBuffers (s.(mGainmapCodecOutputBuffers) ++ [outputBufferInfo]) s
      else
        set_mCodecOutputBuffers (s.(mCodecOutputBuffers) ++ [outputBufferInfo]) s
    else
      emit (EvReleaseOutputBuffer isGainmap outputBufferInfo.(index)) s
  else
    emit (EvReleaseOutputBuffer isGainmap outputBufferInfo.(index)) s.

Definition onHeicInputFrameAvailable (idx : Z) (isGainmap : bool)
    (s : HeicCompositeStream) : HeicCompositeStream :=
  if negb s.(mUseGrid) && negb s.(mHDRGainmapEnabled) then s
  else if isGainmap then
    set_mGainmapCodecInputBuffers (s.(mGainmapCodecInputBuffers) ++ [idx]) s
  else set_mCodecInputBuffers (s.(mCodecInputBuffers) ++ [idx]) s.

(** The four grid keys, when [findInt32] succeeds on all of them. *)
Definition gridKeys (m : AMessage) : option (Z * Z * Z * Z) :=
  match m.(key_grid_rows), m.(key_grid_cols), m.(key_tile_width), m.(key_tile_height) with
  | Some r, Some c, Some w, Some h => Some (r, c, w, h)
  | _, _, _, _ => None
  end.

Definition numTilesOf (m : AMessage) : Z :=
  match m.(key_grid_rows), m.(key_grid_cols) with
  | Some r, Some c => u64 (r * c)
  | _, _ => 1
  end.

(** The rewriting of the reported format shared by both format callbacks: overwrite the
    mime and size, fill in the grid keys when absent, reset the crop, mark as default. *)
Definition fixFormat (useGrid : bool) (w h gw gh rows cols : Z) (m : AMessage) : AMessage :=
  let kw := if m.(mime_is_heic) then m.(key_width) else Some w in
  let kh := if m.(mime_is_heic) then m.(key_height) else Some h in
  let fill := useGrid && negb (isSome (gridKeys m)) in
  mkAMessage true kw kh
    (if fill then Some gw else m.(key_tile_width))
    (if fill then Some gh else m.(key_tile_height))
    (if fill then Some (s32 (u32 rows)) else m.(key_grid_rows))
    (if fill then Some (s32 (u32 cols)) else m.(key_grid_cols))
    (if useGrid && isSome m.(key_crop) then Some (0, 0, w - 1, h - 1) else m.(key_crop))
    (Some 1)
    m.(key_gainmap).

Definition onHeicGainmapFormatChanged (newFormat : option AMessage)
    (s : HeicCompositeStream) : HeicCompositeStream :=
  match newFormat with
  | None => s
  | Some m =>
      let s1 :=
        match s.(mGainmapUseGrid), gridKeys m with
        | true, Some (r, c, w, h) =>
            set_mGainmapGridCols (u64 c) (set_mGainmapGridRows (u64 r)
              (set_mGainmapGridHeight h (set_mGainmapGridWidth w s)))
        | _, _ => s
        end in
      let m' := fixFormat s.(mGainmapUseGrid) s.(mGainmapOutputWidth)
                  s.(mGainmapOutputHeight) s.(mGainmapGridWidth) s.(mGainmapGridHeight)
                  s.(mGainmapGridRows) s.(mGainmapGridCols) m in
      set_mGainmapFormat (Some m') (set_mNumGainmapOutputTiles (numTilesOf m') s1)
  end.

Definition onHeicFormatChanged (newFormat : option AMessage) (isGainmap : bool)
    (s : HeicCompositeStream) : HeicCompositeStream :=
  match newFormat with
  | None => s
  | Some m =>
      if isGainmap then onHeicGainmapFormatChanged newFormat s
      else
        let grid := s.(mUseGrid) || s.(mUseHeic) in
        let s1 :=
          match grid, gridKeys m with
          | true, Some (r, c, w, h) =>
              set_mGridCols (u64 c) (set_mGridRows (u64 r)
                (set_mGridHeight h (set_mGridWidth w s)))
          | _, _ => s
          end in
        let m' := fixFormat grid s.(mOutputWidth) s.(mOutputHeight) s.(mGridWidth)
                    s.(mGridHeight) s.(mGridRows) s.(mGridCols) m in
        set_mFormat (Some m') (set_mNumOutputTiles (numTilesOf m') s1)
  end.

Definition onHeicCodecError (s : HeicCompositeStream) : HeicCompositeStream :=
  set_mErrorState true s.

Definition onShutter (frameNumber requestId timeStamp : Z) (s : HeicCompositeStream)
    : HeicCompositeStream :=
  if s.(mErrorState) then s
  else
    match map_find frameNumber s.(mSettingsByFrameNumber) with
    | Some st =>
        set_mSettingsByFrameNumber
          (map_put frameNumber
             (mkHeicSettings st.(hs_orientation) st.(hs_quality) timeStamp requestId true)
             s.(mSettingsByFrameNumber)) s
    | None => s
    end.

Definition flagAnExifErrorFrameNumber (frameNumber : Z) (s : HeicCompositeStream)
    : HeicCompositeStream :=
  set_mExifErrorFrameNumbers (set_emplace frameNumber s.(mExifErrorFrameNumbers)) s.

(** [CompositeStream::flagAnErrorFrameNumber] (base class): records the frame number in
    [mErrorFrameNumbers]. *)
Definition flagAnErrorFrameNumber (frameNumber : Z) (s : HeicCompositeStream)
    : HeicCompositeStream :=
  set_mErrorFrameNumbers (set_emplace frameNumber s.(mErrorFrameNumbers)) s.

Definition onStreamBufferError (frameNumber errorStreamId : Z) (s : HeicCompositeStream)
    : bool * HeicCompositeStream :=
  if errorStreamId =? s.(mAppSegmentStreamId) then
    (true, flagAnExifErrorFrameNumber frameNumber s)
  else if errorStreamId =? s.(mMainImageStreamId) then
    (true, flagAnErrorFrameNumber frameNumber s)
  else (false, s).

(** [std::unordered_map::emplace]: no effect when the key is present.  The iteration
    order of the container is unspecified; the model iterates in insertion order. *)
Definition results_emplace (ts : Z) (v : Z * CameraMetadata)
    (m : list (Z * (Z * CameraMetadata))) : list (Z * (Z * CameraMetadata)) :=
  if map_mem ts m then m else m ++ [(ts, v)].

Definition onResultError (frameNumber : Z) (s : HeicCompositeStream)
    : HeicCompositeStream :=
  let t1 := match map_find frameNumber s.(mSettingsByFrameNumber) with
            | Some st => st.(hs_timestamp)
            | None => -1
            end in
  let t2 := if t1 =? -1 then
              match map_find frameNumber s.(mPendingInputFrames) with
              | Some f => f.(timestamp)
              | None => -1
              end
            else t1 in
  if t2 =? -1 then s
  else set_mCaptureResults (results_emplace t2 (frameNumber, []) s.(mCaptureResults)) s.

Definition onRequestError (frameNumber : Z) (s : HeicCompositeStream)
    : HeicCompositeStream :=
  if map_mem frameNumber s.(mSettingsByFrameNumber) then
    set_mSettingsByFrameNumber (map_erase frameNumber s.(mSettingsByFrameNumber)) s
  else
    set_mErrorFrameNumbers (set_emplace frameNumber s.(mErrorFrameNumbers)) s.


(** ** [compilePendingInputLocked] *)

Definition updateCodecQualityLocked (env : Env) (q : Z) (s : HeicCompositeStream)
    : HeicCompositeStream :=
  if q =? s.(mQuality) then s
  else
    let s := emit (EvSetParameters q) s in
    if is_OK (env.(setParameters) q) then set_mQuality q s else s.

(** Settings whose shutter was notified become (or update) pending frames. *)
Fixpoint promoteSettings (env : Env) (l : list (Z * HeicSettings))
    (s : HeicCompositeStream) : HeicCompositeStream :=
  match l with
  | [] => s
  | (fn, st) :: l' =>
      if st.(shutterNotified) then
        let s := updFrame fn (fun f =>
                   set_requestId st.(hs_requestId) (set_timestamp st.(hs_timestamp)
                     (set_quality st.(hs_quality) (set_orientation st.(hs_orientation) f)))) s in
        let s := set_mSettingsByFrameNumber (map_erase fn s.(mSettingsByFrameNumber)) s in
        let s :=
          match s.(mPendingInputFrames) with
          | [(_, first)] =>
              let s := if s.(mStatusTracker) then emit EvMarkComponentActive s else s in
              updateCodecQualityLocked env first.(quality) s
          | _ => s
          end in
        promoteSettings env l' s
      else promoteSettings env l' s
  end.

(** The loop over [mInputAppSegmentBuffers]; [pending] is that vector, [locks] what the
    following calls of [lockNextBuffer] return. *)
Fixpoint drainAppSegments (locks : list (status_t * LockedBuffer)) (pending : list Z)
    (s : HeicCompositeStream) {struct pending} : HeicCompositeStream :=
  match pending, s.(mAppSegmentFrameNumbers), locks with
  | ts :: rest, front :: fns, (res, imgBuffer) :: locks' =>
      if is_NOT_ENOUGH_DATA res then s
      else if negb (is_OK res) || negb (ts =? imgBuffer.(lb_timestamp)) then
        let s := if is_OK res then emit (EvUnlockAppSegment imgBuffer) s else s in
        let s := updFrame ts (set_error true) s in
        drainAppSegments locks' rest (set_mInputAppSegmentBuffers rest s)
      else if negb (map_mem front s.(mPendingInputFrames)) then
        drainAppSegments locks' rest
          (set_mAppSegmentFrameNumbers fns (set_mInputAppSegmentBuffers rest s))
      else
        let s := if (frameAt front s).(error)
                 then emit (EvUnlockAppSegment imgBuffer) s
                 else updFrame front (set_appSegmentBuffer imgBuffer) s in
        drainAppSegments locks' rest
          (set_mAppSegmentFrameNumbers fns (set_mInputAppSegmentBuffers rest s))
  | _, _, _ => s
  end.

(** The loop over [mInputYuvBuffers]. *)
Fixpoint drainYuvBuffers (locks : list (status_t * LockedBuffer)) (pending : list Z)
    (s : HeicCompositeStream) {struct pending} : HeicCompositeStream :=
  match pending, s.(mMainImageFrameNumbers), locks with
  | ts :: rest, front :: fns, (res, imgBuffer) :: locks' =>
      if s.(mYuvBufferAcquired) then s
      else if is_NOT_ENOUGH_DATA res then s
      else if negb (is_OK res) then
        drainYuvBuffers locks' rest
          (set_mInputYuvBuffers rest (updFrame ts (set_error true) s))
      else if negb (ts =? imgBuffer.(lb_timestamp)) then
        drainYuvBuffers locks' rest
          (set_mInputYuvBuffers rest (updFrame ts (set_error true) s))
      else if negb (map_mem front s.(mPendingInputFrames)) then
        drainYuvBuffers locks' rest
          (set_mMainImageFrameNumbers fns (set_mInputYuvBuffers rest s))
      else
        let s := if (frameAt front s).(error)
                 then emit (EvUnlockMainImage imgBuffer) s
                 else set_mYuvBufferAcquired true
                        (updFrame front (set_yuvBuffer imgBuffer) s) in
        drainYuvBuffers locks' rest
          (set_mMainImageFrameNumbers fns (set_mInputYuvBuffers rest s))
  | _, _, _ => s
  end.

(** The loop over [mCodecOutputBuffers]: each output goes to the frame number at the
    front of [mCodecOutputBufferFrameNumbers], which is popped after [mNumOutputTiles]
    outputs. *)
Fixpoint attributeCodecOutputs (pending : list CodecOutputBufferInfo)
    (s : HeicCompositeStream) : HeicCompositeStream :=
  match pending, s.(mCodecOutputBufferFrameNumbers) with
  | b :: rest, bufferFrameNumber :: fns =>
      let c := s.(mCodecOutputCounter) + 1 in
      let s := if c =? s.(mNumOutputTiles)
               then set_mCodecOutputCounter 0 (set_mCodecOutputBufferFrameNumbers fns s)
               else set_mCodecOutputCounter c s in
      let s := updFrame bufferFrameNumber
                 (fun f => set_codecOutputBuffers (f.(codecOutputBuffers) ++ [b]) f) s in
      attributeCodecOutputs rest (set_mCodecOutputBuffers rest s)
  | _, _ => s
  end.

Fixpoint attributeGainmapCodecOutputs (pending : list CodecOutputBufferInfo)
    (s : HeicCompositeStream) : HeicCompositeStream :=
  match pending, s.(mCodecGainmapOutputBufferFrameNumbers) with
  | b :: rest, bufferFrameNumber :: fns =>
      let c := s.(mCodecGainmapOutputCounter) + 1 in
      let s := if c =? s.(mNumGainmapOutputTiles)
               then set_mCodecGainmapOutputCounter 0
                      (set_mCodecGainmapOutputBufferFrameNumbers fns s)
               else set_mCodecGainmapOutputCounter c s in
      let s := updFrame bufferFrameNumber
                 (fun f => set_gainmapCodecOutputBuffers
                             (f.(gainmapCodecOutputBuffers) ++ [b]) f) s in
      attributeGainmapCodecOutputs rest (set_mGainmapCodecOutputBuffers rest s)
  | _, _ => s
  end.

(** The loop over [mCaptureResults]. *)
Fixpoint drainCaptureResults (pending : list (Z * (Z * CameraMetadata)))
    (s : HeicCompositeStream) : HeicCompositeStream :=
  match pending with
  | [] => s
  | (ts, (frameNumber, meta)) :: rest =>
      let s :=
        if (0 <=? ts) && map_mem frameNumber s.(mPendingInputFrames) then
          if (frameAt frameNumber s).(timestamp) =? ts then
            let s := updFrame frameNumber (set_result (Some meta)) s in
            if negb s.(mAppSegmentSupported)
            then updFrame frameNumber (set_exifError true) s
            else s
          else s
        else s in
      drainCaptureResults rest (set_mCaptureResults rest s)
  end.

(** The loops over [mErrorFrameNumbers] and [mExifErrorFrameNumbers]. *)
Fixpoint applyErrorFrameNumbers (pending : list Z) (s : HeicCompositeStream)
    : HeicCompositeStream :=
  match pending with
  | [] => s
  | fn :: rest =>
      let s := if map_mem fn s.(mPendingInputFrames)
               then updFrame fn (set_error true) s else s in
      applyErrorFrameNumbers rest (set_mErrorFrameNumbers rest s)
  end.

Fixpoint applyExifErrorFrameNumbers (pending : list Z) (s : HeicCompositeStream)
    : HeicCompositeStream :=
  match pending with
  | [] => s
  | fn :: rest =>
      let s := if map_mem fn s.(mPendingInputFrames)
               then updFrame fn (set_exifError true) s else s in
      applyExifErrorFrameNumbers rest (set_mExifErrorFrameNumbers rest s)
  end.

(** The inner [for (i < newInputTiles)] loop: hand [n] codec input buffers to the frame,
    one tile index each.  Returns the buffers left, the next grid timestamp and the
    frame. *)
Fixpoint allocInputTiles (n : nat) (avail : list Z) (gridTs : Z) (f : InputFrame)
    : list Z * Z * InputFrame :=
  match n, avail with
  | S n', idx :: avail' =>
      let inputInfo := mkCodecInputBufferInfo idx gridTs f.(codecInputCounter) in
      allocInputTiles n' avail' (gridTs + 1)
        (set_codecInputCounter (f.(codecInputCounter) + 1)
           (set_codecInputBuffers (f.(codecInputBuffers) ++ [inputInfo]) f))
  | _, _ => (avail, gridTs, f)
  end.

Fixpoint allocGainmapInputTiles (n : nat) (avail : list Z) (gridTs : Z) (f : InputFrame)
    : list Z * Z * InputFrame :=
  match n, avail with
  | S n', idx :: avail' =>
      let inputInfo := mkCodecInputBufferInfo idx gridTs f.(gainmapCodecInputCounter) in
      allocGainmapInputTiles n' avail' (gridTs + 1)
        (set_gainmapCodecInputCounter (f.(gainmapCodecInputCounter) + 1)
           (set_gainmapCodecInputBuffers (f.(gainmapCodecInputBuffers) ++ [inputInfo]) f))
  | _, _ => (avail, gridTs, f)
  end.

(** The first pending frame (ascending) that still lacks input tiles. *)
Fixpoint firstLackingTiles (counter : InputFrame -> Z) (total : Z)
    (m : list (Z * InputFrame)) : option (Z * InputFrame) :=
  match m with
  | [] => None
  | (k, f) :: m' =>
      if counter f <? total then Some (k, f) else firstLackingTiles counter total m'
  end.

Definition distributeCodecInputBuffers (s : HeicCompositeStream) : HeicCompositeStream :=
  let total := u64 (s.(mGridRows) * s.(mGridCols)) in
  match s.(mCodecInputBuffers) with
  | [] => s
  | _ :: _ =>
      match firstLackingTiles codecInputCounter total s.(mPendingInputFrames) with
      | None => s
      | Some (k, f) =>
          let newInputTiles := Z.min (Z.of_nat (length s.(mCodecInputBuffers)))
                                 (u64 (total - f.(codecInputCounter))) in
          let '(avail, gridTs, f') :=
            allocInputTiles (Z.to_nat newInputTiles) s.(mCodecInputBuffers)
              s.(mGridTimestampUs) f in
          set_mPendingInputFrames (map_put k f' s.(mPendingInputFrames))
            (set_mGridTimestampUs gridTs (set_mCodecInputBuffers avail s))
      end
  end.

Definition distributeGainmapCodecInputBuffers (s : HeicCompositeStream)
    : HeicCompositeStream :=
  let total := u64 (s.(mGainmapGridRows) * s.(mGainmapGridCols)) in
  match s.(mGainmapCodecInputBuffers) with
  | [] => s
  | _ :: _ =>
      match firstLackingTiles gainmapCodecInputCounter total s.(mPendingInputFrames) with
      | None => s
      | Some (k, f) =>
          let newInputTiles := Z.min (Z.of_nat (length s.(mGainmapCodecInputBuffers)))
                                 (u64 (total - f.(gainmapCodecInputCounter))) in
          let '(avail, gridTs, f') :=
            allocGainmapInputTiles (Z.to_nat newInputTiles) s.(mGainmapCodecInputBuffers)
              s.(mGridTimestampUs) f in
          set_mPendingInputFrames (map_put k f' s.(mPendingInputFrames))
            (set_mGridTimestampUs gridTs (set_mGainmapCodecInputBuffers avail s))
      end
  end.

Definition compilePendingInputLocked (env : Env) (s : HeicCompositeStream)
    : HeicCompositeStream :=
  let s := promoteSettings env s.(mSettingsByFrameNumber) s in
  let s := drainAppSegments env.(appSegmentLocks) s.(mInputAppSegmentBuffers) s in
  let s := drainYuvBuffers env.(mainImageLocks) s.(mInputYuvBuffers) s in
  let s := attributeCodecOutputs s.(mCodecOutputBuffers) s in
  let s := attributeGainmapCodecOutputs s.(mGainmapCodecOutputBuffers) s in
  let s := drainCaptureResults s.(mCaptureResults) s in
  let s := applyErrorFrameNumbers s.(mErrorFrameNumbers) s in
  let s := applyExifErrorFrameNumbers s.(mExifErrorFrameNumbers) s in
  let s := distributeCodecInputBuffers s in
  distributeGainmapCodecInputBuffers s.


(** ** Frame selection *)

Definition appSegmentReady (f : InputFrame) : bool :=
  (hasData f.(appSegmentBuffer) || f.(exifError)) && negb f.(appSegmentWritten) &&
  isSome f.(result) && isSome f.(muxer).

Definition codecOutputReady (f : InputFrame) : bool :=
  negb (isEmpty f.(codecOutputBuffers)) || negb (isEmpty f.(gainmapCodecOutputBuffers)).

Definition codecInputReady (f : InputFrame) : bool :=
  hasData f.(yuvBuffer) && negb (isEmpty f.(codecInputBuffers)).

Definition gainmapCodecInputReady (f : InputFrame) : bool :=
  isSome f.(gainmapImage) && negb (isEmpty f.(gainmapCodecInputBuffers)).

Definition hasOutputBuffer (s : HeicCompositeStream) (f : InputFrame) : bool :=
  isSome f.(muxer) || (s.(mDequeuedOutputBufferCnt) <? kMaxOutputSurfaceProducerCount).

(** The condition under which [getNextReadyInputLocked] picks a frame. *)
Definition inputReady (s : HeicCompositeStream) (f : InputFrame) : bool :=
  negb f.(error) &&
  (appSegmentReady f || (codecOutputReady f && hasOutputBuffer s f) || codecInputReady f).

Fixpoint firstReady (s : HeicCompositeStream) (m : list (Z * InputFrame)) : option Z :=
  match m with
  | [] => None
  | (k, f) :: m' => if inputReady s f then Some k else firstReady s m'
  end.

Definition set_key_gainmap (v : option Z) (m : AMessage) : AMessage :=
  mkAMessage m.(mime_is_heic) m.(key_width) m.(key_height) m.(key_tile_width)
    m.(key_tile_height) m.(key_grid_rows) m.(key_grid_cols) m.(key_crop)
    m.(key_is_default) v.

(** The formats copied into the selected frame. *)
Definition dupFormats (s : HeicCompositeStream) (f : InputFrame) : InputFrame :=
  let f := match f.(format), s.(mFormat) with
           | None, Some m => set_format (Some m) f
           | _, _ => f
           end in
  match f.(gainmapFormat), s.(mGainmapFormat) with
  | None, Some m => set_gainmapFormat (Some (set_key_gainmap (Some 1) m)) f
  | _, _ => f
  end.

(** [getNextReadyInputLocked]: the frame number written to [*frameNumber] when the result
    is [true], [None] when it is [false]. *)
Definition getNextReadyInputLocked (s : HeicCompositeStream)
    : option Z * HeicCompositeStream :=
  match firstReady s s.(mPendingInputFrames) with
  | Some k => (Some k, updFrame k (dupFormats s) s)
  | None => (None, s)
  end.

Fixpoint firstFailing (m : list (Z * InputFrame)) : Z :=
  match m with
  | [] => -1
  | (k, f) :: m' => if f.(error) then k else firstFailing m'
  end.

Definition getNextFailingInputLocked (s : HeicCompositeStream) : Z :=
  firstFailing s.(mPendingInputFrames).

(** ** Per-frame processing

    The processing functions take the stream and the frame they were given a reference
    to, and return the status with both. *)

Definition Res : Type := (status_t * HeicCompositeStream * InputFrame)%type.

Definition Proc : Type := HeicCompositeStream -> InputFrame -> Res.

(** Run [q] when [p] returned OK, otherwise return what [p] returned. *)
Definition andThen (p q : Proc) : Proc :=
  fun s f => match p s f with
             | (OK, s', f') => q s' f'
             | r => r
             end.

Definition ret (r : status_t) : Proc := fun s f => (r, s, f).

Definition muxerOf (f : InputFrame) : Z :=
  match f.(muxer) with Some m => m | None => 0 end.

Definition startMuxerForInputFrame (env : Env) (frameNumber : Z) : Proc := fun s f =>
  let '(res, (anbv, fence)) := env.(dequeueBuffer) in
  let s := emit (EvDequeueBuffer anbv) s in
  if negb (is_OK res) then (res, s, f)
  else
    let f := set_fenceFd fence (set_anb (Some anbv) f) in
    let s := set_mDequeuedOutputBufferCnt (s.(mDequeuedOutputBufferCnt) + 1) s in
    let s := emit (EvMemfdCreate frameNumber) s in
    let f := set_fileFd (env.(memfd_create) frameNumber) f in
    if f.(fileFd) <? 0 then (NO_INIT, s, f)
    else
      let s := emit (EvMuxerCreate f.(fileFd)) s in
      let f := set_muxer (env.(MediaMuxer_create) f.(fileFd)) f in
      if negb (isSome f.(muxer)) then (NO_INIT, s, f)
      else
        let s := emit (EvSetOrientationHint f.(orientation)) s in
        let res := env.(setOrientationHint) f.(orientation) in
        if negb (is_OK res) then (res, s, f)
        else
          let s := emit (EvAddTrack f.(format)) s in
          let trackId := env.(addTrack) f.(format) in
          if trackId <? 0 then (NO_INIT, s, f)
          else
            let f := set_pendingOutputTiles s.(mNumOutputTiles) (set_trackIndex trackId f) in
            let continue (s : HeicCompositeStream) (f : InputFrame) : Res :=
              let s := emit EvMuxerStart s in
              (env.(muxer_start), s, f) in
            match f.(gainmapFormat) with
            | Some _ =>
                let s := emit (EvAddTrack f.(gainmapFormat)) s in
                let trackId := env.(addTrack) f.(gainmapFormat) in
                if trackId <? 0 then (NO_INIT, s, f)
                else
                  continue s (set_gainmapPendingOutputTiles s.(mNumGainmapOutputTiles)
                                (set_gainmapTrackIndex trackId f))
            | None => continue s f
            end.

(** *** The APP segment *)

Definition byteAt (buf : list Z) (i : Z) : Z := nth (Z.to_nat i) buf 0.

(** The [while (totalSize < expectedSize)] loop over the APPn markers.  [None]: the fuel
    ran out; [Some None]: an invalid marker was met; [Some (Some t)]: the loop ended with
    [totalSize = t]. *)
Fixpoint scanAppN (fuel : nat) (buf : list Z) (expectedSize totalSize : Z)
    : option (option Z) :=
  if totalSize <? expectedSize then
    match fuel with
    | O => None
    | S fuel' =>
        if negb (byteAt buf totalSize =? 255) ||
           (byteAt buf (totalSize + 1) <=? 225) ||
           (239 <? byteAt buf (totalSize + 1))
        then Some None
        else
          let totalSize := u32 (totalSize + 2) in
          let appnSize := u16 (byteAt buf totalSize * 256 + byteAt buf (totalSize + 1)) in
          scanAppN fuel' buf expectedSize (u32 (totalSize + appnSize))
    end
  else Some (Some totalSize).

(** The bytes of the [CameraBlob] at the end of a buffer of [maxSize] bytes. *)
Definition trailerOf (buf : list Z) (maxSize : Z) : list Z :=
  firstn (Z.to_nat plat.(sizeof_CameraBlob))
    (skipn (Z.to_nat (maxSize - plat.(sizeof_CameraBlob))) buf).

Definition expectedSizeOf (buf : list Z) (maxSize : Z) : Z :=
  u64 (plat.(blobSizeBytes_of) (trailerOf buf maxSize)).

Definition app1SizeOf (buf : list Z) : Z := u16 (byteAt buf 2 * 256 + byteAt buf 3).

(** [findAppSegmentsSize]: the returned size (0 = failure) and the value left in
    [*app1SegmentSize].  The loop is given [expectedSize] units of fuel, which is enough
    (lemma [scanAppN_fuel]); running out is reported as a failure. *)
Definition findAppSegmentsSize (appSegmentBuffer : option (list Z)) (maxSize : Z)
    (app1SegmentSize : Z) : Z * Z :=
  match appSegmentBuffer with
  | None => (0, app1SegmentSize)
  | Some buf =>
      if negb (plat.(blobId_of) (trailerOf buf maxSize) =? plat.(JPEG_APP_SEGMENTS))
      then (0, app1SegmentSize)
      else
        let expectedSize := expectedSizeOf buf maxSize in
        if (expectedSize =? 0) || (u64 (maxSize - plat.(sizeof_CameraBlob)) <? expectedSize)
        then (0, app1SegmentSize)
        else if negb ((byteAt buf 0 =? 255) && (byteAt buf 1 =? 225))
        then (0, app1SegmentSize)
        else
          let app1Size := app1SizeOf buf in
          match scanAppN (Z.to_nat expectedSize) buf expectedSize (u32 (2 + app1Size)) with
          | Some (Some totalSize) =>
              if totalSize =? expectedSize
              then (expectedSize, app1Size + 2)
              else (0, app1SegmentSize)
          | _ => (0, app1SegmentSize)
          end
  end.

Definition slice (buf : list Z) (from len : Z) : list Z :=
  firstn (Z.to_nat len) (skipn (Z.to_nat from) buf).

(** 'E' 'x' 'i' 'f' 0xFF 0xE1 and the two length bytes. *)
Definition kExifApp1Marker (newApp1Length : Z) : list Z :=
  [69; 120; 105; 102; 255; 225; (newApp1Length / 256) mod 256; newApp1Length mod 256].

Definition processAppSegment (env : Env) (frameNumber : Z) : Proc := fun s f =>
  let '(appSegmentSize, app1Size) :=
    if negb f.(exifError)
    then findAppSegmentsSize f.(appSegmentBuffer).(data)
           (u32 (f.(appSegmentBuffer).(lb_width) * f.(appSegmentBuffer).(lb_height))) 0
    else (0, 0) in
  if negb f.(exifError) && (appSegmentSize =? 0) then (NO_INIT, s, f)
  else
    let bytes := match f.(appSegmentBuffer).(data) with Some b => b | None => [] end in
    let exifRes := if f.(exifError) then env.(exif_initializeEmpty)
                   else env.(exif_initialize) bytes app1Size in
    if negb exifRes then (BAD_VALUE, s, f)
    else if negb (env.(exif_setFromMetadata)
                    (match f.(result) with Some r => r | None => [] end))
    then (BAD_VALUE, s, f)
    else if negb (env.(exif_setOrientation) f.(orientation)) then (BAD_VALUE, s, f)
    else if negb env.(exif_generateApp1) then (BAD_VALUE, s, f)
    else
      let newApp1Segment := env.(exif_app1) in
      let newApp1Length := u32 (Z.of_nat (length newApp1Segment)) in
      let rest := if 0 <? u64 (appSegmentSize - app1Size)
                  then slice bytes app1Size (appSegmentSize - app1Size) else [] in
      let sample := kExifApp1Marker newApp1Length ++ newApp1Segment ++ rest in
      let s := emit (EvWriteSampleData (muxerOf f) sample f.(trackIndex) f.(timestamp)
                       plat.(BUFFER_FLAG_MUXER_DATA)) s in
      let res := env.(writeSampleData) sample f.(trackIndex) f.(timestamp)
                   plat.(BUFFER_FLAG_MUXER_DATA) in
      if negb (is_OK res) then (res, s, f)
      else
        let f := set_appSegmentWritten true f in
        if negb f.(exifError) then
          let s := emit (EvUnlockAppSegment f.(appSegmentBuffer)) s in
          (OK, s, set_exifError false (set_appSegmentBuffer (set_data None f.(appSegmentBuffer)) f))
        else (OK, s, f).

(** *** HDR base image and gainmap *)

Definition generateBaseImageAndGainmap (env : Env) : Proc := fun s f =>
  let f := set_baseBuffer true f in
  if negb env.(toneMap) then (BAD_VALUE, s, f)
  else
    let f := set_baseImage (Some f.(yuvBuffer)) f in
    match env.(generateGainMap) with
    | None => (BAD_VALUE, s, f)
    | Some gm =>
        if negb env.(gainmapMetadataFloatToFraction) then (BAD_VALUE, s, f)
        else
          match env.(encodeGainmapMetadata) with
          | None => (BAD_VALUE, s, f)
          | Some encoded =>
              (* the ISO 21496-1 gainmap is preceded by an u8 version equal to 0 *)
              let f := set_isoGainmapMetadata (0 :: encoded) f in
              (OK, s, set_gainmapImage (Some gm) f)
          end
    end.

(** *** Feeding tiles to the encoders *)

(** [top], [left], [width], [height] of tile [tileIndex] of a [cols] x [rows] grid of
    [gridW] x [gridH] tiles over an [outW] x [outH] image; all [size_t]. *)
Definition tileRect (cols rows gridW gridH outW outH tileIdx : Z) : Z * Z * Z * Z :=
  let tileX := tileIdx mod cols in
  let tileY := tileIdx / cols in
  let tTop := u64 (gridH * tileY) in
  let tLeft := u64 (gridW * tileX) in
  let tWidth := if tileX =? u64 (cols - 1) then u64 (outW - tileX * gridW) else u64 gridW in
  let tHeight := if tileY =? u64 (rows - 1) then u64 (outH - tileY * gridH) else u64 gridH in
  (tTop, tLeft, tWidth, tHeight).

(** The body of the loop over the frame's input buffers, for either codec. *)
Fixpoint feedTiles (env : Env) (isGainmap : bool) (cols rows gridW gridH outW outH : Z)
    (bufs : list CodecInputBufferInfo) (s : HeicCompositeStream)
    : status_t * HeicCompositeStream :=
  match bufs with
  | [] => (OK, s)
  | inputBuffer :: bufs' =>
      let res := env.(getInputBuffer) isGainmap inputBuffer.(in_index) in
      if negb (is_OK res) then (res, s)
      else
        let '(tTop, tLeft, tWidth, tHeight) :=
          tileRect cols rows gridW gridH outW outH inputBuffer.(tileIndex) in
        let s := emit (EvCopyOneYuvTile isGainmap tTop tLeft tWidth tHeight) s in
        let res := env.(copyOneYuvTile) isGainmap tTop tLeft tWidth tHeight in
        if negb (is_OK res) then (res, s)
        else
          let s := emit (EvQueueInputBuffer isGainmap inputBuffer.(in_index)
                           inputBuffer.(in_timeUs)) s in
          let res := env.(queueInputBuffer) isGainmap inputBuffer.(in_index) in
          if negb (is_OK res) then (res, s)
          else feedTiles env isGainmap cols rows gridW gridH outW outH bufs' s
  end.

Definition processCodecInputFrame (env : Env) : Proc := fun s f =>
  match feedTiles env false s.(mGridCols) s.(mGridRows) s.(mGridWidth) s.(mGridHeight)
          s.(mOutputWidth) s.(mOutputHeight) f.(codecInputBuffers) s with
  | (OK, s') => (OK, s', set_codecInputBuffers [] f)
  | (res, s') => (res, s', f)
  end.

Definition processCodecGainmapInputFrame (env : Env) : Proc := fun s f =>
  match feedTiles env true s.(mGainmapGridCols) s.(mGainmapGridRows)
          s.(mGainmapGridWidth) s.(mGainmapGridHeight) s.(mGainmapOutputWidth)
          s.(mGainmapOutputHeight) f.(gainmapCodecInputBuffers) s with
  | (OK, s') => (OK, s', set_gainmapCodecInputBuffers [] f)
  | (res, s') => (res, s', f)
  end.


(** *** Writing compressed tiles *)

Definition processOneCodecOutputFrame (env : Env) (frameNumber : Z) : Proc := fun s f =>
  match f.(codecOutputBuffers) with
  | [] => (OK, s, f)     (* only called on a non-empty queue *)
  | it :: rest =>
      let '(res, buffer) := env.(getOutputBuffer) false it.(index) in
      if negb (is_OK res) then (res, s, f)
      else
        match buffer with
        | None => (BAD_VALUE, s, f)
        | Some bytes =>
            let s := emit (EvWriteSampleData (muxerOf f) bytes f.(trackIndex)
                             f.(timestamp) 0) s in
            let res := env.(writeSampleData) bytes f.(trackIndex) f.(timestamp) 0 in
            if negb (is_OK res) then (res, s, f)
            else
              let s := emit (EvReleaseOutputBuffer false it.(index)) s in
              let f := if f.(pendingOutputTiles) =? 0 then f
                       else set_pendingOutputTiles (f.(pendingOutputTiles) - 1) f in
              (OK, s, set_codecOutputBuffers rest f)
        end
  end.

(** 'g' 'm' 'a' 'p' 0 0 *)
Definition kGainmapMarker : list Z := [103; 109; 97; 112; 0; 0].

(** 't' 'm' 'a' 'p' 0 0 *)
Definition kGainmapMetaMarker : list Z := [116; 109; 97; 112; 0; 0].

Definition processOneCodecGainmapOutputFrame (env : Env) (frameNumber : Z) : Proc :=
  fun s f =>
  match f.(gainmapCodecOutputBuffers) with
  | [] => (OK, s, f)     (* only called on a non-empty queue *)
  | it :: rest =>
      let '(res, buffer) := env.(getOutputBuffer) true it.(index) in
      if negb (is_OK res) then (res, s, f)
      else
        match buffer with
        | None => (BAD_VALUE, s, f)
        | Some bytes =>
            let sample := kGainmapMarker ++ bytes in
            let s := emit (EvWriteSampleData (muxerOf f) sample f.(gainmapTrackIndex)
                             f.(timestamp) plat.(BUFFER_FLAG_MUXER_DATA)) s in
            let res := env.(writeSampleData) sample f.(gainmapTrackIndex) f.(timestamp)
                         plat.(BUFFER_FLAG_MUXER_DATA) in
            if negb (is_OK res) then (res, s, f)
            else
              let s := emit (EvReleaseOutputBuffer true it.(index)) s in
              let f := if f.(gainmapPendingOutputTiles) =? 0 then f
                       else set_gainmapPendingOutputTiles
                              (f.(gainmapPendingOutputTiles) - 1) f in
              (OK, s, set_gainmapCodecOutputBuffers rest f)
        end
  end.

(** [while (!queue.empty()) processOne...]: [pending] is the queue on entry; every
    successful call removes its head. *)
Fixpoint drainQueue (one : Proc) (pending : list CodecOutputBufferInfo) : Proc :=
  fun s f =>
  match pending with
  | [] => (OK, s, f)
  | _ :: rest => andThen one (drainQueue one rest) s f
  end.

(** *** Completion *)

Definition kHeicBlobId : Z := 254.   (* 0x00FE *)

Definition processCompletedInputFrame (env : Env) (frameNumber : Z) : Proc := fun s f =>
  let s := emit (EvMuxerStop (muxerOf f)) s in
  let res := env.(lockAsync) in
  if negb (is_OK res) then (res, s, f)
  else
    let fSize := env.(lseek_END) f.(fileFd) in
    if u64 (s.(mMaxHeicBufferSize) - plat.(sizeof_CameraBlob)) <? u64 fSize
    then (BAD_VALUE, s, f)
    else
      let bytesRead := env.(read_fd) f.(fileFd) fSize in
      if bytesRead <? fSize then (BAD_VALUE, s, f)
      else
        let s := emit (EvClose f.(fileFd)) s in
        let f := set_fileFd (-1) f in
        let s := emit (EvBlobHeader kHeicBlobId (s32 (u32 fSize))) s in
        let s := emit (EvSetBuffersTimestamp f.(timestamp)) s in
        let res := env.(native_window_set_buffers_timestamp) f.(timestamp) in
        if negb (is_OK res) then (res, s, f)
        else
          let anbv := match f.(anb) with Some a => a | None => 0 end in
          let s := emit (EvQueueBuffer anbv) s in
          let res := env.(queueBuffer) anbv in
          if negb (is_OK res) then (res, s, f)
          else
            let f := set_anb None f in
            let s := set_mDequeuedOutputBufferCnt (s.(mDequeuedOutputBufferCnt) - 1) s in
            (OK, emit (EvAsyncEnd frameNumber) s, f).

(** The test that guards [processCompletedInputFrame] and, in
    [releaseInputFramesLocked], the release of a frame that is not in error. *)
Definition allWritten (f : InputFrame) : bool :=
  f.(appSegmentWritten) && (f.(pendingOutputTiles) =? 0) &&
  (f.(gainmapPendingOutputTiles) =? 0).

(** *** [processInputFrame] *)

Definition when (b : bool) (p : Proc) : Proc := if b then p else ret OK.

Definition writeGainmapMetadata (env : Env) : Proc := fun s f =>
  let sample := kGainmapMetaMarker ++ f.(isoGainmapMetadata) in
  let s := emit (EvWriteSampleData (muxerOf f) sample f.(trackIndex) f.(timestamp)
                   plat.(BUFFER_FLAG_MUXER_DATA)) s in
  let res := env.(writeSampleData) sample f.(trackIndex) f.(timestamp)
               plat.(BUFFER_FLAG_MUXER_DATA) in
  if negb (is_OK res) then (res, s, f)
  else (OK, s, set_isoGainmapMetadata [] f).

(** "Initialize and start muxer if not yet done so." *)
Definition ensureMuxer (env : Env) (frameNumber : Z) : Proc := fun s f =>
  when (negb (isSome f.(muxer))) (startMuxerForInputFrame env frameNumber) s f.

Definition completeIfAllWritten (env : Env) (frameNumber : Z) : Proc := fun s f =>
  when (allWritten f) (processCompletedInputFrame env frameNumber) s f.

(** The samples written by [processInputFrame] after the early [return OK]: gainmap
    metadata, APP segments, then the queued tiles of both codecs. *)
Definition writeSamples (env : Env) (frameNumber : Z) (appSegReady hasGainmapMetadata : bool)
    : Proc :=
  andThen (ensureMuxer env frameNumber)
 (andThen (when hasGainmapMetadata (writeGainmapMetadata env))
 (andThen (when appSegReady (processAppSegment env frameNumber))
 (andThen (fun s f => drainQueue (processOneCodecOutputFrame env frameNumber)
                        f.(codecOutputBuffers) s f)
          (fun s f => drainQueue (processOneCodecGainmapOutputFrame env frameNumber)
                        f.(gainmapCodecOutputBuffers) s f)))).

(** The part of [processInputFrame] after the early [return OK]. *)
Definition writeToMuxer (env : Env) (frameNumber : Z) (appSegReady hasGainmapMetadata : bool)
    : Proc :=
  andThen (writeSamples env frameNumber appSegReady hasGainmapMetadata)
          (completeIfAllWritten env frameNumber).

(** The part of [processInputFrame] that feeds the encoders ("Handle inputs for Hevc
    tiling"). *)
Definition feedEncoders (env : Env) (codecInReady gainmapCodecInReady : bool) : Proc :=
  andThen (when codecInReady
             (andThen (fun s f => when (s.(mHDRGainmapEnabled) && negb f.(baseBuffer))
                                    (generateBaseImageAndGainmap env) s f)
                      (processCodecInputFrame env)))
          (when gainmapCodecInReady (processCodecGainmapInputFrame env)).

Definition processInputFrame (env : Env) (frameNumber : Z) : Proc := fun s f =>
  let appSegReady := appSegmentReady f in
  let codecOutReady := codecOutputReady f in
  let codecInReady := codecInputReady f in
  let gainmapCodecInReady := gainmapCodecInputReady f in
  let hasOutBuffer := hasOutputBuffer s f in
  let hasGainmapMetadata := negb (isEmpty f.(isoGainmapMetadata)) in
  andThen (feedEncoders env codecInReady gainmapCodecInReady)
          (if negb (codecOutReady && hasOutBuffer) && negb appSegReady then ret OK
           else writeToMuxer env frameNumber appSegReady hasGainmapMetadata) s f.

(** ** Release *)

Fixpoint releaseOutputBuffers (isGainmap : bool) (l : list CodecOutputBufferInfo)
    (s : HeicCompositeStream) : HeicCompositeStream :=
  match l with
  | [] => s
  | it :: l' => releaseOutputBuffers isGainmap l' (emit (EvReleaseOutputBuffer isGainmap it.(index)) s)
  end.

Definition releaseInputFrameLocked (frameNumber : Z) (s : HeicCompositeStream)
    (f : InputFrame) : HeicCompositeStream * InputFrame :=
  let '(s, f) :=
    if hasData f.(appSegmentBuffer) then
      (emit (EvUnlockAppSegment f.(appSegmentBuffer)) s,
       set_appSegmentBuffer (set_data None f.(appSegmentBuffer)) f)
    else (s, f) in
  let s := releaseOutputBuffers false f.(codecOutputBuffers) s in
  let f := set_codecOutputBuffers [] f in
  let s := releaseOutputBuffers true f.(gainmapCodecOutputBuffers) s in
  let f := set_gainmapCodecOutputBuffers [] f in
  let '(s, f) :=
    if hasData f.(yuvBuffer) then
      (set_mYuvBufferAcquired false (emit (EvUnlockMainImage f.(yuvBuffer)) s),
       set_yuvBuffer (set_data None f.(yuvBuffer)) f)
    else (s, f) in
  let f := set_gainmapCodecInputBuffers [] (set_codecInputBuffers [] f) in
  let s := if f.(error) || s.(mErrorState)
           then emit (EvNotifyError frameNumber f.(requestId)) s else s in
  let '(s, f) :=
    if 0 <=? f.(fileFd) then (emit (EvClose f.(fileFd)) s, set_fileFd (-1) f)
    else (s, f) in
  match f.(anb) with
  | Some a =>
      (set_mDequeuedOutputBufferCnt (s.(mDequeuedOutputBufferCnt) - 1)
         (emit (EvCancelBuffer a) s),
       set_anb None f)
  | None => (s, f)
  end.

Definition markTrackerIdle (s : HeicCompositeStream) : HeicCompositeStream :=
  if s.(mStatusTracker) then emit EvMarkComponentIdle s else s.

(** The loop of [releaseInputFramesLocked]: the stream after the releases, the frames
    that stay, and [inputFrameDone]. *)
Fixpoint releaseFrames (m : list (Z * InputFrame)) (s : HeicCompositeStream)
    : HeicCompositeStream * list (Z * InputFrame) * bool :=
  match m with
  | [] => (s, [], false)
  | (k, f) :: m' =>
      if f.(error) || (f.(appSegmentWritten) && (f.(pendingOutputTiles) =? 0) &&
                       (f.(gainmapPendingOutputTiles) =? 0)) then
        let '(s, _) := releaseInputFrameLocked k s f in
        let '(s, kept, _) := releaseFrames m' s in
        (s, kept, true)
      else
        let '(s, kept, done) := releaseFrames m' s in
        (s, (k, f) :: kept, done)
  end.

Definition releaseInputFramesLocked (env : Env) (s : HeicCompositeStream)
    : HeicCompositeStream :=
  let '(s, kept, inputFrameDone) := releaseFrames s.(mPendingInputFrames) s in
  let s := set_mPendingInputFrames kept s in
  if inputFrameDone then
    match kept with
    | (_, firstPendingFrame) :: _ => updateCodecQualityLocked env firstPendingFrame.(quality) s
    | [] => if isEmpty s.(mSettingsByFrameNumber) then markTrackerIdle s else s
    end
  else s.

(** ** [threadLoop]

    [ReturnTrue] / [ReturnFalse] is what [threadLoop] returns; [Woken] is the case where
    the timed wait was signalled and the inner [while] loop runs its body again.  The
    frame is processed outside the lock in the C++ code; the model runs the iteration
    as one step. *)

Inductive LoopResult : Type := ReturnTrue | ReturnFalse | Woken.

Definition processAndRelease (env : Env) (frameNumber : Z) (s : HeicCompositeStream)
    : HeicCompositeStream :=
  let '(res, s, f) := processInputFrame env frameNumber s (frameAt frameNumber s) in
  let s := set_mPendingInputFrames (map_put frameNumber f s.(mPendingInputFrames)) s in
  let s := if is_OK res then s else updFrame frameNumber (set_error true) s in
  releaseInputFramesLocked env s.

Definition workerIteration (env : Env) (s : HeicCompositeStream)
    : LoopResult * HeicCompositeStream :=
  let s := compilePendingInputLocked env s in
  match getNextReadyInputLocked s with
  | (Some frameNumber, s) => (ReturnTrue, processAndRelease env frameNumber s)
  | (None, s) =>
      let failingFrameNumber := getNextFailingInputLocked s in
      if 0 <=? failingFrameNumber then
        let '(s, f) := releaseInputFrameLocked failingFrameNumber s
                         (frameAt failingFrameNumber s) in
        let s := set_mPendingInputFrames
                   (map_erase failingFrameNumber s.(mPendingInputFrames)) s in
        let s := if isEmpty s.(mPendingInputFrames) && isEmpty s.(mSettingsByFrameNumber)
                 then markTrackerIdle s else s in
        (ReturnTrue, s)
      else
        match env.(waitRelative) with
        | TIMED_OUT => (ReturnTrue, s)
        | OK => (Woken, s)
        | _ => (ReturnFalse, s)
        end
  end.

Definition threadLoop (env : Env) (s : HeicCompositeStream)
    : LoopResult * HeicCompositeStream :=
  if s.(mErrorState) then
    (ReturnFalse, releaseInputFramesLocked env (compilePendingInputLocked env s))
  else workerIteration env s.

(** ** Codec configuration: grid and output budget *)

(** The grid chosen by [initializeCodec] for a [width] x [height] image ([uint32_t]):
    [(gridWidth, gridHeight, gridRows, gridCols)], all [int32_t]. *)
Definition gridOf (tiled : bool) (width height : Z) : Z * Z * Z * Z :=
  if tiled then
    let gridWidth := plat.(kGridWidth) in
    let gridHeight := plat.(kGridHeight) in
    (gridWidth, gridHeight,
     s32 (u32 (height + gridHeight - 1) / u32 gridHeight),
     s32 (u32 (width + gridWidth - 1) / u32 gridWidth))
  else (s32 width, s32 height, 1, 1).

(** [calcAppSegmentMaxSize]; [count] is the first byte of the
    ANDROID_HEIC_INFO_MAX_JPEG_APP_SEGMENTS_COUNT entry, when there is one. *)
Definition calcAppSegmentMaxSize (count : option Z) : Z :=
  let maxAppsSegment :=
    match count with
    | Some c => if c <? 1 then 1 else if 16 <? c then 16 else c
    | None => 1
    end in
  maxAppsSegment * (2 + 65535) + plat.(sizeof_CameraBlob).

Definition kGainmapScale : Z := 4.

(** The members that [initializeCodec] and [initializeGainmapCodec] assign once the
    codec was created and configured.  [useGrid] / [useHeic] and [gainmapUseGrid] are
    the answers of [isSizeSupportedByHeifEncoder]; [count] is as in
    [calcAppSegmentMaxSize]. *)
Definition initializeCodec (width height : Z) (useGrid useHeic gainmapUseGrid : bool)
    (count : option Z) (s : HeicCompositeStream) : HeicCompositeStream :=
  let useHeic := if s.(mHDRGainmapEnabled) then false else useHeic in
  let '(gw, gh, rows, cols) := gridOf (useGrid || useHeic) width height in
  let s := set_mUseGrid useGrid (set_mGridCols (u64 cols) (set_mGridRows (u64 rows)
             (set_mGridHeight gh (set_mGridWidth gw s)))) in
  let s := set_mOutputHeight (s32 height) (set_mOutputWidth (s32 width) s) in
  let s := set_mAppSegmentMaxSize (calcAppSegmentMaxSize count) s in
  let s := set_mMaxHeicBufferSize
             (u64 (ALIGN s.(mOutputWidth) plat.(kGridWidth) *
                   ALIGN s.(mOutputHeight) plat.(kGridHeight) * 3 / 2 +
                   s.(mAppSegmentMaxSize))) s in
  if negb s.(mHDRGainmapEnabled) then s
  else
    let gwidth := u32 (u64 s.(mOutputWidth) / kGainmapScale) in
    let gheight := u32 (u64 s.(mOutputHeight) / kGainmapScale) in
    let '(ggw, ggh, grows, gcols) := gridOf gainmapUseGrid gwidth gheight in
    let s := set_mGainmapUseGrid gainmapUseGrid (set_mGainmapGridCols (u64 gcols)
               (set_mGainmapGridRows (u64 grows) (set_mGainmapGridHeight ggh
                  (set_mGainmapGridWidth ggw s)))) in
    let s := set_mGainmapOutputHeight (s32 gheight) (set_mGainmapOutputWidth (s32 gwidth) s) in
    set_mMaxHeicBufferSize
      (u64 (s.(mMaxHeicBufferSize) +
            ALIGN s.(mGainmapOutputWidth) plat.(kGridWidth) *
            ALIGN s.(mGainmapOutputHeight) plat.(kGridHeight) * 3 / 2)) s.

End Pipeline.

(** ** A concrete platform, environment and stream

    Used to evaluate the model on examples: a little-endian target where [CameraBlob] is
    two 32-bit fields, collaborators that always succeed, and the members as the
    constructor leaves them (main image stream id 5). *)

Definition le32 (l : list Z) (off : nat) : Z :=
  nth off l 0 + 256 * nth (off + 1) l 0 + 65536 * nth (off + 2) l 0 +
  16777216 * nth (off + 3) l 0.

Definition android : Platform :=
  mkPlatform 8 (fun l => le32 l 0) (fun l => s32 (le32 l 4)) 256 2 16 4099 512 512.

Definition trackOf (fmt : option AMessage) : Z :=
  match fmt with
  | Some m => match m.(key_gainmap) with Some _ => 1 | None => 0 end
  | None => -1
  end.

(** Every collaborator succeeds; the muxer output is [fSize] bytes long and the APP
    segment consumer hands out [segments]. *)
Definition envOf (fSize : Z) (segments : list (status_t * LockedBuffer)) : Env :=
  mkEnv (OK, (77, -1)) OK (fun _ => OK) (fun _ => OK)
    (fun fn => 10 + fn) (fun _ => fSize) (fun _ n => n)
    (fun fd => Some fd) (fun _ => OK) trackOf OK (fun _ _ _ _ => OK)
    (fun _ i => (OK, Some [i; i])) (fun _ _ => OK) (fun _ _ => OK) (fun _ => OK)
    (fun _ _ _ _ _ => OK)
    segments []
    (fun _ _ => true) true (fun _ => true) (fun _ => true) true [1; 2; 3]
    true (Some (mkLockedBuffer (Some []) 0 0 0)) true (Some [9; 9])
    TIMED_OUT.

Definition envWith (fSize : Z) : Env := envOf fSize [].

Definition happyEnv : Env := envWith 1000.

(** The members as the constructor and [createInternalStreams] leave them: main image
    stream 5, APP segment stream 6 when the device supports APP segments. *)
Definition constructed (appSegmentSupported hdr : bool) : HeicCompositeStream :=
  mkStream false None None 1 1 0 0 0 0 0 512 512 512 512 1 1 1 1 false false
    (if appSegmentSupported then 6 else -1) 5 0 [] [] false 0 [] [] [] [] [] [] 0 0 (-1)
    [] [] [] 0 [] [] appSegmentSupported hdr 4100 false [] [] true [].

Definition plainFormat : AMessage :=
  mkAMessage false None None None None None None None None None.

Definition outputOf (i : Z) : CodecOutputBufferInfo := mkCodecOutputBufferInfo i 0 100 0 0.


(** * Part II: the vocabulary of the properties *)

(** Keys strictly ascending, as [std::map] keeps them. *)
Fixpoint ascending (V : Type) (m : list (Z * V)) : Prop :=
  match m with
  | [] => True
  | (k, _) :: m' => (forall k' v', In (k', v') m' -> k < k') /\ ascending m'
  end.

Definition Rel : Type :=
  HeicCompositeStream -> InputFrame -> HeicCompositeStream -> InputFrame -> Prop.

(** Whatever [p] returns, the stream and frame it leaves are related to those it got. *)
Definition keeps (R : Rel) (p : Proc) : Prop :=
  forall s f r s' f', p s f = (r, s', f') -> R s f s' f'.

Definition reflexiveR (R : Rel) : Prop := forall s f, R s f s f.

Definition transitiveR (R : Rel) : Prop :=
  forall s f s1 f1 s2 f2, R s f s1 f1 -> R s1 f1 s2 f2 -> R s f s2 f2.

(** A processing function only appends to the trace and adjusts the count of dequeued
    output buffers; every appended event satisfies [P]. *)
Definition streamStep (P : Event -> Prop) (s s' : HeicCompositeStream) : Prop :=
  exists evs c,
    s' = set_mDequeuedOutputBufferCnt c (set_trace (trace s ++ evs) s) /\ Forall P evs.

(** The gainmap metadata of a frame is either absent or starts with the version byte. *)
Definition isoOK (f : InputFrame) : Prop :=
  isoGainmapMetadata f = [] \/ exists enc, isoGainmapMetadata f = 0 :: enc.

Definition procRel (P : Event -> Prop) : Rel := fun s f s' f' =>
  streamStep P s s' /\
  (isSome (muxer f) = true ->
   muxer f' = muxer f /\
   pendingOutputTiles f' <= pendingOutputTiles f /\
   gainmapPendingOutputTiles f' <= gainmapPendingOutputTiles f) /\
  (forall Q, Forall Q (codecOutputBuffers f) -> Forall Q (codecOutputBuffers f')) /\
  (forall Q, Forall Q (gainmapCodecOutputBuffers f) -> Forall Q (gainmapCodecOutputBuffers f')) /\
  (isoOK f -> isoOK f').

(** Events other than those of [processCompletedInputFrame]. *)
Definition quietEvent (e : Event) : Prop :=
  match e with
  | EvMuxerStop _ | EvQueueBuffer _ | EvAsyncEnd _ | EvBlobHeader _ _
  | EvSetBuffersTimestamp _ => False
  | _ => True
  end.

Definition anyEvent (e : Event) : Prop := True.

(** Fields that feeding the encoders and writing the gainmap metadata leave alone. *)
Definition segRel : Rel := fun _ f _ f' =>
  appSegmentBuffer f' = appSegmentBuffer f /\
  exifError f' = exifError f /\
  appSegmentWritten f' = appSegmentWritten f /\
  result f' = result f /\
  muxer f' = muxer f /\
  codecOutputBuffers f' = codecOutputBuffers f /\
  gainmapCodecOutputBuffers f' = gainmapCodecOutputBuffers f /\
  pendingOutputTiles f' = pendingOutputTiles f /\
  gainmapPendingOutputTiles f' = gainmapPendingOutputTiles f /\
  error f' = error f /\
  requestId f' = requestId f.

(** The buffer passes every check of [findAppSegmentsSize] but the last: the trailer is a
    JPEG_APP_SEGMENTS blob with a size that fits, the APP1 marker is present and the APPn
    markers parse, yet their lengths add up to a total other than the declared one. *)
Definition trailerMismatch (plat : Platform) (buf : list Z) (maxSize : Z) : Prop :=
  blobId_of plat (trailerOf plat buf maxSize) = JPEG_APP_SEGMENTS plat /\
  expectedSizeOf plat buf maxSize <> 0 /\
  expectedSizeOf plat buf maxSize <= u64 (maxSize - sizeof_CameraBlob plat) /\
  byteAt buf 0 = 255 /\ byteAt buf 1 = 225 /\
  exists totalSize,
    scanAppN (Z.to_nat (expectedSizeOf plat buf maxSize)) buf
      (expectedSizeOf plat buf maxSize) (u32 (2 + app1SizeOf buf)) = Some (Some totalSize) /\
    totalSize <> expectedSizeOf plat buf maxSize.

(** A frame that holds nothing: what [releaseInputFrameLocked] leaves behind. *)
Definition holdsNothing (f : InputFrame) : Prop :=
  hasData (appSegmentBuffer f) = false /\
  codecOutputBuffers f = [] /\
  gainmapCodecOutputBuffers f = [] /\
  hasData (yuvBuffer f) = false /\
  codecInputBuffers f = [] /\
  gainmapCodecInputBuffers f = [] /\
  (0 <=? fileFd f) = false /\
  anb f = None.

(** Events that do not hand a buffer to the output surface. *)
Definition notDelivery (e : Event) : Prop :=
  match e with
  | EvQueueBuffer _ | EvAsyncEnd _ => False
  | _ => True
  end.

(** Releasing changes, in the stream, the trace, the dequeued-buffer count and
    [mYuvBufferAcquired]; [evs] are the events appended. *)
Definition releasedTo (s s' : HeicCompositeStream) (evs : list Event) : Prop :=
  exists c y,
    s' = set_mYuvBufferAcquired y
           (set_mDequeuedOutputBufferCnt c (set_trace (trace s ++ evs) s)).

Definition releaseEvent (e : Event) : Prop :=
  match e with
  | EvUnlockAppSegment _ | EvReleaseOutputBuffer _ _ | EvUnlockMainImage _
  | EvNotifyError _ _ | EvClose _ | EvCancelBuffer _ => True
  | _ => False
  end.

(** The test of [releaseInputFramesLocked]. *)
Definition releasable (f : InputFrame) : bool :=
  error f || (appSegmentWritten f && (pendingOutputTiles f =? 0) &&
              (gainmapPendingOutputTiles f =? 0)).

(** Events of the status tracker and of the quality update. *)
Definition housekeeping (e : Event) : Prop :=
  match e with
  | EvSetParameters _ | EvMarkComponentIdle | EvMarkComponentActive => True
  | _ => False
  end.

(** The frame as [threadLoop] leaves it before releasing: marked in error when
    [processInputFrame] failed. *)
Definition processed (r : status_t) (f : InputFrame) : InputFrame :=
  if is_OK r then f else set_error true f.

Section Evolves.
Variable R : InputFrame -> InputFrame -> Prop.

(** [m'] comes from [m] by assignments [m[k] = f'] where [f'] is related to the frame
    found under [k] (a fresh [InputFrame()] when there was none). *)
Inductive evolves : list (Z * InputFrame) -> list (Z * InputFrame) -> Prop :=
| evolves_refl : forall m, evolves m m
| evolves_put : forall m m' k f',
    evolves m m' -> R (map_at newInputFrame k m') f' -> evolves m (map_put k f' m').
End Evolves.

(** What the reconciliation pass and the selection may do to one frame: append
    compressed outputs satisfying [Q], and leave the muxer state alone. *)
Definition compRel (Q : CodecOutputBufferInfo -> Prop) (f f' : InputFrame) : Prop :=
  muxer f' = muxer f /\
  pendingOutputTiles f' = pendingOutputTiles f /\
  gainmapPendingOutputTiles f' = gainmapPendingOutputTiles f /\
  appSegmentWritten f' = appSegmentWritten f /\
  fileFd f' = fileFd f /\
  anb f' = anb f /\
  isoGainmapMetadata f' = isoGainmapMetadata f /\
  (exists l, codecOutputBuffers f' = codecOutputBuffers f ++ l /\ Forall Q l) /\
  (exists l, gainmapCodecOutputBuffers f' = gainmapCodecOutputBuffers f ++ l /\ Forall Q l).

Definition compStep (Q : CodecOutputBufferInfo -> Prop) (s s' : HeicCompositeStream) : Prop :=
  evolves (compRel Q) (mPendingInputFrames s) (mPendingInputFrames s') /\
  (Forall Q (mCodecOutputBuffers s) -> Forall Q (mCodecOutputBuffers s')) /\
  (Forall Q (mGainmapCodecOutputBuffers s) -> Forall Q (mGainmapCodecOutputBuffers s')).

(** [mCaptureResults] is filled by the base class [CompositeStream], which is not part
    of the file ([onResultAvailable]); this stands for any entry it may add: a capture
    result [meta] of frame [frameNumber] recorded under [timeStamp]. *)
Definition recordCaptureResult (timeStamp frameNumber : Z) (meta : CameraMetadata)
    (s : HeicCompositeStream) : HeicCompositeStream :=
  set_mCaptureResults (results_emplace timeStamp (frameNumber, meta) s.(mCaptureResults)) s.

(** One call of a producer callback, or one run of the worker. *)
Inductive Action : Type :=
| OnBufferReleased (mError : bool) (mStreamId mFrameNumber : Z)
| OnBufferRequestForFrameNumber (frameNumber streamId : Z) (jpegOrientation jpegQuality : option Z)
| OnFrameAvailable (mDataSpace mTimestamp : Z)
| OnHeicOutputFrameAvailable (info : CodecOutputBufferInfo) (isGainmap : bool)
| OnHeicInputFrameAvailable (idx : Z) (isGainmap : bool)
| OnHeicFormatChanged (newFormat : option AMessage) (isGainmap : bool)
| OnHeicCodecError
| OnShutter (frameNumber requestId timeStamp : Z)
| OnStreamBufferError (frameNumber errorStreamId : Z)
| CaptureResultRecorded (timeStamp frameNumber : Z) (meta : CameraMetadata)
| OnResultError (frameNumber : Z)
| OnRequestError (frameNumber : Z)
| ThreadLoop (env : Env)
| InnerLoopAgain (env : Env).

Definition perform (plat : Platform) (a : Action) (s : HeicCompositeStream)
    : HeicCompositeStream :=
  match a with
  | OnBufferReleased e i n => onBufferReleased e i n s
  | OnBufferRequestForFrameNumber n i o q => onBufferRequestForFrameNumber n i o q s
  | OnFrameAvailable d t => onFrameAvailable plat d t s
  | OnHeicOutputFrameAvailable b g => onHeicOutputFrameAvailable plat b g s
  | OnHeicInputFrameAvailable i g => onHeicInputFrameAvailable i g s
  | OnHeicFormatChanged m g => onHeicFormatChanged m g s
  | OnHeicCodecError => onHeicCodecError s
  | OnShutter n r t => onShutter n r t s
  | OnStreamBufferError n i => snd (onStreamBufferError n i s)
  | CaptureResultRecorded t n m => recordCaptureResult t n m s
  | OnResultError n => onResultError n s
  | OnRequestError n => onRequestError n s
  | ThreadLoop env => snd (threadLoop plat env s)
  | InnerLoopAgain env => snd (workerIteration plat env s)
  end.

Definition run (plat : Platform) (acts : list Action) (s : HeicCompositeStream)
    : HeicCompositeStream :=
  fold_left (fun s a => perform plat a s) acts s.

(** No frame is pending and no compressed output is queued: the stream as configured. *)
Definition idle (s : HeicCompositeStream) : Prop :=
  mPendingInputFrames s = [] /\ mCodecOutputBuffers s = [] /\
  mGainmapCodecOutputBuffers s = [].

Definition reachable (plat : Platform) (s : HeicCompositeStream) : Prop :=
  exists s0 acts, idle s0 /\ s = run plat acts s0.

(** Both queues of a frame hold real outputs only. *)
Definition realQueues (plat : Platform) (f : InputFrame) : Prop :=
  Forall (fun b => realOutput plat b = true) (codecOutputBuffers f) /\
  Forall (fun b => realOutput plat b = true) (gainmapCodecOutputBuffers f).

(** The invariant: the frame map is ordered, and every compressed output held anywhere
    in the pipeline is a real one. *)
Definition wellFormed (plat : Platform) (s : HeicCompositeStream) : Prop :=
  ascending (mPendingInputFrames s) /\
  Forall (fun b => realOutput plat b = true) (mCodecOutputBuffers s) /\
  Forall (fun b => realOutput plat b = true) (mGainmapCodecOutputBuffers s) /\
  forall k f, In (k, f) (mPendingInputFrames s) -> realQueues plat f.

Definition isCallback (a : Action) : bool :=
  match a with
  | ThreadLoop _ | InnerLoopAgain _ => false
  | _ => true
  end.


(** Tile [i] of a [cols] x [rows] grid of [Tw] x [Th] tiles, cut at the bounds of a
    [W] x [H] image: top, left, width, height. *)
Definition clippedTile (cols rows Tw Th W H i : Z) : Z * Z * Z * Z :=
  let tileX := i mod cols in
  let tileY := i / cols in
  (Th * tileY, Tw * tileX,
   (if tileX =? cols - 1 then W - tileX * Tw else Tw),
   (if tileY =? rows - 1 then H - tileY * Th else Th)).


(** The frames completed, the frames whose failure was notified, and the buffers queued
    to the output surface in a run of events, oldest first. *)
Definition completions (evs : list Event) : list Z :=
  flat_map (fun e => match e with EvAsyncEnd k => [k] | _ => [] end) evs.

Definition notifications (evs : list Event) : list Z :=
  flat_map (fun e => match e with EvNotifyError k _ => [k] | _ => [] end) evs.

Definition queued (evs : list Event) : list Z :=
  flat_map (fun e => match e with EvQueueBuffer a => [a] | _ => [] end) evs.

(** The samples written to a muxer in a run of events. *)
Definition samples (evs : list Event) : list (list Z) :=
  flat_map (fun e => match e with EvWriteSampleData _ bytes _ _ _ => [bytes] | _ => [] end)
    evs.

(** ** Worked examples *)

(** A 16-byte APP segment buffer: an APP1 marker of declared length 6 (8 bytes with the
    marker), then the [CameraBlob] trailer with id JPEG_APP_SEGMENTS and size 6. *)
Definition badSegment : list Z := [255; 225; 0; 6; 0; 0; 0; 0; 0; 1; 0; 0; 6; 0; 0; 0].

Definition segmentEnv : Env := envOf 1000 [(OK, mkLockedBuffer (Some badSegment) 16 1 100)].

(** Frame 1 was requested, its shutter and result arrived, its one tile was written to
    its container, and its APP segment buffer has just been announced. *)
Definition segmentArrived : HeicCompositeStream :=
  run android
    [OnHeicFormatChanged (Some plainFormat) false;
     OnBufferRequestForFrameNumber 1 5 None None;
     OnShutter 1 0 100;
     ThreadLoop happyEnv;
     OnBufferReleased false 5 1;
     OnBufferReleased false 6 1;
     OnHeicOutputFrameAvailable (outputOf 0) false;
     OnResultError 1;
     ThreadLoop happyEnv;
     OnFrameAvailable 4099 100]
    (initializeCodec android 640 480 false false false None (constructed true false)).

(** A stream as the worker sees it when it has picked a frame: after the reconciliation
    pass and the selection. *)
Definition pickedBy (env : Env) (s : HeicCompositeStream) : HeicCompositeStream :=
  snd (getNextReadyInputLocked (compilePendingInputLocked env s)).

Definition segmentPicked : HeicCompositeStream := pickedBy segmentEnv segmentArrived.

(** On a 512 x 512 stream of a device without APP segments: frame 1 was requested, its
    shutter and result arrived, and its one tile was written to its container; what is
    left to write is the (empty) Exif segment. *)
Definition tileWritten (hdr : bool) : HeicCompositeStream :=
  run android
    [OnHeicFormatChanged (Some plainFormat) false;
     OnBufferRequestForFrameNumber 1 5 None None;
     OnShutter 1 0 100;
     ThreadLoop happyEnv;
     OnBufferReleased false 5 1;
     OnHeicOutputFrameAvailable (outputOf 0) false;
     OnResultError 1;
     ThreadLoop happyEnv]
    (initializeCodec android 512 512 false false false None (constructed false hdr)).

(** The last call of [processInputFrame] for frame 1 of [tileWritten], when the
    container is [fSize] bytes long. *)
Definition lastCall (hdr : bool) (fSize : Z) : status_t * HeicCompositeStream * InputFrame :=
  processInputFrame android (envWith fSize) 1 (pickedBy (envWith fSize) (tileWritten hdr))
    (frameAt 1 (pickedBy (envWith fSize) (tileWritten hdr))).

(** Events other than those of [startMuxerForInputFrame]. *)
Definition notOpening (e : Event) : Prop :=
  match e with
  | EvDequeueBuffer _ | EvMemfdCreate _ | EvMuxerCreate _ | EvSetOrientationHint _
  | EvAddTrack _ | EvMuxerStart => False
  | _ => True
  end.

(** A processing function only appends events satisfying [P]. *)
Definition stepRel (P : Event -> Prop) : Rel := fun s _ s' _ => streamStep P s s'.

(** The stream as [initializeCodec] leaves it for a 512 x 512 image without grid. *)
Definition configured : HeicCompositeStream :=
  initializeCodec android 512 512 false false false None (constructed false false).

(** A buffer of the main stream was returned for frame 1 and a compressed output arrived,
    but no request, shutter or result of frame 1 was ever announced. *)
Definition unsolicited : HeicCompositeStream :=
  run android
    [OnHeicFormatChanged (Some plainFormat) false;
     OnBufferReleased false 5 1;
     OnHeicOutputFrameAvailable (outputOf 0) false]
    configured.

(** A HEIC format of two 512 x 512 tiles in one row. *)
Definition gridFormat : AMessage :=
  mkAMessage true (Some 1024) (Some 512) (Some 512) (Some 512) (Some 1) (Some 2)
    None None None.

(** Frame 1 of a two-tile stream is pending with its settings, and its first compressed
    tile has arrived. *)
Definition firstTileArrived : HeicCompositeStream :=
  run android
    [OnHeicFormatChanged (Some gridFormat) false;
     OnBufferRequestForFrameNumber 1 5 None None;
     OnShutter 1 0 100;
     ThreadLoop happyEnv;
     OnBufferReleased false 5 1;
     OnHeicOutputFrameAvailable (outputOf 0) false]
    (initializeCodec android 1024 512 true false false None (constructed false false)).

(** The first tile was written, and the second has arrived. *)
Definition secondTileArrived : HeicCompositeStream :=
  run android
    [ThreadLoop happyEnv; OnHeicOutputFrameAvailable (outputOf 1) false]
    firstTileArrived.

(** Frames 1, 2 and 3 are requested and their shutters notified. *)
Definition threeRequested : list Action :=
  [OnHeicFormatChanged (Some plainFormat) false;
   OnBufferRequestForFrameNumber 1 5 None None;
   OnBufferRequestForFrameNumber 2 5 None None;
   OnBufferRequestForFrameNumber 3 5 None None;
   OnShutter 1 0 100;
   OnShutter 2 0 200;
   OnShutter 3 0 300;
   ThreadLoop happyEnv].

(** The main buffer, the compressed tile and the result of frame [k] arrive, and the
    worker runs twice. *)
Definition arrival (k : Z) : list Action :=
  [OnBufferReleased false 5 k;
   OnHeicOutputFrameAvailable (outputOf k) false;
   OnResultError k;
   ThreadLoop happyEnv;
   ThreadLoop happyEnv].

(** The inputs of frame 3 arrive first, then those of frame 1, then those of frame 2. *)
Definition arrivals312 : HeicCompositeStream :=
  run android (threeRequested ++ arrival 3 ++ arrival 1 ++ arrival 2) configured.

(** Frame 3 has its compressed tile, frames 1 and 2 have nothing yet. *)
Definition thirdReady : HeicCompositeStream :=
  compilePendingInputLocked happyEnv
    (run android
       (threeRequested ++ [OnBufferReleased false 5 3;
                           OnHeicOutputFrameAvailable (outputOf 3) false])
       configured).



(** ** Further vocabulary *)

(** What a frame was requested with and what was reported about it: the fields that
    [processInputFrame] reads but does not write. *)
Definition settingsRel : Rel := fun _ f _ f' =>
  orientation f' = orientation f /\ quality f' = quality f /\
  timestamp f' = timestamp f /\ requestId f' = requestId f /\
  result f' = result f /\ error f' = error f /\
  format f' = format f /\ gainmapFormat f' = gainmapFormat f.

(** ** Further worked examples *)

(** Frames 1, 2 and 3 are pending; the buffers of frames 3 and 2 were lost. *)
Definition twoFailing : HeicCompositeStream :=
  compilePendingInputLocked happyEnv
    (run android (threeRequested ++ [OnStreamBufferError 3 5; OnStreamBufferError 2 5])
       configured).

(** ** The layout of an APP segment buffer *)

(** APPn segments laid end to end from offset [pos] up to exactly [total]: each starts
    with 0xFF and a marker byte from 0xE2 to 0xEF, followed by its length as a
    big-endian 16-bit number, which counts the two length bytes and the payload. *)
Inductive appSegments (buf : list Z) (total : Z) : Z -> Prop :=
| appSegments_end : appSegments buf total total
| appSegments_next : forall pos,
    pos < total ->
    byteAt buf pos = 255 ->
    225 < byteAt buf (pos + 1) <= 239 ->
    appSegments buf total
      (pos + 2 + u16 (byteAt buf (pos + 2) * 256 + byteAt buf (pos + 3))) ->
    appSegments buf total pos.

(** A buffer of [maxSize] bytes that [findAppSegmentsSize] accepts: its last bytes are a
    [CameraBlob] of id JPEG_APP_SEGMENTS whose size is positive and fits before the
    blob, it starts with the APP1 marker, and the APP1 segment followed by APPn segments
    fills exactly the declared size. *)
Definition acceptedSegments (plat : Platform) (buf : list Z) (maxSize : Z) : Prop :=
  blobId_of plat (trailerOf plat buf maxSize) = JPEG_APP_SEGMENTS plat /\
  0 < expectedSizeOf plat buf maxSize <= u64 (maxSize - sizeof_CameraBlob plat) /\
  byteAt buf 0 = 255 /\ byteAt buf 1 = 225 /\
  appSegments buf (expectedSizeOf plat buf maxSize) (2 + app1SizeOf buf).

(** ** Tiles *)

(** Pixel [(x, y)] lies in the rectangle given by top, left, width and height. *)
Definition inRect (r : Z * Z * Z * Z) (x y : Z) : Prop :=
  let '(t, l, w, h) := r in
  l <= x < l + w /\ t <= y < t + h.

(** An APP1 segment of 6 bytes followed by an APP2 segment of 6 bytes, then the blob
    header declaring 12 bytes of JPEG_APP_SEGMENTS. *)
Definition twoSegments : list Z :=
  [255; 225; 0; 4; 1; 2; 255; 226; 0; 4; 3; 4; 0; 1; 0; 0; 12; 0; 0; 0].

(** ** The codec callback handler

    [CodecCallbackHandler::onMessageReceived] decodes a notification of [MediaCodec] and
    calls the stream.  The callback ids are constants of [MediaCodec]; the message is
    given by what each [find...] call returns, [None] when the entry is absent. *)

Inductive CallbackId : Type :=
| CB_INPUT_AVAILABLE
| CB_OUTPUT_AVAILABLE
| CB_OUTPUT_FORMAT_CHANGED
| CB_ERROR
| CB_METRICS_FLUSHED
| CB_REQUIRED_RESOURCES_CHANGED
| CB_CRYPTO_ERROR
| CB_LARGE_FRAME_OUTPUT_AVAILABLE
| CB_OTHER (cbID : Z).

Record CodecMessage : Type := mkCodecMessage {
  what_kWhatCallbackNotify : bool;            (* msg->what() == kWhatCallbackNotify *)
  msg_callbackID : option CallbackId;         (* findInt32("callbackID") *)
  msg_index : option Z;                       (* findInt32("index") *)
  msg_offset : option Z;                      (* findSize("offset"), a size_t *)
  msg_size : option Z;                        (* findSize("size"), a size_t *)
  msg_timeUs : option Z;                      (* findInt64("timeUs") *)
  msg_flags : option Z;                       (* findInt32("flags") *)
  msg_format : option (option AMessage);      (* findMessage("format"); the message may be null *)
  msg_err : option Z;                         (* findInt32("err") *)
  msg_action : option Z                       (* findInt32("action") *)
}.

(** [mIsGainmap] is the member of the handler; the stream is the promoted [mParent] (a
    handler whose parent is gone does nothing). *)
Definition onMessageReceived (plat : Platform) (mIsGainmap : bool) (msg : CodecMessage)
    (parent : HeicCompositeStream) : HeicCompositeStream :=
  if negb msg.(what_kWhatCallbackNotify) then parent
  else
    match msg.(msg_callbackID) with
    | None => parent
    | Some CB_INPUT_AVAILABLE =>
        match msg.(msg_index) with
        | None => parent
        | Some index => onHeicInputFrameAvailable index mIsGainmap parent
        end
    | Some CB_OUTPUT_AVAILABLE =>
        match msg.(msg_index) with
        | None => parent
        | Some index =>
        match msg.(msg_offset) with
        | None => parent
        | Some offset =>
        match msg.(msg_size) with
        | None => parent
        | Some size =>
        match msg.(msg_timeUs) with
        | None => parent
        | Some timeUs =>
        match msg.(msg_flags) with
        | None => parent
        | Some flags =>
            let bufferInfo :=
              mkCodecOutputBufferInfo index (s32 offset) (s32 size) timeUs (u32 flags) in
            onHeicOutputFrameAvailable plat bufferInfo mIsGainmap parent
        end end end end end
    | Some CB_OUTPUT_FORMAT_CHANGED =>
        match msg.(msg_format) with
        | None => parent
        | Some format => onHeicFormatChanged format mIsGainmap parent
        end
    | Some CB_ERROR =>
        match msg.(msg_err) with
        | None => parent
        | Some _ =>
        match msg.(msg_action) with
        | None => parent
        | Some _ => onHeicCodecError parent
        end end
    | Some CB_METRICS_FLUSHED | Some CB_REQUIRED_RESOURCES_CHANGED => parent
    | Some CB_CRYPTO_ERROR | Some CB_LARGE_FRAME_OUTPUT_AVAILABLE | Some (CB_OTHER _) => parent
    end.

(** A message that [onMessageReceived] acts on: a callback notification of one of the
    four handled kinds with every entry that kind needs. *)
Definition wellFormedMessage (msg : CodecMessage) : bool :=
  msg.(what_kWhatCallbackNotify) &&
  match msg.(msg_callbackID) with
  | Some CB_INPUT_AVAILABLE => isSome msg.(msg_index)
  | Some CB_OUTPUT_AVAILABLE =>
      isSome msg.(msg_index) && isSome msg.(msg_offset) && isSome msg.(msg_size) &&
      isSome msg.(msg_timeUs) && isSome msg.(msg_flags)
  | Some CB_OUTPUT_FORMAT_CHANGED => isSome msg.(msg_format)
  | Some CB_ERROR => isSome msg.(msg_err) && isSome msg.(msg_action)
  | _ => false
  end.

(** An output notification for buffer [index] of [size] bytes. *)
Definition outputMessage (index size flags : Z) : CodecMessage :=
  mkCodecMessage true (Some CB_OUTPUT_AVAILABLE) (Some index) (Some 0) (Some size)
    (Some 0) (Some flags) None None None.

(** ** The internal streams

    [SurfaceMap] (declared with the camera device) maps a stream id to the surface ids
    requested of it; [mAppSegmentSurfaceId] and [mMainImageSurfaceId] are the members
    set by [createInternalStreams]. *)

Definition SurfaceMap : Type := list (Z * list Z).

(** [insertGbp]: the status, the surface map, the stream ids and [*currentStreamId],
    which is [None] for a null pointer. *)
Definition insertGbp (mAppSegmentSurfaceId mMainImageSurfaceId : Z)
    (s : HeicCompositeStream) (outSurfaceMap : SurfaceMap) (outputStreamIds : list Z)
    (currentStreamId : option Z) : status_t * SurfaceMap * list Z * option Z :=
  let '(outSurfaceMap, outputStreamIds) :=
    if s.(mAppSegmentSupported) then
      let outputStreamIds :=
        if negb (map_mem s.(mAppSegmentStreamId) outSurfaceMap)
        then outputStreamIds ++ [s.(mAppSegmentStreamId)] else outputStreamIds in
      (map_upd [] s.(mAppSegmentStreamId) (fun v => v ++ [mAppSegmentSurfaceId])
         outSurfaceMap, outputStreamIds)
    else (outSurfaceMap, outputStreamIds) in
  let outputStreamIds :=
    if negb (map_mem s.(mMainImageStreamId) outSurfaceMap)
    then outputStreamIds ++ [s.(mMainImageStreamId)] else outputStreamIds in
  let outSurfaceMap :=
    map_upd [] s.(mMainImageStreamId) (fun v => v ++ [mMainImageSurfaceId]) outSurfaceMap in
  let currentStreamId :=
    match currentStreamId with
    | Some _ => Some s.(mMainImageStreamId)
    | None => None
    end in
  (OK, outSurfaceMap, outputStreamIds, currentStreamId).

(** [insertCompositeStreamIds]; the vector is [None] for a null pointer. *)
Definition insertCompositeStreamIds (s : HeicCompositeStream)
    (compositeStreamIds : option (list Z)) : status_t * option (list Z) :=
  match compositeStreamIds with
  | None => (BAD_VALUE, None)
  | Some ids =>
      let ids := if s.(mAppSegmentSupported) then ids ++ [s.(mAppSegmentStreamId)] else ids in
      (OK, Some (ids ++ [s.(mMainImageStreamId)]))
  end.

(** The stream ids are the keys of the surface map, each listed once. *)
Definition idsOf (m : SurfaceMap) (ids : list Z) : Prop :=
  NoDup ids /\ forall id, In id ids <-> map_mem id m = true.

(** ** Accounting *)

(** Events of the reconciliation pass: input buffers that cannot be used are returned,
    the status tracker is told, the codec quality is updated. *)
Definition compileEvent (e : Event) : Prop :=
  match e with
  | EvUnlockAppSegment _ | EvUnlockMainImage _ | EvSetParameters _
  | EvMarkComponentActive => True
  | _ => False
  end.

(** The stream keeps its count of dequeued output buffers and its error state, and the
    events appended all satisfy [P]. *)
Definition tidy (P : Event -> Prop) (s s' : HeicCompositeStream) : Prop :=
  mDequeuedOutputBufferCnt s' = mDequeuedOutputBufferCnt s /\
  mErrorState s' = mErrorState s /\
  exists evs, trace s' = trace s ++ evs /\ Forall P evs.

(** The number of output buffers a frame holds, and the number held by all frames. *)
Definition held (f : InputFrame) : Z := if isSome (anb f) then 1 else 0.

Fixpoint heldOutputs (m : list (Z * InputFrame)) : Z :=
  match m with
  | [] => 0
  | (_, f) :: m' => held f + heldOutputs m'
  end.

(** A frame has a container exactly when it holds an output buffer. *)
Definition paired (f : InputFrame) : Prop := isSome (muxer f) = isSome (anb f).

(** The accounting of output buffers between two steps of the pipeline: the count of
    dequeued buffers is the number of buffers the pending frames hold, and every
    pending frame is [paired]. *)
Definition accounted (s : HeicCompositeStream) : Prop :=
  ascending (mPendingInputFrames s) /\
  mDequeuedOutputBufferCnt s = heldOutputs (mPendingInputFrames s) /\
  mDequeuedOutputBufferCnt s <= kMaxOutputSurfaceProducerCount /\
  forall k f, In (k, f) (mPendingInputFrames s) -> paired f.

(** What feeding the encoders and writing samples leave alone. *)
Definition holdRel : Rel := fun s f s' f' =>
  mDequeuedOutputBufferCnt s' = mDequeuedOutputBufferCnt s /\
  anb f' = anb f /\ muxer f' = muxer f.

(** Events of releasing frames and of the housekeeping that follows. *)
Definition haltEvent (e : Event) : Prop :=
  compileEvent e \/ releaseEvent e \/ housekeeping e.

(** The actions that bring frame 1 of a two-tile stream to an open container: those of
    [firstTileArrived] followed by a run of the worker. *)
Definition containerOpened : list Action :=
  [OnHeicFormatChanged (Some gridFormat) false;
   OnBufferRequestForFrameNumber 1 5 None None;
   OnShutter 1 0 100;
   ThreadLoop happyEnv;
   OnBufferReleased false 5 1;
   OnHeicOutputFrameAvailable (outputOf 0) false;
   ThreadLoop happyEnv].

(** ** What the reconciliation pass may do to a frame *)

(** The assignments that the reconciliation pass and the selection make to a pending
    frame, and their compositions.  The settings (orientation, quality, timestamp and
    request id) are assigned only when a request is promoted to a frame:
    [frameUpdate true] includes that assignment, [frameUpdate false] does not. *)
Inductive frameUpdate : bool -> InputFrame -> InputFrame -> Prop :=
| fu_settings : forall f o q t r,
    frameUpdate true f
      (set_requestId r (set_timestamp t (set_quality q (set_orientation o f))))
| fu_error : forall p f, frameUpdate p f (set_error true f)
| fu_exifError : forall p f, frameUpdate p f (set_exifError true f)
| fu_appSegmentBuffer : forall p f b, frameUpdate p f (set_appSegmentBuffer b f)
| fu_yuvBuffer : forall p f b, frameUpdate p f (set_yuvBuffer b f)
| fu_codecOutput : forall p f b,
    frameUpdate p f (set_codecOutputBuffers (codecOutputBuffers f ++ [b]) f)
| fu_gainmapCodecOutput : forall p f b,
    frameUpdate p f (set_gainmapCodecOutputBuffers (gainmapCodecOutputBuffers f ++ [b]) f)
| fu_result : forall p f meta, frameUpdate p f (set_result (Some meta) f)
| fu_inputTile : forall p f idx ts,
    frameUpdate p f
      (set_codecInputCounter (codecInputCounter f + 1)
         (set_codecInputBuffers
            (codecInputBuffers f ++ [mkCodecInputBufferInfo idx ts (codecInputCounter f)]) f))
| fu_gainmapInputTile : forall p f idx ts,
    frameUpdate p f
      (set_gainmapCodecInputCounter (gainmapCodecInputCounter f + 1)
         (set_gainmapCodecInputBuffers
            (gainmapCodecInputBuffers f ++
             [mkCodecInputBufferInfo idx ts (gainmapCodecInputCounter f)]) f))
| fu_format : forall p f m, format f = None -> frameUpdate p f (set_format (Some m) f)
| fu_gainmapFormat : forall p f m,
    gainmapFormat f = None -> frameUpdate p f (set_gainmapFormat (Some m) f)
| fu_refl : forall p f, frameUpdate p f f
| fu_trans : forall p a b c, frameUpdate p a b -> frameUpdate p b c -> frameUpdate p a c.

(** The pending frames of [s'] come from those of [s] by such assignments. *)
Definition frameStep (p : bool) (s s' : HeicCompositeStream) : Prop :=
  evolves (frameUpdate p) (mPendingInputFrames s) (mPendingInputFrames s').

(** ** Stream information

    The pixel formats, dataspaces and usage flags are constants of the graphics HAL;
    they are parameters here.  [isSizeSupported] stands for
    [HeicEncoderInfoManager::isSizeSupported]: [Some (useHeic, useGrid)] when the size is
    supported. *)
Record Hal : Type := mkHal {
  HAL_PIXEL_FORMAT_BLOB : Z;
  HAL_PIXEL_FORMAT_YCBCR_P010 : Z;
  HAL_PIXEL_FORMAT_YCbCr_420_888 : Z;
  HAL_PIXEL_FORMAT_IMPLEMENTATION_DEFINED : Z;
  HAL_DATASPACE_HEIF : Z;
  HAL_DATASPACE_BT2020_HLG : Z;
  kUltraHDRDataSpace : Z;
  GRALLOC_USAGE_HW_IMAGE_ENCODER : Z;
  GRALLOC_USAGE_SW_READ_OFTEN : Z;
  GRALLOC_USAGE_HW_VIDEO_ENCODER : Z;
  ANDROID_HEIC_INFO_SUPPORTED_TRUE : Z;
  isSizeSupported : Z -> Z -> option (bool * bool)
}.

Record OutputStreamInfo : Type := mkOutputStreamInfo {
  osi_width : Z;
  osi_height : Z;
  osi_format : Z;
  osi_dataSpace : Z;
  osi_consumerUsage : Z
}.

Definition isHeicCompositeStreamInfo (hal : Hal) (streamInfo : OutputStreamInfo)
    (isCompositeHeicDisabled isCompositeHeicUltraHDRDisabled : bool) : bool :=
  (((streamInfo.(osi_dataSpace) =? hal.(HAL_DATASPACE_HEIF)) &&
    negb isCompositeHeicDisabled) ||
   ((streamInfo.(osi_dataSpace) =? hal.(kUltraHDRDataSpace)) &&
    negb isCompositeHeicUltraHDRDisabled)) &&
  (streamInfo.(osi_format) =? hal.(HAL_PIXEL_FORMAT_BLOB)).

(** [isHeicCompositeStream]: [queryFormat] and [queryDataspace] are what the two
    [ANativeWindow::query] calls answer, the status and the value. *)
Definition isHeicCompositeStream (hal : Hal) (queryFormat queryDataspace : status_t * Z)
    (isCompositeHeicDisabled isCompositeHeicUltraHDRDisabled : bool) : bool :=
  let '(err, format) := queryFormat in
  if negb (is_OK err) then false
  else
    let '(err, dataspace) := queryDataspace in
    if negb (is_OK err) then false
    else
      (format =? hal.(HAL_PIXEL_FORMAT_BLOB)) &&
      (((dataspace =? hal.(HAL_DATASPACE_HEIF)) && negb isCompositeHeicDisabled) ||
       ((dataspace =? hal.(kUltraHDRDataSpace)) && negb isCompositeHeicUltraHDRDisabled)).

(** [getCompositeStreamInfo]: [halHeicSupport] is the ANDROID_HEIC_INFO_SUPPORTED entry
    of the characteristics (its bytes), [count] is as in [calcAppSegmentMaxSize], and
    [compositeOutput] is [None] for a null pointer. *)
Definition getCompositeStreamInfo (plat : Platform) (hal : Hal)
    (streamInfo : OutputStreamInfo) (halHeicSupport : list Z) (count : option Z)
    (compositeOutput : option (list OutputStreamInfo))
    : status_t * option (list OutputStreamInfo) :=
  match compositeOutput with
  | None => (BAD_VALUE, None)
  | Some _ =>
      match hal.(isSizeSupported) streamInfo.(osi_width) streamInfo.(osi_height) with
      | None => (OK, Some [])
      | Some (useHeic, useGrid) =>
          let gainmapEnabled := streamInfo.(osi_dataSpace) =? hal.(kUltraHDRDataSpace) in
          let main :=
            mkOutputStreamInfo streamInfo.(osi_width) streamInfo.(osi_height)
              (if gainmapEnabled then hal.(HAL_PIXEL_FORMAT_YCBCR_P010)
               else if useGrid then hal.(HAL_PIXEL_FORMAT_YCbCr_420_888)
               else hal.(HAL_PIXEL_FORMAT_IMPLEMENTATION_DEFINED))
              (if gainmapEnabled then hal.(HAL_DATASPACE_BT2020_HLG)
               else hal.(HAL_DATASPACE_HEIF))
              (if useHeic then hal.(GRALLOC_USAGE_HW_IMAGE_ENCODER)
               else if useGrid then hal.(GRALLOC_USAGE_SW_READ_OFTEN)
               else hal.(GRALLOC_USAGE_HW_VIDEO_ENCODER)) in
          match halHeicSupport with
          | [v] =>
              if v =? hal.(ANDROID_HEIC_INFO_SUPPORTED_TRUE) then
                (OK, Some [main;
                           mkOutputStreamInfo (calcAppSegmentMaxSize plat count) 1
                             hal.(HAL_PIXEL_FORMAT_BLOB) plat.(kAppSegmentDataSpace)
                             hal.(GRALLOC_USAGE_SW_READ_OFTEN)])
              else (OK, Some [main])
          | _ => (OK, Some [main])
          end
      end
  end.

(** HAL constants used in the examples: every size is supported by the tiled software
    path. *)
Definition exampleHal : Hal :=
  mkHal 33 54 35 34 4100 4101 4102 1 2 3 1 (fun _ _ => Some (false, true)).

(** ** The pixel copy

    [copyOneYuvTile] copies one tile of a locked camera buffer into an input buffer of
    the encoder.  [CpuConsumer::LockedBuffer], [MediaImage2] and [MediaCodecBuffer] are
    declared outside the repository; here are the members the function reads.  Plane
    pointers are addresses into [mem]; the bytes of the codec buffer are given by their
    offset from [data()]. *)
Module Pixels.

Record LockedBuffer : Type := mkLockedBuffer {
  mem : Z -> Z;
  data : Z;
  stride : Z;
  dataCb : Z;
  dataCr : Z;
  chromaStride : Z;
  chromaStep : Z
}.

Record PlaneInfo : Type := mkPlaneInfo {
  mOffset : Z;
  mColInc : Z;
  mRowInc : Z
}.

Record MediaImage2 : Type := mkMediaImage2 {
  mType_is_YUV : bool;             (* mType == MEDIA_IMAGE_TYPE_YUV *)
  mNumPlanes : Z;
  mWidth : Z;
  mHeight : Z;
  mBitDepth : Z;
  mBitDepthAllocated : Z;
  mPlaneY : PlaneInfo;
  mPlaneU : PlaneInfo;
  mPlaneV : PlaneInfo
}.

(** [image_data] is the "image-data" entry of the buffer's meta, when there is one: its
    size and its content read as a [MediaImage2]. *)
Record MediaCodecBuffer : Type := mkMediaCodecBuffer {
  bytes : Z -> Z;
  image_data : option (Z * MediaImage2)
}.

(** [dst[i] = v] *)
Definition store (dst : Z -> Z) (i v : Z) : Z -> Z :=
  fun a => if a =? i then v else dst a.

(** [CopyRow_C] of libyuv, the row function that [initCopyRowFunction] installs first:
    [memcpy(dst, src, count)].  A count that is not positive copies nothing here. *)
Definition CopyRow_C (m : Z -> Z) (src : Z) (dst : Z -> Z) (to count : Z) : Z -> Z :=
  fun a => if (to <=? a) && (a <? to + count) then m (src + (a - to)) else dst a.

(** [for (auto i = lo; i < hi; i++) acc = body(i, acc)] *)
Fixpoint forRange (A : Type) (n : nat) (i : Z) (body : Z -> A -> A) (acc : A) : A :=
  match n with
  | O => acc
  | S n' => forRange n' (i + 1) body (body i acc)
  end.

Definition forLoop (A : Type) (lo hi : Z) (body : Z -> A -> A) (acc : A) : A :=
  forRange (Z.to_nat (hi - lo)) lo body acc.

(** The status and the bytes of the codec buffer after the call.  [top], [left], [width]
    and [height] are [size_t]; the count given to the row function is an [int]. *)
Definition copyOneYuvTile (sizeof_MediaImage2 : Z) (codecBuffer : MediaCodecBuffer)
    (yuvBuffer : LockedBuffer) (top left width height : Z) : status_t * (Z -> Z) :=
  match codecBuffer.(image_data) with
  | None => (BAD_VALUE, codecBuffer.(bytes))
  | Some (imageDataSize, imageInfo) =>
      if negb (imageDataSize =? sizeof_MediaImage2) then (BAD_VALUE, codecBuffer.(bytes))
      else if negb imageInfo.(mType_is_YUV) || negb (imageInfo.(mBitDepth) =? 8) ||
              negb (imageInfo.(mBitDepthAllocated) =? 8) ||
              negb (imageInfo.(mNumPlanes) =? 3)
      then (BAD_VALUE, codecBuffer.(bytes))
      else
        let Y := imageInfo.(mPlaneY) in
        let U := imageInfo.(mPlaneU) in
        let V := imageInfo.(mPlaneV) in
        (* Y *)
        let dst :=
          forLoop top (u64 (top + height))
            (fun row dst =>
               CopyRow_C yuvBuffer.(mem)
                 (yuvBuffer.(data) + u64 (row * yuvBuffer.(stride)) + left)
                 dst (Y.(mOffset) + u64 (Y.(mRowInc) * (row - top))) (s32 width))
            codecBuffer.(bytes) in
        (* U is Cb, V is Cr *)
        let codecUPlaneFirst := U.(mOffset) <? V.(mOffset) in
        let codecUvOffsetDiff :=
          if codecUPlaneFirst then u32 (V.(mOffset) - U.(mOffset))
          else u32 (U.(mOffset) - V.(mOffset)) in
        let isCodecUvSemiplannar :=
          (codecUvOffsetDiff =? 1) && (U.(mRowInc) =? V.(mRowInc)) &&
          (U.(mColInc) =? 2) && (V.(mColInc) =? 2) in
        let isCodecUvPlannar :=
          ((codecUPlaneFirst &&
            (u32 (U.(mRowInc) * imageInfo.(mHeight)) / 2 <=? codecUvOffsetDiff)) ||
           (negb codecUPlaneFirst &&
            (u32 (V.(mRowInc) * imageInfo.(mHeight)) / 2 <=? codecUvOffsetDiff))) &&
          (U.(mColInc) =? 1) && (V.(mColInc) =? 1) in
        let cameraUPlaneFirst := yuvBuffer.(dataCb) <? yuvBuffer.(dataCr) in
        let rowLo := top / 2 in
        let rowHi := u64 (top + height) / 2 in
        if isCodecUvSemiplannar && (yuvBuffer.(chromaStep) =? 2) &&
           Bool.eqb codecUPlaneFirst cameraUPlaneFirst then
          (* UV semiplannar *)
          let src := Z.min yuvBuffer.(dataCb) yuvBuffer.(dataCr) in
          let dstPlane := if codecUPlaneFirst then U else V in
          (OK,
           forLoop rowLo rowHi
             (fun row dst =>
                CopyRow_C yuvBuffer.(mem)
                  (src + u64 (row * yuvBuffer.(chromaStride)) + left)
                  dst (dstPlane.(mOffset) + u64 (dstPlane.(mRowInc) * (row - rowLo)))
                  (s32 width))
             dst)
        else if isCodecUvPlannar && (yuvBuffer.(chromaStep) =? 1) then
          (* U plane *)
          let dst :=
            forLoop rowLo rowHi
              (fun row dst =>
                 CopyRow_C yuvBuffer.(mem)
                   (yuvBuffer.(dataCb) + u64 (row * yuvBuffer.(chromaStride)) + left / 2)
                   dst (U.(mOffset) + u64 (U.(mRowInc) * (row - rowLo))) (s32 (width / 2)))
              dst in
          (* V plane *)
          (OK,
           forLoop rowLo rowHi
             (fun row dst =>
                CopyRow_C yuvBuffer.(mem)
                  (yuvBuffer.(dataCr) + u64 (row * yuvBuffer.(chromaStride)) + left / 2)
                  dst (V.(mOffset) + u64 (V.(mRowInc) * (row - rowLo))) (s32 (width / 2)))
             dst)
        else
          (* Convert between semiplannar and plannar, or when UV orders are different. *)
          (OK,
           forLoop rowLo rowHi
             (fun row dst =>
                forLoop (left / 2) (u64 (left + width) / 2)
                  (fun col dst =>
                     let srcIndex :=
                       s32 (row * yuvBuffer.(chromaStride) + yuvBuffer.(chromaStep) * col) in
                     (* U/Cb *)
                     let dstIndex :=
                       s32 (U.(mOffset) + U.(mRowInc) * (row - rowLo) +
                            U.(mColInc) * (col - left / 2)) in
                     let dst := store dst dstIndex
                                  (yuvBuffer.(mem) (yuvBuffer.(dataCb) + srcIndex)) in
                     (* V/Cr *)
                     let dstIndex :=
                       s32 (V.(mOffset) + V.(mRowInc) * (row - rowLo) +
                            V.(mColInc) * (col - left / 2)) in
                     store dst dstIndex (yuvBuffer.(mem) (yuvBuffer.(dataCr) + srcIndex)))
                  dst)
             dst)
  end.

(** The offset in the codec buffer of the sample at row [r] and column [c] of a plane. *)
Definition planeIndex (p : PlaneInfo) (r c : Z) : Z :=
  p.(mOffset) + p.(mRowInc) * r + p.(mColInc) * c.

(** The image description that [copyOneYuvTile] accepts. *)
Definition accepted (sizeof_MediaImage2 : Z) (codecBuffer : MediaCodecBuffer)
    (info : MediaImage2) : Prop :=
  codecBuffer.(image_data) = Some (sizeof_MediaImage2, info) /\
  info.(mType_is_YUV) = true /\ info.(mBitDepth) = 8 /\
  info.(mBitDepthAllocated) = 8 /\ info.(mNumPlanes) = 3.

(** The chroma samples of a tile of [width] x [height] pixels lie behind its luma rows
    in the codec buffer, at offsets that fit an [int32_t]. *)
Definition chromaBehindLuma (info : MediaImage2) (width height : Z) : Prop :=
  forall r c, 0 <= r <= height / 2 -> 0 <= c <= width / 2 ->
    planeIndex info.(mPlaneY) height 0 <= planeIndex info.(mPlaneU) r c < 2 ^ 31 /\
    planeIndex info.(mPlaneY) height 0 <= planeIndex info.(mPlaneV) r c < 2 ^ 31.

(** No two chroma samples of a tile of [rows] x [cols] chroma samples share a byte of
    the codec buffer. *)
Definition chromaApart (info : MediaImage2) (rows cols : Z) : Prop :=
  forall r c r' c', 0 <= r < rows -> 0 <= c < cols -> 0 <= r' < rows -> 0 <= c' < cols ->
    planeIndex info.(mPlaneU) r c <> planeIndex info.(mPlaneV) r' c' /\
    (planeIndex info.(mPlaneU) r c = planeIndex info.(mPlaneU) r' c' -> r = r' /\ c = c') /\
    (planeIndex info.(mPlaneV) r c = planeIndex info.(mPlaneV) r' c' -> r = r' /\ c = c').

(** The offsets of the chroma samples of a tile of [rows] x [cols] chroma samples, in
    the codec buffer and in the camera buffer, fit an [int32_t]. *)
Definition chromaFits (info : MediaImage2) (yuvBuffer : LockedBuffer)
    (top left rows cols : Z) : Prop :=
  forall r c, 0 <= r < rows -> 0 <= c < cols ->
    0 <= planeIndex info.(mPlaneU) r c < 2 ^ 31 /\
    0 <= planeIndex info.(mPlaneV) r c < 2 ^ 31 /\
    0 <= (top / 2 + r) * yuvBuffer.(chromaStride) +
         yuvBuffer.(chromaStep) * (left / 2 + c) < 2 ^ 31.

(** The description of a planar 4:2:0 image (I420) of [w] x [h] pixels, and of a
    semiplanar one (NV12). *)
Definition planar (w h : Z) : MediaImage2 :=
  mkMediaImage2 true 3 w h 8 8
    (mkPlaneInfo 0 1 w)
    (mkPlaneInfo (w * h) 1 (w / 2))
    (mkPlaneInfo (w * h + (w / 2) * (h / 2)) 1 (w / 2)).

(** A camera buffer of 8 x 4 pixels with interleaved chroma, whose byte at address [a]
    is [a mod 256]. *)
Definition camera : LockedBuffer :=
  mkLockedBuffer (fun a => a mod 256) 1000 8 1032 1033 8 2.

Definition emptyInput (info : MediaImage2) : MediaCodecBuffer :=
  mkMediaCodecBuffer (fun _ => 0) (Some (104, info)).

End Pixels.


(** * Part III: lemmas *)

(** ** Facts about the ordered map *)

Section MapFacts.
Variable V : Type.
Implicit Types (m : list (Z * V)) (k : Z) (v : V).

Lemma map_find_In : forall m k v, map_find k m = Some v -> In (k, v) m.
Proof.
  induction m as [|[k' v'] m IH]; simpl; intros k v H; [discriminate|].
  destruct (Z.eqb_spec k' k) as [->|Hne].
  - injection H as ->. now left.
  - right. now apply IH.
Qed.

Lemma In_map_find : forall m k v, ascending m -> In (k, v) m -> map_find k m = Some v.
Proof.
  induction m as [|[k' v'] m IH]; simpl; intros k v Hasc Hin; [contradiction|].
  destruct Hasc as [Hlt Hasc]. destruct Hin as [E | Hin].
  - injection E as -> ->. now rewrite Z.eqb_refl.
  - destruct (Z.eqb_spec k' k) as [->|Hne].
    + specialize (Hlt _ _ Hin). lia.
    + now apply IH.
Qed.

Lemma map_find_put_eq : forall m k v, map_find k (map_put k v m) = Some v.
Proof.
  induction m as [|[k' v'] m IH]; simpl; intros k v.
  - now rewrite Z.eqb_refl.
  - destruct (Z.ltb_spec k k'); simpl; [now rewrite Z.eqb_refl|].
    destruct (Z.eqb_spec k k') as [->|Hne]; simpl; [now rewrite Z.eqb_refl|].
    destruct (Z.eqb_spec k' k); [lia | apply IH].
Qed.

Lemma map_find_put_ne : forall m k k' v, k' <> k -> map_find k' (map_put k v m) = map_find k' m.
Proof.
  induction m as [|[k0 v0] m IH]; simpl; intros k k' v Hne.
  - destruct (Z.eqb_spec k k'); [lia | reflexivity].
  - destruct (Z.ltb_spec k k0); simpl.
    + destruct (Z.eqb_spec k k'); [lia | reflexivity].
    + destruct (Z.eqb_spec k k0) as [->|Hne0]; simpl.
      * destruct (Z.eqb_spec k0 k'); [lia | reflexivity].
      * destruct (Z.eqb_spec k0 k'); [reflexivity | now apply IH].
Qed.

Lemma In_map_put : forall m k v k' v',
    In (k', v') (map_put k v m) -> (k' = k /\ v' = v) \/ In (k', v') m.
Proof.
  induction m as [|[k0 v0] m IH]; simpl; intros k v k' v' H.
  - destruct H as [E|[]]. injection E as <- <-. now left.
  - destruct (Z.ltb_spec k k0); simpl in H.
    + destruct H as [E|H]; [injection E as <- <-; now left | now right].
    + destruct (Z.eqb_spec k k0) as [->|Hne0]; simpl in H.
      * destruct H as [E|H]; [injection E as <- <-; now left | right; now right].
      * destruct H as [E|H]; [right; now left|].
        destruct (IH _ _ _ _ H) as [?|?]; [now left | right; now right].
Qed.

Lemma ascending_put : forall m k v, ascending m -> ascending (map_put k v m).
Proof.
  induction m as [|[k0 v0] m IH]; simpl; intros k v Hasc.
  - split; [intros ? ? []| exact I].
  - destruct Hasc as [Hlt Hasc].
    destruct (Z.ltb_spec k k0); simpl.
    + split; [|now split].
      intros k' v' [E|Hin]; [injection E as <- <-; lia|].
      specialize (Hlt _ _ Hin). lia.
    + destruct (Z.eqb_spec k k0) as [->|Hne0]; simpl; [now split|].
      split; [|now apply IH].
      intros k' v' Hin. destruct (In_map_put _ _ _ _ _ Hin) as [[-> _]|Hin']; [lia|].
      now apply (Hlt _ _ Hin').
Qed.

Lemma In_map_erase : forall m k k' v', In (k', v') (map_erase k m) -> In (k', v') m.
Proof.
  induction m as [|[k0 v0] m IH]; simpl; intros k k' v' H; [contradiction|].
  destruct (Z.eqb_spec k0 k); [now right|].
  destruct H as [E|H]; [now left | right; now apply (IH k)].
Qed.

Lemma ascending_erase : forall m k, ascending m -> ascending (map_erase k m).
Proof.
  induction m as [|[k0 v0] m IH]; simpl; intros k Hasc; [exact I|].
  destruct Hasc as [Hlt Hasc].
  destruct (Z.eqb_spec k0 k); [assumption|]. simpl. split; [|now apply IH].
  intros k' v' Hin. apply (Hlt k' v'). now apply (In_map_erase _ _ _ _ Hin).
Qed.

Lemma map_find_erase_eq : forall m k, ascending m -> map_find k (map_erase k m) = None.
Proof.
  induction m as [|[k0 v0] m IH]; simpl; intros k Hasc; [reflexivity|].
  destruct Hasc as [Hlt Hasc]. destruct (Z.eqb_spec k0 k) as [->|Hne].
  - destruct (map_find k m) as [v|] eqn:E; [|reflexivity].
    apply map_find_In in E. specialize (Hlt _ _ E). lia.
  - simpl. destruct (Z.eqb_spec k0 k); [lia | now apply IH].
Qed.

Lemma map_find_erase_ne : forall m k k', k' <> k -> map_find k' (map_erase k m) = map_find k' m.
Proof.
  induction m as [|[k0 v0] m IH]; simpl; intros k k' Hne; [reflexivity|].
  destruct (Z.eqb_spec k0 k) as [->|Hne0].
  - destruct (Z.eqb_spec k k'); [lia | reflexivity].
  - simpl. destruct (Z.eqb_spec k0 k'); [reflexivity | now apply IH].
Qed.

Lemma map_put_put : forall m k v v', map_put k v (map_put k v' m) = map_put k v m.
Proof.
  induction m as [|[k0 v0] m IH]; simpl; intros k v v'.
  - now rewrite Z.ltb_irrefl, Z.eqb_refl.
  - destruct (Z.ltb_spec k k0); simpl.
    + now rewrite Z.ltb_irrefl, Z.eqb_refl.
    + destruct (Z.eqb_spec k k0) as [->|Hne]; simpl.
      * now rewrite Z.ltb_irrefl, Z.eqb_refl.
      * destruct (Z.ltb_spec k k0); [lia|].
        destruct (Z.eqb_spec k k0); [lia|]. now rewrite IH.
Qed.

Lemma ascending_filter : forall (p : Z * V -> bool) m, ascending m -> ascending (filter p m).
Proof.
  intros p. induction m as [|[k0 v0] m IH]; simpl; intros Hasc; [exact I|].
  destruct Hasc as [Hlt Hasc]. destruct (p (k0, v0)); simpl; [|now apply IH].
  split; [|now apply IH].
  intros k' v' Hin. apply filter_In in Hin as [Hin _]. now apply (Hlt k' v').
Qed.

Lemma map_find_filter : forall (p : Z * V -> bool) m k,
    ascending m ->
    map_find k (filter p m) =
    match map_find k m with
    | Some v => if p (k, v) then Some v else None
    | None => None
    end.
Proof.
  intros p. induction m as [|[k0 v0] m IH]; simpl; intros k Hasc; [reflexivity|].
  destruct Hasc as [Hlt Hasc].
  destruct (Z.eqb_spec k0 k) as [->|Hne].
  - destruct (p (k, v0)); simpl; [now rewrite Z.eqb_refl|].
    destruct (map_find k (filter p m)) as [v|] eqn:E; [|reflexivity].
    apply map_find_In, filter_In in E as [E _]. specialize (Hlt _ _ E). lia.
  - destruct (p (k0, v0)); simpl; [|now apply IH].
    destruct (Z.eqb_spec k0 k); [lia | now apply IH].
Qed.
End MapFacts.

(** ** Reasoning about [Proc]s *)

Lemma andThen_cases : forall (p q : Proc) s f r s' f',
    andThen p q s f = (r, s', f') ->
    (p s f = (r, s', f') /\ r <> OK) \/
    (exists s1 f1, p s f = (OK, s1, f1) /\ q s1 f1 = (r, s', f')).
Proof.
  intros p q s f r s' f' H. unfold andThen in H.
  destruct (p s f) as [[r1 s1] f1].
  destruct r1; try (left; split; [exact H | injection H as <- _ _; discriminate]).
  right. now exists s1, f1.
Qed.

Lemma keeps_use : forall (R : Rel) (p : Proc), keeps R p ->
    forall s f r s' f', p s f = (r, s', f') -> R s f s' f'.
Proof. intros R p Hk s f r s' f' H. exact (Hk _ _ _ _ _ H). Qed.
Arguments keeps_use {R p} _ {s f r s' f'} _.

Section Keeps.
Variable R : Rel.
Hypothesis R_refl : reflexiveR R.
Hypothesis R_trans : transitiveR R.

Lemma keeps_ret : forall r, keeps R (ret r).
Proof. intros r s f r' s' f' H. injection H as _ <- <-. apply R_refl. Qed.

Lemma keeps_andThen : forall p q, keeps R p -> keeps R q -> keeps R (andThen p q).
Proof.
  intros p q Hp Hq s f r s' f' H.
  destruct (andThen_cases _ _ _ _ H) as [[H1 _] | (s1 & f1 & H1 & H2)].
  - now apply (Hp _ _ _ _ _ H1).
  - eapply R_trans; [apply (Hp _ _ _ _ _ H1) | apply (Hq _ _ _ _ _ H2)].
Qed.

Lemma keeps_when : forall (c : HeicCompositeStream -> InputFrame -> bool) p,
    keeps R p -> keeps R (fun s f => when (c s f) p s f).
Proof.
  intros c p Hp s f r s' f' H. destruct (c s f).
  - now apply (Hp _ _ _ _ _ H).
  - now apply (keeps_ret H).
Qed.

Lemma keeps_when_const : forall (c : bool) p, keeps R p -> keeps R (when c p).
Proof. intros c p Hp. exact (keeps_when (fun _ _ => c) Hp). Qed.

Lemma keeps_drainQueue : forall one l, keeps R one -> keeps R (drainQueue one l).
Proof.
  intros one l Hone. induction l as [|b l IH].
  - intros s f r s' f' H. injection H as _ <- <-. apply R_refl.
  - simpl. intros s f r s' f' H. exact (keeps_andThen Hone IH _ _ H).
Qed.

Lemma keeps_drainQueue_of : forall one (q : InputFrame -> list CodecOutputBufferInfo),
    keeps R one -> keeps R (fun s f => drainQueue one (q f) s f).
Proof. intros one q Hone s f r s' f' H. exact (keeps_drainQueue (q f) Hone _ _ H). Qed.
End Keeps.

(** ** What the processing functions can change *)

Lemma streamStep_refl : forall P s, streamStep P s s.
Proof.
  intros P s. exists [], (mDequeuedOutputBufferCnt s). split; [|constructor].
  rewrite app_nil_r. now destruct s.
Qed.

Lemma streamStep_emit : forall (P : Event -> Prop) s s' e,
    P e -> streamStep P s s' -> streamStep P s (emit e s').
Proof.
  intros P s s' e He (evs & c & -> & Hall).
  exists (evs ++ [e]), c. split.
  - unfold emit. simpl. now rewrite app_assoc.
  - apply Forall_app. split; [assumption | now constructor].
Qed.

Lemma streamStep_cnt : forall P s s' c,
    streamStep P s s' -> streamStep P s (set_mDequeuedOutputBufferCnt c s').
Proof.
  intros P s s' c (evs & c0 & -> & Hall). now exists evs, c.
Qed.

Lemma streamStep_trans : forall P s s1 s2,
    streamStep P s s1 -> streamStep P s1 s2 -> streamStep P s s2.
Proof.
  intros P s s1 s2 (e1 & c1 & -> & H1) (e2 & c2 & -> & H2).
  exists (e1 ++ e2), c2. split.
  - simpl. now rewrite app_assoc.
  - apply Forall_app. now split.
Qed.

Lemma streamStep_weaken : forall (P Q : Event -> Prop) s s',
    (forall e, P e -> Q e) -> streamStep P s s' -> streamStep Q s s'.
Proof.
  intros P Q s s' HPQ (evs & c & -> & Hall). exists evs, c. split; [reflexivity|].
  eapply Forall_impl; eassumption.
Qed.

Lemma streamStep_trace : forall P s s',
    streamStep P s s' -> exists evs, trace s' = trace s ++ evs /\ Forall P evs.
Proof. intros P s s' (evs & c & -> & Hall). now exists evs. Qed.

Lemma streamStep_frames : forall P s s',
    streamStep P s s' -> mPendingInputFrames s' = mPendingInputFrames s.
Proof. intros P s s' (evs & c & -> & _). reflexivity. Qed.

Lemma procRel_refl : forall P, reflexiveR (procRel P).
Proof.
  intros P s f. repeat split; auto using streamStep_refl; lia.
Qed.

Lemma procRel_trans : forall P, transitiveR (procRel P).
Proof.
  intros P s f s1 f1 s2 f2 (A1 & B1 & C1 & D1 & E1) (A2 & B2 & C2 & D2 & E2).
  split; [eapply streamStep_trans; eassumption|].
  split; [|repeat split; auto].
  intros Hm. destruct (B1 Hm) as (M1 & T1 & G1).
  assert (Hm1 : isSome (muxer f1) = true) by now rewrite M1.
  destruct (B2 Hm1) as (M2 & T2 & G2).
  repeat split; [congruence | lia | lia].
Qed.

Ltac break_hyp H :=
  repeat match type of H with
         | context [match ?x with _ => _ end] => destruct x eqn:?
         | context [if ?x then _ else _] => destruct x eqn:?
         end.

Ltac stream_step :=
  repeat first [ apply streamStep_cnt
               | apply streamStep_emit; [exact I|] ];
  apply streamStep_refl.

Ltac finish_rel :=
  match goal with
  | H : (_, _, _) = (_, _, _) |- _ => injection H as <- <- <-
  end;
  split; [stream_step|
  split; [simpl; intros; repeat split; try reflexivity; try lia; try congruence|
  split; [simpl; intros; try assumption|
  split; [simpl; intros; try assumption|
          simpl; unfold isoOK; simpl; intros; try assumption]]]].

Section Primitives.
Variable plat : Platform.
Variable env : Env.
Variable frameNumber : Z.

Lemma generate_rel : keeps (procRel quietEvent) (generateBaseImageAndGainmap env).
Proof.
  intros s f r s' f' H. unfold generateBaseImageAndGainmap in H.
  break_hyp H; finish_rel. right. eauto.
Qed.

Lemma feedTiles_step : forall isGainmap cols rows gw gh ow oh bufs s r s',
    feedTiles env isGainmap cols rows gw gh ow oh bufs s = (r, s') ->
    streamStep quietEvent s s'.
Proof.
  intros isGainmap cols rows gw gh ow oh bufs.
  induction bufs as [|b bufs IH]; cbn [feedTiles]; intros s r s' H.
  - injection H as _ <-. apply streamStep_refl.
  - destruct (is_OK (getInputBuffer env isGainmap (in_index b)));
      [|injection H as _ <-; apply streamStep_refl].
    cbn [negb] in H. destruct (tileRect _ _ _ _ _ _ _) as [[[a1 a2] a3] a4].
    destruct (is_OK (copyOneYuvTile env isGainmap a1 a2 a3 a4)); cbn [negb] in H;
      [|injection H as _ <-; stream_step].
    destruct (is_OK (queueInputBuffer env isGainmap (in_index b))); cbn [negb] in H;
      [|injection H as _ <-; stream_step].
    eapply streamStep_trans; [|apply (IH _ _ _ H)]. stream_step.
Qed.

Lemma processCodecInputFrame_rel : keeps (procRel quietEvent) (processCodecInputFrame env).
Proof.
  intros s f r s' f' H. unfold processCodecInputFrame in H.
  destruct (feedTiles _ _ _ _ _ _ _ _ _ _) as [r0 s0] eqn:E.
  apply feedTiles_step in E.
  assert (f' = f \/ f' = set_codecInputBuffers [] f) as [-> | ->]
    by (destruct r0; injection H as _ _ <-; auto).
  - assert (s' = s0) as -> by (destruct r0; now injection H).
    repeat split; auto; lia.
  - assert (s' = s0) as -> by (destruct r0; now injection H).
    repeat split; auto; simpl; lia.
Qed.

Lemma processCodecGainmapInputFrame_rel :
  keeps (procRel quietEvent) (processCodecGainmapInputFrame env).
Proof.
  intros s f r s' f' H. unfold processCodecGainmapInputFrame in H.
  destruct (feedTiles _ _ _ _ _ _ _ _ _ _) as [r0 s0] eqn:E.
  apply feedTiles_step in E.
  assert (f' = f \/ f' = set_gainmapCodecInputBuffers [] f) as [-> | ->]
    by (destruct r0; injection H as _ _ <-; auto).
  - assert (s' = s0) as -> by (destruct r0; now injection H).
    repeat split; auto; lia.
  - assert (s' = s0) as -> by (destruct r0; now injection H).
    repeat split; auto; simpl; lia.
Qed.

Lemma ensureMuxer_rel : keeps (procRel quietEvent) (ensureMuxer env frameNumber).
Proof.
  intros s f r s' f' H. unfold ensureMuxer, when in H.
  destruct (isSome (muxer f)) eqn:Hm; simpl in H.
  - injection H as _ <- <-. apply procRel_refl.
  - unfold startMuxerForInputFrame in H.
    break_hyp H; finish_rel; try discriminate.
Qed.

Lemma writeGainmapMetadata_rel : keeps (procRel quietEvent) (writeGainmapMetadata plat env).
Proof.
  intros s f r s' f' H. unfold writeGainmapMetadata in H.
  break_hyp H; finish_rel. now left.
Qed.

Lemma processAppSegment_rel :
  keeps (procRel quietEvent) (processAppSegment plat env frameNumber).
Proof.
  intros s f r s' f' H. unfold processAppSegment in H.
  destruct (if negb (exifError f) then _ else _) as [appSegmentSize app1Size].
  break_hyp H; finish_rel.
Qed.

Lemma processOneCodecOutputFrame_rel :
  keeps (procRel quietEvent) (processOneCodecOutputFrame env frameNumber).
Proof.
  intros s f r s' f' H. unfold processOneCodecOutputFrame in H.
  break_hyp H; finish_rel;
    try match goal with
        | E : codecOutputBuffers f = _ :: _, F : Forall _ (codecOutputBuffers f) |- _ =>
            rewrite E in F; now inversion F
        end;
    try match goal with E : (_ =? 0) = true |- _ => apply Z.eqb_eq in E; lia end.
Qed.

Lemma processOneCodecGainmapOutputFrame_rel :
  keeps (procRel quietEvent) (processOneCodecGainmapOutputFrame plat env frameNumber).
Proof.
  intros s f r s' f' H. unfold processOneCodecGainmapOutputFrame in H.
  break_hyp H; finish_rel;
    try match goal with
        | E : gainmapCodecOutputBuffers f = _ :: _,
          F : Forall _ (gainmapCodecOutputBuffers f) |- _ =>
            rewrite E in F; now inversion F
        end;
    try match goal with E : (_ =? 0) = true |- _ => apply Z.eqb_eq in E; lia end.
Qed.
End Primitives.

Lemma quiet_any : forall e, quietEvent e -> anyEvent e.
Proof. intros; exact I. Qed.

Lemma procRel_weaken : forall (P Q : Event -> Prop) s f s' f',
    (forall e, P e -> Q e) -> procRel P s f s' f' -> procRel Q s f s' f'.
Proof.
  intros P Q s f s' f' HPQ (A & B). split; [|exact B].
  eapply streamStep_weaken; eassumption.
Qed.

Lemma keeps_weaken : forall (P Q : Event -> Prop) p,
    (forall e, P e -> Q e) -> keeps (procRel P) p -> keeps (procRel Q) p.
Proof.
  intros P Q p HPQ Hp s f r s' f' H. eapply procRel_weaken; [exact HPQ|].
  exact (Hp _ _ _ _ _ H).
Qed.

Ltac norm_trace :=
  unfold emit; simpl; repeat rewrite <- app_assoc; simpl.

Section Composite.
Variable plat : Platform.
Variable env : Env.
Variable frameNumber : Z.

(** What [processCompletedInputFrame] does: the events it appends end with the
    completion mark exactly when it succeeds, the buffer is queued only when the
    container fits the budget, and the tile counters and flags are left alone. *)
Lemma processCompletedInputFrame_spec : forall s f r s' f',
    processCompletedInputFrame plat env frameNumber s f = (r, s', f') ->
    exists evs,
      streamStep anyEvent s s' /\
      trace s' = trace s ++ evs /\
      (r = OK <-> In (EvAsyncEnd frameNumber) evs) /\
      (forall k, In (EvAsyncEnd k) evs -> k = frameNumber) /\
      (forall a, In (EvQueueBuffer a) evs ->
                 u64 (lseek_END env (fileFd f)) <=
                 u64 (mMaxHeicBufferSize s - sizeof_CameraBlob plat)) /\
      muxer f' = muxer f /\
      pendingOutputTiles f' = pendingOutputTiles f /\
      gainmapPendingOutputTiles f' = gainmapPendingOutputTiles f /\
      appSegmentWritten f' = appSegmentWritten f /\
      codecOutputBuffers f' = codecOutputBuffers f /\
      gainmapCodecOutputBuffers f' = gainmapCodecOutputBuffers f /\
      isoGainmapMetadata f' = isoGainmapMetadata f /\
      error f' = error f.
Proof.
  intros s f r s' f' H. unfold processCompletedInputFrame in H.
  destruct (anb f) as [a0|] eqn:Hanb;
  break_hyp H; injection H as <- <- <-;
    (eexists; split;
     [ repeat first [apply streamStep_cnt | apply streamStep_emit; [exact I|]];
       apply streamStep_refl
     | split; [norm_trace; reflexivity|] ]);
    simpl in *;
    repeat match goal with
           | Hb : (_ <? _) = false |- _ => apply Z.ltb_ge in Hb
           | Hn : negb (is_OK ?x) = true |- _ =>
               assert (x <> OK) by (intros E; rewrite E in Hn; discriminate Hn); clear Hn
           end;
    (split; [split; [intros E; try discriminate E; try contradiction; tauto
                    | intros Hin; intuition (try discriminate; try congruence)]|]);
    (split; [intros k Hin; intuition (try discriminate; try congruence)|]);
    (split; [intros a Hin; intuition (try discriminate; try congruence)|]);
    repeat split.
Qed.

Lemma completeIfAllWritten_rel :
  keeps (procRel anyEvent) (completeIfAllWritten plat env frameNumber).
Proof.
  intros s f r s' f' H. unfold completeIfAllWritten, when in H.
  destruct (allWritten f).
  - destruct (processCompletedInputFrame_spec _ _ H)
      as (evs & St & _ & _ & _ & _ & M & T & G & _ & C & GC & I & _).
    split; [exact St|]. split; [intros _; repeat split; [exact M | lia | lia]|].
    split; [intros Q HQ; now rewrite C|].
    split; [intros Q HQ; now rewrite GC|].
    unfold isoOK. now rewrite I.
  - injection H as _ <- <-. apply procRel_refl.
Qed.

Lemma feedEncoders_rel : forall a b, keeps (procRel quietEvent) (feedEncoders env a b).
Proof.
  intros a b. unfold feedEncoders.
  apply keeps_andThen; auto using procRel_refl, procRel_trans.
  - apply keeps_when_const; auto using procRel_refl.
    apply keeps_andThen; auto using procRel_refl, procRel_trans.
    + apply (keeps_when (@procRel_refl quietEvent)
                        (fun s f => mHDRGainmapEnabled s && negb (baseBuffer f))).
      apply generate_rel.
    + apply processCodecInputFrame_rel.
  - apply keeps_when_const; auto using procRel_refl.
    apply processCodecGainmapInputFrame_rel.
Qed.

Lemma writeSamples_rel : forall a b,
    keeps (procRel quietEvent) (writeSamples plat env frameNumber a b).
Proof.
  intros a b. unfold writeSamples.
  repeat (apply keeps_andThen; auto using procRel_refl, procRel_trans).
  - apply ensureMuxer_rel.
  - apply keeps_when_const; auto using procRel_refl. apply writeGainmapMetadata_rel.
  - apply keeps_when_const; auto using procRel_refl. apply processAppSegment_rel.
  - apply keeps_drainQueue_of; auto using procRel_refl, procRel_trans.
    apply processOneCodecOutputFrame_rel.
  - apply keeps_drainQueue_of; auto using procRel_refl, procRel_trans.
    apply processOneCodecGainmapOutputFrame_rel.
Qed.

Lemma writeToMuxer_rel : forall a b,
    keeps (procRel anyEvent) (writeToMuxer plat env frameNumber a b).
Proof.
  intros a b. unfold writeToMuxer.
  apply keeps_andThen; auto using procRel_refl, procRel_trans.
  - apply (@keeps_weaken _ _ _ quiet_any). apply writeSamples_rel.
  - apply completeIfAllWritten_rel.
Qed.

Lemma processInputFrame_rel :
  keeps (procRel anyEvent) (processInputFrame plat env frameNumber).
Proof.
  intros s f r s' f' H. unfold processInputFrame in H.
  eapply keeps_andThen; [apply (@procRel_trans anyEvent) | | | exact H].
  - apply (@keeps_weaken _ _ _ quiet_any). apply feedEncoders_rel.
  - destruct (negb (codecOutputReady f && hasOutputBuffer s f) && negb (appSegmentReady f));
      [apply keeps_ret; apply procRel_refl | apply writeToMuxer_rel].
Qed.
End Composite.

Lemma segRel_refl : reflexiveR segRel.
Proof. intros s f. repeat split. Qed.

Lemma segRel_trans : transitiveR segRel.
Proof.
  intros s f s1 f1 s2 f2 H1 H2. unfold segRel in *.
  repeat match goal with H : _ /\ _ |- _ => destruct H end.
  repeat split; congruence.
Qed.

Ltac finish_seg :=
  match goal with
  | H : (_, _, _) = (_, _, _) |- _ => injection H as <- <- <-
  end; repeat split.

Section Segment.
Variable plat : Platform.
Variable env : Env.
Variable frameNumber : Z.

Lemma generate_seg : keeps segRel (generateBaseImageAndGainmap env).
Proof.
  intros s f r s' f' H. unfold generateBaseImageAndGainmap in H. break_hyp H; finish_seg.
Qed.

Lemma processCodecInputFrame_seg : keeps segRel (processCodecInputFrame env).
Proof.
  intros s f r s' f' H. unfold processCodecInputFrame in H.
  destruct (feedTiles _ _ _ _ _ _ _ _ _ _) as [r0 s0].
  destruct r0; finish_seg.
Qed.

Lemma processCodecGainmapInputFrame_seg : keeps segRel (processCodecGainmapInputFrame env).
Proof.
  intros s f r s' f' H. unfold processCodecGainmapInputFrame in H.
  destruct (feedTiles _ _ _ _ _ _ _ _ _ _) as [r0 s0].
  destruct r0; finish_seg.
Qed.

Lemma feedEncoders_seg : forall a b, keeps segRel (feedEncoders env a b).
Proof.
  intros a b. unfold feedEncoders.
  apply keeps_andThen; [apply segRel_trans | |].
  - apply keeps_when_const; [apply segRel_refl|].
    apply keeps_andThen; [apply segRel_trans | |].
    + apply (keeps_when segRel_refl
                        (fun s f => mHDRGainmapEnabled s && negb (baseBuffer f))).
      apply generate_seg.
    + apply processCodecInputFrame_seg.
  - apply keeps_when_const; [apply segRel_refl|].
    apply processCodecGainmapInputFrame_seg.
Qed.

Lemma writeGainmapMetadata_seg : keeps segRel (writeGainmapMetadata plat env).
Proof.
  intros s f r s' f' H. unfold writeGainmapMetadata in H. break_hyp H; finish_seg.
Qed.

(** A muxer is only ever created by a call that found a compressed output queued on
    the frame. *)
Lemma muxer_kept_without_output : forall s f r s' f',
    processInputFrame plat env frameNumber s f = (r, s', f') ->
    codecOutputReady f = false ->
    muxer f' = muxer f.
Proof.
  intros s f r s' f' H Hout. unfold processInputFrame in H. rewrite Hout in H.
  cbn [andb negb] in H.
  destruct (andThen_cases _ _ _ _ H) as [[H1 _] | (s1 & f1 & H1 & H2)].
  - apply (keeps_use (feedEncoders_seg _ _)) in H1. apply H1.
  - apply (keeps_use (feedEncoders_seg _ _)) in H1. destruct H1 as (_ & _ & _ & _ & M1 & _).
    destruct (appSegmentReady f) eqn:Hseg; cbn [negb] in H2.
    + assert (Hm : isSome (muxer f1) = true).
      { rewrite M1. unfold appSegmentReady in Hseg.
        now apply andb_prop in Hseg as [_ Hseg]. }
      apply (keeps_use (writeToMuxer_rel _ _ _ _ _)) in H2. destruct H2 as (_ & B & _).
      destruct (B Hm) as (M2 & _). congruence.
    + injection H2 as _ _ <-. exact M1.
Qed.
End Segment.

Lemma u16_range : forall x, 0 <= u16 x < 2 ^ 16.
Proof. intros x. unfold u16. apply Z.mod_pos_bound. lia. Qed.

Lemma u32_small : forall x, 0 <= x < 2 ^ 32 -> u32 x = x.
Proof. intros x H. unfold u32. now apply Z.mod_small. Qed.

(** The marker loop terminates within [expectedSize] iterations: each one advances
    [totalSize] by at least 2, and below 2^31 the 32-bit additions do not wrap. *)
Lemma scanAppN_fuel : forall fuel buf expectedSize totalSize,
    0 <= totalSize -> expectedSize <= 2 ^ 31 ->
    expectedSize - totalSize <= Z.of_nat fuel ->
    scanAppN fuel buf expectedSize totalSize <> None.
Proof.
  induction fuel as [|fuel IH]; intros buf expectedSize totalSize H0 Hexp Hfuel; simpl.
  - destruct (Z.ltb_spec totalSize expectedSize); [lia | discriminate].
  - destruct (Z.ltb_spec totalSize expectedSize); [|discriminate].
    destruct (_ || _); [discriminate|].
    set (n := u16 _). pose proof (u16_range (byteAt buf (u32 (totalSize + 2)) * 256 +
                                         byteAt buf (u32 (totalSize + 2) + 1))) as Hn.
    fold n in Hn.
    assert (E1 : u32 (totalSize + 2) = totalSize + 2) by (apply u32_small; lia).
    rewrite E1 in *.
    assert (E2 : u32 (totalSize + 2 + n) = totalSize + 2 + n) by (apply u32_small; lia).
    rewrite E2. apply IH; lia.
Qed.

Section AppSegment.
Variable plat : Platform.
Variable env : Env.
Variable frameNumber : Z.

Lemma findAppSegmentsSize_mismatch : forall buf maxSize a,
    trailerMismatch plat buf maxSize ->
    findAppSegmentsSize plat (Some buf) maxSize a = (0, a).
Proof.
  intros buf maxSize a (Hid & Hnz & Hle & Hb0 & Hb1 & total & Hscan & Hne).
  unfold findAppSegmentsSize.
  rewrite Hid, Z.eqb_refl. cbn [negb].
  destruct (Z.eqb_spec (expectedSizeOf plat buf maxSize) 0); [contradiction|].
  destruct (Z.ltb_spec (u64 (maxSize - sizeof_CameraBlob plat))
                       (expectedSizeOf plat buf maxSize)); [lia|].
  cbn [orb]. rewrite Hb0, Hb1. cbn [Z.eqb Pos.eqb andb negb].
  rewrite Hscan. destruct (Z.eqb_spec total (expectedSizeOf plat buf maxSize));
    [contradiction | reflexivity].
Qed.

Lemma processAppSegment_mismatch : forall s f buf,
    exifError f = false ->
    data (appSegmentBuffer f) = Some buf ->
    trailerMismatch plat buf
      (u32 (lb_width (appSegmentBuffer f) * lb_height (appSegmentBuffer f))) ->
    processAppSegment plat env frameNumber s f = (NO_INIT, s, f).
Proof.
  intros s f buf He Hd Hm. unfold processAppSegment.
  rewrite He, Hd. cbn [negb]. rewrite (findAppSegmentsSize_mismatch 0 Hm).
  reflexivity.
Qed.

Lemma processInputFrame_mismatch : forall s f buf r s' f',
    appSegmentReady f = true ->
    exifError f = false ->
    data (appSegmentBuffer f) = Some buf ->
    trailerMismatch plat buf
      (u32 (lb_width (appSegmentBuffer f) * lb_height (appSegmentBuffer f))) ->
    processInputFrame plat env frameNumber s f = (r, s', f') ->
    r <> OK /\ segRel s f s' f' /\ streamStep quietEvent s s'.
Proof.
  intros s f buf r s' f' Hseg He Hd Hm H. unfold processInputFrame in H. cbv zeta in H.
  rewrite Hseg in H. cbn [negb] in H. rewrite andb_false_r in H.
  destruct (andThen_cases _ _ _ _ H) as [[H1 Hr] | (s1 & f1 & H1 & H2)].
  - split; [exact Hr|]. split; [exact (keeps_use (feedEncoders_seg env _ _) H1)|].
    apply (keeps_use (feedEncoders_rel env _ _) H1).
  - pose proof (keeps_use (feedEncoders_seg env _ _) H1) as S1.
    pose proof (proj1 (keeps_use (feedEncoders_rel env _ _) H1)) as T1.
    assert (Hm1 : isSome (muxer f1) = true).
    { destruct S1 as (_ & _ & _ & _ & M1 & _). rewrite M1.
      unfold appSegmentReady in Hseg. now apply andb_prop in Hseg as [_ Hseg]. }
    unfold writeToMuxer, writeSamples in H2.
    destruct (andThen_cases _ _ _ _ H2) as [[H3 Hr] | (s3 & f3 & H3 & H4)].
    + (* a sample could not be written *)
      destruct (andThen_cases _ _ _ _ H3) as [[H5 Hr5] | (s5 & f5 & H5 & H6)].
      { unfold ensureMuxer, when in H5. rewrite Hm1 in H5. cbn [negb] in H5.
        injection H5 as <- _ _. contradiction. }
      unfold ensureMuxer, when in H5. rewrite Hm1 in H5. cbn [negb] in H5.
      injection H5 as <- <-.
      destruct (andThen_cases _ _ _ _ H6) as [[H7 Hr7] | (s7 & f7 & H7 & H8)].
      { (* the gainmap metadata *)
        split; [exact Hr|].
        assert (S7 : segRel s1 f1 s' f').
        { destruct (negb (isEmpty (isoGainmapMetadata f))); cbn [when] in H7.
          - exact (keeps_use (writeGainmapMetadata_seg plat env) H7).
          - injection H7 as _ <- <-. apply segRel_refl. }
        assert (T7 : streamStep quietEvent s1 s').
        { destruct (negb (isEmpty (isoGainmapMetadata f))); cbn [when] in H7.
          - exact (proj1 (keeps_use (writeGainmapMetadata_rel plat env) H7)).
          - injection H7 as _ <- <-. apply streamStep_refl. }
        split; [exact (segRel_trans S1 S7) | exact (streamStep_trans T1 T7)]. }
      assert (S7 : segRel s1 f1 s7 f7).
      { destruct (negb (isEmpty (isoGainmapMetadata f))); cbn [when] in H7.
        - exact (keeps_use (writeGainmapMetadata_seg plat env) H7).
        - injection H7 as <- <-. apply segRel_refl. }
      assert (T7 : streamStep quietEvent s1 s7).
      { destruct (negb (isEmpty (isoGainmapMetadata f))); cbn [when] in H7.
        - exact (proj1 (keeps_use (writeGainmapMetadata_rel plat env) H7)).
        - injection H7 as <- <-. apply streamStep_refl. }
      pose proof (segRel_trans S1 S7) as S.
      assert (Hp : processAppSegment plat env frameNumber s7 f7 = (NO_INIT, s7, f7)).
      { destruct S as (A & B & _). apply processAppSegment_mismatch with (buf := buf).
        - now rewrite B.
        - now rewrite A.
        - now rewrite A. }
      destruct (andThen_cases _ _ _ _ H8) as [[H9 Hr9] | (s9 & f9 & H9 & _)];
        cbn [when] in H9; rewrite Hp in H9.
      * injection H9 as <- <- <-. split; [discriminate|].
        split; [exact S | exact (streamStep_trans T1 T7)].
      * discriminate H9.
    + (* every sample was written: impossible, the APP segments were not *)
      exfalso.
      destruct (andThen_cases _ _ _ _ H3) as [[_ Hr5] | (s5 & f5 & H5 & H6)];
        [now apply Hr5|].
      unfold ensureMuxer, when in H5. rewrite Hm1 in H5. cbn [negb] in H5.
      injection H5 as <- <-.
      destruct (andThen_cases _ _ _ _ H6) as [[_ Hr7] | (s7 & f7 & H7 & H8)];
        [now apply Hr7|].
      assert (S7 : segRel s1 f1 s7 f7).
      { destruct (negb (isEmpty (isoGainmapMetadata f))); cbn [when] in H7.
        - exact (keeps_use (writeGainmapMetadata_seg plat env) H7).
        - injection H7 as <- <-. apply segRel_refl. }
      pose proof (segRel_trans S1 S7) as S.
      assert (Hp : processAppSegment plat env frameNumber s7 f7 = (NO_INIT, s7, f7)).
      { destruct S as (A & B & _). apply processAppSegment_mismatch with (buf := buf).
        - now rewrite B.
        - now rewrite A.
        - now rewrite A. }
      destruct (andThen_cases _ _ _ _ H8) as [[H9 Hr9] | (s9 & f9 & H9 & _)];
        cbn [when] in H9; rewrite Hp in H9.
      * injection H9 as E _ _. discriminate E.
      * discriminate H9.
Qed.
End AppSegment.

(** ** Release *)

Lemma releaseOutputBuffers_eq : forall g l s,
    releaseOutputBuffers g l s =
    set_trace (trace s ++ map (fun it => EvReleaseOutputBuffer g (index it)) l) s.
Proof.
  intros g l. induction l as [|it l IH]; intros s; simpl.
  - rewrite app_nil_r. now destruct s.
  - rewrite IH. unfold emit. simpl. now rewrite <- app_assoc.
Qed.

Lemma release_holdsNothing : forall frameNumber s f,
    holdsNothing f ->
    releaseInputFrameLocked frameNumber s f =
    ((if error f || mErrorState s
      then emit (EvNotifyError frameNumber (requestId f)) s else s), f).
Proof.
  intros frameNumber s f (H1 & H2 & H3 & H4 & H5 & H6 & H7 & H8).
  destruct f as
    [f_orientation f_quality f_appSegmentBuffer f_codecOutputBuffers
     f_gainmapCodecOutputBuffers f_result f_yuvBuffer f_codecInputBuffers
     f_gainmapCodecInputBuffers f_error f_exifError f_timestamp f_requestId f_format
     f_gainmapFormat f_muxer f_fenceFd f_fileFd f_trackIndex f_gainmapTrackIndex f_anb
     f_appSegmentWritten f_pendingOutputTiles f_gainmapPendingOutputTiles
     f_codecInputCounter f_gainmapCodecInputCounter f_baseImage f_gainmapImage
     f_baseBuffer f_isoGainmapMetadata].
  cbn -[hasData Z.leb] in H1, H2, H3, H4, H5, H6, H7, H8. subst.
  unfold releaseInputFrameLocked.
  cbn -[hasData Z.leb emit]. rewrite H1. cbn -[hasData Z.leb emit].
  rewrite H4. cbn -[hasData Z.leb emit].
  destruct (f_error || mErrorState s); cbn -[hasData Z.leb emit]; rewrite H7; reflexivity.
Qed.

Lemma release_leaves_nothing : forall frameNumber s f,
    holdsNothing (snd (releaseInputFrameLocked frameNumber s f)) /\
    error (snd (releaseInputFrameLocked frameNumber s f)) = error f /\
    requestId (snd (releaseInputFrameLocked frameNumber s f)) = requestId f /\
    mErrorState (fst (releaseInputFrameLocked frameNumber s f)) = mErrorState s.
Proof.
  intros frameNumber s f.
  destruct f as
    [f_orientation f_quality f_appSegmentBuffer f_codecOutputBuffers
     f_gainmapCodecOutputBuffers f_result f_yuvBuffer f_codecInputBuffers
     f_gainmapCodecInputBuffers f_error f_exifError f_timestamp f_requestId f_format
     f_gainmapFormat f_muxer f_fenceFd f_fileFd f_trackIndex f_gainmapTrackIndex f_anb
     f_appSegmentWritten f_pendingOutputTiles f_gainmapPendingOutputTiles
     f_codecInputCounter f_gainmapCodecInputCounter f_baseImage f_gainmapImage
     f_baseBuffer f_isoGainmapMetadata].
  destruct s as
    [s_mUseHeic s_mFormat s_mGainmapFormat s_mNumOutputTiles s_mNumGainmapOutputTiles
     s_mOutputWidth s_mOutputHeight s_mGainmapOutputWidth s_mGainmapOutputHeight
     s_mMaxHeicBufferSize s_mGridWidth s_mGridHeight s_mGainmapGridWidth
     s_mGainmapGridHeight s_mGridRows s_mGridCols s_mGainmapGridRows s_mGainmapGridCols
     s_mUseGrid s_mGainmapUseGrid s_mAppSegmentStreamId s_mMainImageStreamId
     s_mAppSegmentMaxSize s_mAppSegmentFrameNumbers s_mMainImageFrameNumbers
     s_mYuvBufferAcquired s_mDequeuedOutputBufferCnt s_mSettingsByFrameNumber
     s_mInputAppSegmentBuffers s_mCodecOutputBuffers s_mGainmapCodecOutputBuffers
     s_mCodecOutputBufferFrameNumbers s_mCodecGainmapOutputBufferFrameNumbers
     s_mCodecOutputCounter s_mCodecGainmapOutputCounter s_mQuality s_mInputYuvBuffers
     s_mCodecInputBuffers s_mGainmapCodecInputBuffers s_mGridTimestampUs
     s_mPendingInputFrames s_mExifErrorFrameNumbers s_mAppSegmentSupported
     s_mHDRGainmapEnabled s_mInternalDataSpace s_mErrorState s_mErrorFrameNumbers
     s_mCaptureResults s_mStatusTracker s_trace].
  unfold releaseInputFrameLocked, holdsNothing.
  cbn -[hasData Z.leb app map releaseOutputBuffers].
  destruct (hasData f_appSegmentBuffer) eqn:E1;
    cbn -[hasData Z.leb app map releaseOutputBuffers];
    rewrite ?releaseOutputBuffers_eq; cbn -[hasData Z.leb app map];
    (destruct (hasData f_yuvBuffer) eqn:E2; cbn -[hasData Z.leb app map];
     destruct f_error eqn:E3; destruct s_mErrorState eqn:E4; cbn -[hasData Z.leb app map];
     destruct (0 <=? f_fileFd) eqn:E5; cbn -[hasData Z.leb app map];
     destruct f_anb eqn:E6; cbn -[hasData Z.leb app map];
     rewrite ?E1, ?E2, ?E5; repeat split).
Qed.

Lemma quiet_notDelivery : forall e, quietEvent e -> notDelivery e.
Proof. intros []; simpl; auto. Qed.

Lemma releasedTo_refl : forall s, releasedTo s s [].
Proof.
  intros s. exists (mDequeuedOutputBufferCnt s), (mYuvBufferAcquired s).
  rewrite app_nil_r. now destruct s.
Qed.

Lemma releasedTo_emit : forall s s' evs e,
    releasedTo s s' evs -> releasedTo s (emit e s') (evs ++ [e]).
Proof.
  intros s s' evs e (c & y & ->). exists c, y. unfold emit. simpl. now rewrite app_assoc.
Qed.

Lemma releasedTo_cnt : forall s s' evs c,
    releasedTo s s' evs -> releasedTo s (set_mDequeuedOutputBufferCnt c s') evs.
Proof. intros s s' evs c (c0 & y & ->). now exists c, y. Qed.

Lemma releasedTo_yuv : forall s s' evs y,
    releasedTo s s' evs -> releasedTo s (set_mYuvBufferAcquired y s') evs.
Proof. intros s s' evs y (c & y0 & ->). now exists c, y. Qed.

Lemma releasedTo_trans : forall s s1 s2 e1 e2,
    releasedTo s s1 e1 -> releasedTo s1 s2 e2 -> releasedTo s s2 (e1 ++ e2).
Proof.
  intros s s1 s2 e1 e2 (c1 & y1 & ->) (c2 & y2 & ->). exists c2, y2.
  simpl. now rewrite app_assoc.
Qed.

Lemma releasedTo_outputs : forall g l s s' evs,
    releasedTo s s' evs ->
    releasedTo s (releaseOutputBuffers g l s')
      (evs ++ map (fun it => EvReleaseOutputBuffer g (index it)) l).
Proof.
  intros g l s s' evs (c & y & ->). exists c, y.
  rewrite releaseOutputBuffers_eq. simpl. now rewrite app_assoc.
Qed.

Lemma releasedTo_trace : forall s s' evs, releasedTo s s' evs -> trace s' = trace s ++ evs.
Proof. intros s s' evs (c & y & ->). reflexivity. Qed.

Lemma releasedTo_frames : forall s s' evs,
    releasedTo s s' evs -> mPendingInputFrames s' = mPendingInputFrames s.
Proof. intros s s' evs (c & y & ->). reflexivity. Qed.

Lemma releasedTo_errorState : forall s s' evs,
    releasedTo s s' evs -> mErrorState s' = mErrorState s.
Proof. intros s s' evs (c & y & ->). reflexivity. Qed.

Lemma Forall_map_release : forall g (l : list CodecOutputBufferInfo),
    Forall releaseEvent (map (fun it => EvReleaseOutputBuffer g (index it)) l).
Proof. intros g l. induction l; simpl; constructor; auto. exact I. Qed.

(** What one call of [releaseInputFrameLocked] appends to the trace. *)
Lemma release_step : forall frameNumber s f,
    exists evs,
      releasedTo s (fst (releaseInputFrameLocked frameNumber s f)) evs /\
      Forall releaseEvent evs /\
      (error f || mErrorState s = true ->
       In (EvNotifyError frameNumber (requestId f)) evs) /\
      (forall k r, In (EvNotifyError k r) evs -> k = frameNumber /\ r = requestId f).
Proof.
  intros frameNumber s f.
  destruct f as
    [f_orientation f_quality f_appSegmentBuffer f_codecOutputBuffers
     f_gainmapCodecOutputBuffers f_result f_yuvBuffer f_codecInputBuffers
     f_gainmapCodecInputBuffers f_error f_exifError f_timestamp f_requestId f_format
     f_gainmapFormat f_muxer f_fenceFd f_fileFd f_trackIndex f_gainmapTrackIndex f_anb
     f_appSegmentWritten f_pendingOutputTiles f_gainmapPendingOutputTiles
     f_codecInputCounter f_gainmapCodecInputCounter f_baseImage f_gainmapImage
     f_baseBuffer f_isoGainmapMetadata].
  unfold releaseInputFrameLocked.
  cbn -[hasData Z.leb emit releaseOutputBuffers set_mYuvBufferAcquired
        set_mDequeuedOutputBufferCnt mDequeuedOutputBufferCnt mErrorState].
  destruct (hasData f_appSegmentBuffer) eqn:E1;
    cbn -[hasData Z.leb emit releaseOutputBuffers set_mYuvBufferAcquired
          set_mDequeuedOutputBufferCnt mDequeuedOutputBufferCnt mErrorState];
    (destruct (hasData f_yuvBuffer) eqn:E2;
     cbn -[hasData Z.leb emit releaseOutputBuffers set_mYuvBufferAcquired
           set_mDequeuedOutputBufferCnt mDequeuedOutputBufferCnt mErrorState];
     match goal with
     | |- context [mErrorState ?x] =>
         assert (Em : mErrorState x = mErrorState s)
           by (rewrite !releaseOutputBuffers_eq; reflexivity);
         rewrite Em; clear Em
     end;
     destruct (f_error || mErrorState s) eqn:E3;
     cbn -[hasData Z.leb emit releaseOutputBuffers set_mYuvBufferAcquired
           set_mDequeuedOutputBufferCnt mDequeuedOutputBufferCnt mErrorState];
     destruct (0 <=? f_fileFd) eqn:E5;
     cbn -[hasData Z.leb emit releaseOutputBuffers set_mYuvBufferAcquired
           set_mDequeuedOutputBufferCnt mDequeuedOutputBufferCnt mErrorState];
     destruct f_anb eqn:E6;
     cbn -[hasData Z.leb emit releaseOutputBuffers set_mYuvBufferAcquired
           set_mDequeuedOutputBufferCnt mDequeuedOutputBufferCnt mErrorState];
     (eexists; split;
      [ repeat first [ apply releasedTo_cnt | apply releasedTo_yuv
                     | apply releasedTo_emit | apply releasedTo_outputs ];
        apply releasedTo_refl
      | split; [ repeat (apply Forall_app; split);
                 auto using Forall_map_release; try (constructor; [exact I | constructor])
               | split; [ intros Hn; try discriminate Hn;
                          rewrite ?in_app_iff; simpl; tauto
                        | intros k r Hin; rewrite ?in_app_iff in Hin; simpl in Hin;
                          repeat match goal with
                                 | Hx : _ \/ _ |- _ => destruct Hx as [Hx|Hx]
                                 end;
                          try contradiction; try discriminate;
                          try (injection Hin as <- <-; now split);
                          try (apply in_map_iff in Hin; destruct Hin as (? & Hx & _);
                               discriminate Hx) ] ] ])).
Qed.

Lemma releaseFrames_spec : forall m s,
    exists evs,
      releasedTo s (fst (fst (releaseFrames m s))) evs /\
      snd (fst (releaseFrames m s)) = filter (fun kf => negb (releasable (snd kf))) m /\
      Forall releaseEvent evs /\
      (forall k f, In (k, f) m -> error f = true ->
                   In (EvNotifyError k (requestId f)) evs) /\
      (forall k r, In (EvNotifyError k r) evs ->
                   exists f, In (k, f) m /\ releasable f = true /\ r = requestId f).
Proof.
  induction m as [|[k f] m IH]; intros s.
  - exists []. simpl. repeat split; auto using releasedTo_refl; intros; contradiction.
  - cbn [releaseFrames filter snd]. fold (releasable f).
    destruct (releasable f) eqn:Hr; cbn [negb].
    + destruct (release_step k s f) as (e1 & R1 & F1 & N1 & M1).
      destruct (releaseInputFrameLocked k s f) as [s1 f1]. cbn [fst] in R1.
      destruct (IH s1) as (e2 & R2 & K2 & F2 & N2 & M2).
      destruct (releaseFrames m s1) as [[s2 kept] done]. cbn [fst snd] in *.
      exists (e1 ++ e2). split; [eapply releasedTo_trans; eassumption|].
      split; [exact K2|]. split; [apply Forall_app; now split|]. split.
      * intros k' f' [E|Hin] He; apply in_or_app.
        -- injection E as <- <-. left. apply N1. now rewrite He.
        -- right. now apply N2.
      * intros k' r Hin. apply in_app_or in Hin as [Hin|Hin].
        -- destruct (M1 _ _ Hin) as [-> ->]. exists f. repeat split; auto. now left.
        -- destruct (M2 _ _ Hin) as (f' & A & B & C). exists f'. repeat split; auto.
           now right.
    + destruct (IH s) as (e2 & R2 & K2 & F2 & N2 & M2).
      destruct (releaseFrames m s) as [[s2 kept] done]. cbn [fst snd] in *.
      exists e2. split; [exact R2|]. split; [now rewrite K2|]. split; [exact F2|]. split.
      * intros k' f' [E|Hin] He.
        -- injection E as <- <-. unfold releasable in Hr. rewrite He in Hr. discriminate.
        -- now apply N2.
      * intros k' r Hin. destruct (M2 _ _ Hin) as (f' & A & B & C).
        exists f'. repeat split; auto. now right.
Qed.

Lemma housekeeping_notDelivery : forall e, housekeeping e -> notDelivery e.
Proof. intros []; simpl; auto. Qed.

Lemma updateCodecQualityLocked_step : forall env q s,
    mPendingInputFrames (updateCodecQualityLocked env q s) = mPendingInputFrames s /\
    exists evs, trace (updateCodecQualityLocked env q s) = trace s ++ evs /\
                Forall housekeeping evs.
Proof.
  intros env q s. unfold updateCodecQualityLocked.
  destruct (q =? mQuality s).
  - split; [reflexivity|]. exists []. now rewrite app_nil_r.
  - destruct (is_OK (setParameters env q)); (split; [reflexivity|]);
      exists [EvSetParameters q]; (split; [reflexivity | repeat constructor]).
Qed.

Lemma markTrackerIdle_step : forall s,
    mPendingInputFrames (markTrackerIdle s) = mPendingInputFrames s /\
    exists evs, trace (markTrackerIdle s) = trace s ++ evs /\ Forall housekeeping evs.
Proof.
  intros s. unfold markTrackerIdle. destruct (mStatusTracker s).
  - split; [reflexivity|]. exists [EvMarkComponentIdle]. split; [reflexivity|].
    repeat constructor.
  - split; [reflexivity|]. exists []. now rewrite app_nil_r.
Qed.

Lemma releaseEvent_notDelivery : forall e, releaseEvent e -> notDelivery e.
Proof. intros []; simpl; auto. Qed.

(** [releaseInputFramesLocked] keeps exactly the frames that are neither in error nor
    completely written, and notifies an error for every frame in error. *)
Lemma releaseInputFramesLocked_spec : forall env s,
    mPendingInputFrames (releaseInputFramesLocked env s) =
      filter (fun kf => negb (releasable (snd kf))) (mPendingInputFrames s) /\
    exists evs,
      trace (releaseInputFramesLocked env s) = trace s ++ evs /\
      Forall notDelivery evs /\
      (forall k f, In (k, f) (mPendingInputFrames s) -> error f = true ->
                   In (EvNotifyError k (requestId f)) evs) /\
      (forall k r, In (EvNotifyError k r) evs ->
                   exists f, In (k, f) (mPendingInputFrames s) /\
                             releasable f = true /\ r = requestId f).
Proof.
  intros env s. unfold releaseInputFramesLocked.
  destruct (releaseFrames_spec (mPendingInputFrames s) s) as (e1 & R1 & K1 & F1 & N1 & M1).
  destruct (releaseFrames (mPendingInputFrames s) s) as [[s1 kept] done].
  cbn [fst snd] in *. subst kept.
  set (kept := filter _ _).
  set (s2 := set_mPendingInputFrames kept s1).
  assert (T2 : trace s2 = trace s ++ e1) by (apply (releasedTo_trace R1)).
  assert (Hfin : forall s3 : HeicCompositeStream,
             (mPendingInputFrames s3 = mPendingInputFrames s2 /\
              exists evs, trace s3 = trace s2 ++ evs /\ Forall housekeeping evs) ->
             mPendingInputFrames s3 = kept /\
             exists evs, trace s3 = trace s ++ evs /\ Forall notDelivery evs /\
               (forall k f, In (k, f) (mPendingInputFrames s) -> error f = true ->
                            In (EvNotifyError k (requestId f)) evs) /\
               (forall k r, In (EvNotifyError k r) evs ->
                            exists f, In (k, f) (mPendingInputFrames s) /\
                                      releasable f = true /\ r = requestId f)).
  { intros s3 (A & e3 & B & C). split; [exact A|]. exists (e1 ++ e3).
    rewrite B, T2, app_assoc. split; [reflexivity|]. split.
    - apply Forall_app. split.
      + eapply Forall_impl; [apply releaseEvent_notDelivery | exact F1].
      + eapply Forall_impl; [apply housekeeping_notDelivery | exact C].
    - split.
      + intros k f Hin He. apply in_or_app. left. now apply N1.
      + intros k r Hin. apply in_app_or in Hin as [Hin|Hin]; [now apply M1|].
        rewrite Forall_forall in C. apply C in Hin. contradiction. }
  assert (Hsame : mPendingInputFrames s2 = mPendingInputFrames s2 /\
                  exists evs, trace s2 = trace s2 ++ evs /\ Forall housekeeping evs).
  { split; [reflexivity|]. exists []. now rewrite app_nil_r. }
  destruct done; [|now apply Hfin].
  destruct kept as [|[k0 f0] kept'].
  - destruct (isEmpty (mSettingsByFrameNumber s2)); [|now apply Hfin].
    apply Hfin. apply markTrackerIdle_step.
  - apply Hfin. apply updateCodecQualityLocked_step.
Qed.

Section ProcessAndRelease.
Variable plat : Platform.
Variable env : Env.
Variable frameNumber : Z.

Lemma processAndRelease_spec : forall s r s1 f1,
    processInputFrame plat env frameNumber s (frameAt frameNumber s) = (r, s1, f1) ->
    mPendingInputFrames (processAndRelease plat env frameNumber s) =
      filter (fun kf => negb (releasable (snd kf)))
             (map_put frameNumber (processed r f1) (mPendingInputFrames s)) /\
    exists evs,
      trace (processAndRelease plat env frameNumber s) = trace s1 ++ evs /\
      Forall notDelivery evs /\
      (r <> OK -> In (EvNotifyError frameNumber (requestId f1)) evs) /\
      (forall k q, In (EvNotifyError k q) evs ->
                   exists f, In (k, f) (map_put frameNumber (processed r f1)
                                          (mPendingInputFrames s)) /\
                             releasable f = true /\ q = requestId f).
Proof.
  intros s r s1 f1 H. unfold processAndRelease. rewrite H.
  pose proof (streamStep_frames (proj1 (keeps_use (processInputFrame_rel plat env frameNumber) H)))
    as Hfr.
  set (sa := set_mPendingInputFrames _ s1).
  set (sb := if is_OK r then sa else updFrame frameNumber (set_error true) sa).
  assert (Hb : mPendingInputFrames sb =
               map_put frameNumber (processed r f1) (mPendingInputFrames s)).
  { unfold sb, processed. destruct (is_OK r).
    - unfold sa. cbn. now rewrite Hfr.
    - unfold updFrame, map_upd, map_at, sa. cbn.
      rewrite map_find_put_eq, map_put_put. now rewrite Hfr. }
  assert (Tb : trace sb = trace s1).
  { unfold sb. destruct (is_OK r); reflexivity. }
  destruct (releaseInputFramesLocked_spec env sb) as (K & evs & T & F & N & M).
  rewrite Hb in K, N, M. split; [exact K|].
  exists evs. rewrite T, Tb. repeat split; auto.
  intros Hr. replace (requestId f1) with (requestId (processed r f1))
    by (unfold processed; destruct (is_OK r); reflexivity).
  apply N; [apply map_find_In, map_find_put_eq|].
  unfold processed. destruct r; try reflexivity. contradiction.
Qed.

(** A frame whose processing failed is gone after the iteration, and its failure was
    notified. *)
Lemma processAndRelease_failure : forall s r s1 f1,
    ascending (mPendingInputFrames s) ->
    processInputFrame plat env frameNumber s (frameAt frameNumber s) = (r, s1, f1) ->
    r <> OK ->
    map_find frameNumber
      (mPendingInputFrames (processAndRelease plat env frameNumber s)) = None /\
    exists evs,
      trace (processAndRelease plat env frameNumber s) = trace s1 ++ evs /\
      Forall notDelivery evs /\
      In (EvNotifyError frameNumber (requestId f1)) evs.
Proof.
  intros s r s1 f1 Hasc H Hr.
  destruct (processAndRelease_spec _ H) as (K & evs & T & F & N & _).
  split.
  - rewrite K, map_find_filter by now apply ascending_put.
    rewrite map_find_put_eq. cbn [snd]. unfold processed, releasable.
    destruct r; try reflexivity. contradiction.
  - exists evs. repeat split; auto.
Qed.
End ProcessAndRelease.

(** ** How the reconciliation pass changes the pending frames *)

Section Evolution.
Variable R : InputFrame -> InputFrame -> Prop.
Hypothesis R_refl : forall f, R f f.
Hypothesis R_trans : forall a b c, R a b -> R b c -> R a c.

Lemma evolves_trans : forall a b c, evolves R a b -> evolves R b c -> evolves R a c.
Proof.
  intros a b c Hab Hbc. induction Hbc; [assumption|].
  apply evolves_put; auto.
Qed.

Lemma evolves_upd : forall m m' k g,
    evolves R m m' -> (forall f, R f (g f)) -> evolves R m (map_upd newInputFrame k g m').
Proof. intros m m' k g H Hg. unfold map_upd. apply evolves_put; auto. Qed.

Lemma evolves_ascending : forall m m', evolves R m m' -> ascending m -> ascending m'.
Proof. intros m m' H. induction H; intros Hasc; auto using ascending_put. Qed.

(** Every frame of [m] is still there, related to what it was. *)
Lemma evolves_forward : forall m m',
    evolves R m m' ->
    forall k f, map_find k m = Some f -> exists f', map_find k m' = Some f' /\ R f f'.
Proof.
  intros m m' H. induction H as [m | m m' k0 f0 H IH HR]; intros k f Hf.
  - exists f. auto.
  - destruct (IH _ _ Hf) as (f1 & Hf1 & HR1).
    destruct (Z.eq_dec k k0) as [->|Hne].
    + exists f0. rewrite map_find_put_eq. split; [reflexivity|].
      unfold map_at in HR. rewrite Hf1 in HR. eauto.
    + exists f1. rewrite map_find_put_ne by assumption. auto.
Qed.

(** Every frame of [m'] is related to the one [m] had under its key, or to a fresh
    frame. *)
Lemma evolves_backward : forall m m',
    evolves R m m' ->
    forall k f', In (k, f') m' ->
                 (exists f, In (k, f) m /\ R f f') \/ R newInputFrame f'.
Proof.
  intros m m' H. induction H as [m | m m' k0 f0 H IH HR]; intros k f' Hin.
  - left. exists f'. auto.
  - apply In_map_put in Hin as [[-> ->] | Hin]; [|now apply IH].
    unfold map_at in HR. destruct (map_find k0 m') as [f1|] eqn:E; [|now right].
    apply map_find_In in E. destruct (IH _ _ E) as [(f & Hf & HRf) | HRn].
    + left. exists f. eauto.
    + right. eauto.
Qed.
End Evolution.

Lemma compRel_refl : forall Q f, compRel Q f f.
Proof.
  intros Q f. repeat split; try (exists []; split; [now rewrite app_nil_r | constructor]).
Qed.

Lemma compRel_trans : forall Q a b c, compRel Q a b -> compRel Q b c -> compRel Q a c.
Proof.
  intros Q a b c (A1 & A2 & A3 & A4 & A5 & A6 & A7 & (l1 & A8 & F1) & (g1 & A9 & G1))
         (B1 & B2 & B3 & B4 & B5 & B6 & B7 & (l2 & B8 & F2) & (g2 & B9 & G2)).
  repeat split; try congruence.
  - exists (l1 ++ l2). split; [now rewrite B8, A8, app_assoc | now apply Forall_app].
  - exists (g1 ++ g2). split; [now rewrite B9, A9, app_assoc | now apply Forall_app].
Qed.

(** A setter that touches none of the fields [compRel] speaks about. *)
Ltac comp_setter :=
  intros; repeat split; try (exists []; split; [now rewrite app_nil_r | constructor]).

Lemma compStep_refl : forall Q s, compStep Q s s.
Proof. intros Q s. repeat split; auto. apply evolves_refl. Qed.

Lemma compStep_trans : forall Q a b c, compStep Q a b -> compStep Q b c -> compStep Q a c.
Proof.
  intros Q a b c (A1 & A2 & A3) (B1 & B2 & B3). repeat split; auto.
  eapply evolves_trans; eassumption.
Qed.

(** Assignments to members other than the frame map and the two output queues. *)
Lemma compStep_same : forall Q s s',
    mPendingInputFrames s' = mPendingInputFrames s ->
    mCodecOutputBuffers s' = mCodecOutputBuffers s ->
    mGainmapCodecOutputBuffers s' = mGainmapCodecOutputBuffers s ->
    compStep Q s s'.
Proof.
  intros Q s s' H1 H2 H3. unfold compStep. rewrite H1, H2, H3.
  repeat split; auto. apply evolves_refl.
Qed.

Lemma compStep_updFrame : forall Q s k g,
    (forall f, compRel Q f (g f)) -> compStep Q s (updFrame k g s).
Proof.
  intros Q s k g Hg. repeat split; auto.
  unfold updFrame. cbn. apply evolves_upd; [apply evolves_refl | exact Hg].
Qed.

Ltac comp_same := apply compStep_same; reflexivity.

(** Peel the outermost assignment off the stream on the right. *)
Ltac comp_peel :=
  lazymatch goal with
  | |- compStep _ ?s ?s => apply compStep_refl
  | |- compStep _ _ (updFrame _ _ ?x) =>
      apply compStep_trans with (b := x); [|apply compStep_updFrame; comp_setter]
  | |- compStep _ _ (?f ?v ?x) =>
      apply compStep_trans with (b := x); [|comp_same]
  end.

Section Compile.
Variable plat : Platform.
Variable env : Env.
Variable Q : CodecOutputBufferInfo -> Prop.

Lemma updateCodecQualityLocked_comp : forall q s,
    compStep Q s (updateCodecQualityLocked env q s).
Proof.
  intros q s. unfold updateCodecQualityLocked.
  destruct (q =? mQuality s); [apply compStep_refl|].
  destruct (is_OK (setParameters env q)); comp_same.
Qed.

Lemma promoteSettings_comp : forall l s, compStep Q s (promoteSettings env l s).
Proof.
  induction l as [|[fn st] l IH]; intros s; cbn [promoteSettings];
    [apply compStep_refl|].
  destruct (shutterNotified st); [|apply IH].
  eapply compStep_trans; [|apply IH].
  set (X := set_mSettingsByFrameNumber _ _).
  assert (HX : compStep Q s X) by (unfold X; repeat comp_peel).
  destruct (mPendingInputFrames X) as [|[k0 f0] [|? ?]]; try exact HX.
  eapply compStep_trans; [exact HX|].
  eapply compStep_trans; [|apply updateCodecQualityLocked_comp].
  destruct (mStatusTracker X); [comp_same | apply compStep_refl].
Qed.

Lemma drainAppSegments_comp : forall pending locks s,
    compStep Q s (drainAppSegments locks pending s).
Proof.
  induction pending as [|ts rest IH]; intros locks s; cbn [drainAppSegments];
    [apply compStep_refl|].
  destruct (mAppSegmentFrameNumbers s) as [|front fns]; [apply compStep_refl|].
  destruct locks as [|[res imgBuffer] locks']; [apply compStep_refl|].
  destruct (is_NOT_ENOUGH_DATA res); [apply compStep_refl|].
  destruct (negb (is_OK res) || negb (ts =? lb_timestamp imgBuffer)).
  - eapply compStep_trans; [|apply IH].
    destruct (is_OK res); repeat comp_peel.
  - destruct (negb (map_mem front (mPendingInputFrames s))).
    + eapply compStep_trans; [|apply IH]. repeat comp_peel.
    + eapply compStep_trans; [|apply IH].
      destruct (error (frameAt front s)); repeat comp_peel.
Qed.

Lemma drainYuvBuffers_comp : forall pending locks s,
    compStep Q s (drainYuvBuffers locks pending s).
Proof.
  induction pending as [|ts rest IH]; intros locks s; cbn [drainYuvBuffers];
    [apply compStep_refl|].
  destruct (mMainImageFrameNumbers s) as [|front fns]; [apply compStep_refl|].
  destruct locks as [|[res imgBuffer] locks']; [apply compStep_refl|].
  destruct (mYuvBufferAcquired s); [apply compStep_refl|].
  destruct (is_NOT_ENOUGH_DATA res); [apply compStep_refl|].
  destruct (negb (is_OK res)).
  { eapply compStep_trans; [|apply IH]. repeat comp_peel. }
  destruct (negb (ts =? lb_timestamp imgBuffer)).
  { eapply compStep_trans; [|apply IH]. repeat comp_peel. }
  destruct (negb (map_mem front (mPendingInputFrames s))).
  { eapply compStep_trans; [|apply IH]. repeat comp_peel. }
  eapply compStep_trans; [|apply IH].
  destruct (error (frameAt front s)); repeat comp_peel.
Qed.

Lemma attributeCodecOutputs_comp : forall pending s,
    mCodecOutputBuffers s = pending -> Forall Q pending ->
    compStep Q s (attributeCodecOutputs pending s).
Proof.
  induction pending as [|b rest IH]; intros s Hq HQ; cbn [attributeCodecOutputs];
    [apply compStep_refl|].
  destruct (mCodecOutputBufferFrameNumbers s) as [|fn fns]; [apply compStep_refl|].
  inversion HQ as [|? ? Hb Hrest]; subst.
  eapply compStep_trans; [|apply IH; [reflexivity | exact Hrest]].
  match goal with
  | |- compStep _ _ (set_mCodecOutputBuffers _ ?x) =>
      apply compStep_trans with (b := x);
        [|split; [apply evolves_refl | split; [intros _; exact Hrest | auto]]]
  end.
  match goal with
  | |- compStep _ _ (updFrame _ _ ?x) => apply compStep_trans with (b := x)
  end.
  - destruct (_ =? _); repeat comp_peel.
  - apply compStep_updFrame. intros f. repeat split;
      try (exists []; split; [now rewrite app_nil_r | constructor]).
    exists [b]. split; [reflexivity | now constructor].
Qed.

Lemma attributeGainmapCodecOutputs_comp : forall pending s,
    mGainmapCodecOutputBuffers s = pending -> Forall Q pending ->
    compStep Q s (attributeGainmapCodecOutputs pending s).
Proof.
  induction pending as [|b rest IH]; intros s Hq HQ; cbn [attributeGainmapCodecOutputs];
    [apply compStep_refl|].
  destruct (mCodecGainmapOutputBufferFrameNumbers s) as [|fn fns]; [apply compStep_refl|].
  inversion HQ as [|? ? Hb Hrest]; subst.
  eapply compStep_trans; [|apply IH; [reflexivity | exact Hrest]].
  match goal with
  | |- compStep _ _ (set_mGainmapCodecOutputBuffers _ ?x) =>
      apply compStep_trans with (b := x);
        [|split; [apply evolves_refl | split; [auto | intros _; exact Hrest]]]
  end.
  match goal with
  | |- compStep _ _ (updFrame _ _ ?x) => apply compStep_trans with (b := x)
  end.
  - destruct (_ =? _); repeat comp_peel.
  - apply compStep_updFrame. intros f. repeat split;
      try (exists []; split; [now rewrite app_nil_r | constructor]).
    exists [b]. split; [reflexivity | now constructor].
Qed.

Lemma drainCaptureResults_comp : forall pending s,
    compStep Q s (drainCaptureResults pending s).
Proof.
  induction pending as [|[ts [fn meta]] rest IH]; intros s; cbn [drainCaptureResults];
    [apply compStep_refl|].
  eapply compStep_trans; [|apply IH]. comp_peel.
  destruct ((0 <=? ts) && map_mem fn (mPendingInputFrames s)); [|apply compStep_refl].
  destruct (timestamp (frameAt fn s) =? ts); [|apply compStep_refl].
  match goal with
  | |- context [mAppSegmentSupported ?x] => destruct (negb (mAppSegmentSupported x))
  end; repeat comp_peel.
Qed.

Lemma applyErrorFrameNumbers_comp : forall pending s,
    compStep Q s (applyErrorFrameNumbers pending s).
Proof.
  induction pending as [|fn rest IH]; intros s; cbn [applyErrorFrameNumbers];
    [apply compStep_refl|].
  eapply compStep_trans; [|apply IH]. comp_peel.
  destruct (map_mem fn (mPendingInputFrames s)); repeat comp_peel.
Qed.

Lemma applyExifErrorFrameNumbers_comp : forall pending s,
    compStep Q s (applyExifErrorFrameNumbers pending s).
Proof.
  induction pending as [|fn rest IH]; intros s; cbn [applyExifErrorFrameNumbers];
    [apply compStep_refl|].
  eapply compStep_trans; [|apply IH]. comp_peel.
  destruct (map_mem fn (mPendingInputFrames s)); repeat comp_peel.
Qed.

Lemma allocInputTiles_comp : forall n avail gridTs f,
    compRel Q f (snd (allocInputTiles n avail gridTs f)).
Proof.
  induction n as [|n IH]; intros avail gridTs f; cbn [allocInputTiles];
    [apply compRel_refl|].
  destruct avail as [|idx avail]; [apply compRel_refl|].
  eapply compRel_trans; [|apply IH]. comp_setter.
Qed.

Lemma allocGainmapInputTiles_comp : forall n avail gridTs f,
    compRel Q f (snd (allocGainmapInputTiles n avail gridTs f)).
Proof.
  induction n as [|n IH]; intros avail gridTs f; cbn [allocGainmapInputTiles];
    [apply compRel_refl|].
  destruct avail as [|idx avail]; [apply compRel_refl|].
  eapply compRel_trans; [|apply IH]. comp_setter.
Qed.

Lemma firstLackingTiles_In : forall counter total m k f,
    firstLackingTiles counter total m = Some (k, f) -> In (k, f) m.
Proof.
  intros counter total. induction m as [|[k0 f0] m IH]; simpl; intros k f H;
    [discriminate|].
  destruct (counter f0 <? total).
  - injection H as <- <-. now left.
  - right. now apply IH.
Qed.

Lemma distributeCodecInputBuffers_comp : forall s,
    ascending (mPendingInputFrames s) -> compStep Q s (distributeCodecInputBuffers s).
Proof.
  intros s Hasc. unfold distributeCodecInputBuffers.
  destruct (mCodecInputBuffers s) as [|i0 avail0] eqn:Ea; [apply compStep_refl|].
  destruct (firstLackingTiles _ _ _) as [[k f]|] eqn:E; [|apply compStep_refl].
  apply firstLackingTiles_In in E. apply (@In_map_find _ _ _ _ Hasc) in E.
  pose proof (allocInputTiles_comp
                (Z.to_nat (Z.min (Z.of_nat (length (i0 :: avail0)))
                                 (u64 (u64 (mGridRows s * mGridCols s) - codecInputCounter f))))
                (i0 :: avail0) (mGridTimestampUs s) f) as Hc.
  destruct (allocInputTiles _ _ _ _) as [[avail gridTs] f']. cbn [snd] in Hc.
  split; [|split; auto].
  cbn. apply evolves_put; [apply evolves_refl|].
  unfold map_at. now rewrite E.
Qed.

Lemma distributeGainmapCodecInputBuffers_comp : forall s,
    ascending (mPendingInputFrames s) ->
    compStep Q s (distributeGainmapCodecInputBuffers s).
Proof.
  intros s Hasc. unfold distributeGainmapCodecInputBuffers.
  destruct (mGainmapCodecInputBuffers s) as [|i0 avail0] eqn:Ea; [apply compStep_refl|].
  destruct (firstLackingTiles _ _ _) as [[k f]|] eqn:E; [|apply compStep_refl].
  apply firstLackingTiles_In in E. apply (@In_map_find _ _ _ _ Hasc) in E.
  pose proof (allocGainmapInputTiles_comp
                (Z.to_nat (Z.min (Z.of_nat (length (i0 :: avail0)))
                                 (u64 (u64 (mGainmapGridRows s * mGainmapGridCols s)
                                       - gainmapCodecInputCounter f))))
                (i0 :: avail0) (mGridTimestampUs s) f) as Hc.
  destruct (allocGainmapInputTiles _ _ _ _) as [[avail gridTs] f']. cbn [snd] in Hc.
  split; [|split; auto].
  cbn. apply evolves_put; [apply evolves_refl|].
  unfold map_at. now rewrite E.
Qed.

Lemma compStep_ascending : forall s s',
    compStep Q s s' -> ascending (mPendingInputFrames s) ->
    ascending (mPendingInputFrames s').
Proof. intros s s1 (H & _) Hasc. exact (evolves_ascending H Hasc). Qed.

Lemma compStep_queues : forall s s',
    compStep Q s s' ->
    Forall Q (mCodecOutputBuffers s) /\ Forall Q (mGainmapCodecOutputBuffers s) ->
    Forall Q (mCodecOutputBuffers s') /\ Forall Q (mGainmapCodecOutputBuffers s').
Proof. intros s s' (_ & A & B) [HA HB]. auto. Qed.

(** The whole pass: every pending frame keeps its muxer state and only gains outputs
    taken from the two queues. *)
Lemma compilePendingInputLocked_comp : forall s,
    ascending (mPendingInputFrames s) ->
    Forall Q (mCodecOutputBuffers s) -> Forall Q (mGainmapCodecOutputBuffers s) ->
    compStep Q s (compilePendingInputLocked env s).
Proof.
  intros s Hasc HQ HG. unfold compilePendingInputLocked.
  set (s1 := promoteSettings env _ s).
  assert (C1 : compStep Q s s1) by apply promoteSettings_comp.
  set (s2 := drainAppSegments _ _ s1).
  assert (C2 : compStep Q s s2)
    by (eapply compStep_trans; [exact C1 | apply drainAppSegments_comp]).
  set (s3 := drainYuvBuffers _ _ s2).
  assert (C3 : compStep Q s s3)
    by (eapply compStep_trans; [exact C2 | apply drainYuvBuffers_comp]).
  set (s4 := attributeCodecOutputs _ s3).
  assert (C4 : compStep Q s s4).
  { eapply compStep_trans; [exact C3|].
    apply attributeCodecOutputs_comp; [reflexivity|].
    now apply (compStep_queues C3). }
  set (s5 := attributeGainmapCodecOutputs _ s4).
  assert (C5 : compStep Q s s5).
  { eapply compStep_trans; [exact C4|].
    apply attributeGainmapCodecOutputs_comp; [reflexivity|].
    now apply (compStep_queues C4). }
  set (s6 := drainCaptureResults _ s5).
  assert (C6 : compStep Q s s6)
    by (eapply compStep_trans; [exact C5 | apply drainCaptureResults_comp]).
  set (s7 := applyErrorFrameNumbers _ s6).
  assert (C7 : compStep Q s s7)
    by (eapply compStep_trans; [exact C6 | apply applyErrorFrameNumbers_comp]).
  set (s8 := applyExifErrorFrameNumbers _ s7).
  assert (C8 : compStep Q s s8)
    by (eapply compStep_trans; [exact C7 | apply applyExifErrorFrameNumbers_comp]).
  set (s9 := distributeCodecInputBuffers s8).
  assert (C9 : compStep Q s s9).
  { eapply compStep_trans; [exact C8|]. apply distributeCodecInputBuffers_comp.
    now apply (compStep_ascending C8). }
  eapply compStep_trans; [exact C9|]. apply distributeGainmapCodecInputBuffers_comp.
  now apply (compStep_ascending C9).
Qed.

Lemma firstReady_In : forall s m k,
    firstReady s m = Some k -> exists f, In (k, f) m /\ inputReady s f = true.
Proof.
  intros s. induction m as [|[k0 f0] m IH]; simpl; intros k H; [discriminate|].
  destruct (inputReady s f0) eqn:E.
  - injection H as <-. exists f0. split; [now left | exact E].
  - destruct (IH _ H) as (f & Hin & Hr). exists f. split; [now right | exact Hr].
Qed.

Lemma dupFormats_comp : forall s f, compRel Q f (dupFormats s f).
Proof.
  intros s f. unfold dupFormats.
  destruct (format f), (mFormat s); cbn;
    destruct (gainmapFormat f), (mGainmapFormat s); cbn; comp_setter.
Qed.

Lemma getNextReadyInputLocked_comp : forall s,
    compStep Q s (snd (getNextReadyInputLocked s)).
Proof.
  intros s. unfold getNextReadyInputLocked.
  destruct (firstReady s (mPendingInputFrames s)); cbn [snd]; [|apply compStep_refl].
  apply compStep_updFrame. apply dupFormats_comp.
Qed.
End Compile.

(** ** The pipeline as a transition system *)

Section Invariant.
Variable plat : Platform.

Let real := fun b => realOutput plat b = true.

Lemma realQueues_new : realQueues plat newInputFrame.
Proof. split; constructor. Qed.

Lemma realQueues_compRel : forall f f',
    compRel real f f' -> realQueues plat f -> realQueues plat f'.
Proof.
  intros f f' (_ & _ & _ & _ & _ & _ & _ & (l & E & F) & (g & E' & G)) [A B].
  split; [rewrite E | rewrite E']; apply Forall_app; now split.
Qed.

Lemma realQueues_at : forall s k,
    (forall k f, In (k, f) (mPendingInputFrames s) -> realQueues plat f) ->
    realQueues plat (frameAt k s).
Proof.
  intros s k H. unfold frameAt, map_at.
  destruct (map_find k (mPendingInputFrames s)) eqn:E; [|apply realQueues_new].
  apply map_find_In in E. eauto.
Qed.

Lemma wellFormed_compStep : forall s s',
    compStep real s s' -> wellFormed plat s -> wellFormed plat s'.
Proof.
  intros s s' C (A & B & G & F).
  split; [exact (compStep_ascending C A)|].
  destruct (compStep_queues C (conj B G)) as [B' G'].
  split; [exact B'|]. split; [exact G'|].
  intros k f' Hin. destruct C as (Ev & _).
  destruct (evolves_backward (@compRel_refl real) (@compRel_trans real) Ev _ _ Hin) as [(f & Hf & HR) | HR].
  - eapply realQueues_compRel; eauto.
  - eapply realQueues_compRel; [exact HR | apply realQueues_new].
Qed.

Lemma wellFormed_same : forall s s',
    mPendingInputFrames s' = mPendingInputFrames s ->
    mCodecOutputBuffers s' = mCodecOutputBuffers s ->
    mGainmapCodecOutputBuffers s' = mGainmapCodecOutputBuffers s ->
    wellFormed plat s -> wellFormed plat s'.
Proof. intros s s' H1 H2 H3. unfold wellFormed. now rewrite H1, H2, H3. Qed.

Lemma wellFormed_markTrackerIdle : forall s,
    wellFormed plat s -> wellFormed plat (markTrackerIdle s).
Proof.
  intros s W. unfold markTrackerIdle. destruct (mStatusTracker s); [|exact W].
  eapply wellFormed_same; [| | |exact W]; reflexivity.
Qed.

Lemma releaseInputFramesLocked_queues : forall env s,
    mCodecOutputBuffers (releaseInputFramesLocked env s) = mCodecOutputBuffers s /\
    mGainmapCodecOutputBuffers (releaseInputFramesLocked env s) =
      mGainmapCodecOutputBuffers s.
Proof.
  intros env s. unfold releaseInputFramesLocked.
  destruct (releaseFrames_spec (mPendingInputFrames s) s) as (e1 & (c & y & R1) & _).
  destruct (releaseFrames (mPendingInputFrames s) s) as [[s1 kept] done].
  cbn [fst snd] in R1. subst s1.
  destruct done; [|split; reflexivity].
  destruct kept as [|[k0 f0] kept'].
  - match goal with |- context [isEmpty ?x] => destruct (isEmpty x) end;
      [|split; reflexivity].
    unfold markTrackerIdle.
    match goal with |- context [mStatusTracker ?x] => destruct (mStatusTracker x) end;
      split; reflexivity.
  - unfold updateCodecQualityLocked.
    match goal with |- context [?a =? ?b] => destruct (a =? b) end; [split; reflexivity|].
    match goal with |- context [is_OK ?x] => destruct (is_OK x) end; split; reflexivity.
Qed.

Lemma wellFormed_release : forall env s,
    wellFormed plat s -> wellFormed plat (releaseInputFramesLocked env s).
Proof.
  intros env s (A & B & G & F).
  destruct (releaseInputFramesLocked_spec env s) as (K & _).
  destruct (releaseInputFramesLocked_queues env s) as (Q1 & Q2).
  unfold wellFormed. rewrite K, Q1, Q2.
  split; [now apply ascending_filter|]. split; [exact B|]. split; [exact G|].
  intros k f Hin. apply filter_In in Hin as [Hin _]. eauto.
Qed.

Lemma wellFormed_processAndRelease : forall env fn s,
    wellFormed plat s -> wellFormed plat (processAndRelease plat env fn s).
Proof.
  intros env fn s W. unfold processAndRelease.
  destruct (processInputFrame plat env fn s (frameAt fn s)) as [[r s1] f1] eqn:H.
  pose proof (keeps_use (processInputFrame_rel plat env fn) H) as (St & _ & C & GC & _).
  apply wellFormed_release.
  destruct W as (A & B & G & F).
  destruct St as (evs & c & -> & _).
  assert (P1 : realQueues plat f1).
  { destruct (realQueues_at s fn F) as [X Y]. split; [now apply C | now apply GC]. }
  assert (W1 : wellFormed plat
                 (set_mPendingInputFrames
                    (map_put fn f1 (mPendingInputFrames s))
                    (set_mDequeuedOutputBufferCnt c (set_trace (trace s ++ evs) s)))).
  { split; [cbn; now apply ascending_put|]. split; [exact B|]. split; [exact G|].
    cbn. intros k f Hin. apply In_map_put in Hin as [[_ ->] | Hin]; eauto. }
  destruct (is_OK r); [exact W1|].
  apply wellFormed_compStep with (s := set_mPendingInputFrames
                    (map_put fn f1 (mPendingInputFrames s))
                    (set_mDequeuedOutputBufferCnt c (set_trace (trace s ++ evs) s)));
    [|exact W1].
  apply compStep_updFrame. comp_setter.
Qed.

Lemma wellFormed_workerIteration : forall env s,
    wellFormed plat s -> wellFormed plat (snd (workerIteration plat env s)).
Proof.
  intros env s W. unfold workerIteration.
  set (s1 := compilePendingInputLocked env s).
  assert (W1 : wellFormed plat s1).
  { apply wellFormed_compStep with (s := s); [|exact W].
    destruct W as (A & B & G & _). now apply compilePendingInputLocked_comp. }
  pose proof (getNextReadyInputLocked_comp real s1) as C2.
  destruct (getNextReadyInputLocked s1) as [[fn|] s2]; cbn [snd] in C2 |- *.
  - apply wellFormed_processAndRelease. now apply (wellFormed_compStep C2).
  - assert (W2 : wellFormed plat s2) by now apply (wellFormed_compStep C2).
    destruct (0 <=? getNextFailingInputLocked s2); cbn [snd].
    + set (k := getNextFailingInputLocked s2).
      destruct (release_step k s2 (frameAt k s2)) as (evs & (c & y & R) & _).
      destruct (releaseInputFrameLocked k s2 (frameAt k s2)) as [s3 f3].
      cbn [fst snd] in R |- *. subst s3.
      assert (W3 : wellFormed plat
                (set_mPendingInputFrames
                   (map_erase k (mPendingInputFrames s2))
                   (set_mYuvBufferAcquired y
                      (set_mDequeuedOutputBufferCnt c (set_trace (trace s2 ++ evs) s2))))).
      { destruct W2 as (A & B & G & F).
        split; [cbn; now apply ascending_erase|]. split; [exact B|]. split; [exact G|].
        cbn. intros k' f Hin. apply In_map_erase in Hin. eauto. }
      match goal with |- context [if ?c then _ else _] => destruct c end;
        [|exact W3].
      apply wellFormed_markTrackerIdle. exact W3.
    + destruct (waitRelative env); exact W2.
Qed.

Lemma wellFormed_threadLoop : forall env s,
    wellFormed plat s -> wellFormed plat (snd (threadLoop plat env s)).
Proof.
  intros env s W. unfold threadLoop. destruct (mErrorState s); cbn [snd].
  - apply wellFormed_release.
    apply wellFormed_compStep with (s := s); [|exact W].
    destruct W as (A & B & G & _). now apply compilePendingInputLocked_comp.
  - now apply wellFormed_workerIteration.
Qed.

Lemma wellFormed_perform : forall a s,
    wellFormed plat s -> wellFormed plat (perform plat a s).
Proof.
  intros a s W. destruct a; cbn [perform];
    [ | | | | | | | | | | |
    | apply wellFormed_threadLoop; exact W
    | apply wellFormed_workerIteration; exact W ].
  - unfold onBufferReleased.
    repeat match goal with |- context [if ?c then _ else _] => destruct c end;
      try exact W; (eapply wellFormed_same; [| | |exact W]; reflexivity).
  - unfold onBufferRequestForFrameNumber.
    repeat match goal with |- context [if ?c then _ else _] => destruct c end;
      try exact W; (eapply wellFormed_same; [| | |exact W]; reflexivity).
  - unfold onFrameAvailable.
    repeat match goal with |- context [if ?c then _ else _] => destruct c end;
      try exact W; (eapply wellFormed_same; [| | |exact W]; reflexivity).
  - unfold onHeicOutputFrameAvailable.
    destruct (negb (mErrorState s));
      [|eapply wellFormed_same; [| | |exact W]; reflexivity].
    destruct ((0 <? size info) &&
              (Z.land (flags info) (BUFFER_FLAG_CODECCONFIG plat) =? 0)) eqn:Hreal;
      [|eapply wellFormed_same; [| | |exact W]; reflexivity].
    destruct W as (A & B & G & F).
    destruct isGainmap.
    + split; [exact A|]. split; [exact B|]. split; [|exact F].
      cbn. apply Forall_app. split; [exact G|]. constructor; [exact Hreal | constructor].
    + split; [exact A|]. split; [|split; [exact G | exact F]].
      cbn. apply Forall_app. split; [exact B|]. constructor; [exact Hreal | constructor].
  - unfold onHeicInputFrameAvailable.
    repeat match goal with |- context [if ?c then _ else _] => destruct c end;
      try exact W; (eapply wellFormed_same; [| | |exact W]; reflexivity).
  - unfold onHeicFormatChanged, onHeicGainmapFormatChanged.
    destruct newFormat as [m|]; [|exact W].
    destruct isGainmap.
    + destruct (mGainmapUseGrid s); [destruct (gridKeys m) as [[[[? ?] ?] ?]|]|];
        (eapply wellFormed_same; [| | |exact W]; reflexivity).
    + destruct (mUseGrid s || mUseHeic s); [destruct (gridKeys m) as [[[[? ?] ?] ?]|]|];
        (eapply wellFormed_same; [| | |exact W]; reflexivity).
  - eapply wellFormed_same; [| | |exact W]; reflexivity.
  - unfold onShutter. destruct (mErrorState s); [exact W|].
    destruct (map_find _ _); [|exact W].
    eapply wellFormed_same; [| | |exact W]; reflexivity.
  - unfold onStreamBufferError.
    repeat match goal with |- context [if ?c then _ else _] => destruct c end;
      try exact W; (eapply wellFormed_same; [| | |exact W]; reflexivity).
  - eapply wellFormed_same; [| | |exact W]; reflexivity.
  - unfold onResultError.
    repeat match goal with |- context [if ?c then _ else _] => destruct c end;
      try exact W; (eapply wellFormed_same; [| | |exact W]; reflexivity).
  - unfold onRequestError.
    repeat match goal with |- context [if ?c then _ else _] => destruct c end;
      try exact W; (eapply wellFormed_same; [| | |exact W]; reflexivity).
Qed.

Lemma wellFormed_idle : forall s, idle s -> wellFormed plat s.
Proof.
  intros s (A & B & C). unfold wellFormed. rewrite A, B, C.
  split; [constructor|]. split; [constructor|]. split; [constructor|]. intros k f [].
Qed.

(** Every state the pipeline can reach is well formed. *)
Lemma reachable_wellFormed : forall s, reachable plat s -> wellFormed plat s.
Proof.
  intros s (s0 & acts & Hidle & ->). apply wellFormed_idle in Hidle.
  revert s0 Hidle. unfold run.
  induction acts as [|a acts IH]; intros s0 W; cbn [fold_left]; [exact W|].
  apply IH. now apply wellFormed_perform.
Qed.
End Invariant.

(** ** What one action does to one frame *)

Section EvolutionAt.
Variable R : InputFrame -> InputFrame -> Prop.
Hypothesis R_refl : forall f, R f f.
Hypothesis R_trans : forall a b c, R a b -> R b c -> R a c.

Lemma evolves_at : forall m m',
    evolves R m m' ->
    forall k, R (map_at newInputFrame k m) (map_at newInputFrame k m').
Proof.
  intros m m' H. induction H as [m | m m' k0 f0 H IH HR]; intros k; [apply R_refl|].
  destruct (Z.eq_dec k k0) as [->|Hne].
  - unfold map_at at 2. rewrite map_find_put_eq. eapply R_trans; [apply IH | exact HR].
  - unfold map_at at 2. rewrite map_find_put_ne by exact Hne. apply IH.
Qed.
End EvolutionAt.

Lemma compStep_frameAt : forall Q s s' k,
    compStep Q s s' -> compRel Q (frameAt k s) (frameAt k s').
Proof.
  intros Q s s' k (Ev & _). unfold frameAt.
  exact (evolves_at (@compRel_refl Q) (@compRel_trans Q) Ev k).
Qed.

Lemma frameAt_find : forall s k f,
    map_find k (mPendingInputFrames s) = Some f -> frameAt k s = f.
Proof. intros s k f H. unfold frameAt, map_at. now rewrite H. Qed.

Section Step.
Variable plat : Platform.

Let real := fun b => realOutput plat b = true.

Lemma callback_frames : forall a s,
    isCallback a = true ->
    mPendingInputFrames (perform plat a s) = mPendingInputFrames s.
Proof.
  intros a s Ha. destruct a; try discriminate Ha; cbn [perform].
  - unfold onBufferReleased.
    repeat match goal with |- context [if ?c then _ else _] => destruct c end;
      reflexivity.
  - unfold onBufferRequestForFrameNumber.
    repeat match goal with |- context [if ?c then _ else _] => destruct c end;
      reflexivity.
  - unfold onFrameAvailable.
    repeat match goal with |- context [if ?c then _ else _] => destruct c end;
      reflexivity.
  - unfold onHeicOutputFrameAvailable.
    repeat match goal with |- context [if ?c then _ else _] => destruct c end;
      reflexivity.
  - unfold onHeicInputFrameAvailable.
    repeat match goal with |- context [if ?c then _ else _] => destruct c end;
      reflexivity.
  - unfold onHeicFormatChanged, onHeicGainmapFormatChanged.
    destruct newFormat as [m|]; [|reflexivity].
    destruct isGainmap.
    + destruct (mGainmapUseGrid s); [destruct (gridKeys m) as [[[[? ?] ?] ?]|]|];
        reflexivity.
    + destruct (mUseGrid s || mUseHeic s); [destruct (gridKeys m) as [[[[? ?] ?] ?]|]|];
        reflexivity.
  - reflexivity.
  - unfold onShutter. destruct (mErrorState s); [reflexivity|].
    destruct (map_find _ _); reflexivity.
  - unfold onStreamBufferError.
    repeat match goal with |- context [if ?c then _ else _] => destruct c end;
      reflexivity.
  - reflexivity.
  - unfold onResultError.
    repeat match goal with |- context [if ?c then _ else _] => destruct c end;
      reflexivity.
  - unfold onRequestError.
    repeat match goal with |- context [if ?c then _ else _] => destruct c end;
      reflexivity.
Qed.

(** A frame that is still pending after one pass of the worker was either left alone
    by the processing step (the reconciliation pass may have handed it outputs), or it
    is the frame the pass selected and its processing succeeded. *)
Lemma workerIteration_frames : forall env s k f',
    wellFormed plat s ->
    map_find k (mPendingInputFrames (snd (workerIteration plat env s))) = Some f' ->
    compRel real (frameAt k s) f' \/
    exists s2 s3,
      getNextReadyInputLocked (compilePendingInputLocked env s) = (Some k, s2) /\
      wellFormed plat s2 /\
      compRel real (frameAt k s) (frameAt k s2) /\
      processInputFrame plat env k s2 (frameAt k s2) = (OK, s3, f').
Proof.
  intros env s k f' W. unfold workerIteration.
  set (s1 := compilePendingInputLocked env s).
  assert (C1 : compStep real s s1).
  { destruct W as (A & B & G & _). now apply compilePendingInputLocked_comp. }
  pose proof (getNextReadyInputLocked_comp real s1) as C2.
  destruct (getNextReadyInputLocked s1) as [[fn|] s2] eqn:Sel; cbn [snd] in C2 |- *.
  - assert (C12 : compStep real s s2) by (eapply compStep_trans; eassumption).
    assert (W2 : wellFormed plat s2) by (eapply wellFormed_compStep; eassumption).
    destruct (processInputFrame plat env fn s2 (frameAt fn s2)) as [[r s3] f1] eqn:H.
    destruct (processAndRelease_spec _ _ _ _ H) as (K & _).
    rewrite K. rewrite map_find_filter by (apply ascending_put; apply W2).
    destruct (Z.eq_dec k fn) as [->|Hne].
    + rewrite map_find_put_eq. cbn [snd].
      destruct (negb (releasable (processed r f1))) eqn:Hrel; [|discriminate].
      intros E. injection E as <-.
      unfold processed in *. destruct r; cbn [is_OK] in *;
        unfold releasable in Hrel; try discriminate Hrel.
      right. exists s2, s3. split; [reflexivity|]. split; [exact W2|].
      split; [now apply compStep_frameAt | exact H].
    + rewrite map_find_put_ne by exact Hne.
      destruct (map_find k (mPendingInputFrames s2)) as [f2|] eqn:E2; [|discriminate].
      cbn [snd]. destruct (negb (releasable f2)); [|discriminate].
      intros E. injection E as <-. left.
      rewrite <- (frameAt_find _ _ E2). now apply compStep_frameAt.
  - assert (C12 : compStep real s s2) by (eapply compStep_trans; eassumption).
    assert (Hold : forall f2, map_find k (mPendingInputFrames s2) = Some f2 ->
                              compRel real (frameAt k s) f2).
    { intros f2 E2. rewrite <- (frameAt_find _ _ E2). now apply compStep_frameAt. }
    destruct (0 <=? getNextFailingInputLocked s2); cbn [snd].
    + set (k0 := getNextFailingInputLocked s2).
      destruct (release_step k0 s2 (frameAt k0 s2)) as (evs & R & _).
      pose proof (releasedTo_frames R) as Hfr.
      destruct (releaseInputFrameLocked k0 s2 (frameAt k0 s2)) as [s3 f3].
      cbn [fst snd] in Hfr |- *.
      assert (Hfin : forall x : HeicCompositeStream,
                 mPendingInputFrames x = map_erase k0 (mPendingInputFrames s2) ->
                 map_find k (mPendingInputFrames x) = Some f' ->
                 compRel real (frameAt k s) f').
      { intros x Hx E. rewrite Hx in E.
        destruct (Z.eq_dec k k0) as [->|Hne].
        - rewrite map_find_erase_eq in E; [discriminate|].
          eapply compStep_ascending; [exact C12 | apply W].
        - rewrite map_find_erase_ne in E by exact Hne. now apply Hold. }
      intros E. left. revert E. apply Hfin.
      match goal with |- context [if ?c then _ else _] => destruct c end;
        [|cbn; now rewrite Hfr].
      unfold markTrackerIdle.
      match goal with |- context [mStatusTracker ?x] => destruct (mStatusTracker x) end;
        cbn; now rewrite Hfr.
    + intros E. left. apply Hold. destruct (waitRelative env); exact E.
Qed.

Lemma perform_frames : forall a s k f',
    wellFormed plat s ->
    map_find k (mPendingInputFrames (perform plat a s)) = Some f' ->
    compRel real (frameAt k s) f' \/
    exists env s2 s3,
      (a = ThreadLoop env \/ a = InnerLoopAgain env) /\
      getNextReadyInputLocked (compilePendingInputLocked env s) = (Some k, s2) /\
      wellFormed plat s2 /\
      compRel real (frameAt k s) (frameAt k s2) /\
      processInputFrame plat env k s2 (frameAt k s2) = (OK, s3, f').
Proof.
  intros a s k f' W E.
  destruct (isCallback a) eqn:Ha.
  - left. rewrite (callback_frames a s Ha) in E.
    rewrite (frameAt_find _ _ E). apply compRel_refl.
  - destruct a; try discriminate Ha; cbn [perform] in E.
    + unfold threadLoop in E. destruct (mErrorState s); cbn [snd] in E.
      * left.
        assert (C1 : compStep real s (compilePendingInputLocked env s)).
        { destruct W as (A & B & G & _). now apply compilePendingInputLocked_comp. }
        destruct (releaseInputFramesLocked_spec env (compilePendingInputLocked env s))
          as (K & _).
        rewrite K in E.
        rewrite map_find_filter in E by (eapply compStep_ascending; [exact C1 | apply W]).
        destruct (map_find k _) as [f2|] eqn:E2; [|discriminate].
        destruct (negb _); [|discriminate]. injection E as <-.
        rewrite <- (frameAt_find _ _ E2). now apply compStep_frameAt.
      * destruct (@workerIteration_frames env s k f' W E) as [L | (s2 & s3 & R)];
          [now left | right; exists env, s2, s3; split; [now left | exact R]].
    + destruct (@workerIteration_frames env s k f' W E) as [L | (s2 & s3 & R)];
        [now left | right; exists env, s2, s3; split; [now right | exact R]].
Qed.

(** Once a frame's container is open, no action raises its pending tile counts. *)
Lemma pending_tiles_step : forall a s k f f',
    wellFormed plat s ->
    map_find k (mPendingInputFrames s) = Some f ->
    muxer f <> None ->
    map_find k (mPendingInputFrames (perform plat a s)) = Some f' ->
    pendingOutputTiles f' <= pendingOutputTiles f /\
    gainmapPendingOutputTiles f' <= gainmapPendingOutputTiles f.
Proof.
  intros a s k f f' W Hf Hm E.
  rewrite <- (frameAt_find _ _ Hf) in *.
  destruct (@perform_frames a s k f' W E) as [C | (env & s2 & s3 & _ & _ & _ & C & P)].
  - destruct C as (_ & C1 & C2 & _). lia.
  - destruct C as (C0 & C1 & C2 & _).
    pose proof (keeps_use (processInputFrame_rel plat env k) P) as (_ & M & _).
    destruct M as (_ & M1 & M2).
    { rewrite C0. destruct (muxer (frameAt k s)); [reflexivity | contradiction]. }
    lia.
Qed.

(** A container is opened for a frame only by the worker, and only when the frame it
    picked holds a real compressed output. *)
Lemma muxer_opening_step : forall a s k f',
    wellFormed plat s ->
    muxer (frameAt k s) = None ->
    map_find k (mPendingInputFrames (perform plat a s)) = Some f' ->
    muxer f' <> None ->
    exists env s2 b,
      (a = ThreadLoop env \/ a = InnerLoopAgain env) /\
      getNextReadyInputLocked (compilePendingInputLocked env s) = (Some k, s2) /\
      muxer (frameAt k s2) = None /\
      In b (codecOutputBuffers (frameAt k s2) ++
            gainmapCodecOutputBuffers (frameAt k s2)) /\
      realOutput plat b = true.
Proof.
  intros a s k f' W Hn E Hm.
  destruct (@perform_frames a s k f' W E) as [C | (env & s2 & s3 & Ha & Sel & W2 & C & P)].
  - destruct C as (C0 & _). congruence.
  - destruct C as (C0 & _).
    assert (Hn2 : muxer (frameAt k s2) = None) by congruence.
    destruct (codecOutputReady (frameAt k s2)) eqn:Hout.
    + assert (RQ : realQueues plat (frameAt k s2)).
      { apply realQueues_at. apply W2. }
      unfold codecOutputReady in Hout.
      destruct (codecOutputBuffers (frameAt k s2)) as [|b l] eqn:Ec.
      * destruct (gainmapCodecOutputBuffers (frameAt k s2)) as [|b l] eqn:Eg;
          [discriminate|].
        exists env, s2, b. split; [exact Ha|]. split; [exact Sel|].
        split; [exact Hn2|]. split; [rewrite Ec, Eg; simpl; now left|].
        destruct RQ as [_ G]. rewrite Eg in G. now inversion G.
      * exists env, s2, b. split; [exact Ha|]. split; [exact Sel|].
        split; [exact Hn2|]. split; [rewrite Ec; simpl; now left|].
        destruct RQ as [G _]. rewrite Ec in G. now inversion G.
    + pose proof (@muxer_kept_without_output plat env k _ _ _ _ _ P Hout). congruence.
Qed.
End Step.

(** ** Selection *)

Lemma firstReady_spec : forall s m,
    ascending m ->
    match firstReady s m with
    | Some k =>
        exists f, map_find k m = Some f /\ inputReady s f = true /\
                  forall k' f', In (k', f') m -> inputReady s f' = true -> k <= k'
    | None => forall k' f', In (k', f') m -> inputReady s f' = false
    end.
Proof.
  intros s. induction m as [|[k0 f0] m IH]; intros Hasc; cbn [firstReady].
  - intros k' f' [].
  - destruct Hasc as [Hlt Hasc]. destruct (inputReady s f0) eqn:E0.
    + exists f0. split; [cbn; now rewrite Z.eqb_refl|]. split; [exact E0|].
      intros k' f' [E | Hin] _.
      * injection E as <- _. lia.
      * specialize (Hlt _ _ Hin). lia.
    + specialize (IH Hasc). destruct (firstReady s m) as [k|].
      * destruct IH as (f & Hf & Hr & Hmin). exists f.
        split.
        { cbn. destruct (Z.eqb_spec k0 k) as [->|_]; [|exact Hf].
          apply map_find_In in Hf. specialize (Hlt _ _ Hf). lia. }
        split; [exact Hr|].
        intros k' f' [E | Hin] Hr'.
        { injection E as <- <-. congruence. }
        { now apply (Hmin k' f'). }
      * intros k' f' [E | Hin].
        { injection E as <- <-. exact E0. }
        { now apply (IH k' f'). }
Qed.

(** ** Grid tiling *)

Lemma u64_small : forall x, 0 <= x < 2 ^ 64 -> u64 x = x.
Proof. intros x H. unfold u64. now apply Z.mod_small. Qed.

Lemma s32_small : forall x, - 2 ^ 31 <= x < 2 ^ 31 -> s32 x = x.
Proof. intros x H. unfold s32. rewrite Z.mod_small; lia. Qed.


Section Grid.
Variable plat : Platform.


Lemma tileRect_clipped : forall cols rows Tw Th W H i,
    0 < Tw < 2 ^ 32 -> 0 < Th < 2 ^ 32 -> 0 < cols -> 0 < rows ->
    (rows - 1) * Th < H <= rows * Th -> (cols - 1) * Tw < W <= cols * Tw ->
    W < 2 ^ 32 -> H < 2 ^ 32 ->
    0 <= i < rows * cols ->
    tileRect cols rows Tw Th W H i = clippedTile cols rows Tw Th W H i.
Proof.
  intros cols rows Tw Th W H i HTw HTh Hc Hr CH CW BW BH Hi.
  unfold tileRect, clippedTile.
  pose proof (Z.mod_pos_bound i cols Hc) as Mx.
  assert (My : 0 <= i / cols < rows).
  { split; [apply Z.div_pos; lia | apply Z.div_lt_upper_bound; lia]. }
  set (x := i mod cols) in *. set (y := i / cols) in *.
  assert (Bc : 0 <= (cols - 1) * (Tw - 1)) by (apply Z.mul_nonneg_nonneg; lia).
  assert (Br : 0 <= (rows - 1) * (Th - 1)) by (apply Z.mul_nonneg_nonneg; lia).
  assert (Bx : 0 <= (cols - 1 - x) * Tw) by (apply Z.mul_nonneg_nonneg; lia).
  assert (By : 0 <= (rows - 1 - y) * Th) by (apply Z.mul_nonneg_nonneg; lia).
  assert (Px : 0 <= x * Tw) by (apply Z.mul_nonneg_nonneg; lia).
  assert (Py : 0 <= y * Th) by (apply Z.mul_nonneg_nonneg; lia).
  rewrite (u64_small (x := cols - 1)) by lia.
  rewrite (u64_small (x := rows - 1)) by lia.
  rewrite (u64_small (x := Th * y)) by lia.
  rewrite (u64_small (x := Tw * x)) by lia.
  rewrite (u64_small (x := Tw)) by lia.
  rewrite (u64_small (x := Th)) by lia.
  rewrite (u64_small (x := W - x * Tw)) by lia.
  rewrite (u64_small (x := H - y * Th)) by lia.
  reflexivity.
Qed.

(** A clipped tile lies within the image. *)
Lemma clippedTile_inside : forall cols rows Tw Th W H i t l w h,
    0 < Tw -> 0 < Th -> 0 < cols -> 0 < rows ->
    (rows - 1) * Th < H <= rows * Th -> (cols - 1) * Tw < W <= cols * Tw ->
    0 <= i < rows * cols ->
    clippedTile cols rows Tw Th W H i = (t, l, w, h) ->
    0 < w <= Tw /\ 0 < h <= Th /\ l + w <= W /\ t + h <= H.
Proof.
  intros cols rows Tw Th W H i t l w h HTw HTh Hc Hr CH CW Hi E.
  unfold clippedTile in E.
  pose proof (Z.mod_pos_bound i cols Hc) as Mx.
  assert (My : 0 <= i / cols < rows).
  { split; [apply Z.div_pos; lia | apply Z.div_lt_upper_bound; lia]. }
  set (x := i mod cols) in *. set (y := i / cols) in *.
  injection E as <- <- <- <-.
  assert (Bx : 0 <= (cols - 1 - x) * Tw) by (apply Z.mul_nonneg_nonneg; lia).
  assert (By : 0 <= (rows - 1 - y) * Th) by (apply Z.mul_nonneg_nonneg; lia).
  destruct (Z.eqb_spec x (cols - 1)) as [Ex|Ex];
    destruct (Z.eqb_spec y (rows - 1)) as [Ey|Ey].
  - rewrite Ex, Ey in *. lia.
  - assert (0 <= (rows - 2 - y) * Th) by (apply Z.mul_nonneg_nonneg; lia).
    rewrite Ex in *. lia.
  - assert (0 <= (cols - 2 - x) * Tw) by (apply Z.mul_nonneg_nonneg; lia).
    rewrite Ey in *. lia.
  - assert (0 <= (rows - 2 - y) * Th) by (apply Z.mul_nonneg_nonneg; lia).
    assert (0 <= (cols - 2 - x) * Tw) by (apply Z.mul_nonneg_nonneg; lia).
    lia.
Qed.


End Grid.

(** ** Delivery *)

Lemma notDelivery_completions : forall evs,
    Forall notDelivery evs -> completions evs = [] /\ queued evs = [].
Proof.
  induction 1 as [|e evs He _ [IH1 IH2]]; [split; reflexivity|].
  unfold completions, queued in *. cbn [flat_map]. rewrite IH1, IH2.
  destruct e; try contradiction; split; reflexivity.
Qed.

Lemma completions_app : forall a b, completions (a ++ b) = completions a ++ completions b.
Proof. intros a b. unfold completions. apply flat_map_app. Qed.

Lemma queued_app : forall a b, queued (a ++ b) = queued a ++ queued b.
Proof. intros a b. unfold queued. apply flat_map_app. Qed.

Lemma Forall_quiet_notDelivery : forall evs, Forall quietEvent evs -> Forall notDelivery evs.
Proof. intros evs H. eapply Forall_impl; [|exact H]. apply quiet_notDelivery. Qed.

Lemma quiet_no_completion : forall evs k, Forall quietEvent evs -> ~ In (EvAsyncEnd k) evs.
Proof.
  intros evs k F Hin. rewrite Forall_forall in F. exact (F _ Hin).
Qed.

Lemma quiet_no_queueBuffer : forall evs a, Forall quietEvent evs -> ~ In (EvQueueBuffer a) evs.
Proof.
  intros evs a F Hin. rewrite Forall_forall in F. exact (F _ Hin).
Qed.

Lemma streamStep_budget : forall P s s',
    streamStep P s s' -> mMaxHeicBufferSize s' = mMaxHeicBufferSize s.
Proof. intros P s s' (evs & c & -> & _). reflexivity. Qed.

Lemma allWritten_eq : forall f f',
    appSegmentWritten f' = appSegmentWritten f ->
    pendingOutputTiles f' = pendingOutputTiles f ->
    gainmapPendingOutputTiles f' = gainmapPendingOutputTiles f ->
    allWritten f' = allWritten f.
Proof. intros f f' A B C. unfold allWritten. now rewrite A, B, C. Qed.

Section Delivery.
Variable plat : Platform.
Variable env : Env.
Variable frameNumber : Z.

(** Over the budget, [processCompletedInputFrame] returns the failure of the lock or
    BAD_VALUE. *)
Lemma processCompletedInputFrame_over_budget : forall s f,
    u64 (mMaxHeicBufferSize s - sizeof_CameraBlob plat) < u64 (lseek_END env (fileFd f)) ->
    fst (fst (processCompletedInputFrame plat env frameNumber s f)) =
      (if is_OK (lockAsync env) then BAD_VALUE else lockAsync env).
Proof.
  intros s f Hover. unfold processCompletedInputFrame.
  destruct (is_OK (lockAsync env)); cbn [negb]; [|reflexivity].
  change (mMaxHeicBufferSize (emit (EvMuxerStop (muxerOf f)) s))
    with (mMaxHeicBufferSize s).
  apply Z.ltb_lt in Hover. now rewrite Hover.
Qed.

Lemma processCompletedInputFrame_fits : forall s f s' f',
    processCompletedInputFrame plat env frameNumber s f = (OK, s', f') ->
    u64 (lseek_END env (fileFd f)) <= u64 (mMaxHeicBufferSize s - sizeof_CameraBlob plat).
Proof.
  intros s f s' f' H.
  destruct (Z.le_gt_cases (u64 (lseek_END env (fileFd f)))
              (u64 (mMaxHeicBufferSize s - sizeof_CameraBlob plat))) as [Hle | Hgt];
    [exact Hle|].
  pose proof (processCompletedInputFrame_over_budget s f Hgt) as E.
  rewrite H in E. cbn [fst] in E.
  destruct (lockAsync env); discriminate E.
Qed.

(** What one call of [processInputFrame] delivers: the completion mark is there exactly
    when the call succeeded and left the frame completely written (for a frame that
    was not already so), and a buffer is queued only for a completely written frame
    whose container fits the budget. *)
Lemma processInputFrame_delivery : forall s f r s' f',
    processInputFrame plat env frameNumber s f = (r, s', f') ->
    exists evs,
      trace s' = trace s ++ evs /\
      (In (EvAsyncEnd frameNumber) evs -> r = OK /\ allWritten f' = true) /\
      (allWritten f = false -> r = OK -> allWritten f' = true ->
       In (EvAsyncEnd frameNumber) evs) /\
      (forall k, In (EvAsyncEnd k) evs -> k = frameNumber) /\
      (forall a, In (EvQueueBuffer a) evs ->
                 allWritten f' = true /\
                 exists fd, u64 (lseek_END env fd) <=
                            u64 (mMaxHeicBufferSize s - sizeof_CameraBlob plat)) /\
      (In (EvAsyncEnd frameNumber) evs ->
       exists fd, u64 (lseek_END env fd) <=
                  u64 (mMaxHeicBufferSize s - sizeof_CameraBlob plat)).
Proof.
  intros s f r s' f' H. unfold processInputFrame in H. cbv zeta in H.
  destruct (andThen_cases _ _ _ _ H) as [[H1 Hr] | (s1 & f1 & H1 & H2)].
  - destruct (streamStep_trace (proj1 (keeps_use (feedEncoders_rel env _ _) H1)))
      as (e1 & T1 & F1).
    exists e1. split; [exact T1|].
    split; [intros Hin; destruct (@quiet_no_completion _ _ F1 Hin)|].
    split; [intros _ E; contradiction|].
    split; [intros k Hin; destruct (@quiet_no_completion _ _ F1 Hin)|].
    split; [intros a Hin; destruct (@quiet_no_queueBuffer _ _ F1 Hin)|].
    intros Hin; destruct (@quiet_no_completion _ _ F1 Hin).
  - pose proof (proj1 (keeps_use (feedEncoders_rel env _ _) H1)) as St1.
    destruct (streamStep_trace St1) as (e1 & T1 & F1).
    destruct (keeps_use (feedEncoders_seg env _ _) H1)
      as (_ & _ & Sw & _ & _ & _ & _ & Sp & Sg & _).
    pose proof (@allWritten_eq f f1 Sw Sp Sg) as A1.
    destruct (negb (codecOutputReady f && hasOutputBuffer s f) && negb (appSegmentReady f)).
    + injection H2 as <- <- <-.
      exists e1. split; [exact T1|].
      split; [intros Hin; destruct (@quiet_no_completion _ _ F1 Hin)|].
      split; [intros E _ E'; congruence|].
      split; [intros k Hin; destruct (@quiet_no_completion _ _ F1 Hin)|].
      split; [intros a Hin; destruct (@quiet_no_queueBuffer _ _ F1 Hin)|].
    intros Hin; destruct (@quiet_no_completion _ _ F1 Hin).
    + unfold writeToMuxer in H2.
      destruct (andThen_cases _ _ _ _ H2) as [[H3 Hr] | (s2 & f2 & H3 & H4)].
      * destruct (streamStep_trace (proj1 (keeps_use (writeSamples_rel plat env _ _ _) H3)))
          as (e2 & T2 & F2).
        assert (F12 : Forall quietEvent (e1 ++ e2)) by (apply Forall_app; now split).
        exists (e1 ++ e2). split; [rewrite T2, T1; now rewrite app_assoc|].
        split; [intros Hin; destruct (@quiet_no_completion _ _ F12 Hin)|].
        split; [intros _ E; contradiction|].
        split; [intros k Hin; destruct (@quiet_no_completion _ _ F12 Hin)|].
        split; [intros a Hin; destruct (@quiet_no_queueBuffer _ _ F12 Hin)|].
        intros Hin; destruct (@quiet_no_completion _ _ F12 Hin).
      * pose proof (proj1 (keeps_use (writeSamples_rel plat env _ _ _) H3)) as St2.
        destruct (streamStep_trace St2) as (e2 & T2 & F2).
        assert (F12 : Forall quietEvent (e1 ++ e2)) by (apply Forall_app; now split).
        unfold completeIfAllWritten, when in H4.
        destruct (allWritten f2) eqn:A2.
        -- destruct (@processCompletedInputFrame_spec plat env frameNumber s2 f2 r s' f' H4)
             as (e3 & _ & T3 & R3 & K3 & Q3 & _ & P3 & G3 & W3 & _).
           pose proof (@allWritten_eq f2 f' W3 P3 G3) as A3. rewrite A2 in A3.
           exists ((e1 ++ e2) ++ e3).
           split; [rewrite T3, T2, T1; now rewrite !app_assoc|].
           split.
           { intros Hin. apply in_app_or in Hin as [Hin | Hin];
               [destruct (@quiet_no_completion _ _ F12 Hin)|].
             split; [now apply R3 | exact A3]. }
           split.
           { intros _ E _. apply in_or_app. right. now apply R3. }
           split.
           { intros k Hin. apply in_app_or in Hin as [Hin | Hin];
               [destruct (@quiet_no_completion _ _ F12 Hin) | now apply K3]. }
           split.
           { intros a Hin. apply in_app_or in Hin as [Hin | Hin];
               [destruct (@quiet_no_queueBuffer _ _ F12 Hin)|].
             split; [exact A3|]. exists (fileFd f2).
             rewrite <- (streamStep_budget St1), <- (streamStep_budget St2).
             now apply (Q3 a). }
           intros Hin. apply in_app_or in Hin as [Hin | Hin];
             [destruct (@quiet_no_completion _ _ F12 Hin)|].
           apply R3 in Hin. subst r. exists (fileFd f2).
           rewrite <- (streamStep_budget St1), <- (streamStep_budget St2).
           exact (@processCompletedInputFrame_fits s2 f2 s' f' H4).
        -- injection H4 as <- <- <-.
           exists (e1 ++ e2). split; [rewrite T2, T1; now rewrite app_assoc|].
           split; [intros Hin; destruct (@quiet_no_completion _ _ F12 Hin)|].
           split; [intros _ _ E; congruence|].
           split; [intros k Hin; destruct (@quiet_no_completion _ _ F12 Hin)|].
           split; [intros a Hin; destruct (@quiet_no_queueBuffer _ _ F12 Hin)|].
        intros Hin; destruct (@quiet_no_completion _ _ F12 Hin).
Qed.
End Delivery.

(** ** Where a container is opened *)

Lemma stepRel_refl : forall P, reflexiveR (stepRel P).
Proof. intros P s f. apply streamStep_refl. Qed.

Lemma stepRel_trans : forall P, transitiveR (stepRel P).
Proof. intros P s f s1 f1 s2 f2 A B. exact (streamStep_trans A B). Qed.

Ltac finish_step :=
  match goal with
  | H : (_, _, _) = (_, _, _) |- _ => injection H as _ <- _
  end;
  unfold stepRel; stream_step.

Section Opening.
Variable plat : Platform.
Variable env : Env.
Variable frameNumber : Z.

Lemma generate_quiet : keeps (stepRel notOpening) (generateBaseImageAndGainmap env).
Proof.
  intros s f r s' f' H. unfold generateBaseImageAndGainmap in H. break_hyp H; finish_step.
Qed.

Lemma feedTiles_quiet : forall isGainmap cols rows gw gh ow oh bufs s r s',
    feedTiles env isGainmap cols rows gw gh ow oh bufs s = (r, s') ->
    streamStep notOpening s s'.
Proof.
  intros isGainmap cols rows gw gh ow oh bufs.
  induction bufs as [|b bufs IH]; cbn [feedTiles]; intros s r s' H.
  - injection H as _ <-. apply streamStep_refl.
  - destruct (is_OK (getInputBuffer env isGainmap (in_index b)));
      [|injection H as _ <-; apply streamStep_refl].
    cbn [negb] in H. destruct (tileRect _ _ _ _ _ _ _) as [[[a1 a2] a3] a4].
    destruct (is_OK (copyOneYuvTile env isGainmap a1 a2 a3 a4)); cbn [negb] in H;
      [|injection H as _ <-; stream_step].
    destruct (is_OK (queueInputBuffer env isGainmap (in_index b))); cbn [negb] in H;
      [|injection H as _ <-; stream_step].
    eapply streamStep_trans; [|apply (IH _ _ _ H)]. stream_step.
Qed.

Lemma processCodecInputFrame_quiet :
  keeps (stepRel notOpening) (processCodecInputFrame env).
Proof.
  intros s f r s' f' H. unfold processCodecInputFrame in H.
  destruct (feedTiles _ _ _ _ _ _ _ _ _ _) as [r0 s0] eqn:E.
  apply feedTiles_quiet in E.
  assert (s' = s0) as -> by (destruct r0; now injection H). exact E.
Qed.

Lemma processCodecGainmapInputFrame_quiet :
  keeps (stepRel notOpening) (processCodecGainmapInputFrame env).
Proof.
  intros s f r s' f' H. unfold processCodecGainmapInputFrame in H.
  destruct (feedTiles _ _ _ _ _ _ _ _ _ _) as [r0 s0] eqn:E.
  apply feedTiles_quiet in E.
  assert (s' = s0) as -> by (destruct r0; now injection H). exact E.
Qed.

Lemma feedEncoders_quiet : forall a b,
    keeps (stepRel notOpening) (feedEncoders env a b).
Proof.
  intros a b. unfold feedEncoders.
  apply keeps_andThen; auto using stepRel_refl, stepRel_trans.
  - apply keeps_when_const; auto using stepRel_refl.
    apply keeps_andThen; auto using stepRel_refl, stepRel_trans.
    + apply (keeps_when (@stepRel_refl notOpening)
                        (fun s f => mHDRGainmapEnabled s && negb (baseBuffer f))).
      apply generate_quiet.
    + apply processCodecInputFrame_quiet.
  - apply keeps_when_const; auto using stepRel_refl.
    apply processCodecGainmapInputFrame_quiet.
Qed.

Lemma writeGainmapMetadata_quiet :
  keeps (stepRel notOpening) (writeGainmapMetadata plat env).
Proof.
  intros s f r s' f' H. unfold writeGainmapMetadata in H. break_hyp H; finish_step.
Qed.

Lemma processAppSegment_quiet :
  keeps (stepRel notOpening) (processAppSegment plat env frameNumber).
Proof.
  intros s f r s' f' H. unfold processAppSegment in H.
  destruct (if negb (exifError f) then _ else _) as [appSegmentSize app1Size].
  break_hyp H; finish_step.
Qed.

Lemma processOneCodecOutputFrame_quiet :
  keeps (stepRel notOpening) (processOneCodecOutputFrame env frameNumber).
Proof.
  intros s f r s' f' H. unfold processOneCodecOutputFrame in H. break_hyp H; finish_step.
Qed.

Lemma processOneCodecGainmapOutputFrame_quiet :
  keeps (stepRel notOpening) (processOneCodecGainmapOutputFrame plat env frameNumber).
Proof.
  intros s f r s' f' H. unfold processOneCodecGainmapOutputFrame in H.
  break_hyp H; finish_step.
Qed.

Lemma processCompletedInputFrame_quiet :
  keeps (stepRel notOpening) (processCompletedInputFrame plat env frameNumber).
Proof.
  intros s f r s' f' H. unfold processCompletedInputFrame in H.
  break_hyp H; finish_step.
Qed.

Lemma completeIfAllWritten_quiet :
  keeps (stepRel notOpening) (completeIfAllWritten plat env frameNumber).
Proof.
  intros s f r s' f' H. unfold completeIfAllWritten, when in H.
  destruct (allWritten f).
  - exact (keeps_use processCompletedInputFrame_quiet H).
  - unfold ret in H. injection H as _ <- _. apply streamStep_refl.
Qed.

(** With the container already open, writing opens nothing. *)
Lemma writeSamples_quiet : forall a b s f r s' f',
    isSome (muxer f) = true ->
    writeSamples plat env frameNumber a b s f = (r, s', f') ->
    streamStep notOpening s s'.
Proof.
  intros a b s f r s' f' Hm H. unfold writeSamples in H.
  assert (E : ensureMuxer env frameNumber s f = (OK, s, f)).
  { unfold ensureMuxer, when. now rewrite Hm. }
  destruct (andThen_cases _ _ _ _ H) as [[H1 Hr] | (s1 & f1 & H1 & H2)].
  - rewrite E in H1. injection H1 as <- _ _. contradiction.
  - rewrite E in H1. injection H1 as <- <-.
    revert H2. apply (@keeps_use (stepRel notOpening)).
    repeat (apply keeps_andThen; auto using stepRel_refl, stepRel_trans).
    + apply keeps_when_const; auto using stepRel_refl. apply writeGainmapMetadata_quiet.
    + apply keeps_when_const; auto using stepRel_refl. apply processAppSegment_quiet.
    + apply keeps_drainQueue_of; auto using stepRel_refl, stepRel_trans.
      apply processOneCodecOutputFrame_quiet.
    + apply keeps_drainQueue_of; auto using stepRel_refl, stepRel_trans.
      apply processOneCodecGainmapOutputFrame_quiet.
Qed.

(** [processInputFrame] opens a container only for a frame that has none and holds a
    compressed output, and only when an output buffer can be dequeued. *)
Lemma processInputFrame_opening : forall s f r s' f',
    processInputFrame plat env frameNumber s f = (r, s', f') ->
    (isSome (muxer f) = false /\ codecOutputReady f = true /\
     hasOutputBuffer s f = true /\ appSegmentReady f = false) \/
    streamStep notOpening s s'.
Proof.
  intros s f r s' f' H.
  destruct (isSome (muxer f)) eqn:Hm.
  - right. unfold processInputFrame in H. cbv zeta in H.
    destruct (andThen_cases _ _ _ _ H) as [[H1 _] | (s1 & f1 & H1 & H2)].
    + exact (keeps_use (feedEncoders_quiet _ _) H1).
    + pose proof (keeps_use (feedEncoders_quiet _ _) H1) as St1. unfold stepRel in St1.
      destruct (keeps_use (feedEncoders_seg env _ _) H1) as (_ & _ & _ & _ & M1 & _).
      eapply streamStep_trans; [exact St1|].
      destruct (negb (codecOutputReady f && hasOutputBuffer s f) &&
                negb (appSegmentReady f)).
      * injection H2 as _ <- _. apply streamStep_refl.
      * unfold writeToMuxer in H2.
        assert (Hm1 : isSome (muxer f1) = true) by now rewrite M1.
        destruct (andThen_cases _ _ _ _ H2) as [[H3 _] | (s2 & f2 & H3 & H4)].
        -- exact (@writeSamples_quiet _ _ _ _ _ _ _ Hm1 H3).
        -- eapply streamStep_trans; [exact (@writeSamples_quiet _ _ _ _ _ _ _ Hm1 H3)|].
           exact (keeps_use completeIfAllWritten_quiet H4).
  - assert (Hseg : appSegmentReady f = false).
    { unfold appSegmentReady. rewrite Hm. apply andb_false_r. }
    destruct (codecOutputReady f && hasOutputBuffer s f) eqn:Hout.
    + left. apply andb_prop in Hout as [A B]. repeat split; assumption.
    + right. unfold processInputFrame in H. cbv zeta in H.
      rewrite Hout, Hseg in H. cbn [negb andb] in H.
      destruct (andThen_cases _ _ _ _ H) as [[H1 _] | (s1 & f1 & H1 & H2)].
      * exact (keeps_use (feedEncoders_quiet _ _) H1).
      * injection H2 as _ <- _. exact (keeps_use (feedEncoders_quiet _ _) H1).
Qed.
End Opening.

Lemma notOpening_no_create : forall evs fd,
    Forall notOpening evs -> ~ In (EvMuxerCreate fd) evs.
Proof. intros evs fd F Hin. rewrite Forall_forall in F. exact (F _ Hin). Qed.

Section GridInit.
Variable plat : Platform.

End GridInit.



Section Dispatch.
Variable plat : Platform.

End Dispatch.

Section DispatchGrid.
Variable plat : Platform.
Variable env : Env.
Hypothesis getInputBuffer_ok : forall i, getInputBuffer env false i = OK.
Hypothesis copyOneYuvTile_ok : forall t l w h, copyOneYuvTile env false t l w h = OK.
Hypothesis queueInputBuffer_ok : forall i, queueInputBuffer env false i = OK.

End DispatchGrid.



(** * Part IV: the claims *)


(** C1 (as the code has it): when the APP segment buffer of a frame passes every check
    of [findAppSegmentsSize] but the trailer's declared length differs from the sum of
    the marker lengths, [processInputFrame] fails without setting [exifError] and without
    writing the segment; the worker then marks the frame in error, notifies the failure
    and drops the frame, and nothing is completed or queued to the output. *)
Theorem C1_trailer_mismatch_fails_frame :
  forall plat env frameNumber s f buf,
    ascending (mPendingInputFrames s) ->
    map_find frameNumber (mPendingInputFrames s) = Some f ->
    appSegmentReady f = true ->
    exifError f = false ->
    data (appSegmentBuffer f) = Some buf ->
    trailerMismatch plat buf
      (u32 (lb_width (appSegmentBuffer f) * lb_height (appSegmentBuffer f))) ->
    exists r s1 f1,
      processInputFrame plat env frameNumber s f = (r, s1, f1) /\
      r <> OK /\ exifError f1 = false /\ appSegmentWritten f1 = false /\
      map_find frameNumber
        (mPendingInputFrames (processAndRelease plat env frameNumber s)) = None /\
      exists evs,
        trace (processAndRelease plat env frameNumber s) = trace s ++ evs /\
        In (EvNotifyError frameNumber (requestId f)) evs /\
        completions evs = [] /\ queued evs = [].
Proof.
  intros plat env frameNumber s f buf Hasc Hf Hseg He Hd Hm.
  assert (Hat : frameAt frameNumber s = f) by (unfold frameAt, map_at; now rewrite Hf).
  destruct (processInputFrame plat env frameNumber s f) as [[r s1] f1] eqn:H.
  exists r, s1, f1. split; [reflexivity|].
  destruct (@processInputFrame_mismatch plat env frameNumber s f buf r s1 f1 Hseg He Hd Hm H)
    as (Hr & Sg & St).
  destruct Sg as (_ & Se & Sw & _ & _ & _ & _ & _ & _ & _ & Sq).
  split; [exact Hr|]. split; [congruence|].
  split.
  { rewrite Sw. unfold appSegmentReady in Hseg.
    destruct (appSegmentWritten f); [|reflexivity].
    rewrite andb_false_r in Hseg. discriminate Hseg. }
  rewrite <- Hat in H.
  destruct (@processAndRelease_failure plat env frameNumber s r s1 f1 Hasc H Hr)
    as (Hgone & e2 & T2 & F2 & N2).
  split; [exact Hgone|].
  destruct (streamStep_trace St) as (e1 & T1 & F1).
  exists (e1 ++ e2). split; [rewrite T2, T1; now rewrite app_assoc|].
  split; [apply in_or_app; right; now rewrite <- Sq|].
  destruct (notDelivery_completions (Forall_quiet_notDelivery F1)) as [A1 B1].
  destruct (notDelivery_completions F2) as [A2 B2].
  now rewrite completions_app, queued_app, A1, A2, B1, B2.
Qed.

Lemma badSegment_mismatch : trailerMismatch android badSegment 16.
Proof.
  unfold trailerMismatch. repeat split; try (vm_compute; congruence).
  exists 8. split; vm_compute; congruence.
Qed.

Lemma C1_trailer_mismatch_witness :
  exists r s1 f1,
    processInputFrame android segmentEnv 1 segmentPicked (frameAt 1 segmentPicked) =
      (r, s1, f1) /\
    r <> OK /\ exifError f1 = false /\ appSegmentWritten f1 = false /\
    map_find 1 (mPendingInputFrames (processAndRelease android segmentEnv 1 segmentPicked))
      = None /\
    exists evs,
      trace (processAndRelease android segmentEnv 1 segmentPicked) =
        trace segmentPicked ++ evs /\
      In (EvNotifyError 1 (requestId (frameAt 1 segmentPicked))) evs /\
      completions evs = [] /\ queued evs = [].
Proof.
  refine (@C1_trailer_mismatch_fails_frame android segmentEnv 1 segmentPicked
            (frameAt 1 segmentPicked) badSegment _ _ _ _ _ _).
  - vm_compute. split; [intros ? ? [] | exact I].
  - vm_compute. reflexivity.
  - vm_compute. reflexivity.
  - vm_compute. reflexivity.
  - vm_compute. reflexivity.
  - unfold trailerMismatch. repeat split; try (vm_compute; congruence).
    exists 8. split; vm_compute; congruence.
Defined.

(** C1 fails as stated: the mismatching buffer makes [processInputFrame] return NO_INIT
    with [exifError] still false; the worker notifies the failure of frame 1, completes
    nothing, and the only sample ever written is the tile. *)
Lemma C1_counterexample :
  trailerMismatch android badSegment 16 /\
  fst (fst (processInputFrame android segmentEnv 1 segmentPicked
              (frameAt 1 segmentPicked))) = NO_INIT /\
  exifError (snd (processInputFrame android segmentEnv 1 segmentPicked
                    (frameAt 1 segmentPicked))) = false /\
  completions (trace (perform android (ThreadLoop segmentEnv) segmentArrived)) = [] /\
  notifications (trace (perform android (ThreadLoop segmentEnv) segmentArrived)) = [1] /\
  samples (trace (perform android (ThreadLoop segmentEnv) segmentArrived)) = [[0; 0]] /\
  mPendingInputFrames (perform android (ThreadLoop segmentEnv) segmentArrived) = [].
Proof.
  split; [exact badSegment_mismatch|]. vm_compute. repeat split; reflexivity.
Qed.

Lemma releasable_allWritten : forall f, releasable f = error f || allWritten f.
Proof. reflexivity. Qed.

(** C2 (as the code has it): for a pending frame that is not yet completely written, one
    call of [processInputFrame] delivers the container (queues the output buffer and
    marks the frame completed) exactly when it leaves [pendingOutputTiles] and
    [gainmapPendingOutputTiles] at 0 and [appSegmentWritten] set AND
    [processCompletedInputFrame], which then runs, succeeds; a buffer is queued only if
    the three conditions hold; and the worker drops the frame from the pending frames
    exactly when the three conditions hold or the frame is in error. *)
Theorem C2_delivered_iff_written_and_completed :
  forall plat env frameNumber s r s1 f1,
    ascending (mPendingInputFrames s) ->
    allWritten (frameAt frameNumber s) = false ->
    processInputFrame plat env frameNumber s (frameAt frameNumber s) = (r, s1, f1) ->
    exists evs,
      trace s1 = trace s ++ evs /\
      (In (EvAsyncEnd frameNumber) evs <-> allWritten f1 = true /\ r = OK) /\
      (forall a, In (EvQueueBuffer a) evs -> allWritten f1 = true) /\
      (map_find frameNumber
         (mPendingInputFrames (processAndRelease plat env frameNumber s)) = None <->
       allWritten f1 = true \/ r <> OK \/ error f1 = true).
Proof.
  intros plat env frameNumber s r s1 f1 Hasc Hnot H.
  destruct (@processInputFrame_delivery plat env frameNumber s _ r s1 f1 H) as (evs & T & D1 & D2 & _ & D3 & _).
  exists evs. split; [exact T|].
  split.
  { split; [intros Hin; destruct (D1 Hin); now split | intros [A E]; now apply D2]. }
  split; [intros a Hin; exact (proj1 (D3 a Hin))|].
  destruct (@processAndRelease_spec plat env frameNumber s r s1 f1 H) as (K & _).
  rewrite K, map_find_filter by now apply ascending_put.
  rewrite map_find_put_eq. cbn [snd]. rewrite releasable_allWritten.
  unfold processed. destruct r; cbn [is_OK];
    try (change (error (set_error true f1)) with true; cbn [orb negb];
         split; [intros _; right; left; discriminate | reflexivity]).
  destruct (error f1), (allWritten f1); cbn [orb negb]; split; intros E;
    try reflexivity; try discriminate E; auto.
  destruct E as [E | [E | E]]; try discriminate E. now contradiction E.
Qed.

Lemma C2_delivered_witness :
  exists evs,
    trace (snd (fst (lastCall false 1000))) =
      trace (pickedBy (envWith 1000) (tileWritten false)) ++ evs /\
    (In (EvAsyncEnd 1) evs <->
     allWritten (snd (lastCall false 1000)) = true /\ fst (fst (lastCall false 1000)) = OK) /\
    (forall a, In (EvQueueBuffer a) evs -> allWritten (snd (lastCall false 1000)) = true) /\
    (map_find 1
       (mPendingInputFrames
          (processAndRelease android (envWith 1000) 1
             (pickedBy (envWith 1000) (tileWritten false)))) = None <->
     allWritten (snd (lastCall false 1000)) = true \/
     fst (fst (lastCall false 1000)) <> OK \/
     error (snd (lastCall false 1000)) = true).
Proof.
  refine (@C2_delivered_iff_written_and_completed android (envWith 1000) 1
            (pickedBy (envWith 1000) (tileWritten false))
            (fst (fst (lastCall false 1000))) (snd (fst (lastCall false 1000)))
            (snd (lastCall false 1000)) _ _ _).
  - vm_compute. split; [intros ? ? [] | exact I].
  - vm_compute. reflexivity.
  - vm_compute. reflexivity.
Defined.

(** C2 fails as stated: with a container of 458754 bytes, one more than the budget, the
    last call leaves frame 1 with both tile counts at 0 and the segment written, yet
    returns BAD_VALUE; the worker queues nothing, completes nothing and notifies the
    failure of frame 1. *)
Lemma C2_counterexample :
  allWritten (snd (lastCall false 458754)) = true /\
  fst (fst (lastCall false 458754)) = BAD_VALUE /\
  queued (trace (perform android (ThreadLoop (envWith 458754)) (tileWritten false))) = [] /\
  completions (trace (perform android (ThreadLoop (envWith 458754)) (tileWritten false)))
    = [] /\
  notifications (trace (perform android (ThreadLoop (envWith 458754)) (tileWritten false)))
    = [1].
Proof. vm_compute. repeat split; reflexivity. Qed.

(** C3 (as the code has it): a pending frame gets its container only from the worker, in
    an iteration that picked this frame while it had no container and held at least one
    real (non-empty, non-codec-config) compressed output, its own or its gainmap's; and
    in no call of [processInputFrame] is a muxer created unless the frame has none, holds
    a compressed output and is not being processed for its APP segment.  Whether the
    frame's settings were recorded is not checked. *)
Theorem C3_muxer_needs_attributed_output :
  forall plat s a k f',
    reachable plat s ->
    muxer (frameAt k s) = None ->
    map_find k (mPendingInputFrames (perform plat a s)) = Some f' ->
    muxer f' <> None ->
    (exists env b,
        (a = ThreadLoop env \/ a = InnerLoopAgain env) /\
        fst (getNextReadyInputLocked (compilePendingInputLocked env s)) = Some k /\
        muxer (frameAt k (pickedBy env s)) = None /\
        In b (codecOutputBuffers (frameAt k (pickedBy env s)) ++
              gainmapCodecOutputBuffers (frameAt k (pickedBy env s))) /\
        realOutput plat b = true) /\
    (forall env frameNumber s0 f0 r s1 f1 evs fd,
        processInputFrame plat env frameNumber s0 f0 = (r, s1, f1) ->
        trace s1 = trace s0 ++ evs ->
        In (EvMuxerCreate fd) evs ->
        muxer f0 = None /\ codecOutputReady f0 = true /\ appSegmentReady f0 = false).
Proof.
  intros plat s a k f' Hreach Hnone Hf' Hm.
  split.
  - apply reachable_wellFormed in Hreach.
    destruct (@muxer_opening_step plat a s k f' Hreach Hnone Hf' Hm)
      as (env & s2 & b & Ha & Sel & Hn2 & Hb & Hreal).
    exists env, b. unfold pickedBy. rewrite Sel. cbn [fst snd]. auto.
  - intros env frameNumber s0 f0 r s1 f1 evs fd H T Hin.
    destruct (@processInputFrame_opening plat env frameNumber s0 f0 r s1 f1 H)
      as [(A & B & _ & D) | St].
    + split; [|split; assumption]. destruct (muxer f0); [discriminate A | reflexivity].
    + destruct (streamStep_trace St) as (evs' & T' & F).
      rewrite T in T'. apply app_inv_head in T'. subst evs'.
      destruct (@notOpening_no_create evs fd F Hin).
Qed.

Lemma C3_muxer_witness :
  (exists env b,
      (ThreadLoop happyEnv = ThreadLoop env \/ ThreadLoop happyEnv = InnerLoopAgain env) /\
      fst (getNextReadyInputLocked (compilePendingInputLocked env unsolicited)) = Some 1 /\
      muxer (frameAt 1 (pickedBy env unsolicited)) = None /\
      In b (codecOutputBuffers (frameAt 1 (pickedBy env unsolicited)) ++
            gainmapCodecOutputBuffers (frameAt 1 (pickedBy env unsolicited))) /\
      realOutput android b = true) /\
  (forall env frameNumber s0 f0 r s1 f1 evs fd,
      processInputFrame android env frameNumber s0 f0 = (r, s1, f1) ->
      trace s1 = trace s0 ++ evs ->
      In (EvMuxerCreate fd) evs ->
      muxer f0 = None /\ codecOutputReady f0 = true /\ appSegmentReady f0 = false).
Proof.
  refine (@C3_muxer_needs_attributed_output android unsolicited (ThreadLoop happyEnv) 1
            (frameAt 1 (perform android (ThreadLoop happyEnv) unsolicited)) _ _ _ _).
  - exists configured,
      [OnHeicFormatChanged (Some plainFormat) false;
       OnBufferReleased false 5 1;
       OnHeicOutputFrameAvailable (outputOf 0) false].
    split; [vm_compute; repeat split; reflexivity | reflexivity].
  - vm_compute. reflexivity.
  - vm_compute. reflexivity.
  - vm_compute. discriminate.
Defined.

(** C3 fails as stated: no request, shutter or result of frame 1 was ever announced, so
    no settings were recorded; one returned main buffer and one compressed output are
    enough for the worker to create frame 1 and open its container, with the timestamp
    and request id still at -1. *)
Lemma C3_counterexample :
  mSettingsByFrameNumber unsolicited = [] /\
  mPendingInputFrames unsolicited = [] /\
  option_map muxer
    (map_find 1 (mPendingInputFrames (perform android (ThreadLoop happyEnv) unsolicited)))
    = Some (Some 11) /\
  option_map timestamp
    (map_find 1 (mPendingInputFrames (perform android (ThreadLoop happyEnv) unsolicited)))
    = Some (-1) /\
  option_map requestId
    (map_find 1 (mPendingInputFrames (perform android (ThreadLoop happyEnv) unsolicited)))
    = Some (-1) /\
  In (EvMuxerCreate 11) (trace (perform android (ThreadLoop happyEnv) unsolicited)).
Proof. vm_compute. repeat split; try reflexivity. right. right. now left. Qed.

(** C4 (as the code has it): once the container of a pending frame is open, no callback
    and no run of the worker raises its [pendingOutputTiles] or
    [gainmapPendingOutputTiles]: each leaves them as they are or lowers them. *)
Theorem C4_pending_tiles_do_not_increase_once_open :
  forall plat s a k f f',
    reachable plat s ->
    map_find k (mPendingInputFrames s) = Some f ->
    muxer f <> None ->
    map_find k (mPendingInputFrames (perform plat a s)) = Some f' ->
    pendingOutputTiles f' <= pendingOutputTiles f /\
    gainmapPendingOutputTiles f' <= gainmapPendingOutputTiles f.
Proof.
  intros plat s a k f f' Hreach Hf Hm Hf'.
  apply reachable_wellFormed in Hreach.
  exact (@pending_tiles_step plat a s k f f' Hreach Hf Hm Hf').
Qed.

Lemma C4_pending_tiles_witness :
  pendingOutputTiles
    (frameAt 1 (perform android (ThreadLoop happyEnv) secondTileArrived)) <=
  pendingOutputTiles (frameAt 1 secondTileArrived) /\
  gainmapPendingOutputTiles
    (frameAt 1 (perform android (ThreadLoop happyEnv) secondTileArrived)) <=
  gainmapPendingOutputTiles (frameAt 1 secondTileArrived).
Proof.
  refine (@C4_pending_tiles_do_not_increase_once_open android secondTileArrived
            (ThreadLoop happyEnv) 1 (frameAt 1 secondTileArrived)
            (frameAt 1 (perform android (ThreadLoop happyEnv) secondTileArrived))
            _ _ _ _).
  - exists (initializeCodec android 1024 512 true false false None (constructed false false)),
      [OnHeicFormatChanged (Some gridFormat) false;
       OnBufferRequestForFrameNumber 1 5 None None;
       OnShutter 1 0 100;
       ThreadLoop happyEnv;
       OnBufferReleased false 5 1;
       OnHeicOutputFrameAvailable (outputOf 0) false;
       ThreadLoop happyEnv;
       OnHeicOutputFrameAvailable (outputOf 1) false].
    split; [vm_compute; repeat split; reflexivity | vm_compute; reflexivity].
  - vm_compute. reflexivity.
  - vm_compute. discriminate.
  - vm_compute. reflexivity.
Defined.

(** C4 fails as stated: frame 1 of a two-tile stream is pending with
    [pendingOutputTiles = 0]; the run of the worker that opens its container and writes
    the first tile leaves it at 1. *)
Lemma C4_counterexample :
  option_map pendingOutputTiles (map_find 1 (mPendingInputFrames firstTileArrived))
    = Some 0 /\
  option_map pendingOutputTiles
    (map_find 1 (mPendingInputFrames (perform android (ThreadLoop happyEnv) firstTileArrived)))
    = Some 1.
Proof. vm_compute. split; reflexivity. Qed.

(** C5 (as the code has it): [getNextReadyInputLocked] picks the smallest pending frame
    number whose frame is not in error and for which progress is possible now, and picks
    nothing when there is no such frame.  Frames with lower numbers that are not ready
    are passed over. *)
Theorem C5_selects_lowest_ready_frame :
  forall s,
    ascending (mPendingInputFrames s) ->
    match fst (getNextReadyInputLocked s) with
    | Some k =>
        exists f,
          map_find k (mPendingInputFrames s) = Some f /\
          error f = false /\ inputReady s f = true /\
          forall k' f', In (k', f') (mPendingInputFrames s) ->
                        inputReady s f' = true -> k <= k'
    | None =>
        forall k' f', In (k', f') (mPendingInputFrames s) -> inputReady s f' = false
    end.
Proof.
  intros s Hasc. pose proof (@firstReady_spec s _ Hasc) as H.
  unfold getNextReadyInputLocked.
  destruct (firstReady s (mPendingInputFrames s)) as [k|]; cbn [fst]; [|exact H].
  destruct H as (f & Hf & Hr & Hmin). exists f.
  split; [exact Hf|]. split; [|split; assumption].
  unfold inputReady in Hr. destruct (error f); [discriminate Hr | reflexivity].
Qed.

Lemma C5_selects_witness :
  match fst (getNextReadyInputLocked thirdReady) with
  | Some k =>
      exists f,
        map_find k (mPendingInputFrames thirdReady) = Some f /\
        error f = false /\ inputReady thirdReady f = true /\
        forall k' f', In (k', f') (mPendingInputFrames thirdReady) ->
                      inputReady thirdReady f' = true -> k <= k'
  | None =>
      forall k' f', In (k', f') (mPendingInputFrames thirdReady) ->
                    inputReady thirdReady f' = false
  end.
Proof.
  refine (@C5_selects_lowest_ready_frame thirdReady _).
  vm_compute. repeat split; intros k' v' H;
    repeat (destruct H as [H | H]; [injection H as <- _; reflexivity|]); destruct H.
Defined.

(** C5 fails as stated: frames 1, 2 and 3 are pending; the inputs of frame 3 arrive
    first, then those of frame 1, then those of frame 2; the completions are handed to
    the output in the order 3, 1, 2. *)
Lemma C5_counterexample :
  fst (getNextReadyInputLocked thirdReady) = Some 3 /\
  map fst (mPendingInputFrames thirdReady) = [1; 2; 3] /\
  completions (trace arrivals312) = [3; 1; 2].
Proof. vm_compute. repeat split; reflexivity. Qed.

(** C7 (as the code has it): a second [releaseInputFrameLocked] on the frame the first
    one left returns that frame unchanged and the stream unchanged -- nothing is unlocked,
    returned, closed or cancelled again and the count of dequeued buffers is not touched
    -- except that, when the frame is in error or the stream in its error state, the
    failure of the frame is notified once more. *)
Theorem C7_second_release_only_notifies_again :
  forall frameNumber s f,
    releaseInputFrameLocked frameNumber
      (fst (releaseInputFrameLocked frameNumber s f))
      (snd (releaseInputFrameLocked frameNumber s f)) =
    ((if error f || mErrorState s
      then emit (EvNotifyError frameNumber (requestId f))
             (fst (releaseInputFrameLocked frameNumber s f))
      else fst (releaseInputFrameLocked frameNumber s f)),
     snd (releaseInputFrameLocked frameNumber s f)).
Proof.
  intros frameNumber s f.
  pose proof (release_leaves_nothing frameNumber s f) as (H & He & Hr & Hm).
  destruct (releaseInputFrameLocked frameNumber s f) as [s1 f1]. cbn [fst snd] in *.
  rewrite (release_holdsNothing frameNumber s1 H). now rewrite He, Hr, Hm.
Qed.

(** C7 fails as stated: released twice, a frame in error has its failure notified
    twice. *)
Lemma C7_counterexample :
  notifications
    (trace (fst (releaseInputFrameLocked 7
                   (fst (releaseInputFrameLocked 7 configured (set_error true newInputFrame)))
                   (snd (releaseInputFrameLocked 7 configured (set_error true newInputFrame))))))
  = [7; 7].
Proof. vm_compute. reflexivity. Qed.









Section Gainmap.
Variable plat : Platform.
Variable env : Env.
Variable frameNumber : Z.


End Gainmap.



(** C10: an encoder output of size 0 (or less) or with the codec-config flag is released
    to its codec at once; nothing else of the stream changes: it is not queued, no
    output counter moves and no frame is touched. *)
Theorem C10_unusable_output_is_released :
  forall (plat : Platform) (info : CodecOutputBufferInfo) (isGainmap : bool)
         (s : HeicCompositeStream),
    size info <= 0 \/ Z.land (flags info) (BUFFER_FLAG_CODECCONFIG plat) <> 0 ->
    let s' := onHeicOutputFrameAvailable plat info isGainmap s in
    s' = emit (EvReleaseOutputBuffer isGainmap (index info)) s /\
    trace s' = trace s ++ [EvReleaseOutputBuffer isGainmap (index info)] /\
    mCodecOutputBuffers s' = mCodecOutputBuffers s /\
    mGainmapCodecOutputBuffers s' = mGainmapCodecOutputBuffers s /\
    mCodecOutputCounter s' = mCodecOutputCounter s /\
    mCodecGainmapOutputCounter s' = mCodecGainmapOutputCounter s /\
    mPendingInputFrames s' = mPendingInputFrames s.
Proof.
  intros plat info isGainmap s H s'.
  assert (E : s' = emit (EvReleaseOutputBuffer isGainmap (index info)) s).
  { subst s'. unfold onHeicOutputFrameAvailable.
    destruct (mErrorState s); simpl; [reflexivity|].
    destruct H as [H | H].
    - destruct (Z.ltb_spec 0 (size info)); [lia | reflexivity].
    - destruct (Z.eqb_spec (Z.land (flags info) (BUFFER_FLAG_CODECCONFIG plat)) 0);
        [contradiction | now rewrite andb_false_r]. }
  rewrite E. repeat split.
Qed.

Lemma C10_unusable_output_witness :
  onHeicOutputFrameAvailable android (mkCodecOutputBufferInfo 3 0 0 0 0) false configured =
    emit (EvReleaseOutputBuffer false 3) configured /\
  trace (onHeicOutputFrameAvailable android (mkCodecOutputBufferInfo 3 0 0 0 0) false configured)
    = trace configured ++ [EvReleaseOutputBuffer false 3] /\
  mCodecOutputBuffers
    (onHeicOutputFrameAvailable android (mkCodecOutputBufferInfo 3 0 0 0 0) false configured)
    = mCodecOutputBuffers configured /\
  mGainmapCodecOutputBuffers
    (onHeicOutputFrameAvailable android (mkCodecOutputBufferInfo 3 0 0 0 0) false configured)
    = mGainmapCodecOutputBuffers configured /\
  mCodecOutputCounter
    (onHeicOutputFrameAvailable android (mkCodecOutputBufferInfo 3 0 0 0 0) false configured)
    = mCodecOutputCounter configured /\
  mCodecGainmapOutputCounter
    (onHeicOutputFrameAvailable android (mkCodecOutputBufferInfo 3 0 0 0 0) false configured)
    = mCodecGainmapOutputCounter configured /\
  mPendingInputFrames
    (onHeicOutputFrameAvailable android (mkCodecOutputBufferInfo 3 0 0 0 0) false configured)
    = mPendingInputFrames configured.
Proof.
  refine (@C10_unusable_output_is_released android (mkCodecOutputBufferInfo 3 0 0 0 0)
            false configured _).
  left. simpl. lia.
Defined.


(** * Part V: further properties of the code *)

(** ** The settings of a frame *)

Lemma settingsRel_refl : reflexiveR settingsRel.
Proof. intros s f. repeat split. Qed.

Lemma settingsRel_trans : transitiveR settingsRel.
Proof.
  intros s f s1 f1 s2 f2 H1 H2. unfold settingsRel in *.
  repeat match goal with H : _ /\ _ |- _ => destruct H end.
  repeat split; congruence.
Qed.

Ltac finish_settings :=
  match goal with
  | H : (_, _, _) = (_, _, _) |- _ => injection H as <- <- <-
  end; repeat split.

Section Settings.
Variable plat : Platform.
Variable env : Env.
Variable frameNumber : Z.

Lemma generate_settings : keeps settingsRel (generateBaseImageAndGainmap env).
Proof.
  intros s f r s' f' H. unfold generateBaseImageAndGainmap in H.
  break_hyp H; finish_settings.
Qed.

Lemma processCodecInputFrame_settings : keeps settingsRel (processCodecInputFrame env).
Proof.
  intros s f r s' f' H. unfold processCodecInputFrame in H.
  destruct (feedTiles _ _ _ _ _ _ _ _ _ _) as [r0 s0].
  destruct r0; finish_settings.
Qed.

Lemma processCodecGainmapInputFrame_settings :
  keeps settingsRel (processCodecGainmapInputFrame env).
Proof.
  intros s f r s' f' H. unfold processCodecGainmapInputFrame in H.
  destruct (feedTiles _ _ _ _ _ _ _ _ _ _) as [r0 s0].
  destruct r0; finish_settings.
Qed.

Lemma feedEncoders_settings : forall a b, keeps settingsRel (feedEncoders env a b).
Proof.
  intros a b. unfold feedEncoders.
  apply keeps_andThen; [apply settingsRel_trans | |].
  - apply keeps_when_const; [apply settingsRel_refl|].
    apply keeps_andThen; [apply settingsRel_trans | |].
    + apply (keeps_when settingsRel_refl
                        (fun s f => mHDRGainmapEnabled s && negb (baseBuffer f))).
      apply generate_settings.
    + apply processCodecInputFrame_settings.
  - apply keeps_when_const; [apply settingsRel_refl|].
    apply processCodecGainmapInputFrame_settings.
Qed.

Lemma ensureMuxer_settings : keeps settingsRel (ensureMuxer env frameNumber).
Proof.
  intros s f r s' f' H. unfold ensureMuxer, when in H.
  destruct (isSome (muxer f)) eqn:Hm; simpl in H.
  - injection H as _ <- <-. apply settingsRel_refl.
  - unfold startMuxerForInputFrame in H.
    break_hyp H; finish_settings.
Qed.

Lemma writeGainmapMetadata_settings : keeps settingsRel (writeGainmapMetadata plat env).
Proof.
  intros s f r s' f' H. unfold writeGainmapMetadata in H. break_hyp H; finish_settings.
Qed.

Lemma processAppSegment_settings :
  keeps settingsRel (processAppSegment plat env frameNumber).
Proof.
  intros s f r s' f' H. unfold processAppSegment in H.
  destruct (if negb (exifError f) then _ else _) as [appSegmentSize app1Size].
  break_hyp H; finish_settings.
Qed.

Lemma processOneCodecOutputFrame_settings :
  keeps settingsRel (processOneCodecOutputFrame env frameNumber).
Proof.
  intros s f r s' f' H. unfold processOneCodecOutputFrame in H.
  break_hyp H; finish_settings.
Qed.

Lemma processOneCodecGainmapOutputFrame_settings :
  keeps settingsRel (processOneCodecGainmapOutputFrame plat env frameNumber).
Proof.
  intros s f r s' f' H. unfold processOneCodecGainmapOutputFrame in H.
  break_hyp H; finish_settings.
Qed.

Lemma processCompletedInputFrame_settings :
  keeps settingsRel (processCompletedInputFrame plat env frameNumber).
Proof.
  intros s f r s' f' H. unfold processCompletedInputFrame in H.
  break_hyp H; finish_settings.
Qed.

Lemma writeSamples_settings : forall a b,
    keeps settingsRel (writeSamples plat env frameNumber a b).
Proof.
  intros a b. unfold writeSamples.
  repeat (apply keeps_andThen; auto using settingsRel_refl, settingsRel_trans).
  - apply ensureMuxer_settings.
  - apply keeps_when_const; auto using settingsRel_refl.
    apply writeGainmapMetadata_settings.
  - apply keeps_when_const; auto using settingsRel_refl. apply processAppSegment_settings.
  - apply keeps_drainQueue_of; auto using settingsRel_refl, settingsRel_trans.
    apply processOneCodecOutputFrame_settings.
  - apply keeps_drainQueue_of; auto using settingsRel_refl, settingsRel_trans.
    apply processOneCodecGainmapOutputFrame_settings.
Qed.

Lemma processInputFrame_settings :
  keeps settingsRel (processInputFrame plat env frameNumber).
Proof.
  intros s f r s' f' H. unfold processInputFrame in H.
  eapply keeps_andThen; [apply settingsRel_trans | | | exact H].
  - apply feedEncoders_settings.
  - destruct (negb (codecOutputReady f && hasOutputBuffer s f) && negb (appSegmentReady f));
      [apply keeps_ret; apply settingsRel_refl|].
    unfold writeToMuxer.
    apply keeps_andThen; [apply settingsRel_trans | apply writeSamples_settings |].
    intros s0 f0 r0 s1 f1 H0. unfold completeIfAllWritten, when in H0.
    destruct (allWritten f0).
    + exact (keeps_use processCompletedInputFrame_settings H0).
    + injection H0 as _ <- <-. apply settingsRel_refl.
Qed.
End Settings.

(** ** The pipeline as a whole *)

(** The frame map of a concrete stream is ascending. *)
Ltac solve_ascending :=
  vm_compute; repeat split;
  let Hin := fresh "Hin" in
  intros ? ? Hin;
  repeat (destruct Hin as [Hin | Hin]; [injection Hin as <- _; reflexivity|]);
  contradiction.

(** X1: in every stream reached from an idle one by producer callbacks and worker runs,
    the pending frames are in strictly ascending order of frame number, and every
    compressed output held by the stream, in its two queues or attributed to a frame, is
    non-empty and is not codec configuration data. *)
Theorem X1_reachable_outputs_are_real : forall plat s,
    reachable plat s ->
    ascending (mPendingInputFrames s) /\
    (forall b, In b (mCodecOutputBuffers s ++ mGainmapCodecOutputBuffers s) ->
               0 < size b /\ Z.land (flags b) (BUFFER_FLAG_CODECCONFIG plat) = 0) /\
    (forall k f b, In (k, f) (mPendingInputFrames s) ->
                   In b (codecOutputBuffers f ++ gainmapCodecOutputBuffers f) ->
                   0 < size b /\ Z.land (flags b) (BUFFER_FLAG_CODECCONFIG plat) = 0).
Proof.
  intros plat s H. destruct (reachable_wellFormed H) as (Hasc & HC & HG & HF).
  assert (Hreal : forall b, realOutput plat b = true ->
                            0 < size b /\ Z.land (flags b) (BUFFER_FLAG_CODECCONFIG plat) = 0).
  { intros b Hb. unfold realOutput in Hb. apply andb_prop in Hb as [H1 H2].
    split; [now apply Z.ltb_lt | now apply Z.eqb_eq]. }
  split; [exact Hasc|]. split.
  - intros b Hin. apply Hreal. apply in_app_or in Hin as [Hin | Hin].
    + exact (proj1 (Forall_forall _ _) HC _ Hin).
    + exact (proj1 (Forall_forall _ _) HG _ Hin).
  - intros k f b Hf Hin. apply Hreal. destruct (HF _ _ Hf) as [H1 H2].
    apply in_app_or in Hin as [Hin | Hin].
    + exact (proj1 (Forall_forall _ _) H1 _ Hin).
    + exact (proj1 (Forall_forall _ _) H2 _ Hin).
Qed.

Lemma X1_reachable_outputs_witness :
    ascending (mPendingInputFrames firstTileArrived) /\
    (forall b, In b (mCodecOutputBuffers firstTileArrived ++
                     mGainmapCodecOutputBuffers firstTileArrived) ->
               0 < size b /\ Z.land (flags b) (BUFFER_FLAG_CODECCONFIG android) = 0) /\
    (forall k f b, In (k, f) (mPendingInputFrames firstTileArrived) ->
                   In b (codecOutputBuffers f ++ gainmapCodecOutputBuffers f) ->
                   0 < size b /\ Z.land (flags b) (BUFFER_FLAG_CODECCONFIG android) = 0).
Proof.
  apply (@X1_reachable_outputs_are_real android firstTileArrived).
  unfold reachable, firstTileArrived.
  eexists. eexists. split; [|reflexivity].
  unfold idle. vm_compute. auto.
Defined.

(** X2: [releaseInputFramesLocked] keeps, in their order, exactly the pending frames
    that are neither in error nor completely written.  It notifies the error of every
    frame in error, notifies nothing about a frame it keeps, and neither completes a
    frame nor queues an output buffer. *)
Theorem X2_release_sweep_keeps_unfinished : forall env s,
    mPendingInputFrames (releaseInputFramesLocked env s) =
      filter (fun kf => negb (error (snd kf) || allWritten (snd kf)))
             (mPendingInputFrames s) /\
    exists evs,
      trace (releaseInputFramesLocked env s) = trace s ++ evs /\
      completions evs = [] /\ queued evs = [] /\
      (forall k f, In (k, f) (mPendingInputFrames s) -> error f = true ->
                   In (EvNotifyError k (requestId f)) evs) /\
      (forall k r, In (EvNotifyError k r) evs ->
                   exists f, In (k, f) (mPendingInputFrames s) /\
                             (error f || allWritten f) = true /\ r = requestId f).
Proof.
  intros env s.
  destruct (releaseInputFramesLocked_spec env s) as (K & evs & T & F & N & M).
  split; [exact K|].
  exists evs. split; [exact T|].
  split; [now apply notDelivery_completions|].
  split; [|split; [exact N | exact M]].
  clear - F. induction F as [|e evs He _ IH]; [reflexivity|].
  cbn [queued flat_map] in *. destruct e; try contradiction; exact IH.
Qed.

(** X3: releasing one frame leaves it holding nothing (no locked buffer, no codec
    buffer, no open file, no dequeued output buffer) and keeps its error flag and
    request id.  In the stream only the trace, the count of dequeued output buffers and
    [mYuvBufferAcquired] change; the events are releases, and the error of the frame is
    notified exactly when the frame is in error or the stream is in its error state. *)
Theorem X3_release_frame_holds_nothing : forall frameNumber s f,
    let s' := fst (releaseInputFrameLocked frameNumber s f) in
    let f' := snd (releaseInputFrameLocked frameNumber s f) in
    holdsNothing f' /\ error f' = error f /\ requestId f' = requestId f /\
    exists evs,
      releasedTo s s' evs /\ Forall releaseEvent evs /\
      (In (EvNotifyError frameNumber (requestId f)) evs <->
       error f || mErrorState s = true) /\
      (forall k r, In (EvNotifyError k r) evs -> k = frameNumber /\ r = requestId f).
Proof.
  intros frameNumber s f s' f'. subst s' f'.
  destruct (release_leaves_nothing frameNumber s f) as (H1 & H2 & H3 & _).
  split; [exact H1|]. split; [exact H2|]. split; [exact H3|].
  destruct (release_step frameNumber s f) as (evs & R & F & N & M).
  exists evs. split; [exact R|]. split; [exact F|]. split; [|exact M].
  split; [|exact N].
  intros Hin. destruct (error f || mErrorState s) eqn:E; [reflexivity|]. exfalso.
  (* no notification is emitted when neither flag is set *)
  revert Hin. clear - R E.
  destruct R as (c & y & R).
  assert (T : trace (fst (releaseInputFrameLocked frameNumber s f)) = trace s ++ evs)
    by (rewrite R; now destruct s).
  clear R. intros Hin.
  assert (Hno : forall e, In e evs -> forall k r, e <> EvNotifyError k r).
  2:{ exact (Hno _ Hin _ _ eq_refl). }
  clear Hin.
  assert (G : exists evs', trace (fst (releaseInputFrameLocked frameNumber s f)) =
                           trace s ++ evs' /\
                           forall e, In e evs' -> forall k r, e <> EvNotifyError k r).
  2:{ destruct G as (evs' & T' & Hn). rewrite T in T'. apply app_inv_head in T'.
      now subst evs'. }
  clear T evs.
  unfold releaseInputFrameLocked.
  apply orb_false_elim in E as [Ee Es].
  set (p1 := if hasData (appSegmentBuffer f) then _ else _).
  assert (P1 : exists e1, trace (fst p1) = trace s ++ e1 /\
                          (forall e, In e e1 -> forall k r, e <> EvNotifyError k r) /\
                          mErrorState (fst p1) = false /\ error (snd p1) = false).
  { unfold p1. destruct (hasData (appSegmentBuffer f)).
    - exists [EvUnlockAppSegment (appSegmentBuffer f)]. cbn [fst snd].
      split; [now destruct s|]. split.
      + intros e [<- | []] k r Hk. discriminate Hk.
      + split; [now destruct s | now destruct f].
    - exists []. cbn [fst snd]. rewrite app_nil_r. auto. }
  destruct p1 as [sa fa]. cbn [fst snd] in P1.
  destruct P1 as (e1 & T1 & N1 & Es1 & Ee1).
  rewrite !releaseOutputBuffers_eq.
  set (sb := set_trace _ (set_trace _ sa)).
  set (fb := set_gainmapCodecOutputBuffers [] (set_codecOutputBuffers [] fa)).
  assert (P2 : exists e2, trace sb = trace s ++ e2 /\
                          (forall e, In e e2 -> forall k r, e <> EvNotifyError k r) /\
                          mErrorState sb = false).
  { unfold sb.
    exists (e1 ++ map (fun it => EvReleaseOutputBuffer false (index it)) (codecOutputBuffers fa)
               ++ map (fun it => EvReleaseOutputBuffer true (index it))
                    (gainmapCodecOutputBuffers (set_codecOutputBuffers [] fa))).
    split; [|split].
    - destruct sa. cbn in *. rewrite T1. now rewrite <- !app_assoc.
    - intros e Hin k r Hk. subst e.
      apply in_app_or in Hin as [Hin | Hin]; [exact (N1 _ Hin _ _ eq_refl)|].
      apply in_app_or in Hin as [Hin | Hin];
        apply in_map_iff in Hin as (it & Hit & _); discriminate Hit.
    - now destruct sa. }
  destruct P2 as (e2 & T2 & N2 & Es2).
  assert (Eb : error fb = false) by (unfold fb; now destruct fa).
  clearbody sb fb. clear sa fa T1 N1 Es1 Ee1 e1.
  set (p3 := if hasData (yuvBuffer fb) then _ else _).
  assert (P3 : exists e3, trace (fst p3) = trace s ++ e3 /\
                          (forall e, In e e3 -> forall k r, e <> EvNotifyError k r) /\
                          mErrorState (fst p3) = false /\ error (snd p3) = false).
  { unfold p3. destruct (hasData (yuvBuffer fb)).
    - exists (e2 ++ [EvUnlockMainImage (yuvBuffer fb)]). cbn [fst snd].
      split; [|split; [|split]].
      + destruct sb. cbn in *. rewrite T2. now rewrite <- app_assoc.
      + intros e Hin k r Hk. subst e. apply in_app_or in Hin as [Hin | [Hin | []]];
          [exact (N2 _ Hin _ _ eq_refl) | discriminate Hin].
      + now destruct sb.
      + now destruct fb.
    - exists e2. cbn [fst snd]. auto. }
  destruct p3 as [sc fc]. cbn [fst snd] in P3.
  destruct P3 as (e3 & T3 & N3 & Es3 & Ee3).
  set (fd := set_gainmapCodecInputBuffers [] (set_codecInputBuffers [] fc)).
  assert (Ed : error fd = false) by (unfold fd; now destruct fc).
  rewrite Ed, Es3. cbn [orb].
  clearbody fd.
  set (p4 := if 0 <=? fileFd fd then _ else _).
  assert (P4 : exists e4, trace (fst p4) = trace s ++ e4 /\
                          (forall e, In e e4 -> forall k r, e <> EvNotifyError k r)).
  { unfold p4. destruct (0 <=? fileFd fd).
    - exists (e3 ++ [EvClose (fileFd fd)]). cbn [fst snd]. split.
      + destruct sc. cbn in *. rewrite T3. now rewrite <- app_assoc.
      + intros e Hin k r Hk. subst e. apply in_app_or in Hin as [Hin | [Hin | []]];
          [exact (N3 _ Hin _ _ eq_refl) | discriminate Hin].
    - exists e3. cbn [fst snd]. auto. }
  destruct p4 as [se fe]. cbn [fst snd] in P4.
  destruct P4 as (e4 & T4 & N4).
  destruct (anb fe) as [a|]; cbn [fst].
  - exists (e4 ++ [EvCancelBuffer a]). split.
    + destruct se. cbn in *. rewrite T4. now rewrite <- app_assoc.
    + intros e Hin k r Hk. subst e. apply in_app_or in Hin as [Hin | [Hin | []]];
        [exact (N4 _ Hin _ _ eq_refl) | discriminate Hin].
  - exists e4. auto.
Qed.

(** X4: the reconciliation pass [compilePendingInputLocked] never drops a pending frame
    and never touches the container state of one: its muxer, its counts of pending
    tiles, whether its APP segment was written, its file, its output buffer and its
    gainmap metadata stay as they were, and its two queues of compressed outputs only
    grow at the end. *)
Theorem X4_compile_keeps_container_state : forall env s k f,
    ascending (mPendingInputFrames s) ->
    map_find k (mPendingInputFrames s) = Some f ->
    exists f',
      map_find k (mPendingInputFrames (compilePendingInputLocked env s)) = Some f' /\
      muxer f' = muxer f /\
      pendingOutputTiles f' = pendingOutputTiles f /\
      gainmapPendingOutputTiles f' = gainmapPendingOutputTiles f /\
      appSegmentWritten f' = appSegmentWritten f /\
      fileFd f' = fileFd f /\ anb f' = anb f /\
      isoGainmapMetadata f' = isoGainmapMetadata f /\
      (exists l, codecOutputBuffers f' = codecOutputBuffers f ++ l) /\
      (exists l, gainmapCodecOutputBuffers f' = gainmapCodecOutputBuffers f ++ l).
Proof.
  intros env s k f Hasc Hf.
  assert (HQ : forall l : list CodecOutputBufferInfo, Forall (fun _ => True) l)
    by (intros l; apply Forall_forall; auto).
  destruct (@compilePendingInputLocked_comp env (fun _ => True) s Hasc (HQ _) (HQ _))
    as (Ev & _).
  destruct (evolves_forward (@compRel_refl (fun _ => True))
              (@compRel_trans (fun _ => True)) Ev _ Hf) as (f' & Hf' & C).
  exists f'. split; [exact Hf'|].
  destruct C as (C1 & C2 & C3 & C4 & C5 & C6 & C7 & (l1 & C8 & _) & (l2 & C9 & _)).
  repeat (split; [assumption|]). split; eauto.
Qed.

Lemma X4_compile_keeps_witness :
    exists f',
      map_find 1 (mPendingInputFrames (compilePendingInputLocked happyEnv firstTileArrived))
        = Some f' /\
      muxer f' = muxer (frameAt 1 firstTileArrived) /\
      pendingOutputTiles f' = pendingOutputTiles (frameAt 1 firstTileArrived) /\
      gainmapPendingOutputTiles f' = gainmapPendingOutputTiles (frameAt 1 firstTileArrived) /\
      appSegmentWritten f' = appSegmentWritten (frameAt 1 firstTileArrived) /\
      fileFd f' = fileFd (frameAt 1 firstTileArrived) /\
      anb f' = anb (frameAt 1 firstTileArrived) /\
      isoGainmapMetadata f' = isoGainmapMetadata (frameAt 1 firstTileArrived) /\
      (exists l, codecOutputBuffers f' = codecOutputBuffers (frameAt 1 firstTileArrived) ++ l) /\
      (exists l, gainmapCodecOutputBuffers f' =
                 gainmapCodecOutputBuffers (frameAt 1 firstTileArrived) ++ l).
Proof.
  apply (@X4_compile_keeps_container_state happyEnv firstTileArrived 1
           (frameAt 1 firstTileArrived)).
  - solve_ascending.
  - vm_compute. reflexivity.
Defined.

(** X5: no producer callback touches the pending frames: only the worker thread adds,
    changes or removes an [InputFrame]. *)
Theorem X5_callbacks_leave_frames : forall plat a s,
    isCallback a = true ->
    mPendingInputFrames (perform plat a s) = mPendingInputFrames s.
Proof. intros plat a s H. now apply callback_frames. Qed.

Lemma X5_callbacks_leave_frames_witness :
    mPendingInputFrames (perform android (OnStreamBufferError 1 5) firstTileArrived) =
    mPendingInputFrames firstTileArrived.
Proof.
  apply (@X5_callbacks_leave_frames android (OnStreamBufferError 1 5) firstTileArrived).
  reflexivity.
Defined.

(** X6: whatever the reason, when [processInputFrame] fails on the frame the worker
    picked, the worker removes that frame from the pending frames and notifies its
    error, and the release delivers nothing. *)
Theorem X6_failed_frame_is_dropped_and_notified : forall plat env frameNumber s r s1 f1,
    ascending (mPendingInputFrames s) ->
    processInputFrame plat env frameNumber s (frameAt frameNumber s) = (r, s1, f1) ->
    r <> OK ->
    map_find frameNumber
      (mPendingInputFrames (processAndRelease plat env frameNumber s)) = None /\
    exists evs,
      trace (processAndRelease plat env frameNumber s) = trace s1 ++ evs /\
      In (EvNotifyError frameNumber (requestId (frameAt frameNumber s))) evs /\
      completions evs = [] /\ queued evs = [].
Proof.
  intros plat env frameNumber s r s1 f1 Hasc H Hr.
  destruct (@processAndRelease_failure plat env frameNumber s r s1 f1 Hasc H Hr)
    as (K & evs & T & F & N).
  split; [exact K|]. exists evs. split; [exact T|].
  assert (Hreq : requestId f1 = requestId (frameAt frameNumber s)).
  { apply (keeps_use (processInputFrame_settings plat env frameNumber) H). }
  rewrite <- Hreq. split; [exact N|].
  split; [now apply notDelivery_completions|].
  clear - F. induction F as [|e evs He _ IH]; [reflexivity|].
  cbn [queued flat_map] in *. destruct e; try contradiction; exact IH.
Qed.

Lemma X6_failed_frame_witness :
    map_find 1 (mPendingInputFrames
                  (processAndRelease android (envWith 1000000) 1
                     (pickedBy (envWith 1000000) (tileWritten false)))) = None /\
    exists evs,
      trace (processAndRelease android (envWith 1000000) 1
               (pickedBy (envWith 1000000) (tileWritten false))) =
        trace (snd (fst (lastCall false 1000000))) ++ evs /\
      In (EvNotifyError 1 (requestId (frameAt 1 (pickedBy (envWith 1000000)
                                                    (tileWritten false))))) evs /\
      completions evs = [] /\ queued evs = [].
Proof.
  apply (@X6_failed_frame_is_dropped_and_notified android (envWith 1000000) 1
           (pickedBy (envWith 1000000) (tileWritten false))
           (fst (fst (lastCall false 1000000))) (snd (fst (lastCall false 1000000)))
           (snd (lastCall false 1000000))).
  - solve_ascending.
  - unfold lastCall. now destruct (processInputFrame _ _ _ _ _) as [[r s1] f1].
  - vm_compute. discriminate.
Defined.

(** X7: [processInputFrame] never writes what the frame was requested with or what was
    reported about it: orientation, quality, timestamp, request id, capture result and
    the two formats are those it was given, and it never raises or clears the error
    flag of the frame (a failure is reported by the returned status only). *)
Theorem X7_processing_keeps_settings : forall plat env frameNumber s f r s' f',
    processInputFrame plat env frameNumber s f = (r, s', f') ->
    orientation f' = orientation f /\ quality f' = quality f /\
    timestamp f' = timestamp f /\ requestId f' = requestId f /\
    result f' = result f /\ error f' = error f /\
    format f' = format f /\ gainmapFormat f' = gainmapFormat f.
Proof.
  intros plat env frameNumber s f r s' f' H.
  exact (keeps_use (processInputFrame_settings plat env frameNumber) H).
Qed.

Lemma X7_processing_keeps_settings_witness :
    let f := frameAt 1 (pickedBy happyEnv (tileWritten false)) in
    let f' := snd (lastCall false 1000) in
    orientation f' = orientation f /\ quality f' = quality f /\
    timestamp f' = timestamp f /\ requestId f' = requestId f /\
    result f' = result f /\ error f' = error f /\
    format f' = format f /\ gainmapFormat f' = gainmapFormat f.
Proof.
  apply (@X7_processing_keeps_settings android happyEnv 1
           (pickedBy happyEnv (tileWritten false))
           (frameAt 1 (pickedBy happyEnv (tileWritten false)))
           (fst (fst (lastCall false 1000))) (snd (fst (lastCall false 1000)))).
  unfold lastCall, happyEnv. now destruct (processInputFrame _ _ _ _ _) as [[r s1] f1].
Defined.

(** ** Frames in error *)

Lemma firstFailing_spec : forall m : list (Z * InputFrame),
    ascending m ->
    (firstFailing m = -1 /\ forall k f, In (k, f) m -> error f = false) \/
    (exists f, map_find (firstFailing m) m = Some f /\ error f = true /\
               forall k' f', In (k', f') m -> error f' = true -> firstFailing m <= k').
Proof.
  induction m as [|[k0 f0] m IH]; intros Hasc; cbn [firstFailing].
  - left. split; [reflexivity | intros k f []].
  - destruct Hasc as [Hlt Hasc]. destruct (error f0) eqn:E0.
    + right. exists f0. split; [cbn; now rewrite Z.eqb_refl|]. split; [exact E0|].
      intros k' f' [E | Hin] _.
      * injection E as <- _. lia.
      * specialize (Hlt _ _ Hin). lia.
    + destruct (IH Hasc) as [[E1 Hall] | (f & Hf & Ef & Hmin)].
      * left. split; [exact E1|]. intros k f [E | Hin].
        -- now injection E as _ <-.
        -- eauto.
      * right. exists f. split; [|split; [exact Ef|]].
        -- cbn [map_find]. pose proof (Hlt _ _ (map_find_In _ _ Hf)) as Hk.
           destruct (Z.eqb_spec k0 (firstFailing m)); [lia | exact Hf].
        -- intros k' f' [E | Hin] Ef'.
           ++ injection E as _ <-. congruence.
           ++ eauto.
Qed.

(** X8: [getNextFailingInputLocked] returns the lowest frame number among the pending
    frames in error.  When no pending frame is in error it returns -1. *)
Theorem X8_next_failing_is_lowest_error_frame : forall s,
    ascending (mPendingInputFrames s) ->
    (getNextFailingInputLocked s = -1 /\
     forall k f, In (k, f) (mPendingInputFrames s) -> error f = false) \/
    (exists f, map_find (getNextFailingInputLocked s) (mPendingInputFrames s) = Some f /\
               error f = true /\
               forall k' f', In (k', f') (mPendingInputFrames s) -> error f' = true ->
                             getNextFailingInputLocked s <= k').
Proof. intros s Hasc. exact (@firstFailing_spec _ Hasc). Qed.


Lemma X8_next_failing_witness :
    (getNextFailingInputLocked twoFailing = -1 /\
     forall k f, In (k, f) (mPendingInputFrames twoFailing) -> error f = false) \/
    (exists f, map_find (getNextFailingInputLocked twoFailing)
                 (mPendingInputFrames twoFailing) = Some f /\
               error f = true /\
               forall k' f', In (k', f') (mPendingInputFrames twoFailing) ->
                             error f' = true -> getNextFailingInputLocked twoFailing <= k').
Proof.
  apply (@X8_next_failing_is_lowest_error_frame twoFailing). solve_ascending.
Defined.

(** X9: when the reconciliation pass leaves no frame ready but some frame in error, the
    worker releases the lowest such frame number [k] (if it is not negative): the
    iteration returns true, exactly the entry of [k] is erased from the pending frames,
    its error is notified to the client, and nothing is completed or queued. *)
Theorem X9_worker_drops_lowest_error_frame : forall plat env s k,
    let s1 := compilePendingInputLocked env s in
    ascending (mPendingInputFrames s) ->
    firstReady s1 (mPendingInputFrames s1) = None ->
    getNextFailingInputLocked s1 = k -> 0 <= k ->
    fst (workerIteration plat env s) = ReturnTrue /\
    mPendingInputFrames (snd (workerIteration plat env s)) =
      map_erase k (mPendingInputFrames s1) /\
    error (frameAt k s1) = true /\
    exists evs,
      trace (snd (workerIteration plat env s)) = trace s1 ++ evs /\
      In (EvNotifyError k (requestId (frameAt k s1))) evs /\
      completions evs = [] /\ queued evs = [].
Proof.
  intros plat env s k s1 Hasc Hready Hk Hpos.
  assert (Hasc1 : ascending (mPendingInputFrames s1)).
  { assert (HQ : forall l : list CodecOutputBufferInfo, Forall (fun _ => True) l)
      by (intros l; apply Forall_forall; auto).
    destruct (@compilePendingInputLocked_comp env (fun _ => True) s Hasc (HQ _) (HQ _))
      as (Ev & _).
    exact (evolves_ascending Ev Hasc). }
  assert (Herr : error (frameAt k s1) = true).
  { destruct (@firstFailing_spec _ Hasc1) as [[E _] | (f & Hf & Ef & _)].
    - unfold getNextFailingInputLocked in Hk. lia.
    - unfold getNextFailingInputLocked in Hk. rewrite Hk in Hf.
      unfold frameAt, map_at. now rewrite Hf. }
  unfold workerIteration. fold s1. unfold getNextReadyInputLocked. rewrite Hready.
  rewrite Hk. destruct (Z.leb_spec 0 k) as [_|]; [|lia].
  destruct (release_step k s1 (frameAt k s1)) as (evs & R & F & N & _).
  destruct (releaseInputFrameLocked k s1 (frameAt k s1)) as [s2 f2]. cbn [fst] in R.
  pose proof (releasedTo_frames R) as Hfr. pose proof (releasedTo_trace R) as Htr.
  set (s3 := set_mPendingInputFrames _ s2).
  assert (F3 : mPendingInputFrames s3 = map_erase k (mPendingInputFrames s1))
    by (unfold s3; rewrite Hfr; now destruct s2).
  assert (T3 : trace s3 = trace s1 ++ evs) by (unfold s3; rewrite <- Htr; now destruct s2).
  clearbody s3.
  assert (Hnd : Forall notDelivery evs)
    by (eapply Forall_impl; [apply releaseEvent_notDelivery | exact F]).
  assert (Hin : In (EvNotifyError k (requestId (frameAt k s1))) evs)
    by (apply N; now rewrite Herr).
  assert (Hq : forall l, Forall notDelivery l -> queued l = []).
  { clear. intros l Hl. induction Hl as [|e l He _ IH]; [reflexivity|].
    cbn [queued flat_map] in *. destruct e; try contradiction; exact IH. }
  destruct (isEmpty (mPendingInputFrames s3) && isEmpty (mSettingsByFrameNumber s3));
    cbn [fst snd].
  - destruct (markTrackerIdle_step s3) as (Hf & e2 & T2 & H2).
    split; [reflexivity|]. split; [now rewrite Hf|]. split; [exact Herr|].
    exists (evs ++ e2). split; [rewrite T2, T3; now rewrite app_assoc|].
    split; [apply in_or_app; now left|].
    assert (Hall : Forall notDelivery (evs ++ e2)).
    { apply Forall_app. split; [exact Hnd|].
      eapply Forall_impl; [apply housekeeping_notDelivery | exact H2]. }
    split; [now apply notDelivery_completions | now apply Hq].
  - split; [reflexivity|]. split; [exact F3|]. split; [exact Herr|].
    exists evs. split; [exact T3|]. split; [exact Hin|].
    split; [now apply notDelivery_completions | now apply Hq].
Qed.

Lemma X9_worker_drops_witness :
    let s := run android (threeRequested ++ [OnStreamBufferError 3 5; OnStreamBufferError 2 5])
               configured in
    fst (workerIteration android happyEnv s) = ReturnTrue /\
    mPendingInputFrames (snd (workerIteration android happyEnv s)) =
      map_erase 2 (mPendingInputFrames twoFailing) /\
    error (frameAt 2 twoFailing) = true /\
    exists evs,
      trace (snd (workerIteration android happyEnv s)) = trace twoFailing ++ evs /\
      In (EvNotifyError 2 (requestId (frameAt 2 twoFailing))) evs /\
      completions evs = [] /\ queued evs = [].
Proof.
  apply (@X9_worker_drops_lowest_error_frame android happyEnv
           (run android (threeRequested ++ [OnStreamBufferError 3 5; OnStreamBufferError 2 5])
              configured) 2).
  - solve_ascending.
  - vm_compute. reflexivity.
  - vm_compute. reflexivity.
  - lia.
Defined.

(** ** The APP segment parser *)

Lemma scanAppN_sound : forall fuel buf e pos,
    0 <= pos -> e <= 2 ^ 31 ->
    scanAppN fuel buf e pos = Some (Some e) -> appSegments buf e pos.
Proof.
  induction fuel as [|fuel IH]; intros buf e pos H0 He H; cbn [scanAppN] in H.
  - destruct (Z.ltb_spec pos e); [discriminate|].
    injection H as ->. constructor.
  - destruct (Z.ltb_spec pos e) as [Hlt|Hge]; [|injection H as ->; constructor].
    destruct (negb (byteAt buf pos =? 255) || (byteAt buf (pos + 1) <=? 225) ||
              (239 <? byteAt buf (pos + 1))) eqn:Em; [discriminate|].
    apply orb_false_elim in Em as [Em E3]. apply orb_false_elim in Em as [E1 E2].
    apply negb_false_iff, Z.eqb_eq in E1. apply Z.leb_gt in E2. apply Z.ltb_ge in E3.
    assert (U1 : u32 (pos + 2) = pos + 2) by (apply u32_small; lia).
    rewrite U1 in H.
    pose proof (u16_range (byteAt buf (pos + 2) * 256 + byteAt buf (pos + 2 + 1))) as Hn.
    assert (U2 : u32 (pos + 2 + u16 (byteAt buf (pos + 2) * 256 + byteAt buf (pos + 2 + 1))) =
                 pos + 2 + u16 (byteAt buf (pos + 2) * 256 + byteAt buf (pos + 2 + 1)))
      by (apply u32_small; lia).
    rewrite U2 in H. apply IH in H; [|lia|lia].
    replace (pos + 2 + 1) with (pos + 3) in H by lia.
    now apply appSegments_next.
Qed.

Lemma scanAppN_complete : forall buf e pos,
    appSegments buf e pos ->
    0 <= pos -> e <= 2 ^ 31 ->
    forall fuel, e - pos <= Z.of_nat fuel -> scanAppN fuel buf e pos = Some (Some e).
Proof.
  intros buf e pos H. induction H as [|pos Hlt B0 B1 Hnext IH]; intros H0 He fuel Hfuel.
  - destruct fuel; cbn [scanAppN]; now rewrite Z.ltb_irrefl.
  - destruct fuel as [|fuel]; [cbn in Hfuel; lia|]. cbn [scanAppN].
    destruct (Z.ltb_spec pos e); [|lia].
    rewrite B0. cbn [Z.eqb Pos.eqb negb orb].
    destruct (Z.leb_spec (byteAt buf (pos + 1)) 225); [lia|].
    destruct (Z.ltb_spec 239 (byteAt buf (pos + 1))); [lia|]. cbn [orb].
    assert (U1 : u32 (pos + 2) = pos + 2) by (apply u32_small; lia).
    rewrite U1. replace (pos + 2 + 1) with (pos + 3) by lia.
    pose proof (u16_range (byteAt buf (pos + 2) * 256 + byteAt buf (pos + 3))) as Hn.
    rewrite u32_small by lia. apply IH; lia.
Qed.

(** X10: for a buffer whose size, less the blob header, is at most 2^31,
    [findAppSegmentsSize] returns a non-zero size exactly when the buffer ends with a
    JPEG_APP_SEGMENTS blob of a positive size that fits, starts with the APP1 marker,
    and its APP1 segment followed by APPn segments (markers 0xE2 to 0xEF) adds up to
    exactly the size the blob declares.  It then returns that size and stores the length
    of the APP1 segment with its marker; in every other case it returns 0 and leaves
    [*app1SegmentSize] as it was. *)
Theorem X10_app_segments_accepted_iff_well_formed : forall plat buf maxSize a,
    u64 (maxSize - sizeof_CameraBlob plat) <= 2 ^ 31 ->
    (acceptedSegments plat buf maxSize ->
     findAppSegmentsSize plat (Some buf) maxSize a =
       (expectedSizeOf plat buf maxSize, app1SizeOf buf + 2)) /\
    (~ acceptedSegments plat buf maxSize ->
     findAppSegmentsSize plat (Some buf) maxSize a = (0, a)) /\
    (acceptedSegments plat buf maxSize <->
     fst (findAppSegmentsSize plat (Some buf) maxSize a) <> 0).
Proof.
  intros plat buf maxSize a Hmax.
  assert (Hexp : 0 <= expectedSizeOf plat buf maxSize).
  { unfold expectedSizeOf, u64. apply Z.mod_pos_bound. lia. }
  pose proof (u16_range (byteAt buf 2 * 256 + byteAt buf 3)) as Happ.
  fold (app1SizeOf buf) in Happ.
  assert (Yes : acceptedSegments plat buf maxSize ->
                findAppSegmentsSize plat (Some buf) maxSize a =
                  (expectedSizeOf plat buf maxSize, app1SizeOf buf + 2)).
  { intros (Hid & He & B0 & B1 & Hseg). unfold findAppSegmentsSize.
    rewrite Hid, Z.eqb_refl. cbn [negb].
    destruct (Z.eqb_spec (expectedSizeOf plat buf maxSize) 0); [lia|].
    destruct (Z.ltb_spec (u64 (maxSize - sizeof_CameraBlob plat))
                         (expectedSizeOf plat buf maxSize)); [lia|].
    cbn [orb]. rewrite B0, B1. cbn [Z.eqb Pos.eqb andb negb].
    rewrite (u32_small (x := 2 + app1SizeOf buf)) by lia.
    rewrite (scanAppN_complete Hseg) by lia.
    now rewrite Z.eqb_refl. }
  assert (No : ~ acceptedSegments plat buf maxSize ->
               findAppSegmentsSize plat (Some buf) maxSize a = (0, a)).
  { intros Hn. unfold findAppSegmentsSize.
    destruct (Z.eqb_spec (blobId_of plat (trailerOf plat buf maxSize))
                         (JPEG_APP_SEGMENTS plat)) as [Hid|]; [|reflexivity].
    cbn [negb].
    destruct (Z.eqb_spec (expectedSizeOf plat buf maxSize) 0); [reflexivity|].
    destruct (Z.ltb_spec (u64 (maxSize - sizeof_CameraBlob plat))
                         (expectedSizeOf plat buf maxSize)); [reflexivity|].
    cbn [orb].
    destruct (Z.eqb_spec (byteAt buf 0) 255) as [B0|]; [|reflexivity].
    destruct (Z.eqb_spec (byteAt buf 1) 225) as [B1|]; [|reflexivity].
    cbn [andb negb].
    rewrite (u32_small (x := 2 + app1SizeOf buf)) by lia.
    destruct (scanAppN _ buf _ _) as [[t|]|] eqn:Es; try reflexivity.
    destruct (Z.eqb_spec t (expectedSizeOf plat buf maxSize)) as [->|]; [|reflexivity].
    exfalso. apply Hn. repeat split; try assumption; try lia.
    eapply scanAppN_sound; [lia | lia | exact Es]. }
  split; [exact Yes|]. split; [exact No|]. split.
  - intros H. rewrite (Yes H). cbn [fst]. destruct H as (_ & He & _). lia.
  - intros H. destruct (Z.eqb_spec (blobId_of plat (trailerOf plat buf maxSize))
                                    (JPEG_APP_SEGMENTS plat)) as [Hid|Hid].
    2:{ exfalso. apply H. rewrite No; [reflexivity|]. intros (X & _). contradiction. }
    (* decide by running the parser *)
    destruct (findAppSegmentsSize plat (Some buf) maxSize a) as [sz a'] eqn:Ef.
    cbn [fst] in H.
    unfold findAppSegmentsSize in Ef. rewrite Hid, Z.eqb_refl in Ef. cbn [negb] in Ef.
    destruct (Z.eqb_spec (expectedSizeOf plat buf maxSize) 0);
      [injection Ef as <- _; contradiction|].
    destruct (Z.ltb_spec (u64 (maxSize - sizeof_CameraBlob plat))
                         (expectedSizeOf plat buf maxSize));
      [injection Ef as <- _; contradiction|].
    cbn [orb] in Ef.
    destruct (Z.eqb_spec (byteAt buf 0) 255) as [B0|];
      [|injection Ef as <- _; contradiction].
    destruct (Z.eqb_spec (byteAt buf 1) 225) as [B1|];
      [|injection Ef as <- _; contradiction].
    cbn [andb negb] in Ef.
    rewrite (u32_small (x := 2 + app1SizeOf buf)) in Ef by lia.
    destruct (scanAppN _ buf _ _) as [[t|]|] eqn:Es;
      try (injection Ef as <- _; contradiction).
    destruct (Z.eqb_spec t (expectedSizeOf plat buf maxSize)) as [->|];
      [|injection Ef as <- _; contradiction].
    repeat split; try assumption; try lia.
    eapply scanAppN_sound; [lia | lia | exact Es].
Qed.

Lemma X10_app_segments_witness :
    (acceptedSegments android twoSegments 20 ->
     findAppSegmentsSize android (Some twoSegments) 20 0 =
       (expectedSizeOf android twoSegments 20, app1SizeOf twoSegments + 2)) /\
    (~ acceptedSegments android twoSegments 20 ->
     findAppSegmentsSize android (Some twoSegments) 20 0 = (0, 0)) /\
    (acceptedSegments android twoSegments 20 <->
     fst (findAppSegmentsSize android (Some twoSegments) 20 0) <> 0).
Proof.
  apply (@X10_app_segments_accepted_iff_well_formed android twoSegments 20 0).
  vm_compute. discriminate.
Defined.

(** ** The grid of tiles *)

Lemma div_between : forall a b q, 0 < b -> b * q <= a < b * q + b -> a / b = q.
Proof.
  intros a b q Hb H. symmetry. apply (Z.div_unique a b q (a - b * q)); lia.
Qed.

(** X11: the tiles that [processCodecInputFrame] copies partition the image.  For a grid
    of [rows] x [cols] tiles of [Tw] x [Th] pixels that just covers a [W] x [H] image,
    every pixel of the image lies in the rectangle of exactly one tile index below
    [rows * cols]. *)
Theorem X11_tiles_partition_image : forall cols rows Tw Th W H x y,
    0 < Tw < 2 ^ 32 -> 0 < Th < 2 ^ 32 -> 0 < cols -> 0 < rows ->
    (rows - 1) * Th < H <= rows * Th -> (cols - 1) * Tw < W <= cols * Tw ->
    W < 2 ^ 32 -> H < 2 ^ 32 ->
    0 <= x < W -> 0 <= y < H ->
    exists i,
      0 <= i < rows * cols /\
      inRect (tileRect cols rows Tw Th W H i) x y /\
      forall j, 0 <= j < rows * cols ->
                inRect (tileRect cols rows Tw Th W H j) x y -> j = i.
Proof.
  intros cols rows Tw Th W H x y HTw HTh Hc Hr CH CW BW BH Hx Hy.
  set (tx := x / Tw). set (ty := y / Th).
  assert (Dx : Tw * tx <= x < Tw * tx + Tw).
  { unfold tx. pose proof (Z.mul_div_le x Tw ltac:(lia)).
    pose proof (Z.mul_succ_div_gt x Tw ltac:(lia)). lia. }
  assert (Dy : Th * ty <= y < Th * ty + Th).
  { unfold ty. pose proof (Z.mul_div_le y Th ltac:(lia)).
    pose proof (Z.mul_succ_div_gt y Th ltac:(lia)). lia. }
  assert (Rx : 0 <= tx < cols).
  { split; [apply Z.div_pos; lia|]. apply Z.div_lt_upper_bound; lia. }
  assert (Ry : 0 <= ty < rows).
  { split; [apply Z.div_pos; lia|]. apply Z.div_lt_upper_bound; lia. }
  assert (Ri : 0 <= ty * cols + tx < rows * cols).
  { assert (0 <= ty * cols) by (apply Z.mul_nonneg_nonneg; lia).
    assert (0 <= (rows - 1 - ty) * cols) by (apply Z.mul_nonneg_nonneg; lia). lia. }
  exists (ty * cols + tx). split; [exact Ri|]. split.
  - rewrite tileRect_clipped by assumption. unfold clippedTile, inRect.
    assert (Em : (ty * cols + tx) mod cols = tx)
      by (rewrite Z.add_comm, Z.mod_add by lia; apply Z.mod_small; lia).
    assert (Ed : (ty * cols + tx) / cols = ty)
      by (rewrite Z.add_comm, Z.div_add by lia; rewrite Z.div_small by lia; lia).
    rewrite Em, Ed.
    destruct (Z.eqb_spec tx (cols - 1)); destruct (Z.eqb_spec ty (rows - 1)); lia.
  - intros j Hj Hin. rewrite tileRect_clipped in Hin by assumption.
    pose proof (@clippedTile_inside cols rows Tw Th W H j _ _ _ _ ltac:(lia) ltac:(lia)
                  Hc Hr CH CW Hj eq_refl) as (Hw & Hh & _).
    unfold clippedTile, inRect in Hin.
    set (jx := j mod cols) in *. set (jy := j / cols) in *.
    set (w := if jx =? cols - 1 then _ else _) in *.
    set (h := if jy =? rows - 1 then _ else _) in *.
    destruct Hin as [Hl Ht].
    assert (Ex : tx = jx) by (apply div_between; lia).
    assert (Ey : ty = jy) by (apply div_between; lia).
    rewrite Ex, Ey. unfold jx, jy.
    pose proof (Z.div_mod j cols ltac:(lia)). lia.
Qed.

Lemma X11_tiles_partition_witness :
    exists i,
      0 <= i < 2 * 3 /\
      inRect (tileRect 3 2 512 512 1500 1000 i) 1499 999 /\
      forall j, 0 <= j < 2 * 3 ->
                inRect (tileRect 3 2 512 512 1500 1000 j) 1499 999 -> j = i.
Proof.
  apply (@X11_tiles_partition_image 3 2 512 512 1500 1000 1499 999); lia.
Defined.

(** ** Alignment and the output budget *)

Lemma ALIGN_pow2 : forall x n, 0 <= n -> ALIGN x (2 ^ n) = (x + 2 ^ n - 1) / 2 ^ n * 2 ^ n.
Proof.
  intros x n Hn. unfold ALIGN.
  rewrite <- Z.ldiff_land.
  replace (2 ^ n - 1) with (Z.ones n) by (rewrite Z.ones_equiv; lia).
  rewrite Z.ldiff_ones_r by exact Hn.
  rewrite Z.shiftr_div_pow2, Z.shiftl_mul_pow2 by exact Hn.
  replace (x + 2 ^ n - 1) with (x + Z.ones n) by (rewrite Z.ones_equiv; lia).
  reflexivity.
Qed.

Lemma ALIGN_bounds : forall x n, 0 <= n ->
    x <= ALIGN x (2 ^ n) < x + 2 ^ n /\ ALIGN x (2 ^ n) mod 2 ^ n = 0.
Proof.
  intros x n Hn. rewrite ALIGN_pow2 by exact Hn.
  assert (Hm : 0 < 2 ^ n) by (apply Z.pow_pos_nonneg; lia).
  split; [|apply Z.mod_mul; lia].
  pose proof (Z.mul_div_le (x + 2 ^ n - 1) (2 ^ n) Hm).
  pose proof (Z.mul_succ_div_gt (x + 2 ^ n - 1) (2 ^ n) Hm). lia.
Qed.

(** X12: for a mask that is a power of two, [ALIGN(x, mask)] is [x] rounded up to the
    next multiple of the mask: a multiple of the mask, at least [x] and less than
    [x + mask]. *)
Theorem X12_ALIGN_rounds_up_to_multiple : forall x n,
    0 <= n ->
    x <= ALIGN x (2 ^ n) < x + 2 ^ n /\
    ALIGN x (2 ^ n) mod 2 ^ n = 0 /\
    (x mod 2 ^ n = 0 -> ALIGN x (2 ^ n) = x).
Proof.
  intros x n Hn. destruct (ALIGN_bounds x Hn) as [B M].
  split; [exact B|]. split; [exact M|].
  intros Hx.
  assert (Hm : 0 < 2 ^ n) by (apply Z.pow_pos_nonneg; lia).
  apply Z.mod_divide in Hx; [|lia]. apply Z.mod_divide in M; [|lia].
  destruct Hx as [a Ha]. destruct M as [b Hb].
  rewrite Hb, Ha in *. assert (a <= b < a + 1) by nia. f_equal. lia.
Qed.

Lemma X12_ALIGN_witness :
    1000 <= ALIGN 1000 (2 ^ 9) < 1000 + 2 ^ 9 /\
    ALIGN 1000 (2 ^ 9) mod 2 ^ 9 = 0 /\
    (1000 mod 2 ^ 9 = 0 -> ALIGN 1000 (2 ^ 9) = 1000).
Proof. apply (@X12_ALIGN_rounds_up_to_multiple 1000 9). lia. Defined.




(** ** The codec callback handler *)

(** X14: [onMessageReceived] acts only on a callback notification of a handled kind
    (input available, output available, format changed, error) that carries every
    entry this kind needs; any other message leaves the stream as it was.  No message
    changes the pending frames. *)
Theorem X14_incomplete_messages_are_ignored : forall plat g msg s,
    (wellFormedMessage msg = false -> onMessageReceived plat g msg s = s) /\
    mPendingInputFrames (onMessageReceived plat g msg s) = mPendingInputFrames s.
Proof.
  intros plat g msg s. split.
  - intros H. unfold onMessageReceived, wellFormedMessage in *.
    destruct (what_kWhatCallbackNotify msg); [|reflexivity]. cbn [negb andb] in *.
    destruct (msg_callbackID msg) as [[| | | | | | | |c]|]; try reflexivity.
    + destruct (msg_index msg); [discriminate H | reflexivity].
    + destruct (msg_index msg); [|reflexivity].
      destruct (msg_offset msg); [|reflexivity].
      destruct (msg_size msg); [|reflexivity].
      destruct (msg_timeUs msg); [|reflexivity].
      destruct (msg_flags msg); [discriminate H | reflexivity].
    + destruct (msg_format msg); [discriminate H | reflexivity].
    + destruct (msg_err msg); [|reflexivity].
      destruct (msg_action msg); [discriminate H | reflexivity].
  - unfold onMessageReceived.
    destruct (negb (what_kWhatCallbackNotify msg)); [reflexivity|].
    destruct (msg_callbackID msg) as [[| | | | | | | |c]|]; try reflexivity.
    + destruct (msg_index msg) as [i|]; [|reflexivity].
      exact (@callback_frames plat (OnHeicInputFrameAvailable i g) s eq_refl).
    + destruct (msg_index msg) as [i|]; [|reflexivity].
      destruct (msg_offset msg) as [o|]; [|reflexivity].
      destruct (msg_size msg) as [z|]; [|reflexivity].
      destruct (msg_timeUs msg) as [t|]; [|reflexivity].
      destruct (msg_flags msg) as [fl|]; [|reflexivity].
      exact (@callback_frames plat (OnHeicOutputFrameAvailable _ g) s eq_refl).
    + destruct (msg_format msg) as [m|]; [|reflexivity].
      exact (@callback_frames plat (OnHeicFormatChanged m g) s eq_refl).
    + destruct (msg_err msg); [|reflexivity].
      destruct (msg_action msg); [|reflexivity].
      exact (@callback_frames plat OnHeicCodecError s eq_refl).
Qed.

(** X15: an output notification with all its entries is never lost.  The size is the
    reported [size_t] converted to [int32_t]; when the stream is not in its error state,
    that size is positive and the flags do not mark codec configuration, the buffer is
    appended to the queue of the handler's codec and no call is made; otherwise the
    buffer is released to its codec and no queue changes. *)
Theorem X15_output_notification_queued_or_released :
  forall plat g msg s idx off sz t fl,
    what_kWhatCallbackNotify msg = true ->
    msg_callbackID msg = Some CB_OUTPUT_AVAILABLE ->
    msg_index msg = Some idx -> msg_offset msg = Some off ->
    msg_size msg = Some sz -> msg_timeUs msg = Some t ->
    msg_flags msg = Some fl ->
    let b := mkCodecOutputBufferInfo idx (s32 off) (s32 sz) t (u32 fl) in
    let s' := onMessageReceived plat g msg s in
    if negb (mErrorState s) && (0 <? s32 sz) &&
       (Z.land (u32 fl) (BUFFER_FLAG_CODECCONFIG plat) =? 0)
    then
      trace s' = trace s /\
      mCodecOutputBuffers s' = mCodecOutputBuffers s ++ (if g then [] else [b]) /\
      mGainmapCodecOutputBuffers s' = mGainmapCodecOutputBuffers s ++ (if g then [b] else [])
    else
      trace s' = trace s ++ [EvReleaseOutputBuffer g idx] /\
      mCodecOutputBuffers s' = mCodecOutputBuffers s /\
      mGainmapCodecOutputBuffers s' = mGainmapCodecOutputBuffers s.
Proof.
  intros plat g msg s idx off sz t fl Hw Hid Hi Ho Hs Ht Hf b s'.
  subst s'. unfold onMessageReceived. rewrite Hw, Hid, Hi, Ho, Hs, Ht, Hf. cbn [negb].
  fold b. unfold onHeicOutputFrameAvailable.
  change (size b) with (s32 sz). change (flags b) with (u32 fl).
  change (index b) with idx.
  destruct (mErrorState s); cbn [negb andb].
  - repeat split; now destruct s.
  - destruct ((0 <? s32 sz) && (Z.land (u32 fl) (BUFFER_FLAG_CODECCONFIG plat) =? 0)).
    + destruct g; repeat split; try (now destruct s); cbn; now rewrite app_nil_r.
    + repeat split; now destruct s.
Qed.

Lemma X15_output_notification_witness :
    let b := mkCodecOutputBufferInfo 7 (s32 0) (s32 (2 ^ 32 + 5)) 0 (u32 0) in
    let s' := onMessageReceived android false (outputMessage 7 (2 ^ 32 + 5) 0) configured in
    if negb (mErrorState configured) && (0 <? s32 (2 ^ 32 + 5)) &&
       (Z.land (u32 0) (BUFFER_FLAG_CODECCONFIG android) =? 0)
    then
      trace s' = trace configured /\
      mCodecOutputBuffers s' = mCodecOutputBuffers configured ++ [b] /\
      mGainmapCodecOutputBuffers s' = mGainmapCodecOutputBuffers configured ++ []
    else
      trace s' = trace configured ++ [EvReleaseOutputBuffer false 7] /\
      mCodecOutputBuffers s' = mCodecOutputBuffers configured /\
      mGainmapCodecOutputBuffers s' = mGainmapCodecOutputBuffers configured.
Proof.
  apply (@X15_output_notification_queued_or_released android false
           (outputMessage 7 (2 ^ 32 + 5) 0) configured 7 0 (2 ^ 32 + 5) 0 0);
    reflexivity.
Defined.

(** ** The internal streams *)

(** One [find] / [push_back] / [operator[]] group of [insertGbp]. *)
Lemma idsOf_add : forall (m : SurfaceMap) ids id sid,
    idsOf m ids ->
    idsOf (map_upd [] id (fun v => v ++ [sid]) m)
          (if negb (map_mem id m) then ids ++ [id] else ids).
Proof.
  intros m ids id sid [Hnd Hk]. unfold idsOf.
  assert (Hmem : forall id', map_mem id' (map_upd [] id (fun v => v ++ [sid]) m) =
                             if Z.eq_dec id' id then true else map_mem id' m).
  { intros id'. unfold map_mem, map_upd. destruct (Z.eq_dec id' id) as [->|Hne].
    - now rewrite map_find_put_eq.
    - now rewrite map_find_put_ne. }
  destruct (map_mem id m) eqn:Em; cbn [negb].
  - split; [exact Hnd|]. intros id'. rewrite Hmem.
    destruct (Z.eq_dec id' id) as [->|Hne]; [|apply Hk].
    split; [reflexivity|]. intros _. now apply Hk.
  - assert (Hni : ~ In id ids) by (intros Hin; apply Hk in Hin; congruence).
    split.
    + apply NoDup_app; [exact Hnd | repeat constructor; intros [] | ].
      intros x Hx [<- | []]. contradiction.
    + intros id'. rewrite Hmem, in_app_iff.
      destruct (Z.eq_dec id' id) as [->|Hne].
      * split; [reflexivity|]. intros _. right. now left.
      * rewrite <- Hk. split; [intros [H | [H | []]]; [exact H | congruence] | auto].
Qed.

Lemma find_add : forall (m : SurfaceMap) id sid k,
    map_find k (map_upd [] id (fun v => v ++ [sid]) m) =
    if Z.eq_dec k id then Some (map_at [] id m ++ [sid]) else map_find k m.
Proof.
  intros m id sid k. unfold map_upd. destruct (Z.eq_dec k id) as [->|Hne].
  - now rewrite map_find_put_eq.
  - now rewrite map_find_put_ne.
Qed.

(** X16: [insertGbp] always succeeds and keeps the stream ids in step with the surface
    map: if the ids were the keys of the map, each listed once, they still are after the
    call.  The entry of every stream only grows at the end, the entry of the main image
    stream ends with the main image surface, the entry of the APP segment stream (when
    the device supports APP segments) contains the APP segment surface, the entries of
    other streams are untouched, and [*currentStreamId] receives the main image stream
    id. *)
Theorem X16_insertGbp_keeps_ids_in_step : forall aSurf mSurf s m ids cur,
    idsOf m ids ->
    let '(r, m', ids', cur') := insertGbp aSurf mSurf s m ids cur in
    r = OK /\ idsOf m' ids' /\
    (exists l, map_find (mMainImageStreamId s) m' = Some (l ++ [mSurf])) /\
    (mAppSegmentSupported s = true ->
     exists l, map_find (mAppSegmentStreamId s) m' = Some l /\ In aSurf l) /\
    (forall k l, map_find k m = Some l -> exists l', map_find k m' = Some (l ++ l')) /\
    (forall k, k <> mMainImageStreamId s ->
               (mAppSegmentSupported s = true -> k <> mAppSegmentStreamId s) ->
               map_find k m' = map_find k m) /\
    cur' = match cur with Some _ => Some (mMainImageStreamId s) | None => None end.
Proof.
  intros aSurf mSurf s m ids cur H. unfold insertGbp.
  set (p := if mAppSegmentSupported s then _ else _).
  assert (P : idsOf (fst p) (snd p) /\
              (mAppSegmentSupported s = true ->
               exists l, map_find (mAppSegmentStreamId s) (fst p) = Some l /\ In aSurf l) /\
              (forall k l, map_find k m = Some l ->
                           exists l', map_find k (fst p) = Some (l ++ l')) /\
              (forall k, (mAppSegmentSupported s = true -> k <> mAppSegmentStreamId s) ->
                         map_find k (fst p) = map_find k m)).
  { unfold p. destruct (mAppSegmentSupported s); cbn [fst snd].
    - split; [now apply idsOf_add|]. split; [|split].
      + intros _. rewrite find_add. destruct (Z.eq_dec _ _); [|congruence].
        eexists. split; [reflexivity|]. apply in_or_app. right. now left.
      + intros k l Hk. rewrite find_add. destruct (Z.eq_dec k _) as [->|].
        * unfold map_at. rewrite Hk. eauto.
        * exists []. now rewrite app_nil_r.
      + intros k Hk. rewrite find_add. destruct (Z.eq_dec k _) as [->|]; [|reflexivity].
        now specialize (Hk eq_refl).
    - split; [exact H|]. split; [discriminate|]. split; [|reflexivity].
      intros k l Hk. exists []. now rewrite app_nil_r. }
  destruct p as [m1 ids1]. cbn [fst snd] in P. destruct P as (P1 & P2 & P3 & P4).
  split; [reflexivity|]. split; [now apply idsOf_add|].
  split; [|split; [|split; [|split]]].
  - rewrite find_add. destruct (Z.eq_dec _ _); [|congruence]. eauto.
  - intros Hs. destruct (P2 Hs) as (l & Hl & Hin). rewrite find_add.
    destruct (Z.eq_dec _ _) as [E|].
    + unfold map_at. rewrite <- E, Hl. eexists. split; [reflexivity|].
      apply in_or_app. now left.
    + eauto.
  - intros k l Hk. destruct (P3 _ _ Hk) as (l1 & Hl1). rewrite find_add.
    destruct (Z.eq_dec k _) as [->|].
    + unfold map_at. rewrite Hl1. exists (l1 ++ [mSurf]). now rewrite app_assoc.
    + eauto.
  - intros k Hm Ha. rewrite find_add. destruct (Z.eq_dec k _); [contradiction|].
    now apply P4.
  - reflexivity.
Qed.

Lemma X16_insertGbp_witness :
    let '(r, m', ids', cur') := insertGbp 0 1 (constructed true false) [(3, [0])] [3] (Some 0) in
    r = OK /\ idsOf m' ids' /\
    (exists l, map_find (mMainImageStreamId (constructed true false)) m' = Some (l ++ [1])) /\
    (mAppSegmentSupported (constructed true false) = true ->
     exists l, map_find (mAppSegmentStreamId (constructed true false)) m' = Some l /\ In 0 l) /\
    (forall k l, map_find k [(3, [0])] = Some l -> exists l', map_find k m' = Some (l ++ l')) /\
    (forall k, k <> mMainImageStreamId (constructed true false) ->
               (mAppSegmentSupported (constructed true false) = true ->
                k <> mAppSegmentStreamId (constructed true false)) ->
               map_find k m' = map_find k [(3, [0])]) /\
    cur' = match Some 0 with
           | Some _ => Some (mMainImageStreamId (constructed true false))
           | None => None
           end.
Proof.
  apply (@X16_insertGbp_keeps_ids_in_step 0 1 (constructed true false) [(3, [0])] [3] (Some 0)).
  split.
  - constructor; [intros [] | constructor].
  - intros id. unfold map_mem. cbn [map_find In].
    destruct (Z.eqb_spec 3 id) as [E|E]; split; intros K; try reflexivity.
    + now left.
    + destruct K as [K | []]. contradiction.
    + discriminate K.
Defined.

(** X17: the stream ids that [insertCompositeStreamIds] appends are those of the
    internal streams, the APP segment stream first when the device supports APP
    segments, and they are exactly the ids that [insertGbp] adds to an empty request
    when the two streams are distinct.  A null vector is refused with BAD_VALUE. *)
Theorem X17_composite_ids_agree_with_insertGbp : forall aSurf mSurf s ids,
    (mAppSegmentSupported s = true -> mAppSegmentStreamId s <> mMainImageStreamId s) ->
    insertCompositeStreamIds s None = (BAD_VALUE, None) /\
    exists added,
      insertCompositeStreamIds s (Some ids) = (OK, Some (ids ++ added)) /\
      snd (fst (insertGbp aSurf mSurf s [] [] None)) = added /\
      forall id, In id added <->
                 id = mMainImageStreamId s \/
                 (mAppSegmentSupported s = true /\ id = mAppSegmentStreamId s).
Proof.
  intros aSurf mSurf s ids Hne. split; [reflexivity|].
  unfold insertCompositeStreamIds, insertGbp.
  destruct (mAppSegmentSupported s) eqn:Es.
  - specialize (Hne eq_refl).
    exists [mAppSegmentStreamId s; mMainImageStreamId s].
    split; [now rewrite <- app_assoc|]. split.
    + cbn [map_mem map_find negb app]. unfold map_mem. rewrite find_add.
      destruct (Z.eq_dec _ _); [congruence|]. reflexivity.
    + intros id. cbn. intuition congruence.
  - exists [mMainImageStreamId s]. split; [reflexivity|]. split; [reflexivity|].
    intros id. cbn. intuition congruence.
Qed.

Lemma X17_composite_ids_witness :
    insertCompositeStreamIds (constructed true false) None = (BAD_VALUE, None) /\
    exists added,
      insertCompositeStreamIds (constructed true false) (Some [3]) =
        (OK, Some ([3] ++ added)) /\
      snd (fst (insertGbp 0 1 (constructed true false) [] [] None)) = added /\
      forall id, In id added <->
                 id = mMainImageStreamId (constructed true false) \/
                 (mAppSegmentSupported (constructed true false) = true /\
                  id = mAppSegmentStreamId (constructed true false)).
Proof.
  apply (@X17_composite_ids_agree_with_insertGbp 0 1 (constructed true false) [3]).
  intros _. cbn. discriminate.
Defined.

(** ** What the reconciliation pass does to the stream *)

Lemma tidy_refl : forall P s, tidy P s s.
Proof.
  intros P s. split; [reflexivity|]. split; [reflexivity|].
  exists []. now rewrite app_nil_r.
Qed.

Lemma tidy_trans : forall P a b c, tidy P a b -> tidy P b c -> tidy P a c.
Proof.
  intros P a b c (A1 & A2 & e1 & A3 & A4) (B1 & B2 & e2 & B3 & B4).
  split; [congruence|]. split; [congruence|].
  exists (e1 ++ e2). split; [now rewrite B3, A3, app_assoc | now apply Forall_app].
Qed.

Lemma tidy_same : forall P s s',
    mDequeuedOutputBufferCnt s' = mDequeuedOutputBufferCnt s ->
    mErrorState s' = mErrorState s -> trace s' = trace s -> tidy P s s'.
Proof.
  intros P s s' H1 H2 H3. split; [exact H1|]. split; [exact H2|].
  exists []. now rewrite app_nil_r.
Qed.

Lemma tidy_emit : forall (P : Event -> Prop) s e, P e -> tidy P s (emit e s).
Proof.
  intros P s e He. split; [reflexivity|]. split; [reflexivity|].
  exists [e]. split; [reflexivity | now constructor].
Qed.

Lemma tidy_weaken : forall (P Q : Event -> Prop) s s',
    (forall e, P e -> Q e) -> tidy P s s' -> tidy Q s s'.
Proof.
  intros P Q s s' HPQ (A & B & evs & C & D). split; [exact A|]. split; [exact B|].
  exists evs. split; [exact C|]. eapply Forall_impl; eassumption.
Qed.

(** Peel the outermost assignment or call off the stream on the right. *)
Ltac tidy_peel :=
  lazymatch goal with
  | |- tidy _ ?s ?s => apply tidy_refl
  | |- tidy _ _ (emit ?e ?x) =>
      apply tidy_trans with (b := x); [|apply tidy_emit; exact I]
  | |- tidy _ _ (?f ?v ?x) =>
      apply tidy_trans with (b := x); [|apply tidy_same; reflexivity]
  end.

Section CompileTidy.
Variable plat : Platform.
Variable env : Env.

Lemma updateCodecQualityLocked_tidy : forall q s,
    tidy compileEvent s (updateCodecQualityLocked env q s).
Proof.
  intros q s. unfold updateCodecQualityLocked.
  destruct (q =? mQuality s); [apply tidy_refl|].
  destruct (is_OK (setParameters env q)); repeat tidy_peel.
Qed.

Lemma promoteSettings_tidy : forall l s, tidy compileEvent s (promoteSettings env l s).
Proof.
  induction l as [|[fn st] l IH]; intros s; cbn [promoteSettings];
    [apply tidy_refl|].
  destruct (shutterNotified st); [|apply IH].
  eapply tidy_trans; [|apply IH].
  set (X := set_mSettingsByFrameNumber _ _).
  assert (HX : tidy compileEvent s X) by (unfold X; repeat tidy_peel).
  destruct (mPendingInputFrames X) as [|[k0 f0] [|? ?]]; try exact HX.
  eapply tidy_trans; [exact HX|].
  eapply tidy_trans; [|apply updateCodecQualityLocked_tidy].
  destruct (mStatusTracker X); [tidy_peel; apply tidy_refl | apply tidy_refl].
Qed.

Lemma drainAppSegments_tidy : forall pending locks s,
    tidy compileEvent s (drainAppSegments locks pending s).
Proof.
  induction pending as [|ts rest IH]; intros locks s; cbn [drainAppSegments];
    [apply tidy_refl|].
  destruct (mAppSegmentFrameNumbers s) as [|front fns]; [apply tidy_refl|].
  destruct locks as [|[res imgBuffer] locks']; [apply tidy_refl|].
  destruct (is_NOT_ENOUGH_DATA res); [apply tidy_refl|].
  destruct (negb (is_OK res) || negb (ts =? lb_timestamp imgBuffer)).
  - eapply tidy_trans; [|apply IH].
    destruct (is_OK res); repeat tidy_peel.
  - destruct (negb (map_mem front (mPendingInputFrames s))).
    + eapply tidy_trans; [|apply IH]. repeat tidy_peel.
    + eapply tidy_trans; [|apply IH].
      destruct (error (frameAt front s)); repeat tidy_peel.
Qed.

Lemma drainYuvBuffers_tidy : forall pending locks s,
    tidy compileEvent s (drainYuvBuffers locks pending s).
Proof.
  induction pending as [|ts rest IH]; intros locks s; cbn [drainYuvBuffers];
    [apply tidy_refl|].
  destruct (mMainImageFrameNumbers s) as [|front fns]; [apply tidy_refl|].
  destruct locks as [|[res imgBuffer] locks']; [apply tidy_refl|].
  destruct (mYuvBufferAcquired s); [apply tidy_refl|].
  destruct (is_NOT_ENOUGH_DATA res); [apply tidy_refl|].
  destruct (negb (is_OK res)).
  { eapply tidy_trans; [|apply IH]. repeat tidy_peel. }
  destruct (negb (ts =? lb_timestamp imgBuffer)).
  { eapply tidy_trans; [|apply IH]. repeat tidy_peel. }
  destruct (negb (map_mem front (mPendingInputFrames s))).
  { eapply tidy_trans; [|apply IH]. repeat tidy_peel. }
  eapply tidy_trans; [|apply IH].
  destruct (error (frameAt front s)); repeat tidy_peel.
Qed.

Lemma attributeCodecOutputs_tidy : forall pending s,
    tidy compileEvent s (attributeCodecOutputs pending s).
Proof.
  induction pending as [|b rest IH]; intros s; cbn [attributeCodecOutputs];
    [apply tidy_refl|].
  destruct (mCodecOutputBufferFrameNumbers s) as [|fn fns]; [apply tidy_refl|].
  eapply tidy_trans; [|apply IH].
  do 2 tidy_peel. destruct (_ =? _); repeat tidy_peel.
Qed.

Lemma attributeGainmapCodecOutputs_tidy : forall pending s,
    tidy compileEvent s (attributeGainmapCodecOutputs pending s).
Proof.
  induction pending as [|b rest IH]; intros s; cbn [attributeGainmapCodecOutputs];
    [apply tidy_refl|].
  destruct (mCodecGainmapOutputBufferFrameNumbers s) as [|fn fns]; [apply tidy_refl|].
  eapply tidy_trans; [|apply IH].
  do 2 tidy_peel. destruct (_ =? _); repeat tidy_peel.
Qed.

Lemma drainCaptureResults_tidy : forall pending s,
    tidy compileEvent s (drainCaptureResults pending s).
Proof.
  induction pending as [|[ts [fn meta]] rest IH]; intros s; cbn [drainCaptureResults];
    [apply tidy_refl|].
  eapply tidy_trans; [|apply IH]. tidy_peel.
  destruct ((0 <=? ts) && map_mem fn (mPendingInputFrames s)); [|apply tidy_refl].
  destruct (timestamp (frameAt fn s) =? ts); [|apply tidy_refl].
  match goal with
  | |- context [mAppSegmentSupported ?x] => destruct (negb (mAppSegmentSupported x))
  end; repeat tidy_peel.
Qed.

Lemma applyErrorFrameNumbers_tidy : forall pending s,
    tidy compileEvent s (applyErrorFrameNumbers pending s).
Proof.
  induction pending as [|fn rest IH]; intros s; cbn [applyErrorFrameNumbers];
    [apply tidy_refl|].
  eapply tidy_trans; [|apply IH]. tidy_peel.
  destruct (map_mem fn (mPendingInputFrames s)); repeat tidy_peel.
Qed.

Lemma applyExifErrorFrameNumbers_tidy : forall pending s,
    tidy compileEvent s (applyExifErrorFrameNumbers pending s).
Proof.
  induction pending as [|fn rest IH]; intros s; cbn [applyExifErrorFrameNumbers];
    [apply tidy_refl|].
  eapply tidy_trans; [|apply IH]. tidy_peel.
  destruct (map_mem fn (mPendingInputFrames s)); repeat tidy_peel.
Qed.

Lemma distributeCodecInputBuffers_tidy : forall s,
    tidy compileEvent s (distributeCodecInputBuffers s).
Proof.
  intros s. unfold distributeCodecInputBuffers.
  destruct (mCodecInputBuffers s) as [|i0 avail0]; [apply tidy_refl|].
  destruct (firstLackingTiles _ _ _) as [[k f]|]; [|apply tidy_refl].
  destruct (allocInputTiles _ _ _ _) as [[avail gridTs] f'].
  repeat tidy_peel.
Qed.

Lemma distributeGainmapCodecInputBuffers_tidy : forall s,
    tidy compileEvent s (distributeGainmapCodecInputBuffers s).
Proof.
  intros s. unfold distributeGainmapCodecInputBuffers.
  destruct (mGainmapCodecInputBuffers s) as [|i0 avail0]; [apply tidy_refl|].
  destruct (firstLackingTiles _ _ _) as [[k f]|]; [|apply tidy_refl].
  destruct (allocGainmapInputTiles _ _ _ _) as [[avail gridTs] f'].
  repeat tidy_peel.
Qed.

(** The whole pass keeps the count of dequeued output buffers and the error state,
    and only returns input buffers and does housekeeping. *)
Lemma compilePendingInputLocked_tidy : forall s,
    tidy compileEvent s (compilePendingInputLocked env s).
Proof.
  intros s. unfold compilePendingInputLocked.
  repeat (eapply tidy_trans;
          [|first [ apply distributeGainmapCodecInputBuffers_tidy
                  | apply distributeCodecInputBuffers_tidy
                  | apply applyExifErrorFrameNumbers_tidy
                  | apply applyErrorFrameNumbers_tidy
                  | apply drainCaptureResults_tidy
                  | apply attributeGainmapCodecOutputs_tidy
                  | apply attributeCodecOutputs_tidy
                  | apply drainYuvBuffers_tidy
                  | apply drainAppSegments_tidy ]]).
  apply promoteSettings_tidy.
Qed.

Lemma getNextReadyInputLocked_tidy : forall s,
    tidy compileEvent s (snd (getNextReadyInputLocked s)).
Proof.
  intros s. unfold getNextReadyInputLocked.
  destruct (firstReady s (mPendingInputFrames s)); cbn [snd]; [|apply tidy_refl].
  tidy_peel. apply tidy_refl.
Qed.
End CompileTidy.

(** ** Counting the output buffers held by the frames *)

Lemma held_range : forall f, 0 <= held f <= 1.
Proof. intros f. unfold held. destruct (isSome (anb f)); lia. Qed.

Lemma heldOutputs_nonneg : forall m, 0 <= heldOutputs m.
Proof.
  induction m as [|[k f] m IH]; cbn [heldOutputs]; [lia|].
  pose proof (held_range f). lia.
Qed.

Lemma map_find_below : forall (V : Type) (m : list (Z * V)) k,
    (forall k' v', In (k', v') m -> k < k') -> map_find k m = None.
Proof.
  intros V. induction m as [|[k0 v0] m IH]; intros k H; cbn [map_find]; [reflexivity|].
  destruct (Z.eqb_spec k0 k) as [->|Hne].
  - assert (k < k) by (apply (H k v0); now left). lia.
  - apply IH. intros k' v' Hin. apply (H k' v'). now right.
Qed.

Lemma held_new : held newInputFrame = 0.
Proof. reflexivity. Qed.

Lemma heldOutputs_put : forall m k v,
    ascending m ->
    heldOutputs (map_put k v m) = heldOutputs m - held (map_at newInputFrame k m) + held v.
Proof.
  induction m as [|[k0 f0] m IH]; intros k v Hasc; cbn [map_put].
  - unfold map_at. cbn [map_find heldOutputs]. rewrite held_new. lia.
  - destruct Hasc as [Hlt Hasc].
    destruct (Z.ltb_spec k k0) as [Hk|Hk].
    + cbn [heldOutputs]. unfold map_at. cbn [map_find].
      destruct (Z.eqb_spec k0 k); [lia|].
      rewrite map_find_below by (intros k' v' Hin; specialize (Hlt _ _ Hin); lia).
      rewrite held_new. lia.
    + destruct (Z.eqb_spec k k0) as [->|Hne].
      * cbn [heldOutputs]. unfold map_at. cbn [map_find]. rewrite Z.eqb_refl. lia.
      * cbn [heldOutputs]. rewrite IH by exact Hasc.
        unfold map_at. cbn [map_find]. destruct (Z.eqb_spec k0 k); [lia|]. lia.
Qed.

Lemma heldOutputs_erase : forall m k,
    ascending m ->
    heldOutputs (map_erase k m) = heldOutputs m - held (map_at newInputFrame k m).
Proof.
  induction m as [|[k0 f0] m IH]; intros k Hasc; cbn [map_erase].
  - unfold map_at. cbn [map_find heldOutputs]. rewrite held_new. lia.
  - destruct Hasc as [Hlt Hasc]. unfold map_at. cbn [map_find heldOutputs].
    destruct (Z.eqb_spec k0 k) as [->|Hne]; [lia|].
    cbn [heldOutputs]. rewrite IH by exact Hasc. unfold map_at. lia.
Qed.

Lemma held_compRel : forall Q f f', compRel Q f f' -> held f' = held f.
Proof. intros Q f f' (_ & _ & _ & _ & _ & A & _). unfold held. now rewrite A. Qed.

Lemma paired_compRel : forall Q f f', compRel Q f f' -> paired f -> paired f'.
Proof.
  intros Q f f' (M & _ & _ & _ & _ & A & _) H. unfold paired in *. now rewrite M, A.
Qed.

Lemma heldOutputs_evolves : forall Q m m',
    evolves (compRel Q) m m' -> ascending m -> heldOutputs m' = heldOutputs m.
Proof.
  intros Q m m' H. induction H as [m | m m' k f' H IH HR]; intros Hasc; [reflexivity|].
  rewrite heldOutputs_put by exact (evolves_ascending H Hasc).
  rewrite (held_compRel HR), IH by exact Hasc. lia.
Qed.

Lemma paired_evolves : forall Q m m',
    evolves (compRel Q) m m' ->
    (forall k f, In (k, f) m -> paired f) ->
    forall k f, In (k, f) m' -> paired f.
Proof.
  intros Q m m' Ev Hp k f' Hin.
  destruct (evolves_backward (@compRel_refl Q) (@compRel_trans Q) Ev _ _ Hin)
    as [(f & Hf & C) | C].
  - exact (paired_compRel C (Hp _ _ Hf)).
  - apply (paired_compRel C). reflexivity.
Qed.

(** A step that changes the frames as the reconciliation pass does, and keeps the count,
    keeps the accounting. *)
Lemma accounted_step : forall Q s s',
    compStep Q s s' -> mDequeuedOutputBufferCnt s' = mDequeuedOutputBufferCnt s ->
    accounted s -> accounted s'.
Proof.
  intros Q s s' (Ev & _) Hc (Hasc & Hcnt & Hmax & Hp).
  split; [exact (evolves_ascending Ev Hasc)|].
  split; [rewrite Hc, (heldOutputs_evolves Ev Hasc); exact Hcnt|].
  split; [now rewrite Hc|].
  exact (paired_evolves Ev Hp).
Qed.

Lemma accounted_same : forall s s',
    mPendingInputFrames s' = mPendingInputFrames s ->
    mDequeuedOutputBufferCnt s' = mDequeuedOutputBufferCnt s ->
    accounted s -> accounted s'.
Proof.
  intros s s' Hf Hc H. unfold accounted in *. now rewrite Hf, Hc.
Qed.

(** ** The output buffer of the frame being processed *)

Lemma holdRel_refl : reflexiveR holdRel.
Proof. intros s f. repeat split. Qed.

Lemma holdRel_trans : transitiveR holdRel.
Proof.
  intros s f s1 f1 s2 f2 (A1 & A2 & A3) (B1 & B2 & B3). repeat split; congruence.
Qed.

Ltac finish_hold :=
  match goal with
  | H : (_, _, _) = (_, _, _) |- _ => injection H as <- <- <-
  end; repeat split.

Section Hold.
Variable plat : Platform.
Variable env : Env.
Variable frameNumber : Z.

Lemma generate_hold : keeps holdRel (generateBaseImageAndGainmap env).
Proof.
  intros s f r s' f' H. unfold generateBaseImageAndGainmap in H. break_hyp H; finish_hold.
Qed.

Lemma feedTiles_cnt : forall isGainmap cols rows gw gh ow oh bufs s r s',
    feedTiles env isGainmap cols rows gw gh ow oh bufs s = (r, s') ->
    mDequeuedOutputBufferCnt s' = mDequeuedOutputBufferCnt s.
Proof.
  intros isGainmap cols rows gw gh ow oh bufs.
  induction bufs as [|b bufs IH]; cbn [feedTiles]; intros s r s' H.
  - now injection H as _ <-.
  - destruct (is_OK (getInputBuffer env isGainmap (in_index b)));
      [|now injection H as _ <-].
    cbn [negb] in H. destruct (tileRect _ _ _ _ _ _ _) as [[[a1 a2] a3] a4].
    destruct (is_OK (copyOneYuvTile env isGainmap a1 a2 a3 a4)); cbn [negb] in H;
      [|now injection H as _ <-].
    destruct (is_OK (queueInputBuffer env isGainmap (in_index b))); cbn [negb] in H;
      [|now injection H as _ <-].
    now rewrite (IH _ _ _ H).
Qed.

Lemma processCodecInputFrame_hold : keeps holdRel (processCodecInputFrame env).
Proof.
  intros s f r s' f' H. unfold processCodecInputFrame in H.
  destruct (feedTiles _ _ _ _ _ _ _ _ _ _) as [r0 s0] eqn:E.
  apply feedTiles_cnt in E.
  destruct r0; injection H as <- <- <-; repeat split; exact E.
Qed.

Lemma processCodecGainmapInputFrame_hold :
  keeps holdRel (processCodecGainmapInputFrame env).
Proof.
  intros s f r s' f' H. unfold processCodecGainmapInputFrame in H.
  destruct (feedTiles _ _ _ _ _ _ _ _ _ _) as [r0 s0] eqn:E.
  apply feedTiles_cnt in E.
  destruct r0; injection H as <- <- <-; repeat split; exact E.
Qed.

Lemma feedEncoders_hold : forall a b, keeps holdRel (feedEncoders env a b).
Proof.
  intros a b. unfold feedEncoders.
  apply keeps_andThen; [apply holdRel_trans | |].
  - apply keeps_when_const; [apply holdRel_refl|].
    apply keeps_andThen; [apply holdRel_trans | |].
    + apply (keeps_when holdRel_refl
                        (fun s f => mHDRGainmapEnabled s && negb (baseBuffer f))).
      apply generate_hold.
    + apply processCodecInputFrame_hold.
  - apply keeps_when_const; [apply holdRel_refl|].
    apply processCodecGainmapInputFrame_hold.
Qed.

Lemma writeGainmapMetadata_hold : keeps holdRel (writeGainmapMetadata plat env).
Proof.
  intros s f r s' f' H. unfold writeGainmapMetadata in H. break_hyp H; finish_hold.
Qed.

Lemma processAppSegment_hold : keeps holdRel (processAppSegment plat env frameNumber).
Proof.
  intros s f r s' f' H. unfold processAppSegment in H.
  destruct (if negb (exifError f) then _ else _) as [appSegmentSize app1Size].
  break_hyp H; finish_hold.
Qed.

Lemma processOneCodecOutputFrame_hold :
  keeps holdRel (processOneCodecOutputFrame env frameNumber).
Proof.
  intros s f r s' f' H. unfold processOneCodecOutputFrame in H.
  break_hyp H; finish_hold.
Qed.

Lemma processOneCodecGainmapOutputFrame_hold :
  keeps holdRel (processOneCodecGainmapOutputFrame plat env frameNumber).
Proof.
  intros s f r s' f' H. unfold processOneCodecGainmapOutputFrame in H.
  break_hyp H; finish_hold.
Qed.

(** Opening the container: the one place where an output buffer is dequeued. *)
Lemma ensureMuxer_account : forall s f r s' f',
    ensureMuxer env frameNumber s f = (r, s', f') ->
    paired f ->
    (isSome (muxer f) = false ->
     mDequeuedOutputBufferCnt s < kMaxOutputSurfaceProducerCount) ->
    mDequeuedOutputBufferCnt s <= kMaxOutputSurfaceProducerCount ->
    mDequeuedOutputBufferCnt s' - held f' = mDequeuedOutputBufferCnt s - held f /\
    mDequeuedOutputBufferCnt s' <= kMaxOutputSurfaceProducerCount /\
    (r = OK -> isSome (muxer f') = true /\ isSome (anb f') = true).
Proof.
  intros s f r s' f' H Hp Hfree Hmax. unfold ensureMuxer, when in H.
  unfold paired in Hp. unfold kMaxOutputSurfaceProducerCount in *.
  destruct (isSome (muxer f)) eqn:Hm; simpl in H.
  - injection H as <- <- <-. split; [lia|]. split; [lia|]. intros _. now rewrite <- Hp.
  - specialize (Hfree eq_refl).
    assert (Hh : held f = 0) by (unfold held; now rewrite <- Hp).
    unfold startMuxerForInputFrame in H.
    break_hyp H; injection H as <- <- <-; rewrite Hh;
      (split; [cbn; unfold held; cbn; lia|]);
      (split; [cbn; lia|]);
      intros E; try discriminate E;
      try (match goal with
           | X : negb (is_OK ?r) = true |- _ => rewrite E in X; discriminate X
           end);
      cbn; split; try reflexivity;
      match goal with
      | X : negb (isSome _) = false |- _ => apply negb_false_iff in X; exact X
      end.
Qed.

(** Handing the container over: the one place where an output buffer is queued. *)
Lemma completeIfAllWritten_account : forall s f r s' f',
    completeIfAllWritten plat env frameNumber s f = (r, s', f') ->
    isSome (muxer f) = true -> isSome (anb f) = true ->
    mDequeuedOutputBufferCnt s' - held f' = mDequeuedOutputBufferCnt s - held f /\
    mDequeuedOutputBufferCnt s' <= mDequeuedOutputBufferCnt s /\
    (r = OK -> paired f' \/ allWritten f' = true).
Proof.
  intros s f r s' f' H Hm Ha. unfold completeIfAllWritten, when in H.
  destruct (allWritten f) eqn:Hall.
  - assert (Hh : held f = 1) by (unfold held; now rewrite Ha).
    assert (Hw : allWritten f' = true).
    { destruct (processCompletedInputFrame_spec _ _ _ _ _ H)
        as (evs & _ & _ & _ & _ & _ & _ & T & G & W & _).
      unfold allWritten in *. now rewrite T, G, W. }
    unfold processCompletedInputFrame in H.
    break_hyp H; injection H as <- <- <-; rewrite Hh;
      (split; [cbn; unfold held; cbn; try rewrite Ha; lia|]);
      (split; [cbn; lia|]); intros _; right; exact Hw.
  - injection H as <- <- <-. split; [lia|]. split; [lia|].
    intros _. left. unfold paired. now rewrite Hm, Ha.
Qed.

(** The samples after the container was opened. *)
Lemma afterMuxer_hold : forall (a b : bool),
    keeps holdRel
      (andThen (when b (writeGainmapMetadata plat env))
      (andThen (when a (processAppSegment plat env frameNumber))
      (andThen (fun s f => drainQueue (processOneCodecOutputFrame env frameNumber)
                             (codecOutputBuffers f) s f)
               (fun s f => drainQueue (processOneCodecGainmapOutputFrame plat env frameNumber)
                             (gainmapCodecOutputBuffers f) s f)))).
Proof.
  intros a b.
  repeat (apply keeps_andThen; auto using holdRel_refl, holdRel_trans).
  - apply keeps_when_const; auto using holdRel_refl. apply writeGainmapMetadata_hold.
  - apply keeps_when_const; auto using holdRel_refl. apply processAppSegment_hold.
  - apply keeps_drainQueue_of; auto using holdRel_refl, holdRel_trans.
    apply processOneCodecOutputFrame_hold.
  - apply keeps_drainQueue_of; auto using holdRel_refl, holdRel_trans.
    apply processOneCodecGainmapOutputFrame_hold.
Qed.

Lemma held_same : forall f f', anb f' = anb f -> held f' = held f.
Proof. intros f f' H. unfold held. now rewrite H. Qed.

(** [processInputFrame] keeps the books: what it adds to or takes from the count of
    dequeued buffers, the frame gains or loses; the count never exceeds the maximum;
    and a frame it leaves without its buffer is completely written. *)
Lemma processInputFrame_account : forall s f r s' f',
    processInputFrame plat env frameNumber s f = (r, s', f') ->
    paired f ->
    mDequeuedOutputBufferCnt s <= kMaxOutputSurfaceProducerCount ->
    mDequeuedOutputBufferCnt s' - held f' = mDequeuedOutputBufferCnt s - held f /\
    mDequeuedOutputBufferCnt s' <= kMaxOutputSurfaceProducerCount /\
    (r = OK -> paired f' \/ allWritten f' = true).
Proof.
  intros s f r s' f' H Hp Hmax. unfold processInputFrame in H.
  destruct (andThen_cases _ _ _ _ H) as [[H1 Hr] | (s1 & f1 & H1 & H2)].
  - destruct (keeps_use (feedEncoders_hold _ _) H1) as (C & A & M).
    split; [rewrite C, (@held_same _ _ A); lia|]. split; [now rewrite C|].
    intros E. contradiction.
  - destruct (keeps_use (feedEncoders_hold _ _) H1) as (C1 & A1 & M1).
    assert (Hp1 : paired f1) by (unfold paired in *; now rewrite M1, A1).
    assert (Hh1 : held f1 = held f) by now apply held_same.
    destruct (negb (codecOutputReady f && hasOutputBuffer s f) &&
              negb (appSegmentReady f)) eqn:Hg.
    + injection H2 as <- <- <-.
      split; [rewrite C1, Hh1; lia|]. split; [now rewrite C1|]. intros _. now left.
    + assert (Hfree : isSome (muxer f1) = false ->
                      mDequeuedOutputBufferCnt s1 < kMaxOutputSurfaceProducerCount).
      { intros Hno. rewrite M1 in Hno. rewrite C1.
        apply andb_false_iff in Hg as [Hg | Hg]; apply negb_false_iff in Hg.
        - apply andb_prop in Hg as [_ Hb]. unfold hasOutputBuffer in Hb.
          rewrite Hno in Hb. cbn [orb] in Hb. now apply Z.ltb_lt.
        - unfold appSegmentReady in Hg. apply andb_prop in Hg as [_ Hg]. congruence. }
      unfold writeToMuxer in H2.
      destruct (andThen_cases _ _ _ _ H2) as [[H3 Hr] | (s2 & f2 & H3 & H4)].
      * (* the samples failed *)
        unfold writeSamples in H3.
        destruct (andThen_cases _ _ _ _ H3) as [[H5 _] | (s3 & f3 & H5 & H6)].
        -- edestruct ensureMuxer_account as (B & Mx & _);
             [exact H5 | exact Hp1 | exact Hfree | now rewrite C1 |].
           split; [lia|]. split; [exact Mx|]. intros E. contradiction.
        -- edestruct ensureMuxer_account as (B & Mx & _);
             [exact H5 | exact Hp1 | exact Hfree | now rewrite C1 |].
           destruct (keeps_use (afterMuxer_hold _ _) H6) as (C3 & A3 & M3).
           split; [rewrite C3, (@held_same _ _ A3); lia|]. split; [now rewrite C3|].
           intros E. contradiction.
      * unfold writeSamples in H3.
        destruct (andThen_cases _ _ _ _ H3) as [[H5 Hr] | (s3 & f3 & H5 & H6)];
          [now contradiction Hr|].
        edestruct ensureMuxer_account as (B & Mx & Hok);
          [exact H5 | exact Hp1 | exact Hfree | now rewrite C1 |].
        destruct (Hok eq_refl) as [Hm3 Ha3].
        destruct (keeps_use (afterMuxer_hold _ _) H6) as (C3 & A3 & M3).
        assert (Hm2 : isSome (muxer f2) = true) by now rewrite M3.
        assert (Ha2 : isSome (anb f2) = true) by now rewrite A3.
        edestruct completeIfAllWritten_account as (B4 & L4 & P4);
          [exact H4 | exact Hm2 | exact Ha2 |].
        split; [rewrite (@held_same _ _ A3) in B4; lia|].
        split; [lia | exact P4].
Qed.
End Hold.

(** ** Releasing frames gives their output buffers back *)

Lemma release_cnt : forall frameNumber s f,
    mDequeuedOutputBufferCnt (fst (releaseInputFrameLocked frameNumber s f)) =
    mDequeuedOutputBufferCnt s - held f.
Proof.
  intros frameNumber s f. unfold releaseInputFrameLocked.
  set (p1 := if hasData (appSegmentBuffer f) then _ else _).
  assert (P1 : mDequeuedOutputBufferCnt (fst p1) = mDequeuedOutputBufferCnt s /\
               anb (snd p1) = anb f)
    by (unfold p1; destruct (hasData (appSegmentBuffer f)); split; reflexivity).
  destruct p1 as [sa fa]. cbn [fst snd] in P1. destruct P1 as [C1 A1].
  rewrite !releaseOutputBuffers_eq.
  set (sb := set_trace _ (set_trace _ sa)).
  set (fb := set_gainmapCodecOutputBuffers [] (set_codecOutputBuffers [] fa)).
  assert (C2 : mDequeuedOutputBufferCnt sb = mDequeuedOutputBufferCnt s)
    by (rewrite <- C1; reflexivity).
  assert (A2 : anb fb = anb f) by (rewrite <- A1; reflexivity).
  clearbody sb fb. clear sa fa C1 A1.
  set (p3 := if hasData (yuvBuffer fb) then _ else _).
  assert (P3 : mDequeuedOutputBufferCnt (fst p3) = mDequeuedOutputBufferCnt s /\
               anb (snd p3) = anb f)
    by (unfold p3; destruct (hasData (yuvBuffer fb)); split;
        first [rewrite <- C2; reflexivity | rewrite <- A2; reflexivity]).
  destruct p3 as [sc fc]. cbn [fst snd] in P3. destruct P3 as [C3 A3].
  clear sb fb C2 A2.
  set (fd := set_gainmapCodecInputBuffers [] (set_codecInputBuffers [] fc)).
  assert (A4 : anb fd = anb f) by (rewrite <- A3; reflexivity).
  set (sd := if error fd || mErrorState sc then _ else sc).
  assert (C4 : mDequeuedOutputBufferCnt sd = mDequeuedOutputBufferCnt s)
    by (unfold sd; destruct (error fd || mErrorState sc); rewrite <- C3; reflexivity).
  clearbody sd fd. clear sc fc C3 A3.
  set (p5 := if 0 <=? fileFd fd then _ else _).
  assert (P5 : mDequeuedOutputBufferCnt (fst p5) = mDequeuedOutputBufferCnt s /\
               anb (snd p5) = anb f)
    by (unfold p5; destruct (0 <=? fileFd fd); split;
        first [rewrite <- C4; reflexivity | rewrite <- A4; reflexivity]).
  destruct p5 as [se fe]. cbn [fst snd] in P5. destruct P5 as [C5 A5].
  unfold held. rewrite <- A5. destruct (anb fe) as [a|]; cbn [fst isSome].
  - rewrite <- C5. reflexivity.
  - rewrite C5. lia.
Qed.

Lemma releaseFrames_cnt : forall m s,
    mDequeuedOutputBufferCnt (fst (fst (releaseFrames m s))) -
      heldOutputs (snd (fst (releaseFrames m s))) =
    mDequeuedOutputBufferCnt s - heldOutputs m.
Proof.
  induction m as [|[k f] m IH]; intros s; cbn [releaseFrames]; [reflexivity|].
  destruct (error f || _).
  - pose proof (release_cnt k s f) as R.
    destruct (releaseInputFrameLocked k s f) as [s1 f1]. cbn [fst] in R.
    specialize (IH s1). destruct (releaseFrames m s1) as [[s2 kept] done].
    cbn [fst snd heldOutputs] in *. lia.
  - specialize (IH s). destruct (releaseFrames m s) as [[s2 kept] done].
    cbn [fst snd heldOutputs] in *. lia.
Qed.

Lemma heldOutputs_filter_le : forall (p : Z * InputFrame -> bool) m,
    heldOutputs (filter p m) <= heldOutputs m.
Proof.
  intros p. induction m as [|[k f] m IH]; cbn [filter heldOutputs]; [lia|].
  pose proof (held_range f). destruct (p (k, f)); cbn [heldOutputs]; lia.
Qed.

(** The release sweep keeps the accounting, whatever the frames it removes look like,
    provided the frames it keeps are paired. *)
Lemma releaseInputFramesLocked_account : forall env s,
    ascending (mPendingInputFrames s) ->
    mDequeuedOutputBufferCnt s = heldOutputs (mPendingInputFrames s) ->
    mDequeuedOutputBufferCnt s <= kMaxOutputSurfaceProducerCount ->
    (forall k f, In (k, f) (mPendingInputFrames s) -> releasable f = false -> paired f) ->
    accounted (releaseInputFramesLocked env s).
Proof.
  intros env s Hasc Hcnt Hmax Hp.
  destruct (releaseInputFramesLocked_spec env s) as (K & _).
  assert (Hc : mDequeuedOutputBufferCnt (releaseInputFramesLocked env s) =
               heldOutputs (mPendingInputFrames (releaseInputFramesLocked env s))).
  { rewrite K. unfold releaseInputFramesLocked.
    pose proof (releaseFrames_cnt (mPendingInputFrames s) s) as R.
    destruct (releaseFrames_spec (mPendingInputFrames s) s) as (_ & _ & Kf & _).
    destruct (releaseFrames (mPendingInputFrames s) s) as [[s1 kept] done].
    cbn [fst snd] in *. subst kept.
    set (s2 := set_mPendingInputFrames _ s1).
    assert (C2 : mDequeuedOutputBufferCnt s2 = mDequeuedOutputBufferCnt s1) by reflexivity.
    assert (Hfin : forall s3 : HeicCompositeStream,
               mDequeuedOutputBufferCnt s3 = mDequeuedOutputBufferCnt s2 ->
               mDequeuedOutputBufferCnt s3 =
               heldOutputs (filter (fun kf => negb (releasable (snd kf)))
                              (mPendingInputFrames s))) by (intros s3 E; lia).
    destruct done; [|now apply Hfin].
    destruct (filter _ _) as [|[k0 f0] rest] eqn:Ef.
    - apply Hfin. destruct (isEmpty (mSettingsByFrameNumber s2)); [|reflexivity].
      unfold markTrackerIdle. now destruct (mStatusTracker s2).
    - apply Hfin. exact (proj1 (updateCodecQualityLocked_tidy env _ s2)). }
  split; [rewrite K; now apply ascending_filter|].
  split; [exact Hc|]. split.
  - rewrite Hc, K. pose proof (heldOutputs_filter_le
      (fun kf => negb (releasable (snd kf))) (mPendingInputFrames s)). lia.
  - rewrite K. intros k f Hin. apply filter_In in Hin as [Hin Hr]. cbn [snd] in Hr.
    apply negb_true_iff in Hr. eauto.
Qed.

(** ** The accounting is an invariant of the pipeline *)

Section Accounting.
Variable plat : Platform.

Lemma callback_cnt : forall a s,
    isCallback a = true ->
    mDequeuedOutputBufferCnt (perform plat a s) = mDequeuedOutputBufferCnt s.
Proof.
  intros a s Ha. destruct a; try discriminate Ha; cbn [perform].
  - unfold onBufferReleased.
    repeat match goal with |- context [if ?c then _ else _] => destruct c end;
      reflexivity.
  - unfold onBufferRequestForFrameNumber.
    repeat match goal with |- context [if ?c then _ else _] => destruct c end;
      reflexivity.
  - unfold onFrameAvailable.
    repeat match goal with |- context [if ?c then _ else _] => destruct c end;
      reflexivity.
  - unfold onHeicOutputFrameAvailable.
    repeat match goal with |- context [if ?c then _ else _] => destruct c end;
      reflexivity.
  - unfold onHeicInputFrameAvailable.
    repeat match goal with |- context [if ?c then _ else _] => destruct c end;
      reflexivity.
  - unfold onHeicFormatChanged, onHeicGainmapFormatChanged.
    destruct newFormat as [m|]; [|reflexivity].
    destruct isGainmap.
    + destruct (mGainmapUseGrid s); [destruct (gridKeys m) as [[[[? ?] ?] ?]|]|];
        reflexivity.
    + destruct (mUseGrid s || mUseHeic s); [destruct (gridKeys m) as [[[[? ?] ?] ?]|]|];
        reflexivity.
  - reflexivity.
  - unfold onShutter. destruct (mErrorState s); [reflexivity|].
    destruct (map_find _ _); reflexivity.
  - unfold onStreamBufferError.
    repeat match goal with |- context [if ?c then _ else _] => destruct c end;
      reflexivity.
  - reflexivity.
  - unfold onResultError.
    repeat match goal with |- context [if ?c then _ else _] => destruct c end;
      reflexivity.
  - unfold onRequestError.
    repeat match goal with |- context [if ?c then _ else _] => destruct c end;
      reflexivity.
Qed.

Lemma accounted_compile : forall env s,
    accounted s -> accounted (compilePendingInputLocked env s).
Proof.
  intros env s A.
  assert (HQ : forall l : list CodecOutputBufferInfo, Forall (fun _ => True) l)
    by (intros l; apply Forall_forall; auto).
  apply accounted_step with (Q := fun _ => True) (s := s); [| |exact A].
  - apply compilePendingInputLocked_comp; [exact (proj1 A) | apply HQ | apply HQ].
  - exact (proj1 (compilePendingInputLocked_tidy env s)).
Qed.

Lemma accounted_select : forall s,
    accounted s -> accounted (snd (getNextReadyInputLocked s)).
Proof.
  intros s A.
  apply accounted_step with (Q := fun _ => True) (s := s); [| |exact A].
  - apply getNextReadyInputLocked_comp.
  - exact (proj1 (getNextReadyInputLocked_tidy s)).
Qed.

Lemma paired_at : forall s k, accounted s -> paired (frameAt k s).
Proof.
  intros s k (_ & _ & _ & Hp). unfold frameAt, map_at.
  destruct (map_find k (mPendingInputFrames s)) as [f|] eqn:E.
  - exact (Hp _ _ (map_find_In _ _ E)).
  - reflexivity.
Qed.

Lemma accounted_processAndRelease : forall env fn s,
    accounted s -> accounted (processAndRelease plat env fn s).
Proof.
  intros env fn s A. unfold processAndRelease.
  destruct (processInputFrame plat env fn s (frameAt fn s)) as [[r s1] f1] eqn:H.
  pose proof (keeps_use (processInputFrame_rel plat env fn) H) as (St & _).
  pose proof (streamStep_frames St) as Hfr.
  edestruct processInputFrame_account as (B & Mx & Hok);
    [exact H | exact (paired_at fn A) | exact (proj1 (proj2 (proj2 A))) |].
  destruct A as (Hasc & Hcnt & Hmax & Hp).
  set (sa := set_mPendingInputFrames (map_put fn f1 (mPendingInputFrames s1)) s1).
  set (sb := if is_OK r then sa else updFrame fn (set_error true) sa).
  assert (Fb : mPendingInputFrames sb =
               map_put fn (processed r f1) (mPendingInputFrames s)).
  { unfold sb, processed. destruct (is_OK r).
    - unfold sa. cbn. now rewrite Hfr.
    - unfold sa, updFrame, map_upd, map_at. cbn.
      rewrite map_find_put_eq, map_put_put. now rewrite Hfr. }
  assert (Cb : mDequeuedOutputBufferCnt sb = mDequeuedOutputBufferCnt s1)
    by (unfold sb; destruct (is_OK r); reflexivity).
  assert (Hb : held (processed r f1) = held f1)
    by (unfold processed; destruct (is_OK r); reflexivity).
  clearbody sb. clear sa.
  apply releaseInputFramesLocked_account.
  - rewrite Fb. now apply ascending_put.
  - rewrite Fb, Cb, heldOutputs_put by exact Hasc. rewrite Hb.
    fold (frameAt fn s). lia.
  - now rewrite Cb.
  - rewrite Fb. intros k f Hin Hr.
    apply In_map_put in Hin as [[-> ->] | Hin]; [|eauto].
    unfold processed in *. destruct r; cbn [is_OK] in *;
      try (unfold releasable in Hr; cbn in Hr; discriminate Hr).
    destruct (Hok eq_refl) as [P | W]; [exact P|].
    unfold releasable in Hr. unfold allWritten in W. rewrite W, orb_true_r in Hr.
    discriminate Hr.
Qed.

Lemma accounted_workerIteration : forall env s,
    accounted s -> accounted (snd (workerIteration plat env s)).
Proof.
  intros env s A. unfold workerIteration.
  pose proof (accounted_select (accounted_compile env A)) as A2.
  destruct (getNextReadyInputLocked (compilePendingInputLocked env s)) as [[fn|] s2];
    cbn [snd] in A2 |- *.
  - now apply accounted_processAndRelease.
  - destruct (0 <=? getNextFailingInputLocked s2); cbn [snd].
    + set (k := getNextFailingInputLocked s2).
      pose proof (release_cnt k s2 (frameAt k s2)) as Rc.
      destruct (release_step k s2 (frameAt k s2)) as (evs & R & _).
      pose proof (releasedTo_frames R) as Rf.
      destruct (releaseInputFrameLocked k s2 (frameAt k s2)) as [s3 f3].
      cbn [fst snd] in Rc, Rf |- *.
      set (s4 := set_mPendingInputFrames _ s3).
      assert (A4 : accounted s4).
      { destruct A2 as (Hasc & Hcnt & Hmax & Hp).
        pose proof (held_range (frameAt k s2)) as Hr.
        split; [unfold s4; cbn; rewrite Rf; now apply ascending_erase|].
        split; [unfold s4; cbn; rewrite Rf, heldOutputs_erase by exact Hasc;
                fold (frameAt k s2); lia|].
        split; [unfold s4; cbn; lia|].
        unfold s4. cbn. rewrite Rf. intros k' f Hin. apply In_map_erase in Hin. eauto. }
      clearbody s4.
      destruct (isEmpty (mPendingInputFrames s4) && isEmpty (mSettingsByFrameNumber s4));
        [|exact A4].
      apply accounted_same with (s := s4); [| |exact A4];
        unfold markTrackerIdle; now destruct (mStatusTracker s4).
    + destruct (waitRelative env); exact A2.
Qed.

Lemma accounted_threadLoop : forall env s,
    accounted s -> accounted (snd (threadLoop plat env s)).
Proof.
  intros env s A. unfold threadLoop. destruct (mErrorState s); cbn [snd].
  - pose proof (accounted_compile env A) as (Hasc & Hcnt & Hmax & Hp).
    apply releaseInputFramesLocked_account; eauto.
  - now apply accounted_workerIteration.
Qed.

Lemma accounted_perform : forall a s, accounted s -> accounted (perform plat a s).
Proof.
  intros a s A. destruct (isCallback a) eqn:Ha.
  - apply accounted_same with (s := s); [| |exact A].
    + now apply callback_frames.
    + now apply callback_cnt.
  - destruct a; try discriminate Ha; cbn [perform].
    + now apply accounted_threadLoop.
    + now apply accounted_workerIteration.
Qed.

Lemma accounted_run : forall acts s, accounted s -> accounted (run plat acts s).
Proof.
  unfold run. induction acts as [|a acts IH]; intros s A; cbn [fold_left]; [exact A|].
  apply IH. now apply accounted_perform.
Qed.
End Accounting.

(** ** Output buffers *)

(** X18: the stream never has more than one buffer of the output surface dequeued, and
    it knows who holds it.  In every stream reached from an idle one whose count of
    dequeued buffers is zero, that count is the number of pending frames holding an
    output buffer, it is 0 or 1, and a pending frame holds an output buffer exactly when
    it has a container open. *)
Theorem X18_at_most_one_output_buffer_dequeued : forall plat s0 acts,
    idle s0 -> mDequeuedOutputBufferCnt s0 = 0 ->
    let s := run plat acts s0 in
    mDequeuedOutputBufferCnt s = heldOutputs (mPendingInputFrames s) /\
    0 <= mDequeuedOutputBufferCnt s <= kMaxOutputSurfaceProducerCount /\
    forall k f, In (k, f) (mPendingInputFrames s) -> isSome (anb f) = isSome (muxer f).
Proof.
  intros plat s0 acts (Hf & _) Hc s.
  assert (A0 : accounted s0).
  { unfold accounted. rewrite Hf, Hc. cbn. unfold kMaxOutputSurfaceProducerCount.
    repeat split; try lia; try (intros k f []). }
  destruct (accounted_run plat acts A0) as (_ & Hcnt & Hmax & Hp).
  fold s in Hcnt, Hmax, Hp.
  split; [exact Hcnt|]. split.
  - split; [|exact Hmax]. rewrite Hcnt. apply heldOutputs_nonneg.
  - intros k f Hin. symmetry. exact (Hp _ _ Hin).
Qed.

Lemma X18_output_buffer_witness :
    let s := run android containerOpened
               (initializeCodec android 1024 512 true false false None
                  (constructed false false)) in
    mDequeuedOutputBufferCnt s = heldOutputs (mPendingInputFrames s) /\
    0 <= mDequeuedOutputBufferCnt s <= kMaxOutputSurfaceProducerCount /\
    forall k f, In (k, f) (mPendingInputFrames s) -> isSome (anb f) = isSome (muxer f).
Proof.
  apply (@X18_at_most_one_output_buffer_dequeued android
           (initializeCodec android 1024 512 true false false None (constructed false false))
           containerOpened).
  - vm_compute. auto.
  - reflexivity.
Defined.

Lemma compileEvent_quiet : forall evs,
    Forall compileEvent evs -> completions evs = [] /\ queued evs = [] /\ samples evs = [].
Proof.
  intros evs H. induction H as [|e evs He _ IH]; [repeat split|].
  destruct IH as (A & B & C).
  unfold completions, queued, samples in *. cbn [flat_map]. rewrite A, B, C.
  destruct e; try contradiction; repeat split.
Qed.

(** X19: the reconciliation pass [compilePendingInputLocked] never talks to the muxer,
    the encoder or the output surface.  All it appends to the calls made are unlocks of
    input buffers it cannot use, the activity mark of the status tracker and a quality
    update of the codec; it writes no sample, completes no frame, queues no buffer, and
    leaves the count of dequeued output buffers and the error state as they were. *)
Theorem X19_compile_makes_no_output_call : forall env s,
    mDequeuedOutputBufferCnt (compilePendingInputLocked env s) = mDequeuedOutputBufferCnt s /\
    mErrorState (compilePendingInputLocked env s) = mErrorState s /\
    exists evs,
      trace (compilePendingInputLocked env s) = trace s ++ evs /\
      Forall compileEvent evs /\
      completions evs = [] /\ queued evs = [] /\ samples evs = [].
Proof.
  intros env s. destruct (compilePendingInputLocked_tidy env s) as (A & B & evs & C & D).
  split; [exact A|]. split; [exact B|]. exists evs. split; [exact C|].
  split; [exact D|]. now apply compileEvent_quiet.
Qed.

(** ** The error state *)

Lemma releaseFrames_errorState : forall m s,
    mErrorState s = true ->
    exists evs,
      releasedTo s (fst (fst (releaseFrames m s))) evs /\
      Forall releaseEvent evs /\
      forall k f, In (k, f) m -> releasable f = true ->
                  In (EvNotifyError k (requestId f)) evs.
Proof.
  induction m as [|[k f] m IH]; intros s He.
  - exists []. simpl. repeat split; auto using releasedTo_refl; intros; contradiction.
  - cbn [releaseFrames]. fold (releasable f).
    destruct (releasable f) eqn:Hr.
    + destruct (release_step k s f) as (e1 & R1 & F1 & N1 & _).
      destruct (releaseInputFrameLocked k s f) as [s1 f1]. cbn [fst] in R1.
      assert (He1 : mErrorState s1 = true) by (rewrite (releasedTo_errorState R1); exact He).
      destruct (IH s1 He1) as (e2 & R2 & F2 & N2).
      destruct (releaseFrames m s1) as [[s2 kept] done]. cbn [fst snd] in *.
      exists (e1 ++ e2). split; [eapply releasedTo_trans; eassumption|].
      split; [apply Forall_app; now split|].
      intros k' f' [E|Hin] Hrel; apply in_or_app.
      * injection E as <- <-. left. apply N1. rewrite He. apply orb_true_r.
      * right. now apply N2.
    + destruct (IH s He) as (e2 & R2 & F2 & N2).
      destruct (releaseFrames m s) as [[s2 kept] done]. cbn [fst snd] in *.
      exists e2. split; [exact R2|]. split; [exact F2|].
      intros k' f' [E|Hin] Hrel.
      * injection E as <- <-. congruence.
      * now apply N2.
Qed.

(** X20: once the stream is in its error state, [threadLoop] returns false (the worker
    stops) after one reconciliation pass and one release sweep.  The sweep drops the
    frames that are in error or completely written and notifies an error for each of
    them, also for those that were complete; every other pending frame is kept as it
    is.  No container is opened, no sample written, nothing queued or completed, and the
    stream stays in its error state. *)
Theorem X20_error_state_stops_the_worker : forall plat env s,
    mErrorState s = true ->
    let s1 := compilePendingInputLocked env s in
    let s' := snd (threadLoop plat env s) in
    fst (threadLoop plat env s) = ReturnFalse /\
    mErrorState s' = true /\
    mPendingInputFrames s' =
      filter (fun kf => negb (releasable (snd kf))) (mPendingInputFrames s1) /\
    exists evs,
      trace s' = trace s ++ evs /\ Forall haltEvent evs /\
      (forall k f, In (k, f) (mPendingInputFrames s1) -> releasable f = true ->
                   In (EvNotifyError k (requestId f)) evs).
Proof.
  intros plat env s He s1 s'. subst s'. unfold threadLoop. rewrite He. cbn [fst snd].
  split; [reflexivity|]. fold s1.
  destruct (compilePendingInputLocked_tidy env s) as (_ & E1 & e1 & T1 & F1).
  fold s1 in E1, T1. rewrite He in E1.
  destruct (releaseInputFramesLocked_spec env s1) as (K & _).
  split; [|split; [exact K|]].
  - unfold releaseInputFramesLocked.
    destruct (@releaseFrames_errorState (mPendingInputFrames s1) s1 E1) as (e2 & R & _).
    destruct (releaseFrames (mPendingInputFrames s1) s1) as [[s2 kept] done].
    cbn [fst] in R. pose proof (releasedTo_errorState R) as E2. rewrite E1 in E2.
    set (s3 := set_mPendingInputFrames kept s2).
    assert (E3 : mErrorState s3 = true) by exact E2.
    destruct done; [|exact E3].
    destruct kept as [|[k0 f0] kept'].
    + destruct (isEmpty (mSettingsByFrameNumber s3)); [|exact E3].
      unfold markTrackerIdle. now destruct (mStatusTracker s3).
    + rewrite (proj1 (proj2 (updateCodecQualityLocked_tidy env (quality f0) s3))).
      exact E3.
  - unfold releaseInputFramesLocked.
    destruct (@releaseFrames_errorState (mPendingInputFrames s1) s1 E1) as (e2 & R & F2 & N2).
    destruct (releaseFrames (mPendingInputFrames s1) s1) as [[s2 kept] done].
    cbn [fst] in R. pose proof (releasedTo_trace R) as T2.
    set (s3 := set_mPendingInputFrames kept s2).
    assert (T3 : trace s3 = trace s ++ (e1 ++ e2))
      by (unfold s3; cbn; rewrite T2, T1; now rewrite app_assoc).
    assert (F12 : Forall haltEvent (e1 ++ e2)).
    { apply Forall_app. split.
      - eapply Forall_impl; [|exact F1]. intros e X. now left.
      - eapply Forall_impl; [|exact F2]. intros e X. right. now left. }
    assert (Hfin : forall s4 : HeicCompositeStream,
               (exists evs, trace s4 = trace s3 ++ evs /\ Forall housekeeping evs) ->
               exists evs, trace s4 = trace s ++ evs /\ Forall haltEvent evs /\
                 (forall k f, In (k, f) (mPendingInputFrames s1) -> releasable f = true ->
                              In (EvNotifyError k (requestId f)) evs)).
    { intros s4 (e3 & T4 & F3). exists ((e1 ++ e2) ++ e3).
      split; [rewrite T4, T3; now rewrite <- app_assoc|]. split.
      - apply Forall_app. split; [exact F12|].
        eapply Forall_impl; [|exact F3]. intros e X. right. now right.
      - intros k f Hin Hr. apply in_or_app. left. apply in_or_app. right. eauto. }
    clearbody s3.
    destruct done; [|apply Hfin; exists []; now rewrite app_nil_r].
    destruct kept as [|[k0 f0] kept'].
    + destruct (isEmpty (mSettingsByFrameNumber s3));
        [|apply Hfin; exists []; now rewrite app_nil_r].
      apply Hfin. apply markTrackerIdle_step.
    + apply Hfin. apply updateCodecQualityLocked_step.
Qed.

Lemma X20_error_state_witness :
    let s := onHeicCodecError firstTileArrived in
    let s1 := compilePendingInputLocked happyEnv s in
    let s' := snd (threadLoop android happyEnv s) in
    fst (threadLoop android happyEnv s) = ReturnFalse /\
    mErrorState s' = true /\
    mPendingInputFrames s' =
      filter (fun kf => negb (releasable (snd kf))) (mPendingInputFrames s1) /\
    exists evs,
      trace s' = trace s ++ evs /\ Forall haltEvent evs /\
      (forall k f, In (k, f) (mPendingInputFrames s1) -> releasable f = true ->
                   In (EvNotifyError k (requestId f)) evs).
Proof.
  apply (@X20_error_state_stops_the_worker android happyEnv
           (onHeicCodecError firstTileArrived)).
  reflexivity.
Defined.

(** ** The assignments of the reconciliation pass *)

Lemma frameUpdate_weaken : forall p f f', frameUpdate p f f' -> frameUpdate true f f'.
Proof.
  intros p f f' H. induction H; try (now constructor).
  eapply fu_trans; eassumption.
Qed.

(** What no assignment of the pass undoes. *)
Lemma frameUpdate_facts : forall p f f',
    frameUpdate p f f' ->
    (error f = true -> error f' = true) /\
    (exifError f = true -> exifError f' = true) /\
    (isSome (result f) = true -> isSome (result f') = true) /\
    codecInputCounter f <= codecInputCounter f' /\
    gainmapCodecInputCounter f <= gainmapCodecInputCounter f' /\
    (isSome (format f) = true -> format f' = format f) /\
    (isSome (gainmapFormat f) = true -> gainmapFormat f' = gainmapFormat f) /\
    (p = false ->
     orientation f' = orientation f /\ quality f' = quality f /\
     timestamp f' = timestamp f /\ requestId f' = requestId f).
Proof.
  intros p f f' H.
  induction H as [f o q t r | p f | p f | p f b | p f b | p f b | p f b | p f meta
                 | p f idx ts | p f idx ts | p f m Hn | p f m Hn | p f
                 | p a b c H1 IH1 H2 IH2];
    try (cbn; repeat split; auto; try lia; try discriminate; fail).
  - cbn. repeat split; auto; try lia. rewrite Hn. discriminate.
  - cbn. repeat split; auto; try lia. rewrite Hn. discriminate.
  - destruct IH1 as (A1 & A2 & A3 & A4 & A5 & A6 & A7 & A8).
    destruct IH2 as (B1 & B2 & B3 & B4 & B5 & B6 & B7 & B8).
    repeat split; auto; try lia.
    + intros Hf. rewrite B6, A6; auto. now rewrite A6.
    + intros Hf. rewrite B7, A7; auto. now rewrite A7.
    + destruct (A8 H) as (X & _), (B8 H) as (Y & _). congruence.
    + destruct (A8 H) as (_ & X & _), (B8 H) as (_ & Y & _). congruence.
    + destruct (A8 H) as (_ & _ & X & _), (B8 H) as (_ & _ & Y & _). congruence.
    + destruct (A8 H) as (_ & _ & _ & X), (B8 H) as (_ & _ & _ & Y). congruence.
Qed.

Lemma frameStep_refl : forall p s, frameStep p s s.
Proof. intros p s. apply evolves_refl. Qed.

Lemma frameStep_trans : forall p a b c, frameStep p a b -> frameStep p b c -> frameStep p a c.
Proof.
  intros p a b c H1 H2. unfold frameStep in *.
  eapply evolves_trans; try eassumption; intros;
    first [apply fu_refl | eapply fu_trans; eassumption].
Qed.

Lemma frameStep_same : forall p s s',
    mPendingInputFrames s' = mPendingInputFrames s -> frameStep p s s'.
Proof. intros p s s' H. unfold frameStep. rewrite H. apply evolves_refl. Qed.

Lemma frameStep_updFrame : forall p s k g,
    (forall f, frameUpdate p f (g f)) -> frameStep p s (updFrame k g s).
Proof.
  intros p s k g Hg. unfold frameStep, updFrame. cbn.
  apply evolves_upd; [apply evolves_refl | exact Hg].
Qed.

Lemma frameStep_weaken : forall p s s', frameStep p s s' -> frameStep true s s'.
Proof.
  intros p s s' H. unfold frameStep in *.
  induction H as [m | m m' k f' H IH HR]; [apply evolves_refl|].
  apply evolves_put; [exact IH|]. exact (frameUpdate_weaken HR).
Qed.

(** Peel the outermost assignment off the stream on the right. *)
Ltac fs_peel :=
  lazymatch goal with
  | |- frameStep _ ?s ?s => apply frameStep_refl
  | |- frameStep _ _ (updFrame _ _ ?x) =>
      apply frameStep_trans with (b := x);
        [|apply frameStep_updFrame; intros; constructor]
  | |- frameStep _ _ (?f ?v ?x) =>
      apply frameStep_trans with (b := x); [|apply frameStep_same; reflexivity]
  end.

Section CompileSteps.
Variable env : Env.

Lemma updateCodecQualityLocked_fs : forall p q s,
    frameStep p s (updateCodecQualityLocked env q s).
Proof.
  intros p q s. apply frameStep_same. unfold updateCodecQualityLocked.
  destruct (q =? mQuality s); [reflexivity|].
  destruct (is_OK (setParameters env q)); reflexivity.
Qed.

Lemma promoteSettings_fs : forall l s, frameStep true s (promoteSettings env l s).
Proof.
  induction l as [|[fn st] l IH]; intros s; cbn [promoteSettings];
    [apply frameStep_refl|].
  destruct (shutterNotified st); [|apply IH].
  eapply frameStep_trans; [|apply IH].
  set (X := set_mSettingsByFrameNumber _ _).
  assert (HX : frameStep true s X) by (unfold X; repeat fs_peel).
  destruct (mPendingInputFrames X) as [|[k0 f0] [|? ?]]; try exact HX.
  eapply frameStep_trans; [exact HX|].
  eapply frameStep_trans; [|apply updateCodecQualityLocked_fs].
  destruct (mStatusTracker X); [fs_peel; apply frameStep_refl | apply frameStep_refl].
Qed.

Lemma drainAppSegments_fs : forall pending locks s,
    frameStep false s (drainAppSegments locks pending s).
Proof.
  induction pending as [|ts rest IH]; intros locks s; cbn [drainAppSegments];
    [apply frameStep_refl|].
  destruct (mAppSegmentFrameNumbers s) as [|front fns]; [apply frameStep_refl|].
  destruct locks as [|[res imgBuffer] locks']; [apply frameStep_refl|].
  destruct (is_NOT_ENOUGH_DATA res); [apply frameStep_refl|].
  destruct (negb (is_OK res) || negb (ts =? lb_timestamp imgBuffer)).
  - eapply frameStep_trans; [|apply IH].
    destruct (is_OK res); repeat fs_peel.
  - destruct (negb (map_mem front (mPendingInputFrames s))).
    + eapply frameStep_trans; [|apply IH]. repeat fs_peel.
    + eapply frameStep_trans; [|apply IH].
      destruct (error (frameAt front s)); repeat fs_peel.
Qed.

Lemma drainYuvBuffers_fs : forall pending locks s,
    frameStep false s (drainYuvBuffers locks pending s).
Proof.
  induction pending as [|ts rest IH]; intros locks s; cbn [drainYuvBuffers];
    [apply frameStep_refl|].
  destruct (mMainImageFrameNumbers s) as [|front fns]; [apply frameStep_refl|].
  destruct locks as [|[res imgBuffer] locks']; [apply frameStep_refl|].
  destruct (mYuvBufferAcquired s); [apply frameStep_refl|].
  destruct (is_NOT_ENOUGH_DATA res); [apply frameStep_refl|].
  destruct (negb (is_OK res)).
  { eapply frameStep_trans; [|apply IH]. repeat fs_peel. }
  destruct (negb (ts =? lb_timestamp imgBuffer)).
  { eapply frameStep_trans; [|apply IH]. repeat fs_peel. }
  destruct (negb (map_mem front (mPendingInputFrames s))).
  { eapply frameStep_trans; [|apply IH]. repeat fs_peel. }
  eapply frameStep_trans; [|apply IH].
  destruct (error (frameAt front s)); repeat fs_peel.
Qed.

Lemma attributeCodecOutputs_fs : forall pending s,
    frameStep false s (attributeCodecOutputs pending s).
Proof.
  induction pending as [|b rest IH]; intros s; cbn [attributeCodecOutputs];
    [apply frameStep_refl|].
  destruct (mCodecOutputBufferFrameNumbers s) as [|fn fns]; [apply frameStep_refl|].
  eapply frameStep_trans; [|apply IH].
  do 2 fs_peel. destruct (_ =? _); repeat fs_peel.
Qed.

Lemma attributeGainmapCodecOutputs_fs : forall pending s,
    frameStep false s (attributeGainmapCodecOutputs pending s).
Proof.
  induction pending as [|b rest IH]; intros s; cbn [attributeGainmapCodecOutputs];
    [apply frameStep_refl|].
  destruct (mCodecGainmapOutputBufferFrameNumbers s) as [|fn fns]; [apply frameStep_refl|].
  eapply frameStep_trans; [|apply IH].
  do 2 fs_peel. destruct (_ =? _); repeat fs_peel.
Qed.

Lemma drainCaptureResults_fs : forall pending s,
    frameStep false s (drainCaptureResults pending s).
Proof.
  induction pending as [|[ts [fn meta]] rest IH]; intros s; cbn [drainCaptureResults];
    [apply frameStep_refl|].
  eapply frameStep_trans; [|apply IH]. fs_peel.
  destruct ((0 <=? ts) && map_mem fn (mPendingInputFrames s)); [|apply frameStep_refl].
  destruct (timestamp (frameAt fn s) =? ts); [|apply frameStep_refl].
  match goal with
  | |- context [mAppSegmentSupported ?x] => destruct (negb (mAppSegmentSupported x))
  end; repeat fs_peel.
Qed.

Lemma applyErrorFrameNumbers_fs : forall pending s,
    frameStep false s (applyErrorFrameNumbers pending s).
Proof.
  induction pending as [|fn rest IH]; intros s; cbn [applyErrorFrameNumbers];
    [apply frameStep_refl|].
  eapply frameStep_trans; [|apply IH]. fs_peel.
  destruct (map_mem fn (mPendingInputFrames s)); repeat fs_peel.
Qed.

Lemma applyExifErrorFrameNumbers_fs : forall pending s,
    frameStep false s (applyExifErrorFrameNumbers pending s).
Proof.
  induction pending as [|fn rest IH]; intros s; cbn [applyExifErrorFrameNumbers];
    [apply frameStep_refl|].
  eapply frameStep_trans; [|apply IH]. fs_peel.
  destruct (map_mem fn (mPendingInputFrames s)); repeat fs_peel.
Qed.

Lemma allocInputTiles_fu : forall n avail gridTs f,
    frameUpdate false f (snd (allocInputTiles n avail gridTs f)).
Proof.
  induction n as [|n IH]; intros avail gridTs f; cbn [allocInputTiles];
    [apply fu_refl|].
  destruct avail as [|idx avail]; [apply fu_refl|].
  eapply fu_trans; [|apply IH]. apply fu_inputTile.
Qed.

Lemma allocGainmapInputTiles_fu : forall n avail gridTs f,
    frameUpdate false f (snd (allocGainmapInputTiles n avail gridTs f)).
Proof.
  induction n as [|n IH]; intros avail gridTs f; cbn [allocGainmapInputTiles];
    [apply fu_refl|].
  destruct avail as [|idx avail]; [apply fu_refl|].
  eapply fu_trans; [|apply IH]. apply fu_gainmapInputTile.
Qed.

Lemma distributeCodecInputBuffers_fs : forall s,
    ascending (mPendingInputFrames s) -> frameStep false s (distributeCodecInputBuffers s).
Proof.
  intros s Hasc. unfold distributeCodecInputBuffers.
  destruct (mCodecInputBuffers s) as [|i0 avail0] eqn:Ea; [apply frameStep_refl|].
  destruct (firstLackingTiles _ _ _) as [[k f]|] eqn:E; [|apply frameStep_refl].
  apply firstLackingTiles_In in E. apply (@In_map_find _ _ _ _ Hasc) in E.
  pose proof (allocInputTiles_fu
                (Z.to_nat (Z.min (Z.of_nat (length (i0 :: avail0)))
                                 (u64 (u64 (mGridRows s * mGridCols s) - codecInputCounter f))))
                (i0 :: avail0) (mGridTimestampUs s) f) as Hc.
  destruct (allocInputTiles _ _ _ _) as [[avail gridTs] f']. cbn [snd] in Hc.
  unfold frameStep. cbn. apply evolves_put; [apply evolves_refl|].
  unfold map_at. now rewrite E.
Qed.

Lemma distributeGainmapCodecInputBuffers_fs : forall s,
    ascending (mPendingInputFrames s) ->
    frameStep false s (distributeGainmapCodecInputBuffers s).
Proof.
  intros s Hasc. unfold distributeGainmapCodecInputBuffers.
  destruct (mGainmapCodecInputBuffers s) as [|i0 avail0] eqn:Ea; [apply frameStep_refl|].
  destruct (firstLackingTiles _ _ _) as [[k f]|] eqn:E; [|apply frameStep_refl].
  apply firstLackingTiles_In in E. apply (@In_map_find _ _ _ _ Hasc) in E.
  pose proof (allocGainmapInputTiles_fu
                (Z.to_nat (Z.min (Z.of_nat (length (i0 :: avail0)))
                                 (u64 (u64 (mGainmapGridRows s * mGainmapGridCols s)
                                       - gainmapCodecInputCounter f))))
                (i0 :: avail0) (mGridTimestampUs s) f) as Hc.
  destruct (allocGainmapInputTiles _ _ _ _) as [[avail gridTs] f']. cbn [snd] in Hc.
  unfold frameStep. cbn. apply evolves_put; [apply evolves_refl|].
  unfold map_at. now rewrite E.
Qed.

Lemma frameStep_ascending : forall p s s',
    frameStep p s s' -> ascending (mPendingInputFrames s) ->
    ascending (mPendingInputFrames s').
Proof. intros p s s' H Hasc. exact (evolves_ascending H Hasc). Qed.

(** The passes after the promotion of the settings leave the settings alone. *)
Lemma afterPromotion_fs : forall s0 s,
    ascending (mPendingInputFrames s) ->
    s = promoteSettings env (mSettingsByFrameNumber s0) s0 ->
    frameStep false s (compilePendingInputLocked env s0).
Proof.
  intros s0 s Hasc ->. unfold compilePendingInputLocked.
  set (s1 := promoteSettings env _ s0) in *.
  set (s2 := drainAppSegments _ _ s1).
  assert (C2 : frameStep false s1 s2) by apply drainAppSegments_fs.
  set (s3 := drainYuvBuffers _ _ s2).
  assert (C3 : frameStep false s1 s3)
    by (eapply frameStep_trans; [exact C2 | apply drainYuvBuffers_fs]).
  set (s4 := attributeCodecOutputs _ s3).
  assert (C4 : frameStep false s1 s4)
    by (eapply frameStep_trans; [exact C3 | apply attributeCodecOutputs_fs]).
  set (s5 := attributeGainmapCodecOutputs _ s4).
  assert (C5 : frameStep false s1 s5)
    by (eapply frameStep_trans; [exact C4 | apply attributeGainmapCodecOutputs_fs]).
  set (s6 := drainCaptureResults _ s5).
  assert (C6 : frameStep false s1 s6)
    by (eapply frameStep_trans; [exact C5 | apply drainCaptureResults_fs]).
  set (s7 := applyErrorFrameNumbers _ s6).
  assert (C7 : frameStep false s1 s7)
    by (eapply frameStep_trans; [exact C6 | apply applyErrorFrameNumbers_fs]).
  set (s8 := applyExifErrorFrameNumbers _ s7).
  assert (C8 : frameStep false s1 s8)
    by (eapply frameStep_trans; [exact C7 | apply applyExifErrorFrameNumbers_fs]).
  set (s9 := distributeCodecInputBuffers s8).
  assert (C9 : frameStep false s1 s9).
  { eapply frameStep_trans; [exact C8|]. apply distributeCodecInputBuffers_fs.
    exact (frameStep_ascending C8 Hasc). }
  eapply frameStep_trans; [exact C9|]. apply distributeGainmapCodecInputBuffers_fs.
  exact (frameStep_ascending C9 Hasc).
Qed.

Lemma compilePendingInputLocked_fs : forall s,
    ascending (mPendingInputFrames s) ->
    frameStep true s (compilePendingInputLocked env s).
Proof.
  intros s Hasc.
  pose proof (promoteSettings_fs (mSettingsByFrameNumber s) s) as P.
  eapply frameStep_trans; [exact P|].
  apply frameStep_weaken with (p := false).
  apply afterPromotion_fs; [exact (frameStep_ascending P Hasc) | reflexivity].
Qed.

Lemma dupFormats_fu : forall s f, frameUpdate false f (dupFormats s f).
Proof.
  intros s f. unfold dupFormats.
  set (f1 := match format f with Some _ => _ | None => _ end).
  assert (H1 : frameUpdate false f f1).
  { unfold f1. destruct (format f) eqn:Ef; [apply fu_refl|].
    destruct (mFormat s); [now apply fu_format | apply fu_refl]. }
  clearbody f1. eapply fu_trans; [exact H1|].
  destruct (gainmapFormat f1) eqn:Eg; [apply fu_refl|].
  destruct (mGainmapFormat s); [now apply fu_gainmapFormat | apply fu_refl].
Qed.

Lemma getNextReadyInputLocked_fs : forall s,
    frameStep false s (snd (getNextReadyInputLocked s)).
Proof.
  intros s. unfold getNextReadyInputLocked.
  destruct (firstReady s (mPendingInputFrames s)); cbn [snd]; [|apply frameStep_refl].
  apply frameStep_updFrame. apply dupFormats_fu.
Qed.
End CompileSteps.

(** ** Members that the passes of the reconciliation leave alone *)

(** Decide the tests of one iteration of a loop, then use the induction hypothesis. *)
Ltac loop_field IH :=
  repeat match goal with
         | |- context [if ?c then _ else _] => destruct c
         | |- context [match ?c with Some _ => _ | None => _ end] => destruct c
         | |- context [match ?c with [] => _ | _ :: _ => _ end] => destruct c
         | |- context [match ?c with (_, _) => _ end] => destruct c
         end;
  rewrite ?IH; reflexivity.

Section Fields.
Variable env : Env.

(** *** [mErrorFrameNumbers] is read by one pass only *)

Lemma updateCodecQualityLocked_errs : forall q s,
    mErrorFrameNumbers (updateCodecQualityLocked env q s) = mErrorFrameNumbers s.
Proof. intros q s. unfold updateCodecQualityLocked. loop_field I. Qed.

Lemma promoteSettings_errs : forall l s,
    mErrorFrameNumbers (promoteSettings env l s) = mErrorFrameNumbers s.
Proof.
  induction l as [|[fn st] l IH]; intros s; cbn [promoteSettings]; [reflexivity|].
  destruct (shutterNotified st); [|apply IH]. rewrite IH.
  match goal with |- context [match ?c with [] => _ | _ :: _ => _ end] => destruct c as [|[k0 f0] [|? ?]] end;
    try reflexivity.
  rewrite updateCodecQualityLocked_errs.
  match goal with |- context [if ?c then _ else _] => destruct c end; reflexivity.
Qed.

Lemma drainAppSegments_errs : forall pending locks s,
    mErrorFrameNumbers (drainAppSegments locks pending s) = mErrorFrameNumbers s.
Proof.
  induction pending as [|ts rest IH]; intros locks s; cbn [drainAppSegments];
    [reflexivity|].
  destruct (mAppSegmentFrameNumbers s) as [|front fns]; [reflexivity|].
  destruct locks as [|[res imgBuffer] locks']; [reflexivity|].
  loop_field IH.
Qed.

Lemma drainYuvBuffers_errs : forall pending locks s,
    mErrorFrameNumbers (drainYuvBuffers locks pending s) = mErrorFrameNumbers s.
Proof.
  induction pending as [|ts rest IH]; intros locks s; cbn [drainYuvBuffers];
    [reflexivity|].
  destruct (mMainImageFrameNumbers s) as [|front fns]; [reflexivity|].
  destruct locks as [|[res imgBuffer] locks']; [reflexivity|].
  loop_field IH.
Qed.

Lemma attributeCodecOutputs_errs : forall pending s,
    mErrorFrameNumbers (attributeCodecOutputs pending s) = mErrorFrameNumbers s.
Proof.
  induction pending as [|b rest IH]; intros s; cbn [attributeCodecOutputs];
    [reflexivity|].
  destruct (mCodecOutputBufferFrameNumbers s) as [|fn fns]; [reflexivity|].
  rewrite IH. destruct (_ =? _); reflexivity.
Qed.

Lemma attributeGainmapCodecOutputs_errs : forall pending s,
    mErrorFrameNumbers (attributeGainmapCodecOutputs pending s) = mErrorFrameNumbers s.
Proof.
  induction pending as [|b rest IH]; intros s; cbn [attributeGainmapCodecOutputs];
    [reflexivity|].
  destruct (mCodecGainmapOutputBufferFrameNumbers s) as [|fn fns]; [reflexivity|].
  rewrite IH. destruct (_ =? _); reflexivity.
Qed.

Lemma drainCaptureResults_errs : forall pending s,
    mErrorFrameNumbers (drainCaptureResults pending s) = mErrorFrameNumbers s.
Proof.
  induction pending as [|[ts [fn meta]] rest IH]; intros s; cbn [drainCaptureResults];
    [reflexivity|].
  rewrite IH.
  destruct ((0 <=? ts) && map_mem fn (mPendingInputFrames s)); [|reflexivity].
  destruct (timestamp (frameAt fn s) =? ts); [|reflexivity].
  match goal with
  | |- context [mAppSegmentSupported ?x] => destruct (negb (mAppSegmentSupported x))
  end; reflexivity.
Qed.

(** *** [mSettingsByFrameNumber] is written by the first pass only *)

Lemma drainAppSegments_settings : forall pending locks s,
    mSettingsByFrameNumber (drainAppSegments locks pending s) = mSettingsByFrameNumber s.
Proof.
  induction pending as [|ts rest IH]; intros locks s; cbn [drainAppSegments];
    [reflexivity|].
  destruct (mAppSegmentFrameNumbers s) as [|front fns]; [reflexivity|].
  destruct locks as [|[res imgBuffer] locks']; [reflexivity|].
  loop_field IH.
Qed.

Lemma drainYuvBuffers_settings : forall pending locks s,
    mSettingsByFrameNumber (drainYuvBuffers locks pending s) = mSettingsByFrameNumber s.
Proof.
  induction pending as [|ts rest IH]; intros locks s; cbn [drainYuvBuffers];
    [reflexivity|].
  destruct (mMainImageFrameNumbers s) as [|front fns]; [reflexivity|].
  destruct locks as [|[res imgBuffer] locks']; [reflexivity|].
  loop_field IH.
Qed.

Lemma attributeCodecOutputs_settings : forall pending s,
    mSettingsByFrameNumber (attributeCodecOutputs pending s) = mSettingsByFrameNumber s.
Proof.
  induction pending as [|b rest IH]; intros s; cbn [attributeCodecOutputs];
    [reflexivity|].
  destruct (mCodecOutputBufferFrameNumbers s) as [|fn fns]; [reflexivity|].
  rewrite IH. destruct (_ =? _); reflexivity.
Qed.

Lemma attributeGainmapCodecOutputs_settings : forall pending s,
    mSettingsByFrameNumber (attributeGainmapCodecOutputs pending s) =
    mSettingsByFrameNumber s.
Proof.
  induction pending as [|b rest IH]; intros s; cbn [attributeGainmapCodecOutputs];
    [reflexivity|].
  destruct (mCodecGainmapOutputBufferFrameNumbers s) as [|fn fns]; [reflexivity|].
  rewrite IH. destruct (_ =? _); reflexivity.
Qed.

Lemma drainCaptureResults_settings : forall pending s,
    mSettingsByFrameNumber (drainCaptureResults pending s) = mSettingsByFrameNumber s.
Proof.
  induction pending as [|[ts [fn meta]] rest IH]; intros s; cbn [drainCaptureResults];
    [reflexivity|].
  rewrite IH.
  destruct ((0 <=? ts) && map_mem fn (mPendingInputFrames s)); [|reflexivity].
  destruct (timestamp (frameAt fn s) =? ts); [|reflexivity].
  match goal with
  | |- context [mAppSegmentSupported ?x] => destruct (negb (mAppSegmentSupported x))
  end; reflexivity.
Qed.

Lemma applyErrorFrameNumbers_settings : forall pending s,
    mSettingsByFrameNumber (applyErrorFrameNumbers pending s) = mSettingsByFrameNumber s.
Proof.
  induction pending as [|fn rest IH]; intros s; cbn [applyErrorFrameNumbers];
    [reflexivity|].
  rewrite IH. destruct (map_mem fn (mPendingInputFrames s)); reflexivity.
Qed.

Lemma applyExifErrorFrameNumbers_settings : forall pending s,
    mSettingsByFrameNumber (applyExifErrorFrameNumbers pending s) =
    mSettingsByFrameNumber s.
Proof.
  induction pending as [|fn rest IH]; intros s; cbn [applyExifErrorFrameNumbers];
    [reflexivity|].
  rewrite IH. destruct (map_mem fn (mPendingInputFrames s)); reflexivity.
Qed.

Lemma distributeCodecInputBuffers_settings : forall s,
    mSettingsByFrameNumber (distributeCodecInputBuffers s) = mSettingsByFrameNumber s.
Proof.
  intros s. unfold distributeCodecInputBuffers.
  destruct (mCodecInputBuffers s) as [|i0 avail0]; [reflexivity|].
  destruct (firstLackingTiles _ _ _) as [[k f]|]; [|reflexivity].
  destruct (allocInputTiles _ _ _ _) as [[avail gridTs] f']. reflexivity.
Qed.

Lemma distributeGainmapCodecInputBuffers_settings : forall s,
    mSettingsByFrameNumber (distributeGainmapCodecInputBuffers s) =
    mSettingsByFrameNumber s.
Proof.
  intros s. unfold distributeGainmapCodecInputBuffers.
  destruct (mGainmapCodecInputBuffers s) as [|i0 avail0]; [reflexivity|].
  destruct (firstLackingTiles _ _ _) as [[k f]|]; [|reflexivity].
  destruct (allocGainmapInputTiles _ _ _ _) as [[avail gridTs] f']. reflexivity.
Qed.

Lemma compile_settings : forall s,
    mSettingsByFrameNumber (compilePendingInputLocked env s) =
    mSettingsByFrameNumber (promoteSettings env (mSettingsByFrameNumber s) s).
Proof.
  intros s. unfold compilePendingInputLocked.
  rewrite distributeGainmapCodecInputBuffers_settings,
    distributeCodecInputBuffers_settings, applyExifErrorFrameNumbers_settings,
    applyErrorFrameNumbers_settings, drainCaptureResults_settings,
    attributeGainmapCodecOutputs_settings, attributeCodecOutputs_settings,
    drainYuvBuffers_settings, drainAppSegments_settings.
  reflexivity.
Qed.
End Fields.

(** ** Errors and settings through the reconciliation pass *)

Lemma find_updFrame : forall s k fn g,
    map_find k (mPendingInputFrames (updFrame fn g s)) =
    if Z.eq_dec k fn then Some (g (frameAt fn s)) else map_find k (mPendingInputFrames s).
Proof.
  intros s k fn g. unfold updFrame, map_upd. cbn.
  destruct (Z.eq_dec k fn) as [->|Hne].
  - now rewrite map_find_put_eq.
  - now rewrite map_find_put_ne.
Qed.

Lemma frameStep_error : forall p s s' k,
    frameStep p s s' -> error (frameAt k s) = true -> error (frameAt k s') = true.
Proof.
  intros p s s' k H He.
  pose proof (evolves_at (@fu_refl p) (@fu_trans p) H k) as U.
  exact (proj1 (frameUpdate_facts U) He).
Qed.

Lemma frameStep_mem : forall p s s' k,
    frameStep p s s' -> map_mem k (mPendingInputFrames s) = true ->
    map_mem k (mPendingInputFrames s') = true.
Proof.
  intros p s s' k H Hm. unfold map_mem in *.
  destruct (map_find k (mPendingInputFrames s)) as [f|] eqn:E; [|discriminate].
  destruct (evolves_forward (@fu_refl p) (@fu_trans p) H _ E) as (f' & E' & _).
  now rewrite E'.
Qed.

Lemma applyErrorFrameNumbers_marks : forall pending s k,
    (In k pending /\ map_mem k (mPendingInputFrames s) = true) \/
    error (frameAt k s) = true ->
    error (frameAt k (applyErrorFrameNumbers pending s)) = true.
Proof.
  induction pending as [|fn rest IH]; intros s k H; cbn [applyErrorFrameNumbers].
  - destruct H as [[[] _] | H]; exact H.
  - apply IH.
    set (s1 := if map_mem fn (mPendingInputFrames s) then _ else s).
    change (frameAt k (set_mErrorFrameNumbers rest s1)) with (frameAt k s1).
    change (mPendingInputFrames (set_mErrorFrameNumbers rest s1))
      with (mPendingInputFrames s1).
    assert (Hfind : forall k', map_mem k' (mPendingInputFrames s) = true ->
                               map_mem k' (mPendingInputFrames s1) = true).
    { intros k' Hm. unfold s1. destruct (map_mem fn (mPendingInputFrames s)); [|exact Hm].
      unfold map_mem. rewrite find_updFrame. destruct (Z.eq_dec k' fn); [reflexivity|].
      exact Hm. }
    assert (Herr : error (frameAt k s) = true -> error (frameAt k s1) = true).
    { intros He. unfold s1. destruct (map_mem fn (mPendingInputFrames s)); [|exact He].
      unfold frameAt, map_at. rewrite find_updFrame.
      destruct (Z.eq_dec k fn); [reflexivity | exact He]. }
    destruct H as [[[<- | Hin] Hm] | He].
    + right. unfold s1. rewrite Hm. unfold frameAt, map_at. rewrite find_updFrame.
      destruct (Z.eq_dec fn fn); [reflexivity | contradiction].
    + left. split; [exact Hin | now apply Hfind].
    + right. now apply Herr.
Qed.

Section Promotion.
Variable env : Env.

Lemma updateCodecQualityLocked_settings : forall q s,
    mSettingsByFrameNumber (updateCodecQualityLocked env q s) = mSettingsByFrameNumber s.
Proof. intros q s. unfold updateCodecQualityLocked. loop_field I. Qed.

Lemma updateCodecQualityLocked_frames : forall q s,
    mPendingInputFrames (updateCodecQualityLocked env q s) = mPendingInputFrames s.
Proof. intros q s. unfold updateCodecQualityLocked. loop_field I. Qed.

(** One round of the loop over the settings whose shutter was notified. *)
Lemma promote_round : forall fn st s (X : HeicCompositeStream),
    X = set_mSettingsByFrameNumber (map_erase fn (mSettingsByFrameNumber s))
          (updFrame fn (fun f =>
             set_requestId (hs_requestId st) (set_timestamp (hs_timestamp st)
               (set_quality (hs_quality st) (set_orientation (hs_orientation st) f)))) s) ->
    let X' := match mPendingInputFrames X with
              | [(_, first)] =>
                  updateCodecQualityLocked env (quality first)
                    (if mStatusTracker X then emit EvMarkComponentActive X else X)
              | _ => X
              end in
    mPendingInputFrames X' = mPendingInputFrames X /\
    mSettingsByFrameNumber X' = mSettingsByFrameNumber X.
Proof.
  intros fn st s X _ X'. unfold X'.
  destruct (mPendingInputFrames X) as [|[k0 f0] [|? ?]] eqn:E; cbv beta iota;
    [split; [exact E | reflexivity] | | split; [exact E | reflexivity]].
  split.
  - rewrite updateCodecQualityLocked_frames.
    destruct (mStatusTracker X); [cbn; exact E | exact E].
  - rewrite updateCodecQualityLocked_settings. now destruct (mStatusTracker X).
Qed.

Lemma promoteSettings_other : forall l s k,
    (forall st, ~ In (k, st) l) ->
    map_find k (mPendingInputFrames (promoteSettings env l s)) =
    map_find k (mPendingInputFrames s).
Proof.
  induction l as [|[fn st] l IH]; intros s k Hk; cbn [promoteSettings]; [reflexivity|].
  assert (Hl : forall st', ~ In (k, st') l)
    by (intros st' Hin; apply (Hk st'); now right).
  destruct (shutterNotified st); [|now apply IH].
  rewrite IH by exact Hl.
  set (X := set_mSettingsByFrameNumber _ _).
  destruct (@promote_round fn st s X eq_refl) as [Hf _]. rewrite Hf.
  unfold X. change (mPendingInputFrames (set_mSettingsByFrameNumber ?a ?b))
    with (mPendingInputFrames b).
  rewrite find_updFrame. destruct (Z.eq_dec k fn) as [->|]; [|reflexivity].
  exfalso. apply (Hk st). now left.
Qed.

Lemma promoteSettings_sets : forall l s k st,
    ascending l -> In (k, st) l -> shutterNotified st = true ->
    exists f,
      map_find k (mPendingInputFrames (promoteSettings env l s)) = Some f /\
      orientation f = hs_orientation st /\ quality f = hs_quality st /\
      timestamp f = hs_timestamp st /\ requestId f = hs_requestId st.
Proof.
  induction l as [|[fn st0] l IH]; intros s k st Hasc Hin Hn; [contradiction|].
  destruct Hasc as [Hlt Hasc]. cbn [promoteSettings].
  destruct Hin as [E | Hin].
  - injection E as -> ->. rewrite Hn.
    rewrite promoteSettings_other
      by (intros st' Hin; specialize (Hlt _ _ Hin); lia).
    set (X := set_mSettingsByFrameNumber _ _).
    destruct (@promote_round k st s X eq_refl) as [Hf _]. rewrite Hf.
    unfold X. change (mPendingInputFrames (set_mSettingsByFrameNumber ?a ?b))
      with (mPendingInputFrames b).
    rewrite find_updFrame. destruct (Z.eq_dec k k); [|contradiction].
    eexists. split; [reflexivity|]. repeat split.
  - destruct (shutterNotified st0); now apply IH.
Qed.

Lemma promoteSettings_erases : forall l s k,
    ascending (mSettingsByFrameNumber s) ->
    map_find k (mSettingsByFrameNumber s) = None \/
    (exists st, In (k, st) l /\ shutterNotified st = true) ->
    map_find k (mSettingsByFrameNumber (promoteSettings env l s)) = None.
Proof.
  induction l as [|[fn st0] l IH]; intros s k Hasc H; cbn [promoteSettings].
  - destruct H as [H | (st & [] & _)]. exact H.
  - destruct (shutterNotified st0) eqn:Hn0.
    + set (X := set_mSettingsByFrameNumber _ _).
      destruct (@promote_round fn st0 s X eq_refl) as [_ Hs].
      apply IH.
      * rewrite Hs. unfold X. cbn. now apply ascending_erase.
      * rewrite Hs. unfold X. cbn.
        destruct (Z.eq_dec k fn) as [->|Hne];
          [left; now apply map_find_erase_eq|].
        rewrite map_find_erase_ne by exact Hne.
        destruct H as [H | (st & [E | Hin] & Hn)]; [now left | | right; eauto].
        injection E as -> _. contradiction.
    + apply IH; [exact Hasc|].
      destruct H as [H | (st & [E | Hin] & Hn)]; [now left | | right; eauto].
      injection E as _ <-. congruence.
Qed.
End Promotion.

(** ** Errors reported for a frame *)

(** X21: an error sticks to a pending frame.  A pending frame that is in error, or
    whose number was recorded by a buffer error of the main image stream or by a
    request error, is in error after the reconciliation pass, and the selection does
    not pick it: it is never processed again, only released. *)
Theorem X21_flagged_frames_are_marked_and_skipped : forall env s k,
    ascending (mPendingInputFrames s) ->
    map_mem k (mPendingInputFrames s) = true ->
    error (frameAt k s) = true \/ In k (mErrorFrameNumbers s) ->
    error (frameAt k (compilePendingInputLocked env s)) = true /\
    fst (getNextReadyInputLocked (compilePendingInputLocked env s)) <> Some k.
Proof.
  intros env s k Hasc Hmem H.
  assert (Herr : error (frameAt k (compilePendingInputLocked env s)) = true).
  { unfold compilePendingInputLocked.
    set (s1 := promoteSettings env _ s).
    assert (C1 : frameStep true s s1) by apply promoteSettings_fs.
    assert (E1 : mErrorFrameNumbers s1 = mErrorFrameNumbers s)
      by apply promoteSettings_errs.
    set (s2 := drainAppSegments _ _ s1).
    assert (C2 : frameStep true s s2)
      by (eapply frameStep_trans; [exact C1|];
          eapply frameStep_weaken; apply drainAppSegments_fs).
    assert (E2 : mErrorFrameNumbers s2 = mErrorFrameNumbers s)
      by (unfold s2; now rewrite drainAppSegments_errs).
    set (s3 := drainYuvBuffers _ _ s2).
    assert (C3 : frameStep true s s3)
      by (eapply frameStep_trans; [exact C2|];
          eapply frameStep_weaken; apply drainYuvBuffers_fs).
    assert (E3 : mErrorFrameNumbers s3 = mErrorFrameNumbers s)
      by (unfold s3; now rewrite drainYuvBuffers_errs).
    set (s4 := attributeCodecOutputs _ s3).
    assert (C4 : frameStep true s s4)
      by (eapply frameStep_trans; [exact C3|];
          eapply frameStep_weaken; apply attributeCodecOutputs_fs).
    assert (E4 : mErrorFrameNumbers s4 = mErrorFrameNumbers s)
      by (unfold s4; now rewrite attributeCodecOutputs_errs).
    set (s5 := attributeGainmapCodecOutputs _ s4).
    assert (C5 : frameStep true s s5)
      by (eapply frameStep_trans; [exact C4|];
          eapply frameStep_weaken; apply attributeGainmapCodecOutputs_fs).
    assert (E5 : mErrorFrameNumbers s5 = mErrorFrameNumbers s)
      by (unfold s5; now rewrite attributeGainmapCodecOutputs_errs).
    set (s6 := drainCaptureResults _ s5).
    assert (C6 : frameStep true s s6)
      by (eapply frameStep_trans; [exact C5|];
          eapply frameStep_weaken; apply drainCaptureResults_fs).
    assert (E6 : mErrorFrameNumbers s6 = mErrorFrameNumbers s)
      by (unfold s6; now rewrite drainCaptureResults_errs).
    clearbody s6. clear s1 s2 s3 s4 s5 C1 C2 C3 C4 C5 E1 E2 E3 E4 E5.
    set (s7 := applyErrorFrameNumbers _ s6).
    assert (H7 : error (frameAt k s7) = true).
    { unfold s7. apply applyErrorFrameNumbers_marks. rewrite E6.
      destruct H as [He | Hin].
      - right. exact (frameStep_error k C6 He).
      - left. split; [exact Hin | exact (frameStep_mem k C6 Hmem)]. }
    assert (C7 : frameStep true s s7)
      by (eapply frameStep_trans; [exact C6|];
          eapply frameStep_weaken; apply applyErrorFrameNumbers_fs).
    set (s8 := applyExifErrorFrameNumbers _ s7).
    assert (C78 : frameStep false s7 s8) by apply applyExifErrorFrameNumbers_fs.
    assert (A8 : ascending (mPendingInputFrames s8)).
    { apply (frameStep_ascending C78). exact (frameStep_ascending C7 Hasc). }
    set (s9 := distributeCodecInputBuffers s8).
    assert (C89 : frameStep false s8 s9) by now apply distributeCodecInputBuffers_fs.
    assert (A9 : ascending (mPendingInputFrames s9)) by exact (frameStep_ascending C89 A8).
    apply (frameStep_error k (@distributeGainmapCodecInputBuffers_fs s9 A9)).
    apply (frameStep_error k C89). apply (frameStep_error k C78). exact H7. }
  split; [exact Herr|].
  intros Hsel. unfold getNextReadyInputLocked in Hsel.
  set (s1 := compilePendingInputLocked env s) in *.
  destruct (firstReady s1 (mPendingInputFrames s1)) as [k'|] eqn:Ef; [|discriminate Hsel].
  cbn [fst] in Hsel. injection Hsel as ->.
  assert (A1 : ascending (mPendingInputFrames s1))
    by exact (frameStep_ascending (@compilePendingInputLocked_fs env s Hasc) Hasc).
  pose proof (@firstReady_spec s1 _ A1) as Hs. rewrite Ef in Hs.
  destruct Hs as (f & Hf & Hr & _).
  unfold frameAt, map_at in Herr. rewrite Hf in Herr.
  unfold inputReady in Hr. rewrite Herr in Hr. discriminate Hr.
Qed.

Lemma X21_flagged_frames_witness :
    let s := run android (threeRequested ++ [OnStreamBufferError 2 5]) configured in
    error (frameAt 2 (compilePendingInputLocked happyEnv s)) = true /\
    fst (getNextReadyInputLocked (compilePendingInputLocked happyEnv s)) <> Some 2.
Proof.
  apply (@X21_flagged_frames_are_marked_and_skipped happyEnv
           (run android (threeRequested ++ [OnStreamBufferError 2 5]) configured) 2).
  - solve_ascending.
  - vm_compute. reflexivity.
  - right. vm_compute. auto.
Defined.

(** ** From a request to a pending frame *)

(** X22: a capture request and its shutter make a pending frame.  After
    [onBufferRequestForFrameNumber] for the main image stream and [onShutter] of the
    same frame number, the next reconciliation pass leaves a pending frame under that
    number with the orientation and quality of the request (0 and 99 when the request
    has none) and the timestamp and request id of the shutter, and the settings entry
    is consumed. *)
Theorem X22_request_and_shutter_make_a_frame : forall env s k o q r t,
    mErrorState s = false ->
    ascending (mSettingsByFrameNumber s) -> ascending (mPendingInputFrames s) ->
    let s1 := onShutter k r t
                (onBufferRequestForFrameNumber k (mMainImageStreamId s) o q s) in
    let s2 := compilePendingInputLocked env s1 in
    exists f,
      map_find k (mPendingInputFrames s2) = Some f /\
      orientation f = match o with Some v => v | None => 0 end /\
      quality f = match q with Some v => v | None => kDefaultJpegQuality end /\
      timestamp f = t /\ requestId f = r /\
      map_find k (mSettingsByFrameNumber s2) = None.
Proof.
  intros env s k o q r t He Hsa Hfa s1 s2.
  set (o' := match o with Some v => v | None => 0 end).
  set (q' := match q with Some v => v | None => kDefaultJpegQuality end).
  set (st := mkHeicSettings o' q' t r true).
  assert (S1 : mSettingsByFrameNumber s1 = map_put k st (mSettingsByFrameNumber s) /\
               mPendingInputFrames s1 = mPendingInputFrames s).
  { unfold s1, onBufferRequestForFrameNumber. rewrite He, Z.eqb_refl. cbn [orb negb].
    unfold onShutter.
    change (mErrorState (set_mSettingsByFrameNumber ?a s)) with (mErrorState s).
    rewrite He.
    change (mSettingsByFrameNumber (set_mSettingsByFrameNumber ?a s)) with a.
    rewrite map_find_put_eq. cbn [hs_orientation hs_quality].
    split; [|reflexivity].
    change (mSettingsByFrameNumber (set_mSettingsByFrameNumber ?a ?b)) with a.
    fold o' q' st. apply map_put_put. }
  destruct S1 as [S1 F1].
  assert (A1 : ascending (mSettingsByFrameNumber s1))
    by (rewrite S1; now apply ascending_put).
  assert (I1 : In (k, st) (mSettingsByFrameNumber s1))
    by (apply map_find_In; rewrite S1; apply map_find_put_eq).
  destruct (@promoteSettings_sets env (mSettingsByFrameNumber s1) s1 k st A1 I1 eq_refl)
    as (f & Hf & Ho & Hq & Ht & Hr).
  set (sp := promoteSettings env (mSettingsByFrameNumber s1) s1) in *.
  assert (Ap : ascending (mPendingInputFrames sp)).
  { apply (frameStep_ascending (promoteSettings_fs env (mSettingsByFrameNumber s1) s1)).
    now rewrite F1. }
  pose proof (@afterPromotion_fs env s1 sp Ap eq_refl) as C. fold s2 in C.
  destruct (evolves_forward (@fu_refl false) (@fu_trans false) C _ Hf) as (f' & Hf' & U).
  destruct (frameUpdate_facts U) as (_ & _ & _ & _ & _ & _ & _ & K).
  destruct (K eq_refl) as (Ko & Kq & Kt & Kr).
  exists f'. split; [exact Hf'|].
  split; [now rewrite Ko, Ho|]. split; [now rewrite Kq, Hq|].
  split; [now rewrite Kt, Ht|]. split; [now rewrite Kr, Hr|].
  unfold s2. rewrite compile_settings. apply promoteSettings_erases; [exact A1|].
  right. exists st. split; [exact I1 | reflexivity].
Qed.

Lemma X22_request_and_shutter_witness :
    let s1 := onShutter 7 3 1234
                (onBufferRequestForFrameNumber 7 (mMainImageStreamId configured)
                   (Some 90) None configured) in
    let s2 := compilePendingInputLocked happyEnv s1 in
    exists f,
      map_find 7 (mPendingInputFrames s2) = Some f /\
      orientation f = 90 /\
      quality f = kDefaultJpegQuality /\
      timestamp f = 1234 /\ requestId f = 3 /\
      map_find 7 (mSettingsByFrameNumber s2) = None.
Proof.
  apply (@X22_request_and_shutter_make_a_frame happyEnv configured 7 (Some 90) None 3 1234).
  - reflexivity.
  - vm_compute. exact I.
  - vm_compute. exact I.
Defined.

(** ** Stream information *)

(** X23: the two tests for a HEIC composite stream agree.  A surface whose two queries
    succeed is a HEIC composite stream exactly when the stream information with the
    format and dataspace it answered is one; a surface with a failing query is not; and
    with both kinds disabled no stream is a HEIC composite stream. *)
Theorem X23_composite_stream_tests_agree : forall hal info dis disU r1 r2,
    isHeicCompositeStream hal (OK, osi_format info) (OK, osi_dataSpace info) dis disU =
      isHeicCompositeStreamInfo hal info dis disU /\
    (r1 <> OK -> isHeicCompositeStream hal (r1, osi_format info) (r2, osi_dataSpace info)
                   dis disU = false) /\
    (r2 <> OK -> isHeicCompositeStream hal (r1, osi_format info) (r2, osi_dataSpace info)
                   dis disU = false) /\
    isHeicCompositeStreamInfo hal info true true = false.
Proof.
  intros hal info dis disU r1 r2. unfold isHeicCompositeStream, isHeicCompositeStreamInfo.
  cbn [is_OK negb]. split; [apply andb_comm|]. split; [|split].
  - intros H. destruct r1; try reflexivity. contradiction.
  - intros H. destruct r1; try reflexivity. destruct r2; try reflexivity. contradiction.
  - cbn [negb]. now rewrite !andb_false_r.
Qed.

(** X24: [getCompositeStreamInfo] refuses a null output with BAD_VALUE and otherwise
    returns OK with at most two internal streams.  There is none exactly when the
    encoder does not support the size.  Otherwise the first is the image stream, of the
    requested width and height; a second one follows exactly when the device reports
    HEIC support with a single value equal to TRUE, and it is the APP segment stream: one
    row of BLOB format whose width is the room for 1 to 16 APP segments plus the blob
    header. *)
Theorem X24_composite_stream_info_shape : forall plat hal info support count out0,
    getCompositeStreamInfo plat hal info support count None = (BAD_VALUE, None) /\
    exists out,
      getCompositeStreamInfo plat hal info support count (Some out0) = (OK, Some out) /\
      (out = [] <-> isSizeSupported hal (osi_width info) (osi_height info) = None) /\
      (length out <= 2)%nat /\
      (forall main rest, out = main :: rest ->
         osi_width main = osi_width info /\ osi_height main = osi_height info /\
         (rest <> [] <-> support = [ANDROID_HEIC_INFO_SUPPORTED_TRUE hal]) /\
         forall seg, In seg rest ->
           osi_height seg = 1 /\ osi_format seg = HAL_PIXEL_FORMAT_BLOB hal /\
           osi_dataSpace seg = kAppSegmentDataSpace plat /\
           (osi_width seg - sizeof_CameraBlob plat) mod 65537 = 0 /\
           65537 <= osi_width seg - sizeof_CameraBlob plat <= 16 * 65537).
Proof.
  intros plat hal info support count out0. split; [reflexivity|].
  unfold getCompositeStreamInfo.
  assert (Hc : (calcAppSegmentMaxSize plat count - sizeof_CameraBlob plat) mod 65537 = 0 /\
               65537 <= calcAppSegmentMaxSize plat count - sizeof_CameraBlob plat
                     <= 16 * 65537).
  { unfold calcAppSegmentMaxSize.
    set (n := match count with Some c => _ | None => 1 end).
    assert (Hn : 1 <= n <= 16).
    { unfold n. destruct count as [c|]; [|lia].
      destruct (Z.ltb_spec c 1); [lia|]. destruct (Z.ltb_spec 16 c); lia. }
    replace (n * (2 + 65535) + sizeof_CameraBlob plat - sizeof_CameraBlob plat)
      with (n * 65537) by lia.
    split; [apply Z.mod_mul; lia | lia]. }
  destruct (isSizeSupported hal (osi_width info) (osi_height info)) as [[useHeic useGrid]|].
  - set (main := mkOutputStreamInfo _ _ _ _ _).
    assert (Hone : forall out, out = [main] ->
              support <> [ANDROID_HEIC_INFO_SUPPORTED_TRUE hal] ->
              (out = [] <-> Some (useHeic, useGrid) = None) /\
              (length out <= 2)%nat /\
              (forall main' rest, out = main' :: rest ->
                 osi_width main' = osi_width info /\ osi_height main' = osi_height info /\
                 (rest <> [] <-> support = [ANDROID_HEIC_INFO_SUPPORTED_TRUE hal]) /\
                 forall seg, In seg rest ->
                   osi_height seg = 1 /\ osi_format seg = HAL_PIXEL_FORMAT_BLOB hal /\
                   osi_dataSpace seg = kAppSegmentDataSpace plat /\
                   (osi_width seg - sizeof_CameraBlob plat) mod 65537 = 0 /\
                   65537 <= osi_width seg - sizeof_CameraBlob plat <= 16 * 65537)).
    { intros out -> Hs. split; [split; discriminate|]. split; [cbn; lia|].
      intros main' rest E. injection E as <- <-. split; [reflexivity|].
      split; [reflexivity|]. split; [|intros seg []].
      split; [intros X; now contradiction X | intros X; contradiction]. }
    destruct support as [|v [|? ?]].
    + eexists. split; [reflexivity|]. apply Hone; [reflexivity | discriminate].
    + destruct (Z.eqb_spec v (ANDROID_HEIC_INFO_SUPPORTED_TRUE hal)) as [->|Hv].
      * eexists. split; [reflexivity|]. split; [split; discriminate|].
        split; [cbn; lia|].
        intros main' rest E. injection E as <- <-. split; [reflexivity|].
        split; [reflexivity|]. split; [split; [reflexivity | discriminate]|].
        intros seg [<- | []]. cbn. now split; [|split; [|split]].
      * eexists. split; [reflexivity|]. apply Hone; [reflexivity|].
        intros E. injection E as ->. contradiction.
    + eexists. split; [reflexivity|]. apply Hone; [reflexivity | discriminate].
  - exists []. split; [reflexivity|]. split; [split; reflexivity|].
    split; [cbn; lia|]. intros main rest E. discriminate E.
Qed.

(** ** The pixel copy *)

Lemma forRange_inv : forall (A : Type) (Inv : Z -> A -> Prop) (body : Z -> A -> A) n i acc,
    (forall j a, i <= j < i + Z.of_nat n -> Inv j a -> Inv (j + 1) (body j a)) ->
    Inv i acc -> Inv (i + Z.of_nat n) (Pixels.forRange n i body acc).
Proof.
  intros A Inv body. induction n as [|n IH]; intros i acc Hstep H0.
  - cbn. now rewrite Z.add_0_r.
  - cbn [Pixels.forRange].
    replace (i + Z.of_nat (S n)) with (i + 1 + Z.of_nat n) by lia.
    apply IH.
    + intros j a Hj. apply Hstep. lia.
    + apply Hstep; [lia | exact H0].
Qed.

Lemma forLoop_inv : forall (A : Type) (Inv : Z -> A -> Prop) (body : Z -> A -> A) lo hi acc,
    lo <= hi ->
    (forall j a, lo <= j < hi -> Inv j a -> Inv (j + 1) (body j a)) ->
    Inv lo acc -> Inv hi (Pixels.forLoop lo hi body acc).
Proof.
  intros A Inv body lo hi acc Hle Hstep H0. unfold Pixels.forLoop.
  replace hi with (lo + Z.of_nat (Z.to_nat (hi - lo))) at 1 by lia.
  apply forRange_inv; [|exact H0].
  intros j a Hj. apply Hstep. lia.
Qed.

(** A loop whose body leaves the bytes satisfying [P] alone leaves them alone. *)
Lemma forLoop_frame : forall (P : Z -> Prop) (body : Z -> (Z -> Z) -> (Z -> Z)) lo hi acc,
    (forall j a x, lo <= j < hi -> P x -> body j a x = a x) ->
    forall x, P x -> Pixels.forLoop lo hi body acc x = acc x.
Proof.
  intros P body lo hi acc Hb.
  destruct (Z_le_gt_dec lo hi) as [Hle | Hgt].
  - apply (@forLoop_inv _ (fun _ a => forall x, P x -> a x = acc x) body lo hi acc Hle).
    + intros j a Hj Ha x Hx. rewrite Hb by assumption. now apply Ha.
    + reflexivity.
  - intros x _. unfold Pixels.forLoop.
    replace (Z.to_nat (hi - lo)) with 0%nat by lia. reflexivity.
Qed.

Lemma CopyRow_C_outside : forall m src dst to count x,
    x < to \/ to + count <= x -> Pixels.CopyRow_C m src dst to count x = dst x.
Proof.
  intros m src dst to count x H. unfold Pixels.CopyRow_C.
  destruct (Z.leb_spec to x); destruct (Z.ltb_spec x (to + count)); cbn; try reflexivity.
  lia.
Qed.

Lemma CopyRow_C_inside : forall m src dst to count x,
    to <= x < to + count -> Pixels.CopyRow_C m src dst to count x = m (src + (x - to)).
Proof.
  intros m src dst to count x H. unfold Pixels.CopyRow_C.
  destruct (Z.leb_spec to x); destruct (Z.ltb_spec x (to + count)); cbn; try reflexivity;
    lia.
Qed.

Lemma u64_nonneg : forall x, 0 <= u64 x.
Proof. intros x. unfold u64. apply Z.mod_pos_bound. lia. Qed.

(** The image description that [copyOneYuvTile] accepts. *)
Lemma copy_valid : forall sz cb yuv top left width height,
    Pixels.copyOneYuvTile sz cb yuv top left width height =
      (BAD_VALUE, Pixels.bytes cb) \/
    (fst (Pixels.copyOneYuvTile sz cb yuv top left width height) = OK /\
     exists info, Pixels.accepted sz cb info).
Proof.
  intros sz cb yuv top left width height. unfold Pixels.copyOneYuvTile.
  destruct (Pixels.image_data cb) as [[n info]|] eqn:Ed; [|now left].
  destruct (Z.eqb_spec n sz) as [->|]; [|now left]. cbn [negb].
  destruct (Pixels.mType_is_YUV info) eqn:E1; [|now left]. cbn [negb orb].
  destruct (Z.eqb_spec (Pixels.mBitDepth info) 8) as [E2|]; [|now left]. cbn [negb orb].
  destruct (Z.eqb_spec (Pixels.mBitDepthAllocated info) 8) as [E3|]; [|now left].
  cbn [negb orb].
  destruct (Z.eqb_spec (Pixels.mNumPlanes info) 3) as [E4|]; [|now left]. cbn [negb].
  right. split.
  - repeat match goal with |- context [if ?c then _ else _] => destruct c end; reflexivity.
  - exists info. unfold Pixels.accepted. repeat split; assumption || reflexivity.
Qed.

(** X25: [copyOneYuvTile] returns OK or BAD_VALUE.  It returns OK exactly when the codec
    buffer carries an "image-data" entry of the size of [MediaImage2] that describes a
    YUV image of three planes with 8 bits per sample, allocated and used; when it
    returns BAD_VALUE it has not written a byte of the codec buffer. *)
Theorem X25_tile_copy_checks_image_info : forall sz cb yuv top left width height,
    let r := Pixels.copyOneYuvTile sz cb yuv top left width height in
    (fst r = OK \/ fst r = BAD_VALUE) /\
    (fst r = BAD_VALUE -> snd r = Pixels.bytes cb) /\
    (fst r = OK <-> exists info, Pixels.accepted sz cb info).
Proof.
  intros sz cb yuv top left width height r. subst r.
  destruct (copy_valid sz cb yuv top left width height) as [E | [E Hinfo]].
  - rewrite E. cbn [fst snd]. split; [now right|]. split; [reflexivity|].
    split; [discriminate|].
    intros (info & Hd & H1 & H2 & H3 & H4). exfalso.
    unfold Pixels.copyOneYuvTile in E. rewrite Hd, Z.eqb_refl, H1, H2, H3, H4 in E.
    cbn [negb orb Z.eqb Pos.eqb] in E.
    repeat match type of E with context [if ?c then _ else _] => destruct c end;
      discriminate E.
  - split; [now left|]. split; [rewrite E; discriminate|]. split; [now intros _ | now intros _].
Qed.

Lemma store_other : forall dst i v x, x <> i -> Pixels.store dst i v x = dst x.
Proof.
  intros dst i v x H. unfold Pixels.store. destruct (Z.eqb_spec x i); [contradiction|reflexivity].
Qed.

Lemma store_same : forall dst i v, Pixels.store dst i v i = v.
Proof. intros dst i v. unfold Pixels.store. now rewrite Z.eqb_refl. Qed.

Lemma half_span : forall a n, 0 <= a -> 0 <= n -> (a + n) / 2 - a / 2 <= n / 2 + 1.
Proof.
  intros a n Ha Hn.
  pose proof (Z.div_mod a 2 ltac:(lia)). pose proof (Z.mod_pos_bound a 2 ltac:(lia)).
  pose proof (Z.div_mod n 2 ltac:(lia)). pose proof (Z.mod_pos_bound n 2 ltac:(lia)).
  pose proof (Z.div_mod (a + n) 2 ltac:(lia)).
  pose proof (Z.mod_pos_bound (a + n) 2 ltac:(lia)). lia.
Qed.

Lemma u64_le : forall x, 0 <= x -> u64 x <= x.
Proof. intros x H. unfold u64. apply Z.mod_le; lia. Qed.

(** The luma rows of a tile, as the first loop of [copyOneYuvTile] leaves them. *)
Lemma luma_rows : forall (yuv : Pixels.LockedBuffer) (Y : Pixels.PlaneInfo) top left width height acc,
    0 <= top -> 0 <= height -> top + height < 2 ^ 32 ->
    0 < width < 2 ^ 31 ->
    0 <= Pixels.stride yuv < 2 ^ 32 ->
    width <= Pixels.mRowInc Y < 2 ^ 31 ->
    forall r c, 0 <= r < height -> 0 <= c < width ->
      Pixels.forLoop top (u64 (top + height))
        (fun row dst =>
           Pixels.CopyRow_C (Pixels.mem yuv)
             (Pixels.data yuv + u64 (row * Pixels.stride yuv) + left)
             dst (Pixels.mOffset Y + u64 (Pixels.mRowInc Y * (row - top))) (s32 width))
        acc (Pixels.mOffset Y + Pixels.mRowInc Y * r + c) =
      Pixels.mem yuv (Pixels.data yuv + (top + r) * Pixels.stride yuv + left + c).
Proof.
  intros yuv Y top left width height acc Ht Hh Hth Hw Hs HR.
  assert (Eu : u64 (top + height) = top + height) by (apply u64_small; lia).
  rewrite Eu.
  assert (Ew : s32 width = width) by (apply s32_small; lia).
  rewrite Ew.
  set (body := fun (row : Z) (dst : Z -> Z) => _).
  assert (Hinv : forall r c, 0 <= r < (top + height) - top -> 0 <= c < width ->
            Pixels.forLoop top (top + height) body acc
              (Pixels.mOffset Y + Pixels.mRowInc Y * r + c) =
            Pixels.mem yuv (Pixels.data yuv + (top + r) * Pixels.stride yuv + left + c)).
  { apply (@forLoop_inv _ (fun j a => forall r c, 0 <= r < j - top -> 0 <= c < width ->
              a (Pixels.mOffset Y + Pixels.mRowInc Y * r + c) =
              Pixels.mem yuv (Pixels.data yuv + (top + r) * Pixels.stride yuv + left + c))
             body top (top + height) acc); [lia | | intros; lia].
    intros j a Hj IH r c Hr Hc. unfold body.
    assert (E1 : u64 (Pixels.mRowInc Y * (j - top)) = Pixels.mRowInc Y * (j - top)).
    { apply u64_small. split; [nia|].
      assert (Pixels.mRowInc Y * (j - top) <= 2 ^ 31 * 2 ^ 32) by nia. lia. }
    assert (E2 : u64 (j * Pixels.stride yuv) = j * Pixels.stride yuv).
    { apply u64_small. split; [nia|].
      assert (j * Pixels.stride yuv <= 2 ^ 32 * 2 ^ 32) by nia.
      assert (j * Pixels.stride yuv < 2 ^ 32 * 2 ^ 32) by nia. lia. }
    rewrite E1, E2.
    destruct (Z.eq_dec r (j - top)) as [-> | Hne].
    - rewrite CopyRow_C_inside by lia. f_equal.
      replace (top + (j - top)) with j by lia. lia.
    - rewrite CopyRow_C_outside by (left; nia). apply IH; lia. }
  intros r c Hr Hc. apply Hinv; lia.
Qed.

Lemma chroma_row_range : forall top height row,
    0 <= top -> 0 <= height ->
    top / 2 <= row < u64 (top + height) / 2 -> 0 <= row - top / 2 <= height / 2.
Proof.
  intros top height row Ht Hh Hrow.
  pose proof (@u64_le (top + height) ltac:(lia)).
  pose proof (Z.div_le_mono (u64 (top + height)) (top + height) 2 ltac:(lia) ltac:(lia)).
  pose proof (half_span Ht Hh). lia.
Qed.

(** X26: when [copyOneYuvTile] accepts the image description and copies rows with
    [CopyRow_C], the luma sample of row [r] and column [c] of the tile ends at offset
    [mOffset + mRowInc * r + c] of the luma plane of the codec buffer, for a tile
    that lies within 2^32 rows, a row increment that holds a row of the tile and chroma
    planes that lie behind the luma rows of the tile. *)
Theorem X26_tile_copy_places_luma : forall sz cb yuv info top left width height,
    Pixels.accepted sz cb info ->
    0 <= top -> 0 <= left -> 0 <= height -> top + height < 2 ^ 32 ->
    0 < width < 2 ^ 31 ->
    0 <= Pixels.stride yuv < 2 ^ 32 ->
    0 <= Pixels.mOffset (Pixels.mPlaneY info) ->
    width <= Pixels.mRowInc (Pixels.mPlaneY info) < 2 ^ 31 ->
    Pixels.chromaBehindLuma info width height ->
    forall r c, 0 <= r < height -> 0 <= c < width ->
      snd (Pixels.copyOneYuvTile sz cb yuv top left width height)
        (Pixels.mOffset (Pixels.mPlaneY info) + Pixels.mRowInc (Pixels.mPlaneY info) * r + c) =
      Pixels.mem yuv (Pixels.data yuv + (top + r) * Pixels.stride yuv + left + c).
Proof.
  intros sz cb yuv info top left width height (Hd & H1 & H2 & H3 & H4)
    Ht Hl Hh Hth Hw Hs HoY HR Hbehind r c Hr Hc.
  set (x := Pixels.mOffset (Pixels.mPlaneY info) + Pixels.mRowInc (Pixels.mPlaneY info) * r + c).
  set (L := Pixels.planeIndex (Pixels.mPlaneY info) height 0).
  assert (EL : L = Pixels.mOffset (Pixels.mPlaneY info) +
                   Pixels.mRowInc (Pixels.mPlaneY info) * height).
  { unfold L, Pixels.planeIndex. lia. }
  assert (Hx : x < L).
  { unfold x. rewrite EL. nia. }
  assert (HL : 0 <= L).
  { rewrite EL. nia. }
  assert (HU0 : L <= Pixels.mOffset (Pixels.mPlaneU info) /\
                L <= Pixels.mOffset (Pixels.mPlaneV info)).
  { destruct (Hbehind 0 0) as [A B].
    - split; [lia | apply Z.div_pos; lia].
    - split; [lia | apply Z.div_pos; lia].
    - unfold Pixels.planeIndex in A, B. lia. }
  unfold Pixels.copyOneYuvTile. rewrite Hd, Z.eqb_refl, H1, H2, H3, H4.
  cbn [negb orb Z.eqb Pos.eqb]. cbv zeta.
  match goal with
  | |- snd (if ?c1 then _ else if ?c2 then _ else _) _ = _ =>
      destruct c1; [| destruct c2]; cbn [snd]
  end.
  - (* semiplanar *)
    rewrite (@forLoop_frame (fun y => y < L)); [now apply luma_rows | | exact Hx].
    intros j a y Hj Hy. apply CopyRow_C_outside. left.
    match goal with |- _ < _ + u64 ?e => pose proof (u64_nonneg e) end.
    destruct (_ <? _); lia.
  - (* planar *)
    rewrite (@forLoop_frame (fun y => y < L)); [ | | exact Hx].
    + rewrite (@forLoop_frame (fun y => y < L)); [now apply luma_rows | | exact Hx].
      intros j a y Hj Hy. apply CopyRow_C_outside. left.
      match goal with |- _ < _ + u64 ?e => pose proof (u64_nonneg e) end. lia.
    + intros j a y Hj Hy. apply CopyRow_C_outside. left.
      match goal with |- _ < _ + u64 ?e => pose proof (u64_nonneg e) end. lia.
  - (* conversion *)
    rewrite (@forLoop_frame (fun y => y < L)); [now apply luma_rows | | exact Hx].
    intros j a y Hj Hy.
    apply (@forLoop_frame (fun y => y < L)); [|exact Hy].
    intros k b z Hk Hz.
    pose proof (@chroma_row_range top height j Ht Hh Hj) as Hrow.
    pose proof (@chroma_row_range left width k Hl ltac:(lia) Hk) as Hcol.
    destruct (Hbehind (j - top / 2) (k - left / 2) Hrow Hcol) as [A B].
    unfold Pixels.planeIndex in A, B.
    rewrite !store_other; [reflexivity | |].
    + rewrite s32_small by lia. lia.
    + rewrite s32_small by lia. lia.
Qed.

Lemma X26_tile_copy_luma_witness :
    snd (Pixels.copyOneYuvTile 104 (Pixels.emptyInput (Pixels.planar 8 4)) Pixels.camera 0 0 8 4)
        (0 + 8 * 2 + 5) =
    (1000 + (0 + 2) * 8 + 0 + 5) mod 256.
Proof.
  apply (@X26_tile_copy_places_luma 104 (Pixels.emptyInput (Pixels.planar 8 4)) Pixels.camera
           (Pixels.planar 8 4) 0 0 8 4); try (cbn; lia).
  - repeat split.
  - intros r c Hr Hc. change (8 / 2) with 4 in Hc. change (4 / 2) with 2 in Hr.
    unfold Pixels.planeIndex.
    change (Pixels.mOffset (Pixels.mPlaneY (Pixels.planar 8 4))) with 0.
    change (Pixels.mRowInc (Pixels.mPlaneY (Pixels.planar 8 4))) with 8.
    change (Pixels.mColInc (Pixels.mPlaneY (Pixels.planar 8 4))) with 1.
    change (Pixels.mOffset (Pixels.mPlaneU (Pixels.planar 8 4))) with 32.
    change (Pixels.mRowInc (Pixels.mPlaneU (Pixels.planar 8 4))) with 4.
    change (Pixels.mColInc (Pixels.mPlaneU (Pixels.planar 8 4))) with 1.
    change (Pixels.mOffset (Pixels.mPlaneV (Pixels.planar 8 4))) with 40.
    change (Pixels.mRowInc (Pixels.mPlaneV (Pixels.planar 8 4))) with 4.
    change (Pixels.mColInc (Pixels.mPlaneV (Pixels.planar 8 4))) with 1.
    lia.
Defined.

(** Two stores per cell of a grid, at offsets that no two cells share: every cell holds
    what was stored for it. *)
Lemma grid_store : forall (iu iv vu vv : Z -> Z -> Z) rl rh cl ch acc,
    (forall r c r' c', rl <= r < rh -> cl <= c < ch -> rl <= r' < rh -> cl <= c' < ch ->
       iu r c <> iv r' c' /\
       (iu r c = iu r' c' -> r = r' /\ c = c') /\
       (iv r c = iv r' c' -> r = r' /\ c = c')) ->
    forall r c, rl <= r < rh -> cl <= c < ch ->
      let final :=
        Pixels.forLoop rl rh
          (fun row dst =>
             Pixels.forLoop cl ch
               (fun col dst =>
                  Pixels.store (Pixels.store dst (iu row col) (vu row col))
                    (iv row col) (vv row col))
               dst)
          acc in
      final (iu r c) = vu r c /\ final (iv r c) = vv r c.
Proof.
  intros iu iv vu vv rl rh cl ch acc Hapart r c Hr Hc final. subst final.
  set (cell := fun (row col : Z) (dst : Z -> Z) =>
                 Pixels.store (Pixels.store dst (iu row col) (vu row col))
                   (iv row col) (vv row col)).
  set (body := fun (row : Z) (dst : Z -> Z) => Pixels.forLoop cl ch (cell row) dst).
  change (Pixels.forLoop rl rh body acc (iu r c) = vu r c /\
          Pixels.forLoop rl rh body acc (iv r c) = vv r c).
  assert (Hinv : forall r c, rl <= r < rh -> cl <= c < ch ->
            Pixels.forLoop rl rh body acc (iu r c) = vu r c /\
            Pixels.forLoop rl rh body acc (iv r c) = vv r c).
  { apply (@forLoop_inv _ (fun j a => forall r c, rl <= r < j -> cl <= c < ch ->
              a (iu r c) = vu r c /\ a (iv r c) = vv r c) body rl rh acc);
      [lia | | intros; lia].
    intros j a Hj IH. unfold body.
    assert (Hin : (forall r c, rl <= r < j -> cl <= c < ch ->
                     Pixels.forLoop cl ch (cell j) a (iu r c) = vu r c /\
                     Pixels.forLoop cl ch (cell j) a (iv r c) = vv r c) /\
                  (forall c, cl <= c < ch ->
                     Pixels.forLoop cl ch (cell j) a (iu j c) = vu j c /\
                     Pixels.forLoop cl ch (cell j) a (iv j c) = vv j c)).
    { apply (@forLoop_inv _ (fun k b =>
                (forall r c, rl <= r < j -> cl <= c < ch ->
                   b (iu r c) = vu r c /\ b (iv r c) = vv r c) /\
                (forall c, cl <= c < k ->
                   b (iu j c) = vu j c /\ b (iv j c) = vv j c)) (cell j) cl ch a);
        [lia | | split; [exact IH | intros; lia]].
      intros k b Hk [Hold Hrow]. unfold cell. split.
      - intros r0 c0 Hr0 Hc0.
        destruct (Hapart r0 c0 j k) as (A1 & A2 & A3); try lia.
        destruct (Hapart j k r0 c0) as (B1 & _ & _); try lia.
        destruct (Hold r0 c0 Hr0 Hc0) as [O1 O2].
        split.
        + rewrite store_other by exact A1.
          rewrite store_other by (intros E; apply A2 in E; lia). exact O1.
        + rewrite store_other by (intros E; apply A3 in E; lia).
          rewrite store_other by (intros E; symmetry in E; now apply B1). exact O2.
      - intros c0 Hc0.
        destruct (Z.eq_dec c0 k) as [-> | Hne].
        + destruct (Hapart j k j k) as (A1 & _ & _); try lia.
          split; [|apply store_same].
          rewrite store_other by exact A1. apply store_same.
        + destruct (Hapart j c0 j k) as (A1 & A2 & A3); try lia.
          destruct (Hapart j k j c0) as (B1 & _ & _); try lia.
          destruct (Hrow c0 ltac:(lia)) as [O1 O2].
          split.
          * rewrite store_other by exact A1.
            rewrite store_other by (intros E; apply A2 in E; lia). exact O1.
          * rewrite store_other by (intros E; apply A3 in E; lia).
            rewrite store_other by (intros E; symmetry in E; now apply B1). exact O2. }
    destruct Hin as [Hold Hrow].
    intros r0 c0 Hr0 Hc0.
    destruct (Z.eq_dec r0 j) as [-> | Hne]; [now apply Hrow | apply Hold; lia]. }
  now apply Hinv.
Qed.

(** X27: with a camera buffer of interleaved chroma (chroma step 2) and a codec image
    whose U samples are one byte apart, [copyOneYuvTile] converts sample by sample: the
    Cb sample of chroma row [r] and column [c] of the tile ends at offset
    [mOffset + mRowInc * r + mColInc * c] of the U plane and the Cr sample at that offset
    of the V plane, when no two of these offsets coincide and all fit an [int32_t]. *)
Theorem X27_tile_copy_converts_chroma : forall sz cb yuv info top left width height,
    Pixels.accepted sz cb info ->
    0 <= top -> 0 <= left -> 0 <= width -> 0 <= height ->
    top + height < 2 ^ 64 -> left + width < 2 ^ 64 ->
    Pixels.chromaStep yuv = 2 ->
    Pixels.mColInc (Pixels.mPlaneU info) = 1 ->
    Pixels.chromaApart info ((top + height) / 2 - top / 2) ((left + width) / 2 - left / 2) ->
    Pixels.chromaFits info yuv top left
      ((top + height) / 2 - top / 2) ((left + width) / 2 - left / 2) ->
    forall r c,
      0 <= r < (top + height) / 2 - top / 2 -> 0 <= c < (left + width) / 2 - left / 2 ->
      snd (Pixels.copyOneYuvTile sz cb yuv top left width height)
          (Pixels.planeIndex (Pixels.mPlaneU info) r c) =
        Pixels.mem yuv (Pixels.dataCb yuv + ((top / 2 + r) * Pixels.chromaStride yuv +
                                             Pixels.chromaStep yuv * (left / 2 + c))) /\
      snd (Pixels.copyOneYuvTile sz cb yuv top left width height)
          (Pixels.planeIndex (Pixels.mPlaneV info) r c) =
        Pixels.mem yuv (Pixels.dataCr yuv + ((top / 2 + r) * Pixels.chromaStride yuv +
                                             Pixels.chromaStep yuv * (left / 2 + c))).
Proof.
  intros sz cb yuv info top left width height (Hd & H1 & H2 & H3 & H4)
    Ht Hl Hw Hh Hth Hlw Hstep HcU Hapart Hfits r c Hr Hc.
  unfold Pixels.copyOneYuvTile. rewrite Hd, Z.eqb_refl, H1, H2, H3, H4.
  cbn [negb orb Z.eqb Pos.eqb]. cbv zeta.
  rewrite HcU, Hstep. cbn [Z.eqb Pos.eqb].
  repeat (rewrite ?Bool.andb_false_r; cbn [andb]).
  cbn [snd].
  rewrite !(@u64_small (top + height)) by lia.
  rewrite !(@u64_small (left + width)) by lia.
  set (rowLo := top / 2) in *. set (colLo := left / 2) in *.
  set (rowHi := (top + height) / 2) in *. set (colHi := (left + width) / 2) in *.
  match goal with
  | |- Pixels.forLoop _ _ _ ?acc _ = _ /\ _ => set (dstY := acc)
  end.
  set (iu := fun row col : Z =>
               s32 (Pixels.mOffset (Pixels.mPlaneU info) +
                    Pixels.mRowInc (Pixels.mPlaneU info) * (row - rowLo) +
                    1 * (col - colLo))).
  set (iv := fun row col : Z =>
               s32 (Pixels.mOffset (Pixels.mPlaneV info) +
                    Pixels.mRowInc (Pixels.mPlaneV info) * (row - rowLo) +
                    Pixels.mColInc (Pixels.mPlaneV info) * (col - colLo))).
  set (vu := fun row col : Z =>
               Pixels.mem yuv (Pixels.dataCb yuv + s32 (row * Pixels.chromaStride yuv + 2 * col))).
  set (vv := fun row col : Z =>
               Pixels.mem yuv (Pixels.dataCr yuv + s32 (row * Pixels.chromaStride yuv + 2 * col))).
  assert (Eu : forall r c, 0 <= r < rowHi - rowLo -> 0 <= c < colHi - colLo ->
             iu (rowLo + r) (colLo + c) = Pixels.planeIndex (Pixels.mPlaneU info) r c).
  { intros r0 c0 Hr0 Hc0. destruct (Hfits r0 c0 Hr0 Hc0) as (F1 & _ & _).
    unfold iu, Pixels.planeIndex. unfold Pixels.planeIndex in F1.
    rewrite HcU in F1 |- *.
    replace (rowLo + r0 - rowLo) with r0 by lia. replace (colLo + c0 - colLo) with c0 by lia.
    apply s32_small. lia. }
  assert (Ev : forall r c, 0 <= r < rowHi - rowLo -> 0 <= c < colHi - colLo ->
             iv (rowLo + r) (colLo + c) = Pixels.planeIndex (Pixels.mPlaneV info) r c).
  { intros r0 c0 Hr0 Hc0. destruct (Hfits r0 c0 Hr0 Hc0) as (_ & F2 & _).
    unfold iv, Pixels.planeIndex. unfold Pixels.planeIndex in F2.
    replace (rowLo + r0 - rowLo) with r0 by lia. replace (colLo + c0 - colLo) with c0 by lia.
    apply s32_small. lia. }
  assert (Es : forall r c, 0 <= r < rowHi - rowLo -> 0 <= c < colHi - colLo ->
             s32 ((rowLo + r) * Pixels.chromaStride yuv + 2 * (colLo + c)) =
             (rowLo + r) * Pixels.chromaStride yuv + 2 * (colLo + c)).
  { intros r0 c0 Hr0 Hc0. destruct (Hfits r0 c0 Hr0 Hc0) as (_ & _ & F3).
    rewrite Hstep in F3. apply s32_small. lia. }
  assert (Hap : forall r c r' c',
             rowLo <= r < rowHi -> colLo <= c < colHi ->
             rowLo <= r' < rowHi -> colLo <= c' < colHi ->
             iu r c <> iv r' c' /\
             (iu r c = iu r' c' -> r = r' /\ c = c') /\
             (iv r c = iv r' c' -> r = r' /\ c = c')).
  { intros r1 c1 r2 c2 Hr1 Hc1 Hr2 Hc2.
    replace r1 with (rowLo + (r1 - rowLo)) by lia.
    replace c1 with (colLo + (c1 - colLo)) by lia.
    replace r2 with (rowLo + (r2 - rowLo)) by lia.
    replace c2 with (colLo + (c2 - colLo)) by lia.
    rewrite !Eu, !Ev by lia.
    assert (Q1 : 0 <= r1 - rowLo < rowHi - rowLo) by lia.
    assert (Q2 : 0 <= c1 - colLo < colHi - colLo) by lia.
    assert (Q3 : 0 <= r2 - rowLo < rowHi - rowLo) by lia.
    assert (Q4 : 0 <= c2 - colLo < colHi - colLo) by lia.
    destruct (Hapart (r1 - rowLo) (c1 - colLo) (r2 - rowLo) (c2 - colLo) Q1 Q2 Q3 Q4)
      as (A1 & A2 & A3).
    split; [exact A1|]. split; intros E; [apply A2 in E | apply A3 in E]; lia. }
  pose proof (@grid_store iu iv vu vv rowLo rowHi colLo colHi dstY Hap
                (rowLo + r) (colLo + c) ltac:(lia) ltac:(lia)) as G.
  cbv zeta in G. rewrite Eu, Ev in G by lia.
  unfold vu, vv in G. rewrite Es in G by lia.
  exact G.
Qed.

Lemma X27_tile_copy_chroma_witness :
    snd (Pixels.copyOneYuvTile 104 (Pixels.emptyInput (Pixels.planar 8 4)) Pixels.camera 0 0 8 4)
        (Pixels.planeIndex (Pixels.mPlaneU (Pixels.planar 8 4)) 1 3) =
      (1032 + ((0 / 2 + 1) * 8 + 2 * (0 / 2 + 3))) mod 256 /\
    snd (Pixels.copyOneYuvTile 104 (Pixels.emptyInput (Pixels.planar 8 4)) Pixels.camera 0 0 8 4)
        (Pixels.planeIndex (Pixels.mPlaneV (Pixels.planar 8 4)) 1 3) =
      (1033 + ((0 / 2 + 1) * 8 + 2 * (0 / 2 + 3))) mod 256.
Proof.
  apply (@X27_tile_copy_converts_chroma 104 (Pixels.emptyInput (Pixels.planar 8 4))
           Pixels.camera (Pixels.planar 8 4) 0 0 8 4); try (cbn; lia); try reflexivity.
  - repeat split.
  - intros r c r' c'. change ((0 + 4) / 2 - 0 / 2) with 2. change ((0 + 8) / 2 - 0 / 2) with 4.
    intros Hr Hc Hr' Hc'. unfold Pixels.planeIndex.
    change (Pixels.mOffset (Pixels.mPlaneU (Pixels.planar 8 4))) with 32.
    change (Pixels.mRowInc (Pixels.mPlaneU (Pixels.planar 8 4))) with 4.
    change (Pixels.mColInc (Pixels.mPlaneU (Pixels.planar 8 4))) with 1.
    change (Pixels.mOffset (Pixels.mPlaneV (Pixels.planar 8 4))) with 40.
    change (Pixels.mRowInc (Pixels.mPlaneV (Pixels.planar 8 4))) with 4.
    change (Pixels.mColInc (Pixels.mPlaneV (Pixels.planar 8 4))) with 1.
    lia.
  - intros r c. change ((0 + 4) / 2 - 0 / 2) with 2. change ((0 + 8) / 2 - 0 / 2) with 4.
    intros Hr Hc. unfold Pixels.planeIndex.
    change (Pixels.mOffset (Pixels.mPlaneU (Pixels.planar 8 4))) with 32.
    change (Pixels.mRowInc (Pixels.mPlaneU (Pixels.planar 8 4))) with 4.
    change (Pixels.mColInc (Pixels.mPlaneU (Pixels.planar 8 4))) with 1.
    change (Pixels.mOffset (Pixels.mPlaneV (Pixels.planar 8 4))) with 40.
    change (Pixels.mRowInc (Pixels.mPlaneV (Pixels.planar 8 4))) with 4.
    change (Pixels.mColInc (Pixels.mPlaneV (Pixels.planar 8 4))) with 1.
    change (Pixels.chromaStride Pixels.camera) with 8.
    change (Pixels.chromaStep Pixels.camera) with 2.
    change (0 / 2) with 0. lia.
Defined.
